(* ===== verification/_CoqProject ===== *)
-Q . S2P
Prelude.v
Assert.v
Ring.v
Models.v
Logging.v
Sha256.v
Crypto.v
Repository.v
Store.v
Pool.v
Chain.v
Anchor.v
Processor.v
Genesis.v
Verify.v
Cli.v
Trace.v
Analytics.v
Worker.v
Submission.v
SubmissionRefinement.v
Observer.v
Interceptor.v
Api.v
System.v
Process.v
Agent.v
Transparency.v
Sample.v
SampleSubmission.v
SampleProxy.v
SampleCli.v
SampleSystem.v
SampleProcess.v
SampleAgent.v
