(* ===== verification/Prelude.v ===== *)
(** * Logryph: a verification of the associated evidence ledger

    Logryph is a proxy between an AI agent and its tool server.  It forwards
    every HTTP request, and on the side records each JSON-RPC tool call and
    response as an event of a ledger: per run a hash chain, signed with
    Ed25519, stored in SQLite, with Bitcoin block hashes as time anchors.  A
    command line tool, [logyctl], audits, inspects and exports the ledger.  This
    development models the Go code under [src/] as executable definitions and
    proves what the code does and does not guarantee.

    ** The program and the files that model it

    - [Prelude] (this file): Go errors, outcomes (value, error or panic), the
      state-and-outcome monad [M], 64-bit integers, strings, sorting, tactics.
    - [Assert] ([internal/assert/assert.go], [assert_release.go]): runtime
      assertions.  [StrictMode] is a class parameter: theorems hold for both
      values unless they say so.
    - [Ring] ([internal/ring/buffer.go]): the ring buffer and its refinement of
      a bounded queue.
    - [Models] ([internal/models/event.go]): events, [interface{}] values, the
      laws assumed of [encoding/json], [time] and JCS, and instances that
      satisfy them.
    - [Logging] ([internal/logging/logger.go]): the initialisation, the level
      filter and the lines written.
    - [Sha256]: SHA-256 and hexadecimal, executable.
    - [Crypto] ([internal/crypto/engine.go], [signer.go]): event hashes, the
      signer and its key file.  Ed25519 is a parameter; its laws are key and
      signature sizes and that signatures verify.
    - [Repository] ([internal/ledger/interface.go]): the storage interface as a
      class of operations with laws over an abstract log per run.
    - [Store] ([internal/ledger/store/*.go]): the SQLite store, which is proved
      to satisfy those laws; any call to the driver may fail.  Opening a database
      creates its files among those of the command line and of [main].
    - [Pool] ([internal/pool/pool.go]): event and buffer pools.
    - [Chain]: the abstract specification of a run (numbered, linked, hashed,
      signed) and that hashes survive storage.
    - [Anchor] ([internal/ledger/audit/anchor.go]), [Verify]
      ([internal/ledger/audit/verify.go], [errors.go]): anchors and the audit;
      the block explorer may answer every request differently.
    - [Processor] ([internal/ledger/processor.go]), [Genesis]
      ([internal/ledger/genesis.go]), [Worker] ([internal/ledger/worker.go]):
      writing events, creating a run, and the asynchronous worker.
    - [Submission]: the interleavings of [Submit] in both backpressure modes,
      [processEvents] and [Shutdown] with its own drain, as a labelled step
      relation on their atomic operations; [SubmissionRefinement]: the functions
      of [Worker] are executions of it.
    - [Observer] ([internal/observer/engine.go]), [Interceptor]
      ([internal/interceptor/server.go], [internal/mcp/types.go],
      [internal/core/engine.go]): policies and the proxied messages.  Reading a
      body consumes it; the bodies put in its place share their storage with
      pooled buffers.
    - [Api] ([internal/api/handlers.go]): the admin server.
    - [System] ([main.go]): start-up, proxy handler (with what other goroutines do
      during the request as an argument), routes, and the running
      system as a step relation on the engine; [Process] ([main.go]): [main] as
      one goroutine of a process, with the two HTTP servers and their goroutines,
      connections, signals, the goroutines of the worker and [gracefulShutdown], as
      steps of actors; the worker's shutdown is three of them.
    - [Agent] ([research/mock_agent.go], [_experiments/mock_agent.go]): the test
      agent, over a server that is an argument; [Transparency]: the proxy as seen
      by a client, and the agent run through it.
    - [Cli], [Trace], [Analytics] ([cmd/logyctl]): the command line; keys,
      status and verification; the trace; listing, statistics, export, replay.
    - [Sample], [SampleSubmission], [SampleProxy], [SampleCli], [SampleSystem],
      [SampleProcess], [SampleAgent]: the theorems applied at concrete inputs,
      evaluated.

    ** State and operations

    An operation is a function of the state it can change, [M St A = St →
    outcome A * St]: a panic keeps the state reached, since deferred calls and
    the callers that recover see it.  A goroutine that mutates an object through
    a pointer has that object in its state.  What the code takes from outside
    (clock, UUIDs, entropy, HTTP responses, which pooled object is handed out,
    which call to the driver or the disk fails, what other goroutines do while a
    call sleeps) is an argument of the operation, and the theorems quantify over
    it.  Libraries whose source is not in the repository are classes
    ([JsonLib], [TimeLib], [Ed25519], [Http], [YamlLib], [McpCodec], formatting)
    with their documented laws in separate classes; every law class has an
    instance here.

    ** What the theorems show

    - The ledger is a chain.  [ProcessEvent_chain], [CreateGenesisBlock_spec],
      [drainBuffer_fifo] and [Shutdown_flushes] show that every operation keeps
      the run a signed hash chain on every path, failures included;
      [ProcessEvent_log] says what is appended.  [system_crash_safe] lifts this
      to any sequence of steps of the whole process and to a crash in the middle
      of one; [process_verifies] follows the process of a new installation from
      [main] to an audit of the reopened database, however the process ended, as
      long as the key is not rotated and the worker's shutdown does not time out
      ([racing_drains_reachable] says what can happen when it does).
    - The audit means what it says.  [VerifyChain_accepts_chain] (no false
      alarms), [VerifyChain_verdict] (a verdict on any store),
      [audited_tamper_evident] (two accepted versions with the same last hash
      hold the same data or a SHA-256 collision), [VerifyAnchors_verdict],
      [VerifyCommand_exit]; and its limits: [VerifyChain_segment],
      [rotation_invalidates], [VerifyCommand_replaces_key].
    - Nothing is lost or reordered in between.  [ring_refines_queue],
      [submission_conserves], [submission_fifo], [submission_wakes],
      [submit_wait_free], [shutdown_accounts], which [worker_refines_submission]
      carries over to the functions of [Worker]; and the races that remain,
      [lost_event_reachable], [send_on_closed_reachable] and
      [racing_drains_reachable].
    - The process ends in order.  [shutdown_quiesces] (servers before worker),
      [signal_stops] (a signal ends the process in a bounded number of steps of
      [main]); [fatal_exit_abandons] runs the way out that flushes nothing.
    - The proxy is transparent.  [InterceptRequest_forwards],
      [evaluatePolicy_first_match], [redactSensitiveData_spec], and, in drop mode
      for messages the assertions let pass, beside requests that do not take over
      its buffers, [proxy_transparent] and (where the policy redacts nothing)
      [agent_through_proxy]; [redaction_not_recorded],
      [redacted_length_refused] and [request_body_overwritten] say where it is not.
    - Keys and administration.  [HandleRekey_guarded],
      [backup_restore_roundtrip], [HandlePrometheus_page].
    - The command line and the test agent.  [printTraceTree_preorder],
      [ExportEvidenceBag_bag], [suite_report].
    - Each component also has its own specifications ([CheckConditions_spec],
      [pool_no_leak], [NewSigner_restart], [NewDB_opens],
      [Submit_drop_mode], [log_calls_filtered], [EventsCommand_recent], ...), on
      which these rest.

    ** Bounds and fuel

    The Go code bounds its loops (100000 rows and events, 2^20 drained events,
    1000 waits of a blocked submission, 64 conditions, 7 latency buckets, ...).
    Each such loop is a [Fixpoint] whose fuel is the bound in the code, so it
    stops where the code stops and no other fuel is needed (in [Submission] the
    program points count the rounds; the waits of [Process] are steps that may
    be taken or not); [trace_loop] runs
    for at most 100000 nodes, which [printTraceTree_preorder] shows to be enough
    for every task that [buildTree] accepts.  Indices and counters are integers
    kept in their 64-bit range where the code lets them wrap.

    ** Not modelled

    What the network does to a listener, a connection or a signal is an event
    the process reacts to, chosen by the execution.  What two unlocked drains
    do to the ledger after a shutdown timeout is any function: nothing is claimed
    of it but in [Submission], where their interleaving is.  Log lines of the server side
    have no effect on its state and are modelled in [Logging] only (the output of
    the command line and of the test agent is modelled).  [_experiments] repeats
    the functions of the test agent, which have one definition each.  SQLite,
    Ed25519, JCS, YAML and zip are not in the repository: parameters.

    ** Next

    The interleaving of several proxied requests within one interception, at the
    level of their single buffer accesses. *)

From stdpp Require Export base gmap strings list pretty sorting.
From Stdlib Require Export ZArith Lia Ascii.

Declare Scope go_scope.
Delimit Scope go_scope with go.
#[global] Open Scope Z_scope.

(** ** Errors and outcomes

    A Go [error] value: one made by [errors.New] or [fmt.Errorf] without a
    cause ([ENew]), one made by a failed assertion ([EAssert]), and one that
    wraps a cause with [%w] ([EWrap]). *)
Inductive error :=
| ENew (msg : string)
| EAssert (msg : string)
| EWrap (ctx : string) (cause : error).

#[global] Instance error_eq_dec : EqDecision error.
Proof. solve_decision. Defined.

(** The text [err.Error()] returns. *)
Fixpoint Error (e : error) : string :=
  match e with
  | ENew m => m
  | EAssert m => "ASSERTION FAILED: " +:+ m
  | EWrap c e' => c +:+ ": " +:+ Error e'
  end.

(** A Go call ends by returning a value, by returning an error, or by
    panicking. *)
Inductive outcome (A : Type) :=
| Ok (a : A)
| Err (e : error)
| Panic (e : error).
Arguments Ok {A} a.
Arguments Err {A} e.
Arguments Panic {A} e.

#[global] Instance outcome_eq_dec {A} `{EqDecision A} : EqDecision (outcome A).
Proof. solve_decision. Defined.

#[global] Instance outcome_ret : MRet outcome := λ A a, Ok a.
#[global] Instance outcome_bind : MBind outcome := λ A B f m,
  match m with
  | Ok a => f a
  | Err e => Err e
  | Panic e => Panic e
  end.

Definition is_ok {A} (o : outcome A) : bool :=
  match o with Ok _ => true | _ => false end.

Definition is_panic {A} (o : outcome A) : bool :=
  match o with Panic _ => true | _ => false end.

(** [if err := f(); err != nil { return x }]: an error is swallowed and
    replaced by a result, a panic still propagates. *)
Definition or_else {A} (o : outcome A) (k : error → outcome A) : outcome A :=
  match o with
  | Err e => k e
  | _ => o
  end.

(** Stateful Go code: the state is kept when an error is returned and when
    the code panics, as in Go, where neither rolls anything back. *)
Definition M (St A : Type) : Type := St → outcome A * St.

#[global] Instance M_ret {St} : MRet (M St) := λ A a s, (Ok a, s).
#[global] Instance M_bind {St} : MBind (M St) := λ A B f m s,
  match m s with
  | (Ok a, s') => f a s'
  | (Err e, s') => (Err e, s')
  | (Panic e, s') => (Panic e, s')
  end.

Definition lift {St A} (o : outcome A) : M St A := λ s, (o, s).
Definition get {St} : M St St := λ s, (Ok s, s).
Definition put {St} (s' : St) : M St unit := λ s, (Ok tt, s').
Definition modify {St} (f : St → St) : M St unit := λ s, (Ok tt, f s).
Definition fail {St A} (e : error) : M St A := λ s, (Err e, s).

(** Runs [m] and hands its outcome, error or not, to [k]; a panic
    propagates. *)
Definition try {St A B} (m : M St A) (k : A + error → M St B) : M St B := λ s,
  match m s with
  | (Ok a, s') => k (inl a) s'
  | (Err e, s') => k (inr e) s'
  | (Panic e, s') => (Panic e, s')
  end.

(** [fmt.Errorf("ctx: %w", err)] on the error of a call. *)
Definition wrap {St A} (ctx : string) (m : M St A) : M St A := λ s,
  match m s with
  | (Err e, s') => (Err (EWrap ctx e), s')
  | r => r
  end.

(** ** Machine integers

    Go's [uint64] and [int] (64-bit) as [Z] with their wrap-around. *)
Definition max_uint64 : Z := 2 ^ 64 - 1.
Definition max_int : Z := 2 ^ 63 - 1.
Definition u64 (z : Z) : Z := z `mod` 2 ^ 64.
Definition i64 (z : Z) : Z := (z + 2 ^ 63) `mod` 2 ^ 64 - 2 ^ 63.

Lemma u64_small z : 0 ≤ z ≤ max_uint64 → u64 z = z.
Proof. unfold u64, max_uint64. intros. apply Z.mod_small. lia. Qed.

Lemma u64_range z : 0 ≤ u64 z ≤ max_uint64.
Proof. unfold u64, max_uint64. pose proof (Z.mod_pos_bound z (2 ^ 64)). lia. Qed.

Lemma i64_small z : - 2 ^ 63 ≤ z ≤ max_int → i64 z = z.
Proof. unfold i64, max_int. intros. rewrite Z.mod_small; lia. Qed.

(** ** Automation

    [go_simpl] unfolds the monads of a goal, [go_case] splits on the next
    test or call the code makes, [go_auto] repeats both. *)
Create HintDb logryph.
#[export] Hint Extern 1 (_ ≤ _)%Z => lia : logryph.
#[export] Hint Extern 1 (_ < _)%Z => lia : logryph.

Ltac go_unfold :=
  unfold mbind, mret, M_bind, M_ret, outcome_bind, outcome_ret, lift, get, put,
    modify, fail, try, wrap, or_else in *; simpl in *.

Ltac go_case :=
  match goal with
  | |- context [match ?x with _ => _ end] =>
      lazymatch x with
      | context [match _ with _ => _ end] => fail
      | _ => let H := fresh "Hc" in destruct x eqn:H
      end
  | H : context [match ?x with _ => _ end] |- _ =>
      lazymatch x with
      | context [match _ with _ => _ end] => fail
      | _ => let Hc := fresh "Hc" in destruct x eqn:Hc
      end
  end.

(** Splits on the first integer comparison of a hypothesis. *)
Tactic Notation "case_leb" ident(H) "as" ident(Hle) :=
  match type of H with context [?a <=? ?b] => destruct (Z.leb_spec a b) as [Hle|Hle] end.

Ltac go_auto := go_unfold; repeat (go_case; simpl in *; simplify_eq); auto with logryph.

(** Inversion of the two binds. *)
Lemma bind_ok {A B} (m : outcome A) (f : A → outcome B) b :
  (m ≫= f) = Ok b ↔ ∃ a, m = Ok a ∧ f a = Ok b.
Proof. destruct m; go_unfold; naive_solver. Qed.

Lemma M_bind_inv {St A B} (m : M St A) (f : A → M St B) s r s' :
  (m ≫= f) s = (r, s') →
  (∃ a s1, m s = (Ok a, s1) ∧ f a s1 = (r, s')) ∨
  (∃ e, m s = (Err e, s') ∧ r = Err e) ∨
  (∃ e, m s = (Panic e, s') ∧ r = Panic e).
Proof. unfold mbind, M_bind. destruct (m s) as [[] s1]; naive_solver. Qed.

Lemma M_bind_ok {St A B} (m : M St A) (f : A → M St B) s b s' :
  (m ≫= f) s = (Ok b, s') ↔ ∃ a s1, m s = (Ok a, s1) ∧ f a s1 = (Ok b, s').
Proof. unfold mbind, M_bind. destruct (m s) as [[] s1]; naive_solver. Qed.

Lemma wrap_ok {St A} ctx (m : M St A) s a s' : wrap ctx m s = (Ok a, s') → m s = (Ok a, s').
Proof. unfold wrap. by destruct (m s) as [[] ?]. Qed.

(** Splits a hypothesis that a sequence of calls succeeded. *)
Ltac inv_ok :=
  repeat match goal with
  | H : (_ ≫= _) = Ok _ |- _ => apply bind_ok in H as (? & ? & ?)
  | H : (_ ≫= _) _ = (Ok _, _) |- _ => apply M_bind_ok in H as (? & ? & ? & ?)
  end.

(** ** The strings package *)

Fixpoint count_char (c : Ascii.ascii) (s : string) : nat :=
  match s with
  | EmptyString => 0
  | String a s' => (if Ascii.eqb a c then 1 else 0) + count_char c s'
  end.

Fixpoint repeat_char (c : Ascii.ascii) (n : nat) : string :=
  match n with
  | O => EmptyString
  | S n' => String c (repeat_char c n')
  end.

(** A Go string written with a single quote for each double quote. *)
Fixpoint dquoted (s : string) : string :=
  match s with
  | EmptyString => EmptyString
  | String a s' => String (if Ascii.eqb a "'" then "034" else a)%char (dquoted s')
  end.

(** The hash the first event of a run links to. *)
Definition zero_hash : string :=
  "0000000000000000000000000000000000000000000000000000000000000000".

Lemma zero_hash_eq : zero_hash = repeat_char "0"%char 64.
Proof. reflexivity. Qed.

Lemma string_app_cons x (a b : string) : String x a +:+ b = String x (a +:+ b).
Proof. reflexivity. Qed.

Lemma string_app_assoc (a b c : string) : a +:+ (b +:+ c) = (a +:+ b) +:+ c.
Proof. induction a as [|x a IH]; [done|]. by rewrite !string_app_cons, IH. Qed.

Lemma string_app_length (a b : string) :
  String.length (a +:+ b) = (String.length a + String.length b)%nat.
Proof.
  induction a as [|x a IH]; [done|]. rewrite string_app_cons. cbn [String.length].
  by rewrite IH.
Qed.

(** Concatenations with equally long left parts agree only part by part. *)
Lemma string_app_inj (a b c d : string) :
  String.length a = String.length c → a +:+ b = c +:+ d → a = c ∧ b = d.
Proof.
  revert c. induction a as [|x a IH]; intros [|y c] Hl E; try done.
  rewrite !string_app_cons in E. injection E as -> E. injection Hl as Hl. destruct (IH c Hl E) as [-> ->]. done.
Qed.

(** The Go condition [s != ""]. *)
Lemma string_app_nil (a : string) : a +:+ "" = a.
Proof. induction a as [|x a IH]; [done|]. by rewrite string_app_cons, IH. Qed.

Lemma substring_prefix n (s : string) : ∃ rest, s = String.substring 0 n s +:+ rest.
Proof.
  revert s. induction n as [|n IH]; intros [|x s]; [by eexists..|].
  destruct (IH s) as [rest Hr]. exists rest. simpl. rewrite string_app_cons. by f_equal.
Qed.

Definition nonempty (s : string) : bool := negb (String.eqb s "").

Lemma nonempty_true s : nonempty s = true ↔ s ≠ "".
Proof. unfold nonempty. rewrite negb_true_iff, String.eqb_neq. done. Qed.

(** ** Sorting

    A stable insertion sort by a boolean order, as [ORDER BY] sorts rows. *)
Section SortBy.
Context {A : Type} (le : A → A → bool).

Fixpoint insert_by (x : A) (l : list A) : list A :=
  match l with
  | [] => [x]
  | y :: l' => if le x y then x :: l else y :: insert_by x l'
  end.

Fixpoint sort_by (l : list A) : list A :=
  match l with
  | [] => []
  | x :: l' => insert_by x (sort_by l')
  end.

Lemma insert_by_perm x l : insert_by x l ≡ₚ x :: l.
Proof.
  induction l as [|y l IH]; simpl; [done|]. case_match; [done|].
  rewrite IH. constructor.
Qed.

Lemma sort_by_perm l : sort_by l ≡ₚ l.
Proof. induction l as [|x l IH]; simpl; [done|]. by rewrite insert_by_perm, IH. Qed.

Lemma sort_by_elem x l : x ∈ sort_by l ↔ x ∈ l.
Proof. by rewrite sort_by_perm. Qed.

Lemma sort_by_length l : length (sort_by l) = length l.
Proof. by rewrite sort_by_perm. Qed.

(** A list that is in order already is left alone. *)
Lemma sort_by_sorted l : StronglySorted (λ x y, le x y = true) l → sort_by l = l.
Proof.
  induction 1 as [|x l Hl IH Hx]; simpl; [done|]. rewrite IH.
  destruct Hx as [|y l' Hy _]; simpl; [done|]. by rewrite Hy.
Qed.

Context (le_total : ∀ x y, le x y = true ∨ le y x = true)
        (le_trans : ∀ x y z, le x y = true → le y z = true → le x z = true).

Lemma insert_by_strongly x l : StronglySorted (λ x y, le x y = true) l →
  StronglySorted (λ x y, le x y = true) (insert_by x l).
Proof.
  induction 1 as [|y l Hl IH Hy]; simpl; [repeat constructor|].
  destruct (le x y) eqn:Hxy.
  - constructor; [by constructor|]. constructor; [done|].
    eapply Forall_impl; [exact Hy|]. eauto.
  - constructor; [done|]. rewrite insert_by_perm. constructor; [|done].
    destruct (le_total x y); congruence.
Qed.

Lemma sort_by_strongly l : StronglySorted (λ x y, le x y = true) (sort_by l).
Proof. induction l; simpl; [constructor|]. by apply insert_by_strongly. Qed.

(** The first row of a sorted query is below every other. *)
Lemma sort_by_head l x : head (sort_by l) = Some x →
  x ∈ l ∧ ∀ y, y ∈ l → y = x ∨ le x y = true.
Proof.
  pose proof (sort_by_strongly l) as Hs. pose proof (sort_by_elem) as He.
  destruct (sort_by l) as [|z l'] eqn:E; [done|]. intros [= ->].
  inversion Hs as [|? ? _ Hf]; subst. rewrite Forall_forall in Hf.
  split.
  - apply He. rewrite E. set_solver.
  - intros y Hy. apply He in Hy. rewrite E in Hy. apply elem_of_cons in Hy as [->|Hy]; auto.
Qed.
End SortBy.

(** [if err := f(); err != nil { return }] in a function without a result:
    the error ends it quietly, a panic propagates. *)
Definition or_return {St} (o : outcome unit) (k : M St unit) : M St unit := λ s,
  match o with
  | Ok _ => k s
  | Err _ => (Ok tt, s)
  | Panic e => (Panic e, s)
  end.

(** ** Code that relates the state before and after

    A call on a state [S] and a message [X] stays along a preorder on [S] when
    each of its parts does. *)

Section Along.
Context {S X : Type} (R : relation S) {pre : PreOrder R}.

Definition along {A} (m : M (S * X) A) : Prop := ∀ c x, R c (m (c, x)).2.1.

Lemma along_lift {A} (o : outcome A) : along (lift o).
Proof. by intros c x. Qed.

Lemma along_ret {A} (a : A) : along (mret a).
Proof. by intros c x. Qed.

Lemma along_get : along get.
Proof. by intros c x. Qed.

Lemma along_bind {A B} (m : M (S * X) A) (f : A → M (S * X) B) :
  along m → (∀ a, along (f a)) → along (m ≫= f).
Proof.
  intros Hm Hf c x. specialize (Hm c x). unfold mbind, M_bind.
  destruct (m (c, x)) as [[a| |] [c1 x1]]; [|exact Hm..]. etrans; [exact Hm|apply (Hf a)].
Qed.

Lemma along_try {A B} (m : M (S * X) A) (k : A + error → M (S * X) B) :
  along m → (∀ y, along (k y)) → along (try m k).
Proof.
  intros Hm Hk c x. specialize (Hm c x). unfold try.
  destruct (m (c, x)) as [[a|e|] [c1 x1]]; [..|exact Hm]; (etrans; [exact Hm|apply Hk]).
Qed.

(** The handler of a pure call may use what the call returned. *)
Lemma along_try_lift {A B} (o : outcome A) (k : A + error → M (S * X) B) :
  (∀ a, o = Ok a → along (k (inl a))) → (∀ e, along (k (inr e))) → along (try (lift o) k).
Proof.
  intros Ha He c x. unfold try, lift. destruct o as [a|e|e]; [by apply Ha|apply He|done].
Qed.

Lemma along_modify (f : S * X → S * X) : (∀ c x, R c (f (c, x)).1) → along (modify f).
Proof. intros Hf c x. apply Hf. Qed.

End Along.

(** A step along a preorder, the preorder found by its instance. *)
Tactic Notation "along_step" uconstr(lem) := eapply lem; [typeclasses eauto|..].
