(* ===== verification/Assert.v ===== *)
(** * internal/assert: runtime assertions

    [Check], [NotNil], [InRange] and [True] of [internal/assert/assert.go], and
    the [Check] of [assert_release.go].
    The package variable [StrictMode] is a class parameter, so that every
    client is verified for both of its values; the logging a failed check
    also does ([SuppressLogs]) has no effect on control flow and is left
    out. *)
From S2P Require Import Prelude.
(** The package variable [StrictMode]. *)
Class AssertMode := { StrictMode : bool }.

Section Assert.
Context `{AssertMode}.

(** [Check]: nothing when the condition holds; otherwise the assertion
    error, as a panic in strict mode and as a returned error else. *)
Definition Check (condition : bool) (msg : string) : outcome unit :=
  if condition then Ok tt
  else if StrictMode then Panic (EAssert msg) else Err (EAssert msg).

(** An [interface{}] argument, as far as [== nil] sees it: the nil interface,
    or a pointer stored with its type, which may itself be a nil pointer. *)
Inductive iface :=
| INil
| IPtr (type_name : string) (ptr_is_nil : bool).

#[export] Instance iface_eq_dec : EqDecision iface.
Proof. solve_decision. Defined.

Definition NotNil (obj : iface) (name : string) : outcome unit :=
  Check (bool_decide (obj ≠ INil)) (name +:+ " must not be nil").

Definition InRange (val min max : Z) (name : string) : outcome unit :=
  Check ((min <=? val) && (val <=? max))
    (name +:+ " (" +:+ pretty val +:+ ") out of range [" +:+ pretty min +:+ ", "
       +:+ pretty max +:+ "]").

Definition True_ (condition : bool) (msg : string) : outcome unit := Check condition msg.

(** A failed assertion gives a default, or panics in strict mode. *)
Definition check_or {A} (c : bool) (msg : string) (d : A) (k : outcome A) : outcome A :=
  match Check c msg with
  | Ok _ => k
  | Err _ => Ok d
  | Panic e => Panic e
  end.

(** [if err := assert.Check(..); err != nil { return d }]. *)
Definition checked {St A} (c : bool) (msg : string) (d : A) (k : M St A) : M St A := λ s,
  match Check c msg with
  | Ok _ => k s
  | Err _ => (Ok d, s)
  | Panic e => (Panic e, s)
  end.

Lemma Check_true msg : Check true msg = Ok tt.
Proof. done. Qed.

Lemma Check_ok c msg u : Check c msg = Ok u → c = true.
Proof. unfold Check. destruct c, StrictMode; by intros. Qed.

Lemma InRange_ok val min max name :
  min ≤ val ≤ max → InRange val min max name = Ok tt.
Proof.
  intros. unfold InRange. replace ((min <=? val) && (val <=? max)) with true; [done|].
  symmetry. apply andb_true_intro. split; apply Z.leb_le; lia.
Qed.

(** [Check] returns normally exactly when its condition holds; it
    panics exactly when the condition fails in strict mode, and returns an
    error exactly when it fails otherwise. *)
Lemma Check_spec (c : bool) (msg : string) :
  (Check c msg = Ok tt ↔ c = true) ∧
  (is_panic (Check c msg) = true ↔ c = false ∧ StrictMode = true) ∧
  (Check c msg = Err (EAssert msg) ↔ c = false ∧ StrictMode = false).
Proof. unfold Check. destruct c, StrictMode; simpl; naive_solver. Qed.

(** [NotNil] accepts every pointer that reaches it inside an
    interface, the nil pointer included: it rejects only the nil interface. *)
Lemma NotNil_typed_nil (ty name : string) :
  NotNil (IPtr ty true) name = Ok tt ∧ NotNil INil name ≠ Ok tt.
Proof.
  split; [done|]. unfold NotNil, Check. simpl. by destruct StrictMode.
Qed.

End Assert.

(** ** The release build *)

(** [assert_release.go]: [Check] of a build with the tag [release]. *)
Definition Release_Check (condition : bool) (msg : string) : outcome unit := Ok tt.

(** Where its condition holds, the release [Check] is the one of [assert.go]
    and otherwise it accepts what that one reports. *)
Lemma Release_Check_agrees `{AssertMode} (c : bool) (msg : string) :
  Release_Check c msg = Check c msg ↔ c = true.
Proof. unfold Release_Check, Check. destruct c, StrictMode; naive_solver. Qed.

#[export] Hint Rewrite @Check_true : logryph.
#[export] Hint Resolve Check_true InRange_ok : logryph.
