(* ===== verification/Ring.v ===== *)
(** * internal/ring: the fixed-size ring buffer

    The generic [Buffer[T]] of [internal/ring/buffer.go] with its operations,
    its representation invariant, and its refinement of a bounded FIFO
    queue.  Every operation takes the buffer's mutex for its whole body, so
    each of them is one atomic step. *)
From S2P Require Import Prelude Assert.
Definition ErrBufferFull : error := ENew "ring buffer is full".
Definition ErrBufferEmpty : error := ENew "ring buffer is empty".

Record Buffer (T : Type) := mkBuffer {
  data : list T;
  capacity : Z;
  head : Z;
  tail : Z;
  count : Z;
}.
Arguments mkBuffer {T}.
Arguments data {T}.
Arguments capacity {T}.
Arguments head {T}.
Arguments tail {T}.
Arguments count {T}.

(** Go's run-time panic for an index outside a slice. *)
Definition index_panic : error := ENew "runtime error: index out of range".

Section Ring.
Context `{AssertMode} {T : Type} (zero : T).

(** [New]: [make([]T, capacity)] fills the slice with zero values. *)
Definition New (capacity : Z) : outcome (Buffer T) :=
  Check (0 <? capacity) "capacity must be positive";;
  Ok (mkBuffer (replicate (Z.to_nat capacity) zero) capacity 0 0 0).

Definition Push (item : T) : M (Buffer T) unit :=
  b ← get;
  if count b =? capacity b then fail ErrBufferFull else
  lift (InRange (tail b) 0 (i64 (capacity b - 1)) "tail index");;
  if (0 <=? tail b) && (tail b <? Z.of_nat (length (data b))) then
    put (mkBuffer (<[Z.to_nat (tail b) := item]> (data b)) (capacity b) (head b)
           (Z.rem (i64 (tail b + 1)) (capacity b)) (i64 (count b + 1)))
  else lift (Panic index_panic).

(** [Pop] leaves the popped slot's reference in place. *)
Definition Pop : M (Buffer T) T :=
  b ← get;
  if count b =? 0 then fail ErrBufferEmpty else
  lift (InRange (head b) 0 (i64 (capacity b - 1)) "head index");;
  if head b <? 0 then lift (Panic index_panic) else
  match data b !! Z.to_nat (head b) with
  | None => lift (Panic index_panic)
  | Some item =>
      put (mkBuffer (data b) (capacity b) (Z.rem (i64 (head b + 1)) (capacity b))
             (tail b) (i64 (count b - 1)));;
      mret item
  end.

Definition IsFull (b : Buffer T) : bool := count b =? capacity b.
Definition IsEmpty (b : Buffer T) : bool := count b =? 0.
Definition Len (b : Buffer T) : Z := count b.
Definition Cap (b : Buffer T) : Z := capacity b.

(** ** Representation invariant and abstraction *)

Record wf (b : Buffer T) : Prop := {
  wf_cap : 0 < capacity b ≤ max_int;
  wf_data : Z.of_nat (length (data b)) = capacity b;
  wf_head : 0 ≤ head b < capacity b;
  wf_count : 0 ≤ count b ≤ capacity b;
  wf_tail : tail b = (head b + count b) `mod` capacity b;
}.

(** The [i]-th oldest item. *)
Definition slot (b : Buffer T) (i : nat) : T :=
  default zero (data b !! Z.to_nat ((head b + Z.of_nat i) `mod` capacity b)).

Definition contents (b : Buffer T) : list T :=
  slot b <$> seq 0 (Z.to_nat (count b)).

Lemma wf_tail_range b : wf b → 0 ≤ tail b < capacity b.
Proof. intros []. rewrite wf_tail0. apply Z.mod_pos_bound. lia. Qed.

Lemma contents_length b : length (contents b) = Z.to_nat (count b).
Proof. unfold contents. by rewrite length_fmap, length_seq. Qed.

Lemma New_wf c b : 0 < c ≤ max_int → New c = Ok b → wf b ∧ contents b = [].
Proof.
  intros Hc. unfold New, Check. destruct (Z.ltb_spec 0 c); [|lia].
  intros [= <-]. split; [|done].
  split; simpl; rewrite ?length_replicate; try lia. by rewrite Z.mod_0_l by lia.
Qed.

(** The state [Push] leaves behind, when there is room. *)
Definition pushed (b : Buffer T) (x : T) : Buffer T :=
  mkBuffer (<[Z.to_nat (tail b) := x]> (data b)) (capacity b) (head b)
    ((tail b + 1) `mod` capacity b) (count b + 1).

Definition popped (b : Buffer T) : Buffer T :=
  mkBuffer (data b) (capacity b) ((head b + 1) `mod` capacity b) (tail b) (count b - 1).

Lemma rem_step b z : wf b → 0 ≤ z < capacity b →
  Z.rem (i64 (z + 1)) (capacity b) = (z + 1) `mod` capacity b.
Proof.
  intros [] ?. rewrite i64_small by (unfold max_int in *; lia).
  apply Z.rem_mod_nonneg; lia.
Qed.

Lemma Push_eq b x : wf b →
  Push x b = if count b =? capacity b then (Err ErrBufferFull, b) else (Ok tt, pushed b x).
Proof.
  intros Hw. pose proof (wf_tail_range b Hw). pose proof Hw as [].
  unfold Push. go_unfold. destruct (Z.eqb_spec (count b) (capacity b)); [done|].
  rewrite (i64_small (capacity b - 1)) by (unfold max_int in *; lia).
  rewrite InRange_ok by lia.
  replace (_ && _) with true by (symmetry; apply andb_true_iff; lia).
  rewrite rem_step by done. unfold pushed.
  by rewrite i64_small by (unfold max_int in *; lia).
Qed.

Lemma Pop_eq b : wf b →
  Pop b = if count b =? 0 then (Err ErrBufferEmpty, b) else (Ok (slot b 0), popped b).
Proof.
  intros Hw. pose proof Hw as []. unfold Pop. go_unfold.
  destruct (Z.eqb_spec (count b) 0); [done|].
  rewrite (i64_small (capacity b - 1)) by (unfold max_int in *; lia).
  rewrite InRange_ok by lia.
  destruct (Z.ltb_spec (head b) 0); [lia|].
  destruct (lookup_lt_is_Some_2 (data b) (Z.to_nat (head b))) as [x Hx]; [lia|].
  rewrite Hx, rem_step by done. unfold slot, popped.
  change (Z.of_nat 0) with 0. rewrite Z.add_0_r, (Z.mod_small (head b)) by lia. rewrite Hx.
  by rewrite i64_small by (unfold max_int in *; lia).
Qed.

Lemma pushed_wf b x : wf b → count b ≠ capacity b → wf (pushed b x).
Proof.
  intros Hw ?. pose proof Hw as [].
  split; simpl; rewrite ?length_insert; try lia.
  rewrite wf_tail0, Z.add_mod_idemp_l by lia. f_equal; lia.
Qed.

Lemma popped_wf b : wf b → count b ≠ 0 → wf (popped b).
Proof.
  intros Hw ?. pose proof Hw as []. split; simpl; try lia.
  - apply Z.mod_pos_bound; lia.
  - rewrite wf_tail0, Z.add_mod_idemp_l by lia. f_equal; lia.
Qed.

(** Two offsets inside the window land on different slots. *)
Lemma window_inj (c h i j : Z) : 0 ≤ i < c → 0 ≤ j < c →
  (h + i) `mod` c = (h + j) `mod` c → i = j.
Proof.
  intros Hi Hj E.
  assert ((h + i - (h + j)) `mod` c = 0) as E' by (rewrite Zminus_mod, E, Z.sub_diag; done).
  apply Z.mod_divide in E'; [|lia]. destruct E' as [k Hk].
  destruct (Z.lt_trichotomy k 0) as [|[->|]]; [|lia|]; nia.
Qed.

Lemma slot_pushed_old b x i : wf b → count b ≠ capacity b →
  (i < Z.to_nat (count b))%nat → slot (pushed b x) i = slot b i.
Proof.
  intros Hw ? ?. pose proof Hw as []. unfold slot; simpl. f_equal.
  apply list_lookup_insert_ne. rewrite wf_tail0. intros E.
  apply Z2Nat.inj in E; try (apply Z.mod_pos_bound; lia).
  apply window_inj in E; lia.
Qed.

Lemma slot_pushed_new b x : wf b → count b ≠ capacity b →
  slot (pushed b x) (Z.to_nat (count b)) = x.
Proof.
  intros Hw ?. pose proof (wf_tail_range b Hw). pose proof Hw as []. unfold slot; simpl.
  rewrite Z2Nat.id, <- wf_tail0 by lia. by rewrite list_lookup_insert_eq by lia.
Qed.

Lemma contents_pushed b x : wf b → count b ≠ capacity b →
  contents (pushed b x) = contents b ++ [x].
Proof.
  intros Hw ?. pose proof Hw as []. unfold contents. simpl count.
  rewrite Z2Nat.inj_add, Nat.add_1_r, seq_S, fmap_app by lia. f_equal.
  - apply list_fmap_ext. intros i k Hi. apply lookup_seq in Hi as [-> ?].
    by apply slot_pushed_old.
  - simpl. by rewrite slot_pushed_new.
Qed.

Lemma slot_popped b i : wf b → slot (popped b) i = slot b (S i).
Proof.
  intros []. unfold slot; simpl. do 3 f_equal.
  rewrite Z.add_mod_idemp_l by lia. f_equal; lia.
Qed.

Lemma contents_popped b : wf b → count b ≠ 0 →
  contents b = slot b 0 :: contents (popped b).
Proof.
  intros Hw ?. pose proof Hw as []. unfold contents. simpl count.
  replace (Z.to_nat (count b)) with (S (Z.to_nat (count b - 1))) by lia.
  simpl. f_equal. rewrite <- fmap_S_seq, <- list_fmap_compose.
  apply list_fmap_ext. intros i k _. simpl. by rewrite slot_popped.
Qed.

Lemma contents_nil b : wf b → count b = 0 ↔ contents b = [].
Proof.
  intros []. rewrite <- length_zero_iff_nil, contents_length. lia.
Qed.

(** ** The bounded FIFO queue a buffer promises to be *)

Inductive op := OPush (x : T) | OPop | OIsFull | OIsEmpty | OLen | OCap.
Inductive reply :=
| RUnit | RItem (x : T) | RError (e : error) | RPanic (e : error) | RBool (b : bool) | RInt (z : Z).

Definition queue_step (cap : Z) (o : op) (q : list T) : reply * list T :=
  match o with
  | OPush x => if Z.of_nat (length q) =? cap then (RError ErrBufferFull, q)
               else (RUnit, q ++ [x])
  | OPop => match q with
            | [] => (RError ErrBufferEmpty, [])
            | x :: q' => (RItem x, q')
            end
  | OIsFull => (RBool (Z.of_nat (length q) =? cap), q)
  | OIsEmpty => (RBool (bool_decide (q = [])), q)
  | OLen => (RInt (Z.of_nat (length q)), q)
  | OCap => (RInt cap, q)
  end.

Definition reply_of {A} (f : A → reply) (o : outcome A) : reply :=
  match o with Ok a => f a | Err e => RError e | Panic e => RPanic e end.

Definition buffer_step (o : op) (b : Buffer T) : reply * Buffer T :=
  match o with
  | OPush x => let r := Push x b in (reply_of (λ _, RUnit) r.1, r.2)
  | OPop => let r := Pop b in (reply_of RItem r.1, r.2)
  | OIsFull => (RBool (IsFull b), b)
  | OIsEmpty => (RBool (IsEmpty b), b)
  | OLen => (RInt (Len b), b)
  | OCap => (RInt (Cap b), b)
  end.

Lemma buffer_step_simulates o b : wf b →
  wf (buffer_step o b).2 ∧ capacity (buffer_step o b).2 = capacity b ∧
  (buffer_step o b).1 = (queue_step (capacity b) o (contents b)).1 ∧
  contents (buffer_step o b).2 = (queue_step (capacity b) o (contents b)).2.
Proof.
  intros Hw. pose proof Hw as []. pose proof (contents_length b) as Hl.
  assert (Z.of_nat (length (contents b)) = count b) as Hc by lia.
  destruct o; simpl; rewrite ?Hc.
  - rewrite Push_eq by done. destruct (Z.eqb_spec (count b) (capacity b)); simpl; [done|].
    by auto using pushed_wf, contents_pushed.
  - rewrite Pop_eq by done. destruct (Z.eqb_spec (count b) 0) as [E|]; simpl.
    + apply contents_nil in E; [|done]. by rewrite E.
    + rewrite (contents_popped b) by done. by auto using popped_wf.
  - done.
  - split_and!; try done. f_equal. unfold IsEmpty. apply eq_bool_prop_intro.
    rewrite !Is_true_true, bool_decide_eq_true, <- contents_nil by done. lia.
  - done.
  - done.
Qed.

Fixpoint run {S} (step : op → S → reply * S) (os : list op) (s : S) : list reply * S :=
  match os with
  | [] => ([], s)
  | o :: os' => let r := step o s in let r' := run step os' r.2 in (r.1 :: r'.1, r'.2)
  end.

Lemma run_simulates os b : wf b →
  wf (run buffer_step os b).2 ∧
  (run buffer_step os b).1 = (run (queue_step (capacity b)) os (contents b)).1 ∧
  contents (run buffer_step os b).2 = (run (queue_step (capacity b)) os (contents b)).2.
Proof.
  revert b. induction os as [|o os IH]; intros b Hw; simpl; [done|].
  destruct (buffer_step_simulates o b Hw) as (Hw' & Hcap & Hr & Hq).
  destruct (IH _ Hw') as (? & Hrs & Hqs). rewrite Hcap, Hq in Hrs, Hqs.
  by rewrite Hr, Hrs.
Qed.

(** C16: a ring buffer made by [New] answers every sequence of
    [Push], [Pop], [IsFull], [IsEmpty], [Len] and [Cap] calls exactly as a
    FIFO queue bounded by its capacity does, and never panics on one. *)
Theorem ring_refines_queue (c : Z) (b : Buffer T) (os : list op) :
  0 < c ≤ max_int → New c = Ok b →
  (run buffer_step os b).1 = (run (queue_step c) os []).1 ∧
  (∀ e, RPanic e ∉ (run buffer_step os b).1).
Proof.
  intros Hc HN. pose proof (New_wf c b Hc HN) as [Hw He].
  assert (capacity b = c) as <-.
  { revert HN. unfold New, Check. go_unfold. destruct (0 <? c), StrictMode; by intros [= <-]. }
  destruct (run_simulates os b Hw) as (_ & Hr & _). rewrite He in Hr. split; [done|].
  rewrite Hr. clear. generalize (@nil T). induction os as [|o os IH]; intros q e; simpl.
  { set_solver. }
  rewrite not_elem_of_cons. split; [|apply IH].
  destruct o; simpl; repeat case_match; done.
Qed.

(** C39: [Push] and [Pop] preserve the representation invariant and
    never panic on a well-formed buffer; a rejected call leaves it unchanged. *)
Theorem ring_ops_preserve_wf (b : Buffer T) (x : T) :
  wf b →
  wf (Push x b).2 ∧ wf (Pop b).2 ∧
  is_panic (Push x b).1 = false ∧ is_panic (Pop b).1 = false ∧
  (is_ok (Push x b).1 = false → (Push x b).2 = b) ∧
  (is_ok (Pop b).1 = false → (Pop b).2 = b).
Proof.
  intros Hw. rewrite Push_eq, Pop_eq by done.
  destruct (Z.eqb_spec (count b) (capacity b)), (Z.eqb_spec (count b) 0); simpl;
    split_and!; auto using pushed_wf, popped_wf; done.
Qed.

End Ring.

(** A two-slot buffer driven past both of its ends. *)
Lemma ring_refines_queue_witness :
  let _ := {| StrictMode := true |} in
  let b := mkBuffer [0; 0] 2 0 0 0 in
  let os := [OPush 7; OPush 8; OPush 9; OIsFull; OPop; OPush 9; OPop; OPop; OPop] in
  New 0 2 = Ok b ∧
  (run (buffer_step) os b).1 = (run (queue_step 2) os []).1 ∧
  (run (buffer_step) os b).1 =
    [RUnit; RUnit; RError ErrBufferFull; RBool true; RItem 7; RUnit; RItem 8; RItem 9;
     RError ErrBufferEmpty].
Proof.
  intros m b os. split; [done|]. split; [|vm_compute; done].
  apply (ring_refines_queue 0 2 b os); [unfold max_int; lia|done].
Defined.

Lemma ring_ops_preserve_wf_witness :
  let _ := {| StrictMode := true |} in
  let b := mkBuffer [3; 4; 5] 3 2 1 2 in
  wf b ∧ wf (Push 6 b).2.
Proof.
  intros m b. assert (wf b) as Hw by (split; try done; unfold max_int; simpl; lia).
  split; [done|]. apply (ring_ops_preserve_wf 0 b 6 Hw).
Defined.
