(* ===== verification/Models.v ===== *)
(** * internal/models: events and the data they carry

    The [Event] record of [internal/models/event.go], the dynamically typed
    [interface{}] values its [Params] and [Response] maps hold, and the part
    of [encoding/json], [time] and JCS (RFC 8785) the program relies on: the
    normal form a value takes after a round trip through JSON text is defined
    here, the text codecs themselves are interfaces with their documented
    laws. *)
From stdpp Require Import countable.
From Stdlib Require Export Ascii SpecFloat.
From S2P Require Import Prelude.
(** ** time.Time

    An instant (Unix seconds and nanoseconds) with the UTC offset, in
    seconds, of the location it is displayed in. *)
Record Time := mkTime { t_sec : Z; t_nsec : Z; t_offset : Z }.

(** Go's zero time, January 1 of year 1, UTC. *)
Definition zeroTime : Time := mkTime (-62135596800) 0 0.

#[global] Instance Time_eq_dec : EqDecision Time.
Proof. solve_decision. Defined.

(** The instants RFC 3339 can write: years 0 to 9999 at an offset of less
    than a day. *)
Definition time_ok (t : Time) : bool :=
  bool_decide (-62167219200 ≤ t_sec t + t_offset t < 253402300800) &&
  bool_decide (0 ≤ t_nsec t < 1000000000) && bool_decide (-86400 < t_offset t < 86400).

(** ** Values of type interface{}

    The dynamic types the program stores in or reads from its maps. Floats
    are IEEE 754 values. *)
Inductive value :=
| VNil
| VBool (b : bool)
| VFloat64 (f : spec_float)
| VFloat32 (f : spec_float)
| VInt (z : Z)
| VInt64 (z : Z)
| VUint64 (z : Z)
| VString (s : string)
| VTime (t : Time)
| VArr (l : list value)
| VObj (m : gmap string value).

(** A Go [map[string]interface{}]: nil, or a map. *)
Abbreviation gomap := (option (gmap string value)).

(** [m[k]] with the comma-ok form; reading a nil map finds nothing. *)
Definition map_get (m : gomap) (k : string) : option value := m' ← m; m' !! k.

Definition map_len (m : gomap) : Z :=
  match m with None => 0 | Some m' => Z.of_nat (size m') end.

(** The type assertion [v.(string)] with the comma-ok form. *)
Definition as_string (v : option value) : option string :=
  match v with Some (VString s) => Some s | _ => None end.

Definition as_float64 (v : option value) : option spec_float :=
  match v with Some (VFloat64 f) => Some f | _ => None end.

Definition of_gomap (m : gomap) : value :=
  match m with None => VNil | Some m' => VObj m' end.

(** ** models.Event *)
Record Event := mkEvent {
  ID : string;
  RunID : string;
  SeqIndex : Z;
  Timestamp : Time;
  Actor : string;
  EventType : string;
  Method : string;
  Params : gomap;
  Response : gomap;
  TaskID : string;
  TaskState : string;
  ParentID : string;
  PolicyID : string;
  RiskLevel : string;
  PrevHash : string;
  CurrentHash : string;
  Signature : string;
  WasBlocked : bool;
}.

(** ** The JSON normal form of a value

    What [json.Unmarshal] into an [interface{}] gives back for the text
    [json.Marshal] writes: numbers become float64, times become strings,
    bytes that are not UTF-8 become U+FFFD. *)

(** [float64(z)], rounded to nearest even. *)
Definition float64_of_Z (z : Z) : spec_float := binary_normalize 53 1024 z 0 false.

Definition byte_of (a : ascii) : N := N_of_ascii a.
Definition in_range (lo hi : N) (a : ascii) : bool := (lo <=? byte_of a)%N && (byte_of a <=? hi)%N.
Definition cont (a : ascii) : bool := in_range 128 191 a.
Definition rune2 (a b : ascii) : bool := in_range 194 223 a && cont b.
Definition rune3 (a b c : ascii) : bool :=
  ((in_range 224 224 a && in_range 160 191 b) || (in_range 225 236 a && cont b)
   || (in_range 237 237 a && in_range 128 159 b) || (in_range 238 239 a && cont b)) && cont c.
Definition rune4 (a b c d : ascii) : bool :=
  ((in_range 240 240 a && in_range 144 191 b) || (in_range 241 243 a && cont b)
   || (in_range 244 244 a && in_range 128 143 b)) && cont c && cont d.

(** U+FFFD in UTF-8. *)
Definition replacement (s : string) : string :=
  String (ascii_of_N 239) (String (ascii_of_N 191) (String (ascii_of_N 189) s)).

(** Every byte that does not start a well-formed rune is replaced. *)
Fixpoint utf8_coerce (s : string) : string :=
  match s with
  | EmptyString => EmptyString
  | String a s1 =>
      if in_range 0 127 a then String a (utf8_coerce s1) else
      match s1 with
      | EmptyString => replacement (utf8_coerce s1)
      | String b s2 =>
          if rune2 a b then String a (String b (utf8_coerce s2)) else
          match s2 with
          | EmptyString => replacement (utf8_coerce s1)
          | String c s3 =>
              if rune3 a b c then String a (String b (String c (utf8_coerce s3))) else
              match s3 with
              | EmptyString => replacement (utf8_coerce s1)
              | String d s4 =>
                  if rune4 a b c d
                  then String a (String b (String c (String d (utf8_coerce s4))))
                  else replacement (utf8_coerce s1)
              end
          end
      end
  end.

Section Json.
Context (time_Format : Time → string).

Fixpoint json_norm (v : value) : value :=
  match v with
  | VInt z | VInt64 z | VUint64 z => VFloat64 (float64_of_Z z)
  | VString s => VString (utf8_coerce s)
  | VTime t => VString (utf8_coerce (time_Format t))
  | VArr l => VArr (json_norm <$> l)
  | VObj m => VObj (json_norm <$> m)
  | _ => v
  end.

End Json.

(** Nesting depth of arrays and objects, and the depth the decoder accepts. *)
Fixpoint json_depth (v : value) : nat :=
  match v with
  | VArr l => S (foldr (λ x n, Nat.max (json_depth x) n) 0%nat l)
  | VObj m => S (map_fold (λ _ x n, Nat.max (json_depth x) n) 0%nat m)
  | _ => 0%nat
  end.

Definition json_max_depth : Z := 10000.

(** The values whose normal form [json_norm] gives: object keys are UTF-8
    already, as the program's field names and the keys of a decoded document
    are, and no number is a float32, which the program never stores. *)
Fixpoint json_plain (v : value) : bool :=
  match v with
  | VFloat32 _ => false
  | VArr l => forallb json_plain l
  | VObj m => map_fold (λ k x b, String.eqb (utf8_coerce k) k && json_plain x && b) true m
  | _ => true
  end.

(** ** The text codecs, as interfaces

    [time.Time.Format] and [time.Parse] at the layout RFC3339Nano;
    [json.Marshal] and [json.Unmarshal]; [jcs.Format] of the JCS package. *)
Class TimeLib := {
  time_Format : Time → string;
  time_Parse : string → option Time;
}.

Class JsonLib := {
  json_Marshal : value → outcome string;
  json_Unmarshal : string → outcome value;
  jcs_Format : value → outcome string;
}.

(** A formatted time parses to a time that formats the same way. *)
Class TimeLaws (TL : TimeLib) : Prop := {
  time_Parse_Format t : time_ok t = true →
    ∃ t', time_Parse (time_Format t) = Some t' ∧ time_Format t' = time_Format t;
}.

Definition json_depth_error : error := ENew "exceeded max depth".

(** What encoding/json documents: text written by [Marshal] decodes to the
    normal form, unless it nests too deeply; nil encodes as [null] and an
    object as text that starts with a brace; an object can be encoded when its
    members can, and what decoding gives back can be encoded again. *)
Class JsonLaws (TL : TimeLib) (JL : JsonLib) : Prop := {
  json_Unmarshal_Marshal v s :
    json_plain v = true → json_Marshal v = Ok s →
    json_Unmarshal s = if Z.of_nat (json_depth v) <=? json_max_depth
                       then Ok (json_norm time_Format v) else Err json_depth_error;
  json_Marshal_nil : json_Marshal VNil = Ok "null";
  json_Marshal_obj m s : json_Marshal (VObj m) = Ok s → ∃ s', s = String "{" s';
  json_Marshal_members m :
    is_ok (json_Marshal (VObj m)) = true ↔ map_Forall (λ _ v, is_ok (json_Marshal v) = true) m;
  json_Marshal_norm v :
    is_ok (json_Marshal v) = true → is_ok (json_Marshal (json_norm time_Format v)) = true;
}.

(** Values up to the sign of zero, which JCS does not write. *)
Fixpoint unsigned_zero (v : value) : value :=
  match v with
  | VFloat64 (S754_zero _) => VFloat64 (S754_zero false)
  | VArr l => VArr (unsigned_zero <$> l)
  | VObj m => VObj (unsigned_zero <$> m)
  | _ => v
  end.

(** RFC 8785: decoded JSON documents with the same canonical form are the same
    data, up to the sign of zero. *)
Class JcsLaws (TL : TimeLib) (JL : JsonLib) : Prop := {
  jcs_Format_inj v w c :
    json_plain v = true → json_plain w = true →
    json_norm time_Format v = v → json_norm time_Format w = w →
    jcs_Format v = Ok c → jcs_Format w = Ok c → unsigned_zero v = unsigned_zero w;
}.

(** ** Lemmas on values *)

Lemma utf8_coerce_idem s : utf8_coerce (utf8_coerce s) = utf8_coerce s.
Proof.
  remember (String.length s) as n eqn:Hn. revert s Hn.
  induction (lt_wf n) as [n _ IH]. intros s ->.
  assert (∀ s', (String.length s' < String.length s)%nat →
    utf8_coerce (utf8_coerce s') = utf8_coerce s') as IH'.
  { intros s' Hlt. by apply (IH _ Hlt). }
  clear IH. destruct s as [|a s1]; [done|]. simpl.
  destruct (in_range 0 127 a) eqn:Ha; simpl; rewrite ?Ha.
  { by rewrite IH' by (simpl; lia). }
  assert (∀ r, utf8_coerce (replacement r) = replacement (utf8_coerce r)) as Hrep by done.
  assert (utf8_coerce (replacement (utf8_coerce s1)) = replacement (utf8_coerce s1)) as Hr.
  { by rewrite Hrep, IH' by (simpl; lia). }
  destruct s1 as [|b s2]; [done|]. destruct (rune2 a b) eqn:Hb.
  { simpl. by rewrite Ha, Hb, IH' by (simpl; lia). }
  destruct s2 as [|c s3]; [done|]. destruct (rune3 a b c) eqn:Hc3.
  { simpl. by rewrite Ha, Hb, Hc3, IH' by (simpl; lia). }
  destruct s3 as [|d s4]; [done|]. destruct (rune4 a b c d) eqn:Hd.
  { simpl. by rewrite Ha, Hb, Hc3, Hd, IH' by (simpl; lia). }
  done.
Qed.

Lemma foldr_max_le {A} (f : A → nat) (l : list A) n :
  (foldr (λ x m, Nat.max (f x) m) 0 l ≤ n)%nat ↔ ∀ x, x ∈ l → (f x ≤ n)%nat.
Proof.
  induction l as [|a l IH]; simpl; [split; [set_solver|lia]|].
  rewrite Nat.max_lub_iff, IH. set_solver.
Qed.

Lemma json_depth_arr_eq l :
  json_depth (VArr l) = S (foldr (λ x n, Nat.max (json_depth x) n) 0%nat l).
Proof. done. Qed.

Lemma json_depth_obj_eq m :
  json_depth (VObj m) = S (map_fold (λ _ x n, Nat.max (json_depth x) n) 0%nat m).
Proof. done. Qed.

Lemma json_depth_arr l n :
  (json_depth (VArr l) ≤ S n)%nat ↔ ∀ x, x ∈ l → (json_depth x ≤ n)%nat.
Proof. simpl. rewrite <- foldr_max_le. lia. Qed.

Lemma json_depth_obj (m : gmap string value) n :
  (json_depth (VObj m) ≤ S n)%nat ↔ map_Forall (λ _ x, (json_depth x ≤ n)%nat) m.
Proof.
  simpl. rewrite map_fold_foldr.
  transitivity (∀ kx, kx ∈ map_to_list m → (json_depth kx.2 ≤ n)%nat).
  - rewrite <- foldr_max_le. unfold uncurry.
    rewrite (foldr_ext _ (λ kx r, Nat.max (json_depth kx.2) r) 0%nat 0%nat
               (map_to_list m) (map_to_list m)); [lia|by intros [] ?|done|done].
  - rewrite map_Forall_lookup. setoid_rewrite <- elem_of_map_to_list. split.
    + intros Hd k x Hkx. apply (Hd (k, x) Hkx).
    + intros Hd [k x] Hkx. by eapply Hd.
Qed.

Lemma json_depth_member (m : gmap string value) k x :
  m !! k = Some x → (json_depth x < json_depth (VObj m))%nat.
Proof.
  intros Hx. assert (map_Forall (λ _ y, json_depth y ≤ pred (json_depth (VObj m)))%nat m) as Hf.
  { apply json_depth_obj. simpl. lia. }
  apply Hf in Hx. simpl in *. lia.
Qed.

Lemma json_plain_obj (m : gmap string value) :
  json_plain (VObj m) = true ↔
  map_Forall (λ k x, utf8_coerce k = k ∧ json_plain x = true) m.
Proof.
  simpl. rewrite map_fold_foldr.
  rewrite map_Forall_lookup. setoid_rewrite <- elem_of_map_to_list.
  induction (map_to_list m) as [|[k x] l IH]; simpl; [split; [set_solver|done]|].
  rewrite !andb_true_iff, IH, String.eqb_eq. split.
  - intros [[Hk Hx] Hl] k' x' [[= -> ->]|Hin]%elem_of_cons; auto.
  - intros Hl. split_and!; [apply (Hl k x); set_solver..|].
    intros k' x' Hin. apply Hl. set_solver.
Qed.

Lemma value_ind' (P : value → Prop) :
  P VNil → (∀ b, P (VBool b)) → (∀ f, P (VFloat64 f)) → (∀ f, P (VFloat32 f)) →
  (∀ z, P (VInt z)) → (∀ z, P (VInt64 z)) → (∀ z, P (VUint64 z)) →
  (∀ s, P (VString s)) → (∀ t, P (VTime t)) →
  (∀ l, (∀ x, x ∈ l → P x) → P (VArr l)) →
  (∀ m, map_Forall (λ _, P) m → P (VObj m)) →
  ∀ v, P v.
Proof.
  intros. remember (json_depth v) as n eqn:Hn. revert v Hn.
  induction (lt_wf n) as [n _ IH]. intros v ->.
  destruct v as [| | | | | | | | |l|m]; auto.
  - match goal with Ha : ∀ l, _ → P (VArr l) |- _ => apply Ha end. intros x Hx.
    eapply IH; [|done].
    apply Nat.lt_succ_r. simpl. by apply (proj1 (foldr_max_le json_depth l _) (Nat.le_refl _)).
  - match goal with Ho : ∀ m, _ → P (VObj m) |- _ => apply Ho end. intros k x Hx.
    eapply IH; [|done]. by eapply json_depth_member.
Qed.

Section JsonNorm.
Context (fmt : Time → string).

Lemma json_norm_idem v : json_norm fmt (json_norm fmt v) = json_norm fmt v.
Proof.
  induction v as [| | | | | | |s|t|l IH|m IH] using value_ind'; simpl; try done.
  - by rewrite utf8_coerce_idem.
  - by rewrite utf8_coerce_idem.
  - f_equal. rewrite <- list_fmap_compose. apply list_fmap_ext.
    intros i x Hx. simpl. apply IH. by eapply list_elem_of_lookup_2.
  - f_equal. rewrite <- map_fmap_compose. apply map_fmap_ext.
    intros k x Hx. simpl. by eapply IH.
Qed.

Lemma json_norm_depth v : json_depth (json_norm fmt v) = json_depth v.
Proof.
  induction v as [| | | | | | |s|t|l IH|m IH] using value_ind'; try done.
  - simpl json_norm. rewrite !json_depth_arr_eq. f_equal.
    induction l as [|x l IHl]; [done|]. cbn [fmap list_fmap foldr].
    rewrite IH, IHl by set_solver. done.
  - simpl json_norm. rewrite !json_depth_obj_eq. f_equal. rewrite map_fold_fmap, !map_fold_foldr.
    rewrite map_Forall_lookup in IH. setoid_rewrite <- elem_of_map_to_list in IH.
    induction (map_to_list m) as [|[k x] l IHl]; [done|].
    cbn [foldr uncurry]. rewrite IHl by (intros i y ?; apply (IH i); set_solver).
    unfold compose. by rewrite (IH k x) by set_solver.
Qed.

Lemma json_norm_plain v : json_plain v = true → json_plain (json_norm fmt v) = true.
Proof.
  induction v as [| | | | | | |s|t|l IH|m IH] using value_ind'; try done.
  - simpl. rewrite !forallb_forall. intros Hp x Hx%list_elem_of_In.
    apply list_elem_of_fmap in Hx as (y & -> & Hy).
    apply IH; [done|]. by apply Hp, list_elem_of_In.
  - simpl json_norm. rewrite !json_plain_obj, !map_Forall_lookup. intros Hp k x.
    rewrite lookup_fmap, fmap_Some. intros (y & Hy & ->).
    destruct (Hp k y Hy). split; [done|]. by eapply IH.
Qed.

Lemma json_norm_gomap m : ∃ m', json_norm fmt (of_gomap m) = of_gomap m' ∧
  json_norm fmt (of_gomap m') = of_gomap m'.
Proof.
  destruct m as [m|]; simpl; [|by exists None].
  exists (Some (json_norm fmt <$> m)). simpl. split; [done|].
  apply (json_norm_idem (VObj m)).
Qed.
End JsonNorm.

(** ** The hashed payload

    The 14-entry map literal [hashAndSignEvent], [CreateGenesisBlock] and
    [VerifyEvent] each build from an event, the timestamp formatted.
    [WasBlocked] is not part of it. *)
Definition payload_map `{TimeLib} (e : Event) : gmap string value :=
  list_to_map
    [("id", VString (ID e));
     ("run_id", VString (RunID e));
     ("seq_index", VUint64 (SeqIndex e));
     ("timestamp", VString (time_Format (Timestamp e)));
     ("actor", VString (Actor e));
     ("event_type", VString (EventType e));
     ("method", VString (Method e));
     ("params", of_gomap (Params e));
     ("response", of_gomap (Response e));
     ("task_id", VString (TaskID e));
     ("task_state", VString (TaskState e));
     ("parent_id", VString (ParentID e));
     ("policy_id", VString (PolicyID e));
     ("risk_level", VString (RiskLevel e))].

Definition payload `{TimeLib} (e : Event) : value := VObj (payload_map e).

(** The data of a payload that a hash commits to: its JSON normal form. *)
Definition payload_data `{TimeLib} (e : Event) : value := json_norm time_Format (payload e).

(** ** Codecs that satisfy the laws

    Executable instances of the interfaces, used to evaluate the development
    on concrete inputs: times are written field by field, and values are
    written as the bits of an injective encoding of their normal form, with
    the two spellings the laws fix ([null] and a leading brace). *)

Definition enc_float (f : spec_float) : list Z :=
  match f with
  | S754_zero s => [0; if s then 1 else 0]
  | S754_infinity s => [1; if s then 1 else 0]
  | S754_nan => [2]
  | S754_finite s m e => [3; if s then 1 else 0; Zpos m; e]
  end.

Definition dec_float (l : list Z) : spec_float :=
  match l with
  | [0; s] => S754_zero (s =? 1)
  | [1; s] => S754_infinity (s =? 1)
  | [3; s; Zpos m; e] => S754_finite (s =? 1) m e
  | _ => S754_nan
  end.

Lemma dec_enc_float f : dec_float (enc_float f) = f.
Proof. by destruct f as [[]|[]| |[] ? ?]. Qed.

Abbreviation tree := (gen_tree (string + list Z)).

Definition leafZ (l : list Z) : tree := GenLeaf (inr l).

Fixpoint enc_value (v : value) : tree :=
  match v with
  | VNil => GenNode 0 []
  | VBool b => GenNode 1 [leafZ [if b then 1 else 0]]
  | VFloat64 f => GenNode 2 [leafZ (enc_float f)]
  | VFloat32 f => GenNode 3 [leafZ (enc_float f)]
  | VInt z => GenNode 4 [leafZ [z]]
  | VInt64 z => GenNode 5 [leafZ [z]]
  | VUint64 z => GenNode 6 [leafZ [z]]
  | VString s => GenNode 7 [GenLeaf (inl s)]
  | VTime t => GenNode 8 [leafZ [t_sec t; t_nsec t; t_offset t]]
  | VArr l => GenNode 9 (enc_value <$> l)
  | VObj m => GenNode 10 (map_fold (λ k x r, GenNode 11 [GenLeaf (inl k); enc_value x] :: r) [] m)
  end.

Fixpoint dec_value (t : tree) : value :=
  match t with
  | GenNode 1 [GenLeaf (inr [b])] => VBool (b =? 1)
  | GenNode 2 [GenLeaf (inr f)] => VFloat64 (dec_float f)
  | GenNode 3 [GenLeaf (inr f)] => VFloat32 (dec_float f)
  | GenNode 4 [GenLeaf (inr [z])] => VInt z
  | GenNode 5 [GenLeaf (inr [z])] => VInt64 z
  | GenNode 6 [GenLeaf (inr [z])] => VUint64 z
  | GenNode 7 [GenLeaf (inl s)] => VString s
  | GenNode 8 [GenLeaf (inr [a; b; c])] => VTime (mkTime a b c)
  | GenNode 9 l => VArr (dec_value <$> l)
  | GenNode 10 l => VObj (list_to_map ((λ t, match t with
      | GenNode 11 [GenLeaf (inl k); x] => (k, dec_value x)
      | _ => ("", VNil)
      end) <$> l))
  | _ => VNil
  end.

Lemma dec_enc_value v : dec_value (enc_value v) = v.
Proof.
  induction v as [|[]| | | | | | |[]|l IH|m IH] using value_ind'; simpl;
    rewrite ?dec_enc_float; try done.
  - f_equal. rewrite <- list_fmap_compose. rewrite <- (list_fmap_id l) at 2.
    apply list_fmap_ext. intros i x Hx. simpl. apply IH. by eapply list_elem_of_lookup_2.
  - f_equal. rewrite map_fold_foldr. rewrite <- (list_to_map_to_list m) at 2. f_equal.
    rewrite map_Forall_lookup in IH. setoid_rewrite <- elem_of_map_to_list in IH.
    induction (map_to_list m) as [|[k x] l IHl]; [done|]. simpl. f_equal.
    + f_equal. apply (IH k x). set_solver.
    + apply IHl. intros i y ?. apply (IH i). set_solver.
Qed.

#[global] Instance value_eq_dec : EqDecision value.
Proof.
  refine (λ v w, cast_if (decide (enc_value v = enc_value w))).
  - rewrite <- (dec_enc_value v), <- (dec_enc_value w). by f_equal.
  - by intros ->.
Defined.

#[global] Instance value_countable : Countable value :=
  inj_countable' enc_value dec_value dec_enc_value.

(** A positive number as text, three bits to a character; the last character
    holds the bits left over, ended by a one. *)
Fixpoint bits_of (p : positive) : string :=
  match p with
  | xH => "A"
  | xO xH => "B"
  | xI xH => "C"
  | xO (xO xH) => "D"
  | xI (xO xH) => "E"
  | xO (xI xH) => "F"
  | xI (xI xH) => "G"
  | xO (xO (xO p')) => String "a" (bits_of p')
  | xI (xO (xO p')) => String "b" (bits_of p')
  | xO (xI (xO p')) => String "c" (bits_of p')
  | xI (xI (xO p')) => String "d" (bits_of p')
  | xO (xO (xI p')) => String "e" (bits_of p')
  | xI (xO (xI p')) => String "f" (bits_of p')
  | xO (xI (xI p')) => String "g" (bits_of p')
  | xI (xI (xI p')) => String "h" (bits_of p')
  end.

Fixpoint of_bits (s : string) : positive :=
  match s with
  | EmptyString => xH
  | String c s' =>
      match c with
      | "B" => xO xH
      | "C" => xI xH
      | "D" => xO (xO xH)
      | "E" => xI (xO xH)
      | "F" => xO (xI xH)
      | "G" => xI (xI xH)
      | "a" => xO (xO (xO (of_bits s')))
      | "b" => xI (xO (xO (of_bits s')))
      | "c" => xO (xI (xO (of_bits s')))
      | "d" => xI (xI (xO (of_bits s')))
      | "e" => xO (xO (xI (of_bits s')))
      | "f" => xI (xO (xI (of_bits s')))
      | "g" => xO (xI (xI (of_bits s')))
      | "h" => xI (xI (xI (of_bits s')))
      | _ => xH
      end%char
  end.

Lemma of_bits_of : ∀ p, of_bits (bits_of p) = p.
Proof.
  fix IH 1. intros p.
  destruct p as [[[p|p|]|[p|p|]|]|[[p|p|]|[p|p|]|]|]; simpl; try reflexivity; do 3 f_equal; apply IH.
Qed.

Definition sample_text (v : value) : string :=
  match v with VNil => "null" | _ => String "{" (bits_of (encode v)) end.

Definition sample_parse (s : string) : value :=
  match s with
  | String "{" s' => default VNil (decode (of_bits s'))
  | _ => VNil
  end.

Lemma sample_parse_text v : sample_parse (sample_text v) = v.
Proof.
  assert (∀ s, sample_parse (String "{" s) = default VNil (decode (of_bits s))) as Hp by done.
  unfold sample_text. destruct v; [done|..];
    rewrite Hp, of_bits_of, decode_encode; done.
Qed.

Definition sample_time : TimeLib := {|
  time_Format t := bits_of (encode (t_sec t, t_nsec t, t_offset t));
  time_Parse s := (λ '(a, b, c), mkTime a b c) <$> decode (A := Z * Z * Z) (of_bits s);
|}.

Definition sample_json : JsonLib := {|
  json_Marshal v := Ok (sample_text (json_norm (@time_Format sample_time) v));
  json_Unmarshal s :=
    let v := sample_parse s in
    if Z.of_nat (json_depth v) <=? json_max_depth then Ok v else Err json_depth_error;
  jcs_Format v := Ok (sample_text v);
|}.

Lemma sample_time_laws : TimeLaws sample_time.
Proof.
  constructor. intros t _. exists t. simpl. rewrite of_bits_of, decode_encode. by destruct t.
Qed.

Lemma sample_json_laws : JsonLaws sample_time sample_json.
Proof.
  constructor; simpl.
  - intros v s _ [= <-]. by rewrite sample_parse_text, json_norm_depth.
  - done.
  - intros m s [= <-]. eauto.
  - intros m. split; [by intros _ k v _|done].
  - done.
Qed.

Lemma sample_jcs_laws : JcsLaws sample_time sample_json.
Proof.
  constructor. simpl. intros v w c _ _ _ _ [= <-] [= E].
  by rewrite <- (sample_parse_text v), <- (sample_parse_text w), E.
Qed.
