(* ===== verification/Logging.v ===== *)
(** * internal/logging: levelled JSON logging

    [internal/logging/logger.go]: the five entry points, the level filter with
    its [sync.Once], and the line each accepted call writes.  The standard
    logger is the list of lines it has printed.  The environment variable and
    the clock are arguments of a call; encoding an entry, quoting and lower
    casing are parameters. *)
From S2P Require Import Prelude Assert Models.
Definition levelDebug : Z := 0.
Definition levelInfo : Z := 1.
Definition levelWarn : Z := 2.
Definition levelError : Z := 3.
Definition levelCritical : Z := 4.

Record Fields := mkFields {
  lf_RequestID : string;
  lf_TaskID : string;
  lf_Method : string;
  lf_PolicyID : string;
  lf_RiskLevel : string;
  lf_EventID : string;
  lf_RunID : string;
  lf_Component : string;
  lf_Error : string;
}.

Record entry := mkEntry {
  en_Timestamp : string;
  en_Level : string;
  en_Message : string;
  en_Fields : Fields;
}.

(** [json.Marshal] at the type [entry], [strings.ToLower], the verb [%q],
    [time.Now().UTC()] formatted, and the header package log writes before a
    line when its flags are not zero. *)
Class LogLib := {
  marshal_entry : entry → outcome string;
  strings_ToLower : string → string;
  quote : string → string;
  format_UTC : Time → string;
  log_header : Z → Time → string;
}.

(** The package variables, and the flags and the output of the standard logger,
    oldest line first. *)
Record Logger := mkLogger {
  levelOnce : bool;
  minLevel : Z;
  log_flags : Z;
  log_lines : list string;
}.

(** [log.LstdFlags]: the date and the time. *)
Definition LstdFlags : Z := 3.

(** A process before its packages are initialised. *)
Definition new_logger : Logger := mkLogger false levelInfo LstdFlags [].

(** What a call reads from its environment: the variable, the time of the entry
    and the time package log reads when it writes the line. *)
Record log_env := mkLogEnv { le_var : string; le_now : Time; le_stamp : Time }.

Section Logging.
Context `{AssertMode} `{LogLib}.

(** [init]: neither the default logger nor the standard output is nil. *)
Definition init_ : M Logger unit :=
  checked true "default logger must not be nil" tt (
  checked true "stdout must not be nil" tt (
  modify (λ l, mkLogger (levelOnce l) (minLevel l) 0 (log_lines l)))).

Definition too_long (what s : string) : string :=
  what +:+ pretty (N.of_nat (String.length s)).

Definition levelValue (level : string) : outcome Z :=
  check_or (nonempty level) "log level must not be empty" levelInfo (
  check_or (String.length level <=? 16)%nat (too_long "log level too long: " level) levelInfo (
  Ok (if String.eqb level "debug" then levelDebug
      else if String.eqb level "info" then levelInfo
      else if String.eqb level "warn" then levelWarn
      else if String.eqb level "error" then levelError
      else if String.eqb level "critical" then levelCritical
      else levelInfo))).

(** [levelOnce.Do]: the function runs once, and a panic in it counts as a run. *)
Definition init_level (env : log_env) : M Logger unit := λ l,
  if levelOnce l then (Ok tt, l) else
  let envLevel := strings_ToLower (le_var env) in
  let envLevel := if String.eqb envLevel "" then "info" else envLevel in
  match levelValue envLevel with
  | Ok v => (Ok tt, mkLogger true v (log_flags l) (log_lines l))
  | Err e => (Err e, mkLogger true (minLevel l) (log_flags l) (log_lines l))
  | Panic e => (Panic e, mkLogger true (minLevel l) (log_flags l) (log_lines l))
  end.

Definition shouldLog (env : log_env) (level : string) : M Logger bool :=
  checked (nonempty level) "log level must not be empty" false (
  checked (String.length level <=? 16)%nat (too_long "log level too long: " level) false (
  init_level env;;
  l ← get;
  v ← lift (levelValue level);
  mret (minLevel l <=? v))).

(** [log.Println]. *)
Definition print_line (now : Time) (s : string) : M Logger unit := modify (λ l,
  let line := if log_flags l =? 0 then s else log_header (log_flags l) now +:+ s in
  mkLogger (levelOnce l) (minLevel l) (log_flags l) (log_lines l ++ [line])).

Definition logWithLevel (env : log_env) (level fieldsMsg : string) (fields : Fields) : M Logger unit :=
  checked (nonempty level) "log level must not be empty" tt (
  checked (nonempty fieldsMsg) "log message must not be empty" tt (
  should ← shouldLog env level;
  if negb should then mret tt else
  let out := mkEntry (format_UTC (le_now env)) level fieldsMsg fields in
  match marshal_entry out with
  | Ok payload => print_line (le_stamp env) payload
  | Err e =>
      print_line (le_stamp env) (dquoted "{'level':'error','msg':'log_marshal_failed','error':" +:+ quote (Error e) +:+ "}")
  | Panic e => lift (Panic e)
  end)).

(** The five entry points. *)
Definition log_at (level : string) (env : log_env) (msg : string) (fields : Fields) : M Logger unit :=
  checked (nonempty msg) "log message must not be empty" tt (
  checked (String.length msg <=? 2048)%nat (too_long "log message too large: " msg) tt (
  logWithLevel env level msg fields)).

Definition Debug := log_at "debug".
Definition Info := log_at "info".
Definition Warn := log_at "warn".
Definition LogError := log_at "error".
Definition Critical := log_at "critical".

(** ** The level filter *)

(** The level names in increasing order. *)
Definition level_names : list string := ["debug"; "info"; "warn"; "error"; "critical"].

(** The rank of a level name, an unknown one ranking as [info]. *)
Definition rank (level : string) : Z :=
  from_option (λ p, Z.of_nat p.1) levelInfo (list_find (level =.) level_names).

(** The level the variable [LOGRYPH_LOG_LEVEL] asks for. *)
Definition threshold (var : string) : Z := rank (strings_ToLower var).

Lemma levelValue_rank level : level ≠ "" → (String.length level ≤ 16)%nat →
  levelValue level = Ok (rank level).
Proof.
  intros Hn%nonempty_true Hl%Nat.leb_le. unfold levelValue, check_or. rewrite Hn, Hl, !Check_true.
  f_equal. unfold rank, level_names.
  repeat match goal with
  | |- context [String.eqb level ?s] =>
      destruct (String.eqb_spec level s) as [->|?]; [reflexivity|]
  end.
  cbn [list_find]. by rewrite !decide_False by done.
Qed.

(** A call of one of the entry points. *)
Record log_call := mkLogCall {
  lc_level : string;
  lc_env : log_env;
  lc_msg : string;
  lc_fields : Fields;
}.

Definition run_call (c : log_call) : M Logger unit :=
  log_at (lc_level c) (lc_env c) (lc_msg c) (lc_fields c).

Fixpoint run_calls (cs : list log_call) : M Logger unit :=
  match cs with
  | [] => mret tt
  | c :: cs' => run_call c;; run_calls cs'
  end.

(** The line a call writes, if its level reaches [min]. *)
Definition line_of (min : Z) (c : log_call) : option string :=
  if min <=? rank (lc_level c) then
    match marshal_entry (mkEntry (format_UTC (le_now (lc_env c))) (lc_level c) (lc_msg c) (lc_fields c)) with
    | Ok s => Some s
    | _ => None
    end
  else None.

Record call_ok (c : log_call) : Prop := {
  co_level : lc_level c ∈ level_names;
  co_nonempty : lc_msg c ≠ "";
  co_length : (String.length (lc_msg c) ≤ 2048)%nat;
  co_marshal : is_ok (marshal_entry (mkEntry (format_UTC (le_now (lc_env c))) (lc_level c)
                 (lc_msg c) (lc_fields c))) = true;
}.

Lemma level_name_ok level : level ∈ level_names → level ≠ "" ∧ (String.length level ≤ 16)%nat.
Proof.
  assert (Forall (λ s, s ≠ "" ∧ (String.length s ≤ 16)%nat) level_names) as Hf
    by (repeat constructor; discriminate).
  by rewrite Forall_forall in Hf; apply Hf.
Qed.

(** The threshold a logger works with once it has been called in [var]. *)
Definition settled (var : string) (l : Logger) : Z :=
  if levelOnce l then minLevel l else threshold var.

Lemma init_level_spec env l :
  levelOnce l = true ∨ (String.length (strings_ToLower (le_var env)) ≤ 16)%nat →
  init_level env l = (Ok tt, mkLogger true (settled (le_var env) l) (log_flags l) (log_lines l)).
Proof.
  intros Hl. unfold init_level, settled, threshold. destruct l as [[] m fl ls]; [done|]. cbn [levelOnce log_lines].
  destruct Hl as [[=]|Hl].
  destruct (String.eqb_spec (strings_ToLower (le_var env)) "") as [E|E].
  - by rewrite E, levelValue_rank by (done || simpl; lia).
  - by rewrite levelValue_rank by done.
Qed.

Lemma run_call_spec c l : call_ok c → log_flags l = 0 →
  levelOnce l = true ∨ (String.length (strings_ToLower (le_var (lc_env c))) ≤ 16)%nat →
  run_call c l =
    (Ok tt, let min := settled (le_var (lc_env c)) l in
            mkLogger true min 0 (log_lines l ++ option_list (line_of min c))).
Proof.
  intros [(Hn & Hl)%level_name_ok Hm Hlen Hok] Hfl Hv.
  apply nonempty_true in Hn as Hn', Hm. apply Nat.leb_le in Hl as Hl', Hlen.
  unfold run_call, log_at, logWithLevel, shouldLog, checked. rewrite Hm, Hlen, Hn', Hl', !Check_true.
  unfold mbind, M_bind. rewrite (init_level_spec _ _ Hv). rewrite Hfl. unfold get, lift, line_of. cbn [minLevel].
  rewrite levelValue_rank by done. unfold mret, M_ret. cbn [negb].
  destruct (_ <=? rank _); cbn [negb option_list]; [|by rewrite app_nil_r].
  by destruct (marshal_entry _).
Qed.

Lemma run_calls_settled cs l : Forall call_ok cs → levelOnce l = true → log_flags l = 0 →
  run_calls cs l = (Ok tt, mkLogger true (minLevel l) 0 (log_lines l ++ omap (line_of (minLevel l)) cs)).
Proof.
  intros Hcs. revert l. induction Hcs as [|c cs Hc _ IH]; intros l Hl Hfl.
  - destruct l. cbn in Hl, Hfl |- *. by rewrite Hl, Hfl, app_nil_r.
  - cbn [run_calls]. unfold mbind, M_bind. rewrite (run_call_spec c l) by auto.
    unfold settled. rewrite Hl, IH by done. cbn [minLevel log_lines omap list_omap].
    rewrite <- app_assoc. by destruct (line_of (minLevel l) c).
Qed.

(** The level filter.  In a new process, once the package is initialised
    and lines carry no header of package log, the first call fixes the
    threshold from its environment variable, unknown names counting as
    [info]; from then on every call, in order and whatever the variable holds
    later, writes its entry exactly when its level ranks at least as high. *)
Theorem log_calls_filtered c cs :
  Forall call_ok (c :: cs) → (String.length (strings_ToLower (le_var (lc_env c))) ≤ 16)%nat →
  let min := threshold (le_var (lc_env c)) in
  (init_;; run_calls (c :: cs)) new_logger = (Ok tt, mkLogger true min 0 (omap (line_of min) (c :: cs))).
Proof.
  intros [Hc Hcs]%Forall_cons Hv min. cbn [run_calls]. unfold mbind, M_bind.
  unfold init_, checked. rewrite !Check_true. unfold modify at 1.
  rewrite run_call_spec by (done || by right). rewrite run_calls_settled by done.
  unfold settled. cbn [levelOnce new_logger log_lines minLevel]. fold min.
  simpl. by destruct (line_of min c).
Qed.

End Logging.
