(* ===== verification/Sha256.v ===== *)
(** * crypto/sha256 and encoding/hex

    Executable definitions of the two standard-library functions the ledger's
    hash chain is built from: SHA-256 (FIPS 180-4) on byte strings, and
    lowercase hexadecimal encoding with its decoder.  Byte slices and strings
    are both [string]. *)
From S2P Require Import Prelude.
From Stdlib Require Export Ascii.

Local Open Scope N_scope.

Definition bytes_of (s : string) : list N := N_of_ascii <$> String.list_ascii_of_string s.
Definition of_bytes (l : list N) : string := String.string_of_list_ascii (ascii_of_N <$> l).

Definition mask32 : N := 4294967295.
Definition add32 (a b : N) : N := N.land (a + b) mask32.
Definition rotr (n x : N) : N := N.lor (N.shiftr x n) (N.land (N.shiftl x (32 - n)) mask32).
Definition not32 (x : N) : N := N.lxor x mask32.

Definition ch (x y z : N) : N := N.lxor (N.land x y) (N.land (not32 x) z).
Definition maj (x y z : N) : N := N.lxor (N.lxor (N.land x y) (N.land x z)) (N.land y z).
Definition bsig0 (x : N) : N := N.lxor (N.lxor (rotr 2 x) (rotr 13 x)) (rotr 22 x).
Definition bsig1 (x : N) : N := N.lxor (N.lxor (rotr 6 x) (rotr 11 x)) (rotr 25 x).
Definition ssig0 (x : N) : N := N.lxor (N.lxor (rotr 7 x) (rotr 18 x)) (N.shiftr x 3).
Definition ssig1 (x : N) : N := N.lxor (N.lxor (rotr 17 x) (rotr 19 x)) (N.shiftr x 10).

(** The constants are the first 32 bits of the fractional parts of the cube and
    square roots of the first primes. *)
Definition is_prime (p : N) : bool :=
  forallb (λ d, negb (p mod N.of_nat d =? 0)) (seq 2 (N.to_nat p - 2)).

Definition first_primes : list N := filter (λ p, is_prime p) (N.of_nat <$> seq 2 310).

(** The integer part of the [k]-th root of [n], found bit by bit. *)
Fixpoint root_from (bits : nat) (k n r : N) : N :=
  match bits with
  | O => r
  | S b =>
      let r' := r + N.shiftl 1 (N.of_nat b) in
      root_from b k n (if r' ^ k <=? n then r' else r)
  end.

Definition root_fraction (k p : N) : N :=
  N.land (root_from 40 k (N.shiftl p (32 * k)) 0) mask32.

Definition round_constants : list N := Eval vm_compute in root_fraction 3 <$> first_primes.

Record hstate := mkH { ha : N; hb : N; hc : N; hd : N; he : N; hf : N; hg : N; hh : N }.

Definition initial_state : hstate := Eval vm_compute in
  match root_fraction 2 <$> first_primes with
  | a :: b :: c :: d :: e :: f :: g :: h :: _ => mkH a b c d e f g h
  | _ => mkH 0 0 0 0 0 0 0 0
  end.

(** The message schedule, most recent word first. *)
Definition next_word (w : list N) : N :=
  let at_ i := default 0 (w !! i) in
  add32 (add32 (ssig1 (at_ 1%nat)) (at_ 6%nat)) (add32 (ssig0 (at_ 14%nat)) (at_ 15%nat)).

Fixpoint extend (n : nat) (w : list N) : list N :=
  match n with
  | O => w
  | S n' => extend n' (next_word w :: w)
  end.

Definition compress_round (s : hstate) (kw : N * N) : hstate :=
  let t1 := add32 (add32 (add32 (hh s) (bsig1 (he s))) (ch (he s) (hf s) (hg s)))
              (add32 kw.1 kw.2) in
  let t2 := add32 (bsig0 (ha s)) (maj (ha s) (hb s) (hc s)) in
  mkH (add32 t1 t2) (ha s) (hb s) (hc s) (add32 (hd s) t1) (he s) (hf s) (hg s).

Fixpoint words_of (l : list N) : list N :=
  match l with
  | a :: b :: c :: d :: l' =>
      (N.shiftl a 24 + N.shiftl b 16 + N.shiftl c 8 + d) :: words_of l'
  | _ => []
  end.

Definition compress (s : hstate) (block : list N) : hstate :=
  let w := reverse (extend 48 (reverse (words_of block))) in
  let s' := foldl compress_round s (zip round_constants w) in
  mkH (add32 (ha s) (ha s')) (add32 (hb s) (hb s')) (add32 (hc s) (hc s')) (add32 (hd s) (hd s'))
      (add32 (he s) (he s')) (add32 (hf s) (hf s')) (add32 (hg s) (hg s')) (add32 (hh s) (hh s')).

Definition be_bytes (n : nat) (x : N) : list N :=
  (λ i, N.land (N.shiftr x (8 * N.of_nat i)) 255) <$> reverse (seq 0 n).

(** A one bit, zeros up to 56 modulo 64, and the length in bits. *)
Definition pad (l : list N) : list N :=
  let n := length l in
  let z := (Nat.modulo (119 - Nat.modulo n 64) 64)%nat in
  l ++ [128] ++ replicate z 0 ++ be_bytes 8 (8 * N.of_nat n).

Fixpoint blocks (fuel : nat) (l : list N) : list (list N) :=
  match fuel, l with
  | S fuel', _ :: _ => take 64 l :: blocks fuel' (drop 64 l)
  | _, _ => []
  end.

Definition digest_bytes (s : hstate) : list N :=
  be_bytes 4 (ha s) ++ be_bytes 4 (hb s) ++ be_bytes 4 (hc s) ++ be_bytes 4 (hd s) ++
  be_bytes 4 (he s) ++ be_bytes 4 (hf s) ++ be_bytes 4 (hg s) ++ be_bytes 4 (hh s).

Definition sha256 (msg : string) : string :=
  let l := pad (bytes_of msg) in
  of_bytes (digest_bytes (foldl compress initial_state (blocks (length l) l))).

(** ** Hexadecimal *)

Definition hex_digit (n : N) : ascii := ascii_of_N (if n <? 10 then 48 + n else 87 + n).

Fixpoint hex_EncodeToString (s : string) : string :=
  match s with
  | EmptyString => EmptyString
  | String a s' =>
      String (hex_digit (N.shiftr (N_of_ascii a) 4))
        (String (hex_digit (N.land (N_of_ascii a) 15)) (hex_EncodeToString s'))
  end.

Definition hex_value (a : ascii) : option N :=
  let n := N_of_ascii a in
  if (48 <=? n) && (n <=? 57) then Some (n - 48)
  else if (97 <=? n) && (n <=? 102) then Some (n - 87)
  else if (65 <=? n) && (n <=? 70) then Some (n - 55)
  else None.

Fixpoint hex_DecodeString (s : string) : outcome string :=
  match s with
  | EmptyString => Ok EmptyString
  | String a EmptyString =>
      match hex_value a with
      | Some _ => Err (ENew "encoding/hex: odd length hex string")
      | None => Err (ENew "encoding/hex: invalid byte")
      end
  | String a (String b s') =>
      match hex_value a, hex_value b with
      | Some x, Some y =>
          match hex_DecodeString s' with
          | Ok r => Ok (String (ascii_of_N (16 * x + y)) r)
          | o => o
          end
      | _, _ => Err (ENew "encoding/hex: invalid byte")
      end
  end.

(** ** Test vectors *)

Example sha256_abc :
  hex_EncodeToString (sha256 "abc") =
  "ba7816bf8f01cfea414140de5dae2223b00361a396177a9cb410ff61f20015ad".
Proof. vm_compute. reflexivity. Qed.

Example sha256_two_blocks :
  hex_EncodeToString (sha256 "abcdbcdecdefdefgefghfghighijhijkijkljklmklmnlmnomnopnopq") =
  "248d6a61d20638b8e5c026930c3e6039a33ce45964ff2167f6ecedd419db06c1".
Proof. vm_compute. reflexivity. Qed.

(** ** Lemmas *)

Lemma length_of_bytes l : String.length (of_bytes l) = length l.
Proof. unfold of_bytes. induction l; simpl; [done|]. by f_equal. Qed.

Lemma length_be_bytes n x : length (be_bytes n x) = n.
Proof. unfold be_bytes. by rewrite length_fmap, length_reverse, length_seq. Qed.

Lemma sha256_length msg : String.length (sha256 msg) = 32%nat.
Proof.
  unfold sha256. rewrite length_of_bytes. unfold digest_bytes.
  by rewrite !length_app, !length_be_bytes.
Qed.

Lemma hex_length s : String.length (hex_EncodeToString s) = (2 * String.length s)%nat.
Proof. induction s as [|a s IH]; [done|]. simpl. rewrite IH. lia. Qed.

Definition hex_byte_ok (a : ascii) : bool :=
  match hex_value (hex_digit (N.shiftr (N_of_ascii a) 4)),
        hex_value (hex_digit (N.land (N_of_ascii a) 15)) with
  | Some x, Some y => Ascii.eqb (ascii_of_N (16 * x + y)) a
  | _, _ => false
  end.

Lemma hex_byte_all a : hex_byte_ok a = true.
Proof. by destruct a as [[] [] [] [] [] [] [] []]. Qed.

(** Decoding undoes encoding. *)
Lemma hex_roundtrip s : hex_DecodeString (hex_EncodeToString s) = Ok s.
Proof.
  induction s as [|a s IH]; [done|]. simpl. rewrite IH.
  pose proof (hex_byte_all a) as Ha. unfold hex_byte_ok in Ha.
  repeat case_match; try done. by apply Ascii.eqb_eq in Ha as ->.
Qed.

Lemma hex_inj s1 s2 : hex_EncodeToString s1 = hex_EncodeToString s2 → s1 = s2.
Proof. intros E. pose proof (hex_roundtrip s1) as H. rewrite E, hex_roundtrip in H. by simplify_eq. Qed.

#[global] Arguments sha256 : simpl never.
#[global] Arguments hex_EncodeToString : simpl never.
#[global] Arguments hex_DecodeString : simpl never.
