(* ===== verification/Crypto.v ===== *)
(** * internal/crypto: event hashes and the Ed25519 signer

    [CalculateEventHash] of [internal/crypto/engine.go] and the [Signer] of
    [internal/crypto/signer.go] with the key file it loads, creates and
    rotates.  Ed25519 itself is an interface: its key generation, signing and
    verification are parameters, and the only law used is that a signature
    made with a generated key verifies under that key's public half. *)
From S2P Require Import Prelude Assert Models Sha256.
(** ** engine.go *)

Section Engine.
Context `{AssertMode} `{JsonLib}.

Definition is_nil (v : value) : bool := match v with VNil => true | _ => false end.

Definition CalculateEventHash (prevHash : string) (payload : value) : outcome string :=
  Check (nonempty prevHash) "prev_hash must be non-empty";;
  Check (negb (count_char "0"%char prevHash =? 64)%nat || String.eqb prevHash (repeat_char "0"%char 64))
    "invalid prev_hash format";;
  Check (negb (is_nil payload)) "payload must not be nil";;
  jsonBytes ← match json_Marshal payload with
              | Err e => Check false ("json marshal failed: " +:+ Error e);; Ok ""
              | o => o
              end;
  normalized ← match json_Unmarshal jsonBytes with
               | Err e => Check false ("json unmarshal failed: " +:+ Error e);; Err e
               | o => o
               end;
  canonicalJSON ← jcs_Format normalized;
  Ok (hex_EncodeToString (sha256 (prevHash +:+ canonicalJSON))).

End Engine.

(** ** signer.go *)

(** Ed25519: private keys are 64 bytes, the last 32 of them the public key. *)
Class Ed25519 := {
  ed_NewKeyFromSeed : string → string;
  ed_Sign : string → string → string;
  ed_Verify : string → string → string → bool;
}.

Definition PrivateKeySize : nat := 64.

(** [privateKey.Public()]. *)
Definition ed_Public (priv : string) : string := String.substring 32 32 priv.

Class Ed25519Laws (E : Ed25519) : Prop := {
  ed_key_size seed : String.length (ed_NewKeyFromSeed seed) = PrivateKeySize;
  ed_sign_size k m : String.length (ed_Sign k m) = 64%nat;
  ed_verify_sign seed m :
    ed_Verify (ed_Public (ed_NewKeyFromSeed seed)) m (ed_Sign (ed_NewKeyFromSeed seed) m) = true;
}.

Record Signer := mkSigner { privateKey : string; publicKey : string }.

(** The files of the working directory, by path. *)
Abbreviation files := (gmap string string).

(** A failed [os.WriteFile]: its error, and what it leaves in the file. *)
Record write_fault := mkWriteFault { wf_error : error; wf_left : option string }.

Section SignerOps.
Context `{Ed25519}.

(** [ed25519.GenerateKey(rand.Reader)]: the seed read from the entropy
    source, or the error of reading it. *)
Definition GenerateKey (entropy : outcome string) : outcome (string * string) :=
  seed ← entropy;
  let priv := ed_NewKeyFromSeed seed in Ok (ed_Public priv, priv).

(** [os.ReadFile], which may fail on a file that is there. *)
Definition os_ReadFile (fault : option error) (path : string) (fs : files) : outcome string :=
  match fault with
  | Some e => Err e
  | None =>
      match fs !! path with
      | Some data => Ok data
      | None => Err (ENew ("open " +:+ path +:+ ": no such file or directory"))
      end
  end.

Definition loadPrivateKey (read : option error) (path : string) (fs : files) : outcome string :=
  match os_ReadFile read path fs with
  | Err e => Err e
  | Panic e => Panic e
  | Ok data =>
      match hex_DecodeString data with
      | Err e => Err (EWrap "decoding key" e)
      | Panic e => Panic e
      | Ok keyBytes =>
          if (String.length keyBytes =? PrivateKeySize)%nat then Ok keyBytes
          else Err (ENew ("invalid key size: expected " +:+ pretty (N.of_nat PrivateKeySize)
                       +:+ ", got " +:+ pretty (N.of_nat (String.length keyBytes))))
      end
  end.

Definition savePrivateKey (path key : string) (w : option write_fault) : M files unit := λ fs,
  match w with
  | None => (Ok tt, <[path := hex_EncodeToString key]> fs)
  | Some f => (Err (wf_error f), partial_alter (λ _, wf_left f) path fs)
  end.

Definition NewSigner (keyPath : string) (entropy : outcome string) (read : option error)
    (w : option write_fault) : M files Signer :=
  fs ← get;
  match loadPrivateKey read keyPath fs with
  | Err _ =>
      '(pub, priv) ← wrap "generating keypair" (lift (GenerateKey entropy));
      wrap "saving private key" (savePrivateKey keyPath priv w);;
      mret (mkSigner priv pub)
  | Panic e => lift (Panic e)
  | Ok priv => mret (mkSigner priv (ed_Public priv))
  end.

Definition SignHash (s : Signer) (hash : string) : outcome string :=
  Ok (hex_EncodeToString (ed_Sign (privateKey s) hash)).

Definition GetPublicKey (s : Signer) : string := hex_EncodeToString (publicKey s).

(** The receiver is updated in place: the state is the signer and the files. *)
Definition RotateKey (keyPath : string) (entropy : outcome string) (w : option write_fault) :
    M (Signer * files) (string * string) :=
  '(s, _) ← get;
  let oldPubKey := GetPublicKey s in
  '(pub, priv) ← wrap "generating new keypair" (lift (GenerateKey entropy));
  wrap "saving rotated key"
    (λ '(s, fs), let r := savePrivateKey keyPath priv w fs in (r.1, (s, r.2)));;
  modify (λ '(_, fs), (mkSigner priv pub, fs));;
  '(s', _) ← get;
  mret (oldPubKey, GetPublicKey s').

Definition VerifySignature (s : Signer) (hash signatureHex : string) : bool :=
  match hex_DecodeString signatureHex with
  | Ok signature => ed_Verify (publicKey s) hash signature
  | _ => false
  end.

(** A signer as [NewSigner] and [RotateKey] make them: a key pair generated
    from some seed. *)
Definition signer_ok (s : Signer) : Prop :=
  ∃ seed, s = mkSigner (ed_NewKeyFromSeed seed) (ed_Public (ed_NewKeyFromSeed seed)).

(** The key file holds the signer's private key. *)
Definition key_stored (keyPath : string) (s : Signer) (fs : files) : Prop :=
  fs !! keyPath = Some (hex_EncodeToString (privateKey s)).

Context {laws : Ed25519Laws _}.

Lemma verify_signed s h sig : signer_ok s → SignHash s h = Ok sig →
  VerifySignature s h sig = true.
Proof.
  intros [seed ->] [= <-]. unfold VerifySignature. rewrite hex_roundtrip. apply ed_verify_sign.
Qed.

Lemma SignHash_nonempty s h sig : SignHash s h = Ok sig → sig ≠ "".
Proof.
  intros [= <-] E. apply (f_equal String.length) in E.
  by rewrite hex_length, ed_sign_size in E.
Qed.

Lemma load_stored keyPath s fs : signer_ok s → key_stored keyPath s fs →
  loadPrivateKey None keyPath fs = Ok (privateKey s).
Proof.
  intros [seed ->] Hs. unfold loadPrivateKey, os_ReadFile. rewrite Hs, hex_roundtrip. simpl.
  by rewrite ed_key_size.
Qed.

End SignerOps.

Section Facts.
Context `{AssertMode} `{JsonLib} `{Ed25519} {laws : Ed25519Laws _}.

(** The two assertions on the previous hash. *)
Definition prev_ok (prev : string) : bool :=
  nonempty prev &&
  (negb (count_char "0"%char prev =? 64)%nat || String.eqb prev (repeat_char "0"%char 64)).

Lemma CalculateEventHash_iff prev p h : CalculateEventHash prev p = Ok h ↔
  prev_ok prev = true ∧ is_nil p = false ∧ ∃ s v c, json_Marshal p = Ok s ∧
    json_Unmarshal s = Ok v ∧ jcs_Format v = Ok c ∧
    h = hex_EncodeToString (sha256 (prev +:+ c)).
Proof.
  unfold prev_ok. split.
  - unfold CalculateEventHash. intros E. inv_ok.
    repeat match goal with
    | Hc : Check _ _ = Ok _ |- _ => apply Check_ok in Hc
    | Hc : _ = true |- _ => rewrite Hc
    end.
    split; [done|]. split; [by destruct (is_nil p)|]. simplify_eq.
    destruct (json_Marshal p) as [s| |] eqn:Hm; simplify_eq; inv_ok;
      [|by match goal with Hf : Check false _ = _ |- _ => apply Check_ok in Hf end].
    match goal with Hu : match json_Unmarshal ?s with _ => _ end = _ |- _ =>
      destruct (json_Unmarshal s) as [v| |] eqn:Hv; simplify_eq; inv_ok end; [|done].
    eauto 10.
  - intros (Hp & Hn & s & v & c & Hm & Hu & Hj & ->). apply andb_true_iff in Hp as [Hp1 Hp2].
    unfold CalculateEventHash. rewrite Hp1, Hp2, Hn, Hm. simpl. unfold mbind, outcome_bind.
    by rewrite Hu, Hj.
Qed.

Lemma CalculateEventHash_ok prev p h : CalculateEventHash prev p = Ok h →
  prev ≠ "" ∧ ∃ s v c, json_Marshal p = Ok s ∧ json_Unmarshal s = Ok v ∧
    jcs_Format v = Ok c ∧ h = hex_EncodeToString (sha256 (prev +:+ c)).
Proof.
  intros (Hp & _ & ?)%CalculateEventHash_iff. split; [|done].
  apply andb_true_iff in Hp as [Hp _]. by apply nonempty_true.
Qed.

Lemma hash_length prev p h : CalculateEventHash prev p = Ok h → String.length h = 64%nat.
Proof.
  intros (_ & s & v & c & _ & _ & _ & ->)%CalculateEventHash_ok.
  by rewrite hex_length, sha256_length.
Qed.

Lemma hash_nonempty prev p h : CalculateEventHash prev p = Ok h → h ≠ "".
Proof. intros Hh%hash_length ->. done. Qed.

End Facts.

#[export] Hint Resolve hash_nonempty SignHash_nonempty verify_signed : logryph.

(** ** Theorems *)

Section SignerTheorems.
Context `{AssertMode} `{Ed25519} {laws : Ed25519Laws _}.

(** When no usable key file exists, or it cannot be read, [NewSigner] generates a
    key and saves it; every later [NewSigner] on the resulting files, whatever its
    entropy, loads that same signer and writes nothing, and what the signer
    signs, it verifies. *)
Theorem NewSigner_restart keyPath seed read ent' w' fs e s fs' :
  loadPrivateKey read keyPath fs = Err e →
  NewSigner keyPath (Ok seed) read None fs = (Ok s, fs') →
  NewSigner keyPath ent' None w' fs' = (Ok s, fs') ∧
  (∀ q, q ≠ keyPath → fs' !! q = fs !! q) ∧
  (∀ h sig, SignHash s h = Ok sig → VerifySignature s h sig = true).
Proof.
  unfold NewSigner. go_unfold. intros ->. intros [= <- <-].
  set (s := mkSigner _ _). assert (signer_ok s) as Hok by by exists seed.
  assert (key_stored keyPath s (<[keyPath:=hex_EncodeToString (privateKey s)]> fs)) as Hst.
  { apply lookup_insert_eq. }
  split_and!.
  - by rewrite (load_stored _ s).
  - intros q Hq. by apply lookup_insert_ne.
  - eauto with logryph.
Qed.

(** The key pair of a seed. *)
Definition keypair (seed : string) : Signer :=
  mkSigner (ed_NewKeyFromSeed seed) (ed_Public (ed_NewKeyFromSeed seed)).

(** [RotateKey] either fails and leaves the signer as it was, or
    returns the old and the new public key, installs the key pair of the entropy
    it read and stores it in the key file; no other file changes either way. *)
Lemma RotateKey_spec keyPath (entropy : outcome string) w s fs :
  is_panic entropy = false →
  let r := RotateKey keyPath entropy w (s, fs) in
  (∀ q, q ≠ keyPath → r.2.2 !! q = fs !! q) ∧
  match r.1 with
  | Ok (old, new) =>
      old = GetPublicKey s ∧ new = GetPublicKey r.2.1 ∧
      (∃ seed, entropy = Ok seed ∧ r.2.1 = keypair seed) ∧ key_stored keyPath r.2.1 r.2.2 ∧ w = None
  | Err _ => r.2.1 = s ∧ (is_ok entropy = false ∨ w ≠ None)
  | Panic _ => False
  end.
Proof.
  intros Hp. unfold RotateKey, GenerateKey. go_unfold.
  destruct entropy as [seed|e|e]; simpl in *; [|naive_solver|done].
  destruct w as [f|]; simpl.
  - split; [|naive_solver]. intros q Hq. by rewrite lookup_partial_alter_ne.
  - split; [intros q Hq; by rewrite lookup_insert_ne|].
    split_and!; try done; [by exists seed|]. apply lookup_insert_eq.
Qed.

End SignerTheorems.

(** An Ed25519 instance with the documented key and signature sizes, whose
    signatures any holder of the public key can recompute: it satisfies the
    laws and lets the development be evaluated. *)
Definition sample_ed : Ed25519 := {|
  ed_NewKeyFromSeed seed := sha256 seed +:+ sha256 (sha256 seed);
  ed_Sign k m := sha256 (ed_Public k +:+ m) +:+ sha256 m;
  ed_Verify pub m sig := String.eqb sig (sha256 (pub +:+ m) +:+ sha256 m);
|}.

Lemma sample_ed_laws : Ed25519Laws sample_ed.
Proof.
  constructor; unfold sample_ed, ed_NewKeyFromSeed, ed_Sign, ed_Verify; intros.
  - by rewrite string_app_length, !sha256_length.
  - by rewrite string_app_length, !sha256_length.
  - by apply String.eqb_eq.
Qed.

Lemma NewSigner_restart_witness :
  let _ := {| StrictMode := true |} in
  let _ := sample_ed in
  let k := ed_NewKeyFromSeed "seed" in
  let s := mkSigner k (ed_Public k) in
  let fs' := {[".logryph_key" := hex_EncodeToString k]} : files in
  NewSigner ".logryph_key" (Ok "seed") None None ∅ = (Ok s, fs') ∧
  NewSigner ".logryph_key" (Err (ENew "no entropy")) None None fs' = (Ok s, fs').
Proof.
  intros m E k s fs'.
  assert (NewSigner ".logryph_key" (Ok "seed") None None ∅ = (Ok s, fs')) as H1
    by (vm_compute; reflexivity).
  split; [exact H1|].
  apply (NewSigner_restart (laws := sample_ed_laws) ".logryph_key" "seed" None
           (Err (ENew "no entropy")) None ∅
           (ENew "open .logryph_key: no such file or directory") s fs');
    [vm_compute; reflexivity|exact H1].
Defined.
