(* ===== verification/Repository.v ===== *)
(** * internal/ledger: the storage interface

    [EventRepository] of [internal/ledger/interface.go], with the statistics
    records, as a class of operations over an abstract state; and the laws the
    ledger's core needs of an implementation, stated over the abstract view of
    a store as one event log per run. *)
From S2P Require Import Prelude Assert Models.
Record RunStats := mkRunStats {
  rs_RunID : string;
  TotalEvents : Z;
  CallCount : Z;
  BlockedCount : Z;
  RiskBreakdown : gmap string Z;
}.

Record GlobalStats := mkGlobalStats {
  gs_TotalRuns : Z;
  gs_TotalEvents : Z;
  CriticalCount : Z;
}.

Class EventRepository (St : Type) := {
  StoreEvent : Event → M St unit;
  InsertRun : string → string → string → string → M St unit;
  GetLastEvent : string → M St (Z * string);
  GetEventByID : string → M St Event;
  GetAllEvents : string → M St (list Event);
  GetRecentEvents : string → Z → M St (list Event);
  GetEventsByTaskID : string → M St (list Event);
  GetRiskEvents : M St (list Event);
  HasRuns : M St bool;
  GetRunID : M St string;
  GetRunInfo : string → M St (string * string * string);
  GetRunStats : string → M St RunStats;
  GetGlobalStats : M St GlobalStats;
  Close : M St unit;
}.

(** The number of rows a reader returns at most. *)
Definition maxEventRows : Z := 100000.

(** A map after a round trip through its JSON column: empty and [null] text,
    and text that does not decode to an object, leave it nil. *)
Definition map_of_text `{JsonLib} (s : string) : gomap :=
  if String.eqb s "" || String.eqb s "null" then None else
  match json_Unmarshal s with
  | Ok (VObj m) => Some m
  | _ => None
  end.

Definition text_of_map `{JsonLib} (m : gomap) : string :=
  match json_Marshal (of_gomap m) with Ok s => s | _ => "" end.

(** An event as [GetAllEvents] reads it back after [StoreEvent] wrote it. *)
Definition reread `{TimeLib} `{JsonLib} (e : Event) : Event :=
  mkEvent (ID e) (RunID e) (SeqIndex e)
    (default zeroTime (time_Parse (time_Format (Timestamp e))))
    (Actor e) (EventType e) (Method e)
    (map_of_text (text_of_map (Params e))) (map_of_text (text_of_map (Response e)))
    (TaskID e) (TaskState e) (ParentID e) (PolicyID e) (RiskLevel e)
    (PrevHash e) (CurrentHash e) (Signature e) false.

(** ** What a repository promises

    [run_log s r] is the log of run [r], oldest event first; [repo_ok] holds
    of the stores whose logs are numbered from zero without gaps. A call that
    does not succeed changes no log. *)
Class RepositoryLaws (St : Type) `{TimeLib} `{JsonLib} `{EventRepository St} := {
  run_log : St → string → list Event;
  repo_ok : St → Prop;

  repo_ok_seq s r i e : repo_ok s → run_log s r !! i = Some e → SeqIndex e = Z.of_nat i;
  repo_ok_hash s r i e : repo_ok s → run_log s r !! i = Some e → CurrentHash e ≠ "";

  StoreEvent_ok e s s' : repo_ok s → StoreEvent e s = (Ok tt, s') →
    SeqIndex e = Z.of_nat (length (run_log s (RunID e))) →
    repo_ok s' ∧ run_log s' (RunID e) = run_log s (RunID e) ++ [reread e] ∧
    ∀ r, r ≠ RunID e → run_log s' r = run_log s r;
  StoreEvent_fail e s o s' : repo_ok s → StoreEvent e s = (o, s') → o ≠ Ok tt →
    repo_ok s' ∧ run_log s' = run_log s;

  InsertRun_log id agent hash key s o s' : repo_ok s → InsertRun id agent hash key s = (o, s') →
    repo_ok s' ∧ run_log s' = run_log s;
  HasRuns_log s o s' : repo_ok s → HasRuns s = (o, s') → repo_ok s' ∧ run_log s' = run_log s;
  GetRunID_log s o s' : repo_ok s → GetRunID s = (o, s') → repo_ok s' ∧ run_log s' = run_log s;
  Close_log s o s' : repo_ok s → Close s = (o, s') → repo_ok s' ∧ run_log s' = run_log s;
  GetRunStats_log r s o s' : repo_ok s → GetRunStats r s = (o, s') →
    repo_ok s' ∧ run_log s' = run_log s ∧
    ∀ st, o = Ok st → TotalEvents st = Z.of_nat (length (run_log s r));
  GetLastEvent_log r s o s' : repo_ok s → GetLastEvent r s = (o, s') →
    repo_ok s' ∧ run_log s' = run_log s ∧
    ∀ i h, o = Ok (i, h) →
      match last (run_log s r) with
      | None => i = 0 ∧ h = ""
      | Some e => i = SeqIndex e ∧ h = CurrentHash e
      end;
  GetAllEvents_log r s o s' : repo_ok s → GetAllEvents r s = (o, s') →
    repo_ok s' ∧ run_log s' = run_log s ∧
    ∀ es, o = Ok es → es = take (Z.to_nat maxEventRows) (run_log s r);
}.
