(* ===== verification/Store.v ===== *)
(** * internal/ledger/store: the SQLite store

    The [DB] of [internal/ledger/store]: the [runs] and [events] tables as
    lists of rows in insertion order, and one definition per method of
    [events.go], [runs.go] and [stats.go], with the meaning of its SQL.  The
    driver may fail any call, closing the database included: [db_faults] lists, in
    call order, the error of each call to it (none once the list is exhausted).
    Opening and closing the database also change its files.  The [events.id] and
    [runs.id] primary keys are enforced; the foreign key is not, as SQLite
    leaves it off by default.  The store is shown to satisfy the laws of
    [Repository]. *)
From S2P Require Import Prelude Assert Models Repository.
(** A row of the [events] table. *)
Record EventRow := mkEventRow {
  r_id : string;
  r_run_id : string;
  r_seq_index : Z;
  r_timestamp : string;
  r_actor : string;
  r_event_type : string;
  r_method : string;
  r_params : string;
  r_response : string;
  r_task_id : string;
  r_task_state : string;
  r_parent_id : string;
  r_policy_id : string;
  r_risk_level : string;
  r_prev_hash : string;
  r_current_hash : string;
  r_signature : string;
}.

(** A row of the [runs] table; [started_at] is the insertion time in seconds. *)
Record RunRow := mkRunRow {
  run_id : string;
  run_agent_name : string;
  run_started_at : Z;
  run_genesis_hash : string;
  run_pub_key : string;
}.

Record DB := mkDB {
  db_runs : list RunRow;
  db_events : list EventRow;
  db_now : Z;
  db_closed : bool;
  db_faults : list (option error);
}.

Definition set_faults (f : list (option error)) (db : DB) : DB :=
  mkDB (db_runs db) (db_events db) (db_now db) (db_closed db) f.
Definition add_event (r : EventRow) (db : DB) : DB :=
  mkDB (db_runs db) (db_events db ++ [r]) (db_now db) (db_closed db) (db_faults db).
Definition add_run (r : RunRow) (db : DB) : DB :=
  mkDB (db_runs db ++ [r]) (db_events db) (db_now db) (db_closed db) (db_faults db).

(** One call to the driver. *)
Definition sql_call : M DB unit := λ db,
  if db_closed db then (Err (ENew "sql: database is closed"), db) else
  match db_faults db with
  | [] => (Ok tt, db)
  | None :: f => (Ok tt, set_faults f db)
  | Some e :: f => (Err e, set_faults f db)
  end.

(** The result of an [Exec]: go-sqlite3 notes the number of rows the statement
    changed, and its [RowsAffected] returns it without an error. *)
Record sql_result := mkSqlResult { res_changes : Z }.

Definition RowsAffected (res : sql_result) : outcome Z := Ok (res_changes res).

(** [rows, err := res.RowsAffected(); if err != nil || rows != 1 { ... }]. *)
Definition one_row (failed : string) (res : sql_result) : M DB unit :=
  match RowsAffected res with
  | Ok rows => if rows =? 1 then mret tt else fail (ENew (failed +:+ pretty rows))
  | Err _ => fail (ENew (failed +:+ "0"))
  | Panic e => lift (Panic e)
  end.

Module SQLite.
Section Store.
Context `{AssertMode} `{TimeLib} `{JsonLib}.

(** ** events.go *)

(** The driver refuses an unsigned argument of 2^63 or more. *)
Definition InsertEvent (row : EventRow) : M DB unit :=
  lift (Check (nonempty (r_id row)) "event id must not be empty");;
  lift (Check (nonempty (r_run_id row)) "run id must not be empty");;
  lift (Check (nonempty (r_current_hash row)) "current hash must not be empty");;
  lift (Check (nonempty (r_signature row)) "signature must not be empty");;
  res ← wrap "inserting event"
    (sql_call;;
     if 2 ^ 63 <=? r_seq_index row
     then fail (ENew "sql: converting argument $3 type: uint64 values with high bit set are not supported")
     else
     db ← get;
     if existsb (λ r, String.eqb (r_id r) (r_id row)) (db_events db)
     then fail (ENew "UNIQUE constraint failed: events.id")
     else put (add_event row db);; mret (mkSqlResult 1));
  one_row "failed to insert event: rows affected = " res.

Definition StoreEvent (event : Event) : M DB unit :=
  paramsBytes ← wrap "marshaling params" (lift (json_Marshal (of_gomap (Params event))));
  responseBytes ← wrap "marshaling response" (lift (json_Marshal (of_gomap (Response event))));
  InsertEvent (mkEventRow (ID event) (RunID event) (SeqIndex event)
    (time_Format (Timestamp event)) (Actor event) (EventType event) (Method event)
    paramsBytes responseBytes (TaskID event) (TaskState event) (ParentID event)
    (PolicyID event) (RiskLevel event) (PrevHash event) (CurrentHash event) (Signature event)).

(** [WHERE run_id = ?]. *)
Definition of_run (runID : string) (rows : list EventRow) : list EventRow :=
  List.filter (λ r, String.eqb (r_run_id r) runID) rows.

Definition seq_asc (a b : EventRow) : bool := r_seq_index a <=? r_seq_index b.
Definition seq_desc (a b : EventRow) : bool := r_seq_index b <=? r_seq_index a.

Definition GetLastEvent (runID : string) : M DB (Z * string) :=
  lift (Check (nonempty runID) "runID must not be empty");;
  wrap "querying last event" sql_call;;
  db ← get;
  match head (sort_by seq_desc (of_run runID (db_events db))) with
  | None => mret (0, "")
  | Some r => mret (r_seq_index r, r_current_hash r)
  end.

(** A query that returns rows, with its three points of failure: the query
    itself, the iteration ([rows.Err()], asserted to be nil), and closing the
    rows, whose error replaces a successful result. *)
Definition query_rows {A} (qctx cctx rowsmsg : string) (rows : DB → list A) : M DB (list A) :=
  (if String.eqb qctx "" then sql_call else wrap qctx sql_call);;
  db ← get;
  let rs := take (Z.to_nat maxEventRows) (rows db) in
  try sql_call (λ r, match r with
    | inl _ => mret tt
    | inr e => lift (Check false (rowsmsg +:+ Error e))
    end);;
  wrap cctx sql_call;;
  mret rs.

(** The loop body of [GetAllEvents]: timestamp and JSON columns decoded. *)
Definition event_of_row (r : EventRow) : Event :=
  mkEvent (r_id r) (r_run_id r) (r_seq_index r)
    (default zeroTime (time_Parse (r_timestamp r)))
    (r_actor r) (r_event_type r) (r_method r)
    (map_of_text (r_params r)) (map_of_text (r_response r))
    (r_task_id r) (r_task_state r) (r_parent_id r) (r_policy_id r) (r_risk_level r)
    (r_prev_hash r) (r_current_hash r) (r_signature r) false.

Definition GetAllEvents (runID : string) : M DB (list Event) :=
  lift (Check (nonempty runID) "runID must not be empty");;
  rs ← query_rows "querying events" "closing events rows" "get all events rows error: "
         (λ db, sort_by seq_asc (of_run runID (db_events db)));
  mret (event_of_row <$> rs).

(** The other readers scan the timestamp and JSON columns and drop them. *)
Definition event_of_row_brief (r : EventRow) : Event :=
  mkEvent (r_id r) (r_run_id r) (r_seq_index r) zeroTime
    (r_actor r) (r_event_type r) (r_method r) None None
    (r_task_id r) (r_task_state r) (r_parent_id r) (r_policy_id r) (r_risk_level r)
    (r_prev_hash r) (r_current_hash r) (r_signature r) false.

Definition GetRecentEvents (runID : string) (limit : Z) : M DB (list Event) :=
  lift (Check (nonempty runID) "runID must not be empty");;
  lift (Check (0 <? limit) "limit must be positive");;
  rs ← query_rows "querying recent events" "closing recent events rows"
         "recent events rows error: "
         (λ db, take (Z.to_nat limit) (sort_by seq_desc (of_run runID (db_events db))));
  mret (event_of_row_brief <$> rs).

Definition GetEventByID (eventID : string) : M DB Event :=
  lift (Check (nonempty eventID) "eventID must not be empty");;
  wrap "querying event" (
    sql_call;;
    db ← get;
    match List.find (λ r, String.eqb (r_id r) eventID) (db_events db) with
    | None => fail (ENew "sql: no rows in result set")
    | Some r => mret (event_of_row_brief r)
    end).

Definition GetEventsByTaskID (taskID : string) : M DB (list Event) :=
  lift (Check (nonempty taskID) "taskID must not be empty");;
  rs ← query_rows "querying task events" "closing task events rows" "task events rows error: "
         (λ db, sort_by seq_asc (List.filter (λ r, String.eqb (r_task_id r) taskID) (db_events db)));
  mret (event_of_row_brief <$> rs).

(** [GetRiskEvents] also drops the task columns. *)
Definition event_of_row_risk (r : EventRow) : Event :=
  mkEvent (r_id r) (r_run_id r) (r_seq_index r) zeroTime
    (r_actor r) (r_event_type r) (r_method r) None None
    "" "" (r_parent_id r) (r_policy_id r) (r_risk_level r)
    (r_prev_hash r) (r_current_hash r) (r_signature r) false.

Definition is_risky (r : EventRow) : bool :=
  String.eqb (r_risk_level r) "high" || String.eqb (r_risk_level r) "critical".

Definition GetRiskEvents : M DB (list Event) :=
  rs ← query_rows "" "closing risk events rows" "risk events rows error: "
         (λ db, sort_by (λ a b, String.leb (r_timestamp b) (r_timestamp a))
                  (List.filter is_risky (db_events db)));
  mret (event_of_row_risk <$> rs).

(** [SELECT DISTINCT], first occurrences in row order. *)
Fixpoint distinct (seen : list string) (l : list string) : list string :=
  match l with
  | [] => []
  | x :: l' => if existsb (String.eqb x) seen then distinct seen l'
               else x :: distinct (x :: seen) l'
  end.

Definition GetUniqueTasks : M DB (list string) :=
  query_rows "" "closing unique tasks rows" "unique tasks rows error: "
    (λ db, distinct [] (r_task_id <$> List.filter (λ r, nonempty (r_task_id r)) (db_events db))).

(** ** runs.go *)

Definition InsertRun (id agentName genesisHash ledgerPubKey : string) : M DB unit :=
  lift (Check (nonempty id) "run id must not be empty");;
  lift (Check (nonempty agentName) "agent name must not be empty");;
  lift (Check (nonempty genesisHash) "genesis hash must not be empty");;
  lift (Check (nonempty ledgerPubKey) "ledger pub key must not be empty");;
  res ← wrap "inserting run"
    (sql_call;;
     db ← get;
     if existsb (λ r, String.eqb (run_id r) id) (db_runs db)
     then fail (ENew "UNIQUE constraint failed: runs.id")
     else put (add_run (mkRunRow id agentName (db_now db) genesisHash ledgerPubKey) db);; mret (mkSqlResult 1));
  one_row "failed to insert run: rows affected = " res.

Definition HasRuns : M DB bool :=
  wrap "checking runs" sql_call;;
  db ← get;
  mret (0 <? Z.of_nat (length (db_runs db))).

Definition GetRunID : M DB string :=
  wrap "querying run ID" sql_call;;
  db ← get;
  match head (sort_by (λ a b, run_started_at b <=? run_started_at a) (db_runs db)) with
  | None => mret ""
  | Some r => mret (run_id r)
  end.

Definition GetRunInfo (runID : string) : M DB (string * string * string) :=
  lift (Check (nonempty runID) "runID must not be empty");;
  wrap "querying run info" (
    sql_call;;
    db ← get;
    match List.find (λ r, String.eqb (run_id r) runID) (db_runs db) with
    | None => fail (ENew "sql: no rows in result set")
    | Some r => mret (run_agent_name r, run_genesis_hash r, run_pub_key r)
    end).

(** ** stats.go *)

Definition count_rows (p : EventRow → bool) (rows : list EventRow) : Z :=
  Z.of_nat (length (List.filter p rows)).

(** [GROUP BY risk_level], groups in key order. *)
Definition risk_groups (rows : list EventRow) : list (string * Z) :=
  (λ k, (k, count_rows (λ r, String.eqb (r_risk_level r) k) rows)) <$>
  sort_by String.leb (distinct [] (r_risk_level <$> List.filter (λ r, nonempty (r_risk_level r)) rows)).

Definition maxRiskLevels : nat := 32.

Definition GetRunStats (runID : string) : M DB RunStats :=
  lift (Check (nonempty runID) "runID must not be empty");;
  sql_call;;
  db ← get;
  let rows := of_run runID (db_events db) in
  let total := Z.of_nat (length rows) in
  let blocked := count_rows (λ r, String.eqb (r_event_type r) "blocked") rows in
  let calls := count_rows (λ r, String.eqb (r_event_type r) "tool_call") rows in
  sql_call;;
  let breakdown := list_to_map (take maxRiskLevels (risk_groups rows)) in
  try sql_call (λ r, match r with
    | inl _ => mret tt
    | inr e => lift (Check false ("risk breakdown rows error: " +:+ Error e))
    end);;
  wrap "closing risk breakdown rows" sql_call;;
  mret (mkRunStats runID total calls blocked breakdown).

Definition GetGlobalStats : M DB GlobalStats :=
  sql_call;;
  db ← get;
  let runs := Z.of_nat (length (db_runs db)) in
  sql_call;;
  let events := Z.of_nat (length (db_events db)) in
  sql_call;;
  mret (mkGlobalStats runs events
          (count_rows (λ r, String.eqb (r_risk_level r) "critical") (db_events db))).

(** ** sqlite.go *)

(** [conn.Exec] at opening: when it fails, the connection is closed, which may
    fail as well. *)
Definition exec_or_close {A} (what : string) (exec close : option error) (k : outcome A) : outcome A :=
  match exec with
  | None => k
  | Some e =>
      match close with
      | Some ce => Err (EWrap (what +:+ ": " +:+ Error e +:+ "; closing database") ce)
      | None => Err (EWrap what e)
      end
  end.

(** What opening a database takes from its environment: the failures of its
    steps; the handle [sql.Open] gives on the tables in the file, or its error; and
    what SQLite leaves in the database's files, by suffix, once the database has
    been opened and once it has been closed. *)
Record open_env := mkOpenEnv {
  oe_mkdir : option error;
  oe_conn : outcome DB;
  oe_wal : option error;
  oe_schema : option error;
  oe_close : option error;
  oe_disk : string → option string;
  oe_disk_closed : string → option string;
}.

(** The files of a database in WAL mode. *)
Definition db_suffixes : list string := [""; "-wal"; "-shm"].

Definition db_paths (dbPath : string) : list string := String.append dbPath <$> db_suffixes.

Definition touch (dbPath : string) (disk : string → option string) (fs : gmap string string) : gmap string string :=
  foldr (λ suffix, partial_alter (λ _, disk suffix) (dbPath +:+ suffix)) fs db_suffixes.

(** [sql.Open] creates nothing; the first statement does.  The schema only creates
    tables that do not exist. *)
Definition NewDB (dbPath : string) (env : open_env) : M (gmap string string) DB := λ fs,
  match oe_mkdir env with
  | Some e => (Err (EWrap "creating database directory" e), fs)
  | None =>
      match oe_conn env with
      | Err e => (Err (EWrap "opening database" e), fs)
      | Panic e => (Panic e, fs)
      | Ok db =>
          (exec_or_close "enabling WAL mode" (oe_wal env) (oe_close env) (
           exec_or_close "executing schema" (oe_schema env) (oe_close env) (Ok db)),
           touch dbPath (oe_disk env) fs)
      end
  end.

(** [db.conn.Close()]: the handle is closed whether or not closing the connections
    fails; closing again does nothing. *)
Definition Close : M DB unit := λ db,
  let closed f := mkDB (db_runs db) (db_events db) (db_now db) true f in
  if db_closed db then (Ok tt, db) else
  match db_faults db with
  | [] => (Ok tt, closed [])
  | None :: f => (Ok tt, closed f)
  | Some e :: f => (Err e, closed f)
  end.

(** A database that opens. *)
Definition opens (env : open_env) (d : DB) : Prop :=
  oe_mkdir env = None ∧ oe_conn env = Ok d ∧ oe_wal env = None ∧ oe_schema env = None.

Lemma NewDB_opens dbPath env d fs : opens env d →
  NewDB dbPath env fs = (Ok d, touch dbPath (oe_disk env) fs).
Proof. intros (Hm & Hc & Hw & Hs). unfold NewDB, exec_or_close. by rewrite Hm, Hc, Hw, Hs. Qed.

(** ** Reading leaves the tables alone *)

Definition same_tables (db db' : DB) : Prop :=
  db_events db' = db_events db ∧ db_runs db' = db_runs db.

Definition reads {A} (m : M DB A) : Prop := ∀ db, same_tables db (m db).2.

Lemma reads_call : reads sql_call.
Proof. intros db. unfold sql_call. repeat case_match; done. Qed.

Lemma reads_lift {A} (o : outcome A) : reads (lift o).
Proof. done. Qed.

Lemma reads_get : reads get.
Proof. done. Qed.

Lemma reads_bind {A B} (m : M DB A) (f : A → M DB B) :
  reads m → (∀ a, reads (f a)) → reads (m ≫= f).
Proof.
  intros Hm Hf db. specialize (Hm db). unfold mbind, M_bind.
  destruct (m db) as [[a| |] db1]; try done.
  destruct Hm as [E1 E2], (Hf a db1) as [E3 E4]. simpl in *. split; congruence.
Qed.

Lemma reads_wrap {A} c (m : M DB A) : reads m → reads (wrap c m).
Proof. intros Hm db. specialize (Hm db). unfold wrap. by destruct (m db) as [[] ?]. Qed.

Lemma reads_try {A B} (m : M DB A) (k : A + error → M DB B) :
  reads m → (∀ a, reads (k a)) → reads (try m k).
Proof.
  intros Hm Hk db. specialize (Hm db). unfold try.
  destruct (m db) as [[a|e|] db1]; try done; simpl in *.
  - destruct Hm, (Hk (inl a) db1). split; congruence.
  - destruct Hm, (Hk (inr e) db1). split; congruence.
Qed.

Lemma reads_if {A} (b : bool) (m m' : M DB A) :
  reads m → reads m' → reads (if b then m else m').
Proof. by destruct b. Qed.

Create HintDb reads.
Hint Resolve reads_call reads_lift reads_get reads_bind reads_wrap reads_try reads_if : reads.
Hint Extern 2 (reads (mret _)) => apply (reads_lift (Ok _)) : reads.
Hint Extern 2 (reads (fail _)) => apply (reads_lift (Err _)) : reads.
Hint Extern 3 (reads (match ?x with _ => _ end)) => destruct x : reads.
Ltac solve_reads := repeat (intros; first [progress eauto 3 with reads | apply reads_bind]).

Lemma reads_query {A} q c r (rows : DB → list A) : reads (query_rows q c r rows).
Proof. unfold query_rows. solve_reads. Qed.
Hint Resolve reads_query : reads.

Lemma reads_Close : reads Close.
Proof. intros db. unfold Close. repeat case_match; done. Qed.

Lemma reads_one_row failed res : reads (one_row failed res).
Proof. unfold one_row. solve_reads. Qed.

Lemma reads_GetRunStats r : reads (GetRunStats r).
Proof. unfold GetRunStats. solve_reads. Qed.

Lemma reads_GetLastEvent r : reads (GetLastEvent r).
Proof. unfold GetLastEvent. solve_reads. Qed.

Lemma reads_GetAllEvents r : reads (GetAllEvents r).
Proof. unfold GetAllEvents. solve_reads. Qed.

Lemma reads_HasRuns : reads HasRuns.
Proof. unfold HasRuns. solve_reads. Qed.

Lemma reads_GetRunID : reads GetRunID.
Proof. unfold GetRunID. solve_reads. Qed.

(** ** The invariant of the tables

    The rows of each run, in insertion order, are numbered from zero. *)

Definition dense (rows : list EventRow) : Prop :=
  ∀ i r, rows !! i = Some r → r_seq_index r = Z.of_nat i ∧ r_current_hash r ≠ "".

Definition tables_ok (db : DB) : Prop := ∀ run, dense (of_run run (db_events db)).

Definition log_of (db : DB) (run : string) : list Event :=
  event_of_row <$> of_run run (db_events db).

Lemma same_tables_ok db db' : same_tables db db' → tables_ok db → tables_ok db'.
Proof. intros [E _] Ht run. rewrite E. apply Ht. Qed.

Lemma same_tables_log db db' : same_tables db db' → log_of db' = log_of db.
Proof. intros [E _]. unfold log_of. by rewrite E. Qed.

Lemma dense_sorted rows : dense rows → StronglySorted (λ a b, seq_asc a b = true) rows.
Proof.
  intros Hd. assert (∀ i j a b, rows !! i = Some a → rows !! j = Some b → (i < j)%nat →
    seq_asc a b = true) as Hs.
  { intros i j a b Ha Hb Hij. apply Hd in Ha as [Ha _], Hb as [Hb _].
    unfold seq_asc. apply Z.leb_le. lia. }
  clear Hd. induction rows as [|a rows IH]; constructor.
  - apply IH. intros i j x y Hx Hy Hij. apply (Hs (S i) (S j)); auto with lia.
  - apply Forall_forall. intros b (j & Hj)%list_elem_of_lookup.
    apply (Hs 0%nat (S j)); auto with lia.
Qed.

Lemma dense_snoc rows r : dense rows → r_seq_index r = Z.of_nat (length rows) →
  r_current_hash r ≠ "" → dense (rows ++ [r]).
Proof.
  intros Hd Hr Hh i r' [Hi|[Hi E]]%lookup_app_Some; [by apply Hd|].
  apply list_lookup_singleton_Some in E as [? <-]. split; [lia|done].
Qed.

Lemma seq_desc_total a b : seq_desc a b = true ∨ seq_desc b a = true.
Proof. unfold seq_desc. rewrite !Z.leb_le. lia. Qed.

Lemma seq_desc_trans a b c : seq_desc a b = true → seq_desc b c = true → seq_desc a c = true.
Proof. unfold seq_desc. rewrite !Z.leb_le. lia. Qed.

(** [ORDER BY seq_index DESC LIMIT 1] finds the last row inserted. *)
Lemma dense_last rows : dense rows → head (sort_by seq_desc rows) = last rows.
Proof.
  intros Hd. destruct (last rows) as [r|] eqn:Hl.
  - destruct (head (sort_by seq_desc rows)) as [x|] eqn:Hx.
    + apply sort_by_head in Hx as [Hin Hmax];
        [|apply seq_desc_total|apply seq_desc_trans].
      apply list_elem_of_lookup in Hin as [i Hi].
      rewrite last_lookup in Hl. pose proof (lookup_lt_Some _ _ _ Hi).
      destruct (Hmax r) as [->|Hge]; [by eapply list_elem_of_lookup_2|done|].
      unfold seq_desc in Hge. apply Z.leb_le in Hge.
      destruct (Hd _ _ Hi), (Hd _ _ Hl).
      assert (i = pred (length rows)) by lia. congruence.
    + apply head_None in Hx. pose proof (sort_by_length seq_desc rows) as E.
      rewrite Hx in E. by destruct rows.
  - apply last_None in Hl as ->. done.
Qed.

Lemma query_rows_ok {A} q c m (rows : DB → list A) db rs db' :
  (∀ d d', same_tables d d' → rows d' = rows d) →
  query_rows q c m rows db = (Ok rs, db') → rs = take (Z.to_nat maxEventRows) (rows db).
Proof.
  intros Hr E. unfold query_rows in E. apply M_bind_ok in E as (u & d1 & E1 & E).
  assert (same_tables db d1) as Hs.
  { change d1 with (Ok u, d1).2. rewrite <- E1.
    assert (reads (if String.eqb q "" then sql_call else wrap q sql_call)) as Hq by eauto with reads.
    apply Hq. }
  inv_ok. unfold get, mret, M_ret in *. simplify_eq. by rewrite (Hr db).
Qed.

Lemma of_run_app run rows r :
  of_run run (rows ++ [r]) = of_run run rows ++ (if String.eqb (r_run_id r) run then [r] else []).
Proof. unfold of_run. by rewrite List.filter_app. Qed.

(** What a successful or failed insertion leaves. *)
Lemma InsertEvent_inv row db o db' : InsertEvent row db = (o, db') →
  (o = Ok tt ∧ r_id row ≠ "" ∧ r_current_hash row ≠ "" ∧
     (∀ r, r ∈ db_events db → r_id r ≠ r_id row) ∧
     db_events db' = db_events db ++ [row] ∧ db_runs db' = db_runs db) ∨
  (o ≠ Ok tt ∧ same_tables db db').
Proof.
  unfold InsertEvent. intros E.
  repeat (apply M_bind_inv in E as [(? & ? & [= ? <-] & E)|[(? & [= ? <-] & ->)|(? & [= ? <-] & ->)]];
          [|by right..]).
  unfold mbind at 1, M_bind at 1, wrap in E. pose proof (reads_call db) as Hr. unfold mbind at 1, M_bind at 1 in E.
  destruct (sql_call db) as [[[]|e|e] d1]; simpl in Hr; simplify_eq; [|by right..].
  destruct (2 ^ 63 <=? r_seq_index row); [simpl in E; simplify_eq; by right|].
  unfold mbind, M_bind, get, fail, put, mret, M_ret, one_row, RowsAffected in E. destruct Hr as [He Hrs].
  destruct (existsb _ _) eqn:Hx; simplify_eq; [by right|]. injection E as <- <-. left.
  repeat match goal with Hc : Check _ _ = Ok _ |- _ => apply Check_ok, nonempty_true in Hc end.
  simpl. rewrite He, Hrs. split_and!; try done.
  intros r Hin Heq. rewrite <- He in Hin. apply not_true_iff_false in Hx. apply Hx.
  apply existsb_exists. exists r. rewrite <- list_elem_of_In. split; [done|].
  by apply String.eqb_eq.
Qed.

Lemma InsertRun_events id agent hash key db o db' :
  InsertRun id agent hash key db = (o, db') → db_events db' = db_events db.
Proof.
  unfold InsertRun. intros E.
  repeat (apply M_bind_inv in E as [(? & ? & [= ? <-] & E)|[(? & [= ? <-] & ->)|(? & [= ? <-] & ->)]];
          [|done..]).
  unfold mbind at 1, M_bind at 1, wrap in E. pose proof (reads_call db) as [He _]. unfold mbind at 1, M_bind at 1 in E.
  destruct (sql_call db) as [[[]|e|e] d1]; simpl in He; simplify_eq; [|done..].
  unfold mbind, M_bind, get, fail, put, mret, M_ret, one_row, RowsAffected in E.
  destruct (existsb _ _); simplify_eq; [done|]. by injection E as <- <-.
Qed.

Definition row_of (e : Event) : EventRow :=
  mkEventRow (ID e) (RunID e) (SeqIndex e) (time_Format (Timestamp e)) (Actor e) (EventType e)
    (Method e) (text_of_map (Params e)) (text_of_map (Response e)) (TaskID e) (TaskState e)
    (ParentID e) (PolicyID e) (RiskLevel e) (PrevHash e) (CurrentHash e) (Signature e).

Lemma event_of_row_of e : event_of_row (row_of e) = reread e.
Proof. done. Qed.

Lemma StoreEvent_inv e db o db' : StoreEvent e db = (o, db') →
  (o = Ok tt ∧ ID e ≠ "" ∧ CurrentHash e ≠ "" ∧
     is_ok (json_Marshal (of_gomap (Params e))) = true ∧
     is_ok (json_Marshal (of_gomap (Response e))) = true ∧
     db_events db' = db_events db ++ [row_of e] ∧ db_runs db' = db_runs db) ∨
  (o ≠ Ok tt ∧ same_tables db db').
Proof.
  unfold StoreEvent, row_of, text_of_map. intros E.
  unfold mbind at 1, M_bind at 1, wrap, lift in E.
  destruct (json_Marshal (of_gomap (Params e))) as [ps| |]; simplify_eq; [|by right..].
  unfold mbind at 1, M_bind at 1, wrap, lift in E.
  destruct (json_Marshal (of_gomap (Response e))) as [rs| |]; simplify_eq; [|by right..].
  apply InsertEvent_inv in E as [(? & ? & ? & ? & ? & ?)|?]; [left|by right]. done.
Qed.

Lemma tables_ok_store e db db' : tables_ok db →
  db_events db' = db_events db ++ [row_of e] → CurrentHash e ≠ "" →
  SeqIndex e = Z.of_nat (length (log_of db (RunID e))) →
  tables_ok db' ∧ log_of db' (RunID e) = log_of db (RunID e) ++ [reread e] ∧
  ∀ r, r ≠ RunID e → log_of db' r = log_of db r.
Proof.
  intros Ht E Hh Hs. unfold log_of in *. rewrite length_fmap in Hs. rewrite E. split_and!.
  - intros run. rewrite E, of_run_app. simpl. destruct (String.eqb_spec (RunID e) run) as [<-|].
    + by apply dense_snoc.
    + rewrite app_nil_r. apply Ht.
  - rewrite of_run_app. simpl. by rewrite String.eqb_refl, fmap_app.
  - intros r Hr. rewrite of_run_app. simpl.
    destruct (String.eqb_spec (RunID e) r); [congruence|]. by rewrite app_nil_r.
Qed.

Lemma GetRunStats_ok r db st db' : GetRunStats r db = (Ok st, db') →
  TotalEvents st = Z.of_nat (length (log_of db r)).
Proof.
  unfold GetRunStats. intros E. apply M_bind_ok in E as (? & ? & [= ? <-] & E).
  apply M_bind_ok in E as (u & d1 & E1 & E). pose proof (reads_call db) as Hs.
  rewrite E1 in Hs. destruct Hs as [Hs _]. inv_ok.
  unfold get, mret, M_ret in *. simplify_eq. simpl in *.
  unfold log_of. by rewrite length_fmap, Hs.
Qed.

Lemma GetLastEvent_ok r db i h db' : tables_ok db → GetLastEvent r db = (Ok (i, h), db') →
  match last (log_of db r) with
  | None => i = 0 ∧ h = ""
  | Some e => i = SeqIndex e ∧ h = CurrentHash e
  end.
Proof.
  unfold GetLastEvent. intros Ht E. apply M_bind_ok in E as (? & ? & [= ? <-] & E).
  apply M_bind_ok in E as (u & d1 & E1 & E).
  pose proof (reads_wrap "querying last event" _ reads_call db) as Hs.
  rewrite E1 in Hs. destruct Hs as [Hs _]. inv_ok.
  unfold get in *. simplify_eq. simpl in *. unfold log_of.
  rewrite <- Hs, fmap_last, <- dense_last by (rewrite Hs; apply Ht).
  destruct (head _) as [row|]; unfold mret, M_ret in *; simpl; by simplify_eq.
Qed.

Lemma GetAllEvents_ok r db es db' : tables_ok db → GetAllEvents r db = (Ok es, db') →
  es = take (Z.to_nat maxEventRows) (log_of db r).
Proof.
  unfold GetAllEvents. intros Ht E. apply M_bind_ok in E as (? & ? & [= ? <-] & E).
  apply M_bind_ok in E as (rs & d1 & E1 & E).
  apply query_rows_ok in E1; [|by intros d d' [-> _]]. unfold mret, M_ret in E. simplify_eq.
  rewrite sort_by_sorted by apply dense_sorted, Ht. unfold log_of. by rewrite fmap_take.
Qed.

Lemma reverse_sorted {A} (R : A → A → Prop) l : StronglySorted R l → StronglySorted (flip R) (reverse l).
Proof.
  induction 1 as [|x l Hl IH Hx]; [constructor|]. rewrite reverse_cons. apply StronglySorted_app_2; [|done|].
  - intros y z Hy Hz%list_elem_of_singleton. subst z. rewrite Forall_forall in Hx.
    apply Hx. by rewrite reverse_Permutation in Hy.
  - repeat constructor.
Qed.

(** [ORDER BY seq_index DESC] turns a run around. *)
Lemma dense_desc rows : dense rows → sort_by seq_desc rows = reverse rows.
Proof.
  intros Hd. apply (StronglySorted_unique_strong (λ a b, seq_desc a b = true)).
  - intros a b Ha%sort_by_elem Hb. rewrite reverse_Permutation in Hb. unfold seq_desc. rewrite !Z.leb_le. intros.
    apply list_elem_of_lookup in Ha as [i Hi], Hb as [j Hj].
    apply Hd in Hi as Hi', Hj as Hj'. assert (i = j) as -> by lia. congruence.
  - apply sort_by_strongly; [apply seq_desc_total|apply seq_desc_trans].
  - apply (reverse_sorted (λ a b, seq_asc a b = true)), dense_sorted, Hd.
  - by rewrite sort_by_perm, reverse_Permutation.
Qed.

Lemma GetRecentEvents_ok r limit db es db' : tables_ok db → limit ≤ maxEventRows →
  GetRecentEvents r limit db = (Ok es, db') →
  let rows := of_run r (db_events db) in
  reverse es = event_of_row_brief <$> drop (length rows - Z.to_nat limit) rows.
Proof.
  cbv zeta. unfold GetRecentEvents. intros Ht Hlim E. apply M_bind_ok in E as (? & ? & [= ? <-] & E).
  apply M_bind_ok in E as (? & ? & [= ? <-] & E). apply M_bind_ok in E as (rs & d1 & E1 & E).
  apply query_rows_ok in E1; [|by intros d d' [-> _]]. unfold mret, M_ret in E. simplify_eq.
  rewrite dense_desc by apply Ht.
  rewrite take_take, Nat.min_r by lia. by rewrite take_reverse, <- fmap_reverse, reverse_involutive.
Qed.

End Store.
End SQLite.

#[export] Instance DB_repository `{AssertMode} `{TimeLib} `{JsonLib} : EventRepository DB := {
  StoreEvent := SQLite.StoreEvent;
  InsertRun := SQLite.InsertRun;
  GetLastEvent := SQLite.GetLastEvent;
  GetEventByID := SQLite.GetEventByID;
  GetAllEvents := SQLite.GetAllEvents;
  GetRecentEvents := SQLite.GetRecentEvents;
  GetEventsByTaskID := SQLite.GetEventsByTaskID;
  GetRiskEvents := SQLite.GetRiskEvents;
  HasRuns := SQLite.HasRuns;
  GetRunID := SQLite.GetRunID;
  GetRunInfo := SQLite.GetRunInfo;
  GetRunStats := SQLite.GetRunStats;
  GetGlobalStats := SQLite.GetGlobalStats;
  Close := SQLite.Close;
}.

(** The SQLite store keeps the promises of the repository interface. *)
#[export] Program Instance DB_laws `{AssertMode} `{TimeLib} `{JsonLib} : RepositoryLaws DB := {
  run_log := SQLite.log_of;
  repo_ok := SQLite.tables_ok;
}.
Next Obligation.
  intros AM TL JL s r i e Hok. unfold SQLite.log_of. rewrite list_lookup_fmap, fmap_Some.
  intros (row & Hrow & ->). by apply Hok in Hrow as [? _].
Qed.
Next Obligation.
  intros AM TL JL s r i e Hok. unfold SQLite.log_of. rewrite list_lookup_fmap, fmap_Some.
  intros (row & Hrow & ->). by apply Hok in Hrow as [_ ?].
Qed.
Next Obligation.
  intros AM TL JL e s s' Hok [(_ & _ & ? & _ & _ & ? & _)|[? _]]%SQLite.StoreEvent_inv ?; [|done].
  by apply SQLite.tables_ok_store.
Qed.
Next Obligation.
  intros AM TL JL e s o s' Hok [(? & _)|[_ ?]]%SQLite.StoreEvent_inv ?; [done|].
  eauto using SQLite.same_tables_ok, SQLite.same_tables_log.
Qed.
Next Obligation.
  intros AM TL JL id agent hash key s o s' Hok E%SQLite.InsertRun_events.
  split; [intros run; rewrite E; apply Hok|]. unfold SQLite.log_of. by rewrite E.
Qed.
Next Obligation.
  intros AM TL JL s o s' Hok E. pose proof (SQLite.reads_HasRuns s) as Hs.
  simpl in E. rewrite E in Hs. eauto using SQLite.same_tables_ok, SQLite.same_tables_log.
Qed.
Next Obligation.
  intros AM TL JL s o s' Hok E. pose proof (SQLite.reads_GetRunID s) as Hs.
  simpl in E. rewrite E in Hs. eauto using SQLite.same_tables_ok, SQLite.same_tables_log.
Qed.
Next Obligation.
  intros AM TL JL s o s' Hok E. pose proof (SQLite.reads_Close s) as Hs.
  simpl in E. rewrite E in Hs. eauto using SQLite.same_tables_ok, SQLite.same_tables_log.
Qed.
Next Obligation.
  intros AM TL JL r s o s' Hok E. pose proof (SQLite.reads_GetRunStats r s) as Hs.
  simpl in E. rewrite E in Hs. simpl in Hs.
  split_and!; eauto using SQLite.same_tables_ok, SQLite.same_tables_log.
  intros st ->. by eapply SQLite.GetRunStats_ok.
Qed.
Next Obligation.
  intros AM TL JL r s o s' Hok E. pose proof (SQLite.reads_GetLastEvent r s) as Hs.
  simpl in E. rewrite E in Hs. simpl in Hs.
  split_and!; eauto using SQLite.same_tables_ok, SQLite.same_tables_log.
  intros i h ->. by eapply SQLite.GetLastEvent_ok.
Qed.
Next Obligation.
  intros AM TL JL r s o s' Hok E. pose proof (SQLite.reads_GetAllEvents r s) as Hs.
  simpl in E. rewrite E in Hs. simpl in Hs.
  split_and!; eauto using SQLite.same_tables_ok, SQLite.same_tables_log.
  intros es ->. by eapply SQLite.GetAllEvents_ok.
Qed.
