(* ===== verification/Pool.v ===== *)
(** * internal/pool: object pools for events and buffers

    [GetEvent], [PutEvent], [GetBuffer], [PutBuffer] and [GetMetrics] of
    [internal/pool/pool.go].  A [sync.Pool] hands out any object it holds, or
    a new one; it may also forget objects at any time.  Which object [Get]
    returns is an argument of the model.  A [bytes.Buffer] is a slice of a
    storage cell; resetting it keeps the cell and its bytes. *)
From S2P Require Import Prelude Assert Models.
Record Metrics := mkMetrics {
  EventHits : Z;
  EventMisses : Z;
  BufferHits : Z;
  BufferMisses : Z;
}.

Definition maxEventFields : nat := 256.
Definition maxBufferSize : Z := 1024 * 1024.

(** A [bytes.Buffer]: the storage cell behind it, how many bytes of it are
    unread, and its capacity. *)
Record GoBuffer := mkGoBuffer { buf_cell : nat; buf_len : nat; buf_cap : Z }.

(** The two pools, the bytes written to every storage cell so far, and the
    package's counters. *)
Record Pool := mkPool {
  pooled_events : list Event;
  pooled_buffers : list GoBuffer;
  storage : list string;
  globalMetrics : Metrics;
}.

Definition count_event (hits misses : Z) (p : Pool) : Pool :=
  let m := globalMetrics p in
  mkPool (pooled_events p) (pooled_buffers p) (storage p)
    (mkMetrics (u64 (EventHits m + hits)) (u64 (EventMisses m + misses)) (BufferHits m)
       (BufferMisses m)).

Definition count_buffer (hits misses : Z) (p : Pool) : Pool :=
  let m := globalMetrics p in
  mkPool (pooled_events p) (pooled_buffers p) (storage p)
    (mkMetrics (EventHits m) (EventMisses m) (u64 (BufferHits m + hits))
       (u64 (BufferMisses m + misses))).

Definition GetMetrics (p : Pool) : Metrics := globalMetrics p.

(** What the pool's [New] function allocates. *)
Definition new_event : Event :=
  mkEvent "" "" 0 zeroTime "" "" "" (Some ∅) None "" "" "" "" "" "" "" "" false.

(** [bytes.NewBuffer(make([]byte, 0, 4096))]: a new cell. *)
Definition new_buffer (p : Pool) : GoBuffer * Pool :=
  (mkGoBuffer (length (storage p)) 0 4096,
   mkPool (pooled_events p) (pooled_buffers p) (storage p ++ [""]) (globalMetrics p)).

Section Pool.
Context `{AssertMode}.

(** [pick = Some i]: the pool hands out its [i]-th object; otherwise, or when
    there is none, it calls [New]. *)
Definition GetEvent (pick : option nat) : M Pool Event := λ p,
  match i ← pick; e ← pooled_events p !! i; Some (i, e) with
  | Some (i, e) =>
      (Ok e, count_event 1 0 (mkPool (delete i (pooled_events p)) (pooled_buffers p)
                                (storage p) (globalMetrics p)))
  | None => (Ok new_event, count_event 1 0 (count_event 0 1 p))
  end.

(** The bounded loop that deletes one key of a map per round. *)
Fixpoint clear_loop (n : nat) (m : gomap) : gomap :=
  match n, m with
  | S n', Some m' =>
      match map_to_list m' with
      | [] => m
      | (k, _) :: _ => clear_loop n' (Some (delete k m'))
      end
  | _, _ => m
  end.

(** [PutEvent] on a non-nil event. [Timestamp.Truncate(0)] keeps the time. *)
Definition PutEvent (e : Event) : M Pool unit :=
  let params := Params e in
  let response := Response e in
  or_return (Check (map_len params <=? Z.of_nat maxEventFields)
          ("params map too large: " +:+ pretty (map_len params)))
  (or_return (Check (map_len response <=? Z.of_nat maxEventFields)
          ("response map too large: " +:+ pretty (map_len response)))
  (modify (λ p, mkPool
     (mkEvent "" "" 0 (Timestamp e) "" "" ""
        (clear_loop maxEventFields params) (clear_loop maxEventFields response)
        "" "" "" "" "" "" "" "" false :: pooled_events p)
     (pooled_buffers p) (storage p) (globalMetrics p)))).

Definition GetBuffer (pick : option nat) : M Pool GoBuffer := λ p,
  let p := count_buffer 1 0 p in
  match i ← pick; b ← pooled_buffers p !! i; Some (i, b) with
  | Some (i, b) =>
      (Ok b, mkPool (pooled_events p) (delete i (pooled_buffers p)) (storage p) (globalMetrics p))
  | None => let '(b, p') := new_buffer (count_buffer 0 1 p) in (Ok b, p')
  end.

Definition PutBuffer (b : GoBuffer) : M Pool unit :=
  if maxBufferSize <? buf_cap b then mret tt else
  or_return (Check (buf_cap b <=? maxBufferSize * 2)
          ("buffer grew dangerously large: cap=" +:+ pretty (buf_cap b)))
  (modify (λ p, mkPool (pooled_events p) (mkGoBuffer (buf_cell b) 0 (buf_cap b) :: pooled_buffers p)
                  (storage p) (globalMetrics p))).

(** ** No data survives the pool *)

Definition empty_map (m : gomap) : Prop := m = None ∨ m = Some ∅.

(** A recycled event: everything reset but the timestamp. *)
Definition clean (e : Event) : Prop :=
  empty_map (Params e) ∧ empty_map (Response e) ∧
  e = mkEvent "" "" 0 (Timestamp e) "" "" "" (Params e) (Response e)
        "" "" "" "" "" "" "" "" false.

Definition pool_clean (p : Pool) : Prop :=
  Forall clean (pooled_events p) ∧ Forall (λ b, buf_len b = 0%nat) (pooled_buffers p).

Lemma clear_loop_enough n m : map_len m ≤ Z.of_nat n → empty_map (clear_loop n m).
Proof.
  unfold empty_map. revert m. induction n as [|n IH]; intros [m|] Hn; simpl in *; auto.
  - right. f_equal. apply map_size_empty_inv. lia.
  - destruct (map_to_list m) as [|[k x] l] eqn:E.
    + right. f_equal. by apply map_to_list_empty_iff.
    + apply IH. simpl.
      assert (m !! k = Some x) as Hk. { apply elem_of_map_to_list. rewrite E. set_solver. }
      rewrite (map_size_delete_Some k m) by (by exists x). lia.
Qed.

Lemma clean_new : clean new_event.
Proof. unfold clean, empty_map. simpl. auto. Qed.

Lemma GetEvent_clean pick p : pool_clean p →
  ∃ e p', GetEvent pick p = (Ok e, p') ∧ clean e ∧ pool_clean p'.
Proof.
  intros [He Hb]. unfold GetEvent.
  destruct (i ← pick; e ← pooled_events p !! i; Some (i, e)) as [[i e]|] eqn:E.
  - apply bind_Some in E as (j & -> & E). apply bind_Some in E as (x & Hx & E). simplify_eq.
    eexists e, _. split; [done|]. rewrite Forall_forall in He. split.
    + apply He. by eapply list_elem_of_lookup_2.
    + split; [|done]. simpl. apply Forall_delete, Forall_forall. auto.
  - eexists _, _. split; [done|]. split; [apply clean_new|done].
Qed.

Lemma PutEvent_clean e p : pool_clean p → pool_clean (PutEvent e p).2.
Proof.
  intros Hp. unfold PutEvent, or_return, Check.
  destruct (Z.leb_spec (map_len (Params e)) (Z.of_nat maxEventFields)); [|by destruct StrictMode].
  destruct (Z.leb_spec (map_len (Response e)) (Z.of_nat maxEventFields)); [|by destruct StrictMode].
  destruct Hp as [He Hb]. split; [|done]. constructor; [|done].
  split; [by apply clear_loop_enough|]. split; [by apply clear_loop_enough|]. reflexivity.
Qed.

(** An event that goes back to the pool keeps none of its
    identifiers, hashes, task or policy fields, parameters or response: from a
    clean pool, [PutEvent] on any event leaves a clean pool, whatever its
    outcome, and [GetEvent] then hands out a clean event. *)
Theorem pool_no_leak (p : Pool) (e : Event) (pick : option nat) :
  pool_clean p →
  pool_clean (PutEvent e p).2 ∧
  ∃ e' p', GetEvent pick (PutEvent e p).2 = (Ok e', p') ∧ clean e' ∧ pool_clean p'.
Proof. intros Hp. split; [|apply GetEvent_clean]; by apply PutEvent_clean. Qed.

(** in strict mode [PutEvent] panics on an event with more than
    [maxEventFields] parameters; it is dropped quietly only when assertions
    return errors. *)
Theorem PutEvent_oversized (p : Pool) (e : Event) :
  map_len (Params e) > 256 →
  (PutEvent e p).1 = (if StrictMode
                      then Panic (EAssert ("params map too large: " +:+ pretty (map_len (Params e))))
                      else Ok tt) ∧
  (PutEvent e p).2 = p.
Proof.
  intros Hl. unfold PutEvent, or_return, Check.
  replace (map_len (Params e) <=? Z.of_nat maxEventFields) with false
    by (symmetry; apply Z.leb_gt; unfold maxEventFields; lia).
  by destruct StrictMode.
Qed.

(** Every [GetEvent] counts as a hit, also the ones that allocate:
    the hit counter is the number of calls, not the number of reuses. *)
Lemma GetEvent_counts (p : Pool) (pick : option nat) :
  0 ≤ EventHits (globalMetrics p) < max_uint64 →
  let m := globalMetrics p in let m' := globalMetrics (GetEvent pick p).2 in
  EventHits m' = EventHits m + 1 ∧
  (pooled_events p = [] → 0 ≤ EventMisses m < max_uint64 → EventMisses m' = EventMisses m + 1).
Proof.
  intros Hh m m'. subst m m'. unfold GetEvent.
  destruct (i ← pick; e ← pooled_events p !! i; Some (i, e)) as [[i e]|] eqn:E; simpl.
  - rewrite u64_small by lia. split; [done|]. intros Hn. rewrite Hn in E.
    by destruct pick.
  - rewrite Z.add_0_r, (u64_small (EventHits _)), u64_small by lia.
    split; [done|]. intros _ Hm. by rewrite Z.add_0_r, !u64_small by (rewrite ?u64_small; lia).
Qed.

End Pool.

Definition sample_event : Event :=
  mkEvent "e1" "run" 7 zeroTime "agent" "tool_call" "aws:x" (Some {["secret" := VString "s"]})
    None "t" "" "" "" "high" "p" "c" "s" true.

Definition empty_pool : Pool := mkPool [] [] [] (mkMetrics 0 0 0 0).

Lemma pool_no_leak_witness :
  let _ := {| StrictMode := true |} in
  pool_clean empty_pool ∧ pool_clean (PutEvent sample_event empty_pool).2 ∧
  length (pooled_events (PutEvent sample_event empty_pool).2) = 1%nat.
Proof.
  intros m. assert (pool_clean empty_pool) as Hp by (split; constructor).
  split; [exact Hp|]. split; [apply (pool_no_leak _ sample_event None Hp)|].
  vm_compute. reflexivity.
Defined.

(** A request with 257 parameters. *)
Definition big_params : gmap string value :=
  list_to_map ((λ i, (pretty (N.of_nat i), VNil)) <$> seq 0 257).

Definition big_event : Event :=
  mkEvent "e2" "run" 0 zeroTime "" "tool_call" "m" (Some big_params) None "" "" "" "" "" "" "" "" false.

Lemma PutEvent_oversized_witness :
  let _ := {| StrictMode := true |} in
  map_len (Params big_event) = 257 ∧ is_panic (PutEvent big_event empty_pool).1 = true.
Proof.
  intros m. assert (map_len (Params big_event) = 257) as E by (vm_compute; reflexivity).
  split; [exact E|].
  destruct (PutEvent_oversized empty_pool big_event) as [-> _]; [rewrite E; lia|reflexivity].
Defined.

Lemma GetEvent_counts_witness :
  let m' := globalMetrics (GetEvent None empty_pool).2 in
  EventHits m' = 1 ∧ EventMisses m' = 1.
Proof.
  intros m'. destruct (GetEvent_counts empty_pool None) as [H1 H2];
    [unfold max_uint64; simpl; lia|].
  split; [exact H1|]. apply H2; [reflexivity|unfold max_uint64; simpl; lia].
Defined.
