(* ===== verification/Chain.v ===== *)
(** * The hash chain

    The abstract specification of a run's ledger: every event is numbered by
    its position, names the hash of its predecessor, carries the hash of its
    own payload, and is signed.  The events of a log are events as the store
    gives them back; the key fact here is that hashing an event and hashing
    what is read back for it give the same result. *)
From S2P Require Import Prelude Assert Models Sha256 Crypto Repository.
#[local] Opaque payload_map json_depth.

Section Chain.
Context `{AssertMode} `{TL : TimeLib} `{JL : JsonLib} `{Ed25519}.

(** The stored hash of an event is the hash of its payload. *)
Definition hashed (e : Event) : Prop :=
  CalculateEventHash (PrevHash e) (payload e) = Ok (CurrentHash e).

Definition signed (s : Signer) (e : Event) : Prop :=
  VerifySignature s (CurrentHash e) (Signature e) = true.

(** The hash the [i]-th event of a log links to. *)
Definition link_hash (log : list Event) (i : nat) : string :=
  match i with
  | O => zero_hash
  | S j => from_option CurrentHash "" (log !! j)
  end.

Record chain_event (s : Signer) (log : list Event) (i : nat) (e : Event) : Prop := {
  ce_seq : SeqIndex e = Z.of_nat i;
  ce_link : PrevHash e = link_hash log i;
  ce_hash : hashed e;
  ce_sig : signed s e;
  ce_sig_ne : Signature e ≠ "";
}.

Definition chain_ok (s : Signer) (log : list Event) : Prop :=
  ∀ i e, log !! i = Some e → chain_event s log i e.

Lemma link_hash_app log log' i : (i ≤ length log)%nat →
  link_hash (log ++ log') i = link_hash log i.
Proof. destruct i as [|i]; simpl; [done|]. intros ?. by rewrite lookup_app_l. Qed.

Lemma chain_ok_nil s : chain_ok s [].
Proof. intros i e Hi. by rewrite lookup_nil in Hi. Qed.

Lemma chain_event_app s log log' i e : (i ≤ length log)%nat →
  chain_event s log i e → chain_event s (log ++ log') i e.
Proof. intros Hi []. split; try done. by rewrite link_hash_app. Qed.

Lemma chain_ok_snoc s log e :
  chain_ok s log → chain_event s log (length log) e → chain_ok s (log ++ [e]).
Proof.
  intros Hc He i e' [Hi|[Hi E]]%lookup_app_Some.
  - apply chain_event_app; [by apply lookup_lt_Some in Hi; lia|by apply Hc].
  - apply list_lookup_singleton_Some in E as [? <-].
    assert (i = length log) as -> by lia. by apply chain_event_app.
Qed.

Lemma link_hash_last s log : chain_ok s log →
  link_hash log (length log) = from_option CurrentHash zero_hash (last log).
Proof.
  intros _. rewrite last_lookup. destruct log as [|e log]; [done|].
  simpl. by destruct (lookup_lt_is_Some_2 (e :: log) (length log)) as [x ->]; [simpl; lia|].
Qed.

(** ** Hashes survive the store *)

(** The events whose JSON form the laws describe. *)
Definition event_ok (e : Event) : Prop :=
  json_plain (of_gomap (Params e)) = true ∧ json_plain (of_gomap (Response e)) = true ∧
  time_ok (Timestamp e) = true.

(** The payload as a function of its formatted time and its two maps. *)
Definition payload_of (e : Event) (ts : string) (p r : value) : gmap string value :=
  <["params" := p]> (<["response" := r]> (<["timestamp" := VString ts]>
  (<["id" := VString (ID e)]> (<["run_id" := VString (RunID e)]>
  (<["seq_index" := VUint64 (SeqIndex e)]> (<["actor" := VString (Actor e)]>
  (<["event_type" := VString (EventType e)]> (<["method" := VString (Method e)]>
  (<["task_id" := VString (TaskID e)]> (<["task_state" := VString (TaskState e)]>
  (<["parent_id" := VString (ParentID e)]> (<["policy_id" := VString (PolicyID e)]>
  (<["risk_level" := VString (RiskLevel e)]> ∅))))))))))))).

Lemma payload_of_eq e :
  payload_map e = payload_of e (time_Format (Timestamp e)) (of_gomap (Params e)) (of_gomap (Response e)).
Proof. reflexivity. Qed.

Lemma payload_of_norm e ts p r :
  json_norm time_Format <$> payload_of e ts p r =
  <["params" := json_norm time_Format p]> (<["response" := json_norm time_Format r]>
    (json_norm time_Format <$> payload_of e ts VNil VNil)).
Proof. reflexivity. Qed.

Context {JLaws : JsonLaws TL JL} {TLaws : TimeLaws TL}.

Lemma map_of_text_null : map_of_text "null" = None.
Proof. done. Qed.

(** A map that can be encoded and is not nested too deeply comes back in its
    JSON normal form. *)
Lemma map_roundtrip m : json_plain (of_gomap m) = true →
  is_ok (json_Marshal (of_gomap m)) = true →
  Z.of_nat (json_depth (of_gomap m)) ≤ json_max_depth →
  of_gomap (map_of_text (text_of_map m)) = json_norm time_Format (of_gomap m).
Proof.
  intros Hp Hm Hd. unfold text_of_map. destruct m as [m|].
  - destruct (json_Marshal (of_gomap (Some m))) as [s| |] eqn:E; try done.
    destruct (json_Marshal_obj m s E) as [s' ->]. unfold map_of_text. simpl.
    rewrite (json_Unmarshal_Marshal _ _ Hp E).
    destruct (Z.leb_spec (Z.of_nat (json_depth (of_gomap (Some m)))) json_max_depth); [done|lia].
  - simpl. by rewrite json_Marshal_nil.
Qed.

Lemma payload_plain e ts p r : json_plain p = true → json_plain r = true →
  json_plain (VObj (payload_of e ts p r)) = true.
Proof.
  intros. apply json_plain_obj. unfold payload_of.
  do 14 (apply (map_Forall_insert_2 (λ k x, utf8_coerce k = k ∧ json_plain x = true));
         [split; [reflexivity|assumption || reflexivity]|]).
  apply map_Forall_empty.
Qed.

(** What a successful hash says of an event's maps. *)
Lemma hash_members prev e h : event_ok e → CalculateEventHash prev (payload e) = Ok h →
  Z.of_nat (json_depth (payload e)) ≤ json_max_depth ∧
  ∀ k v, payload_map e !! k = Some v →
    is_ok (json_Marshal v) = true ∧ Z.of_nat (json_depth v) ≤ json_max_depth.
Proof.
  intros (Hp & Hr & _) (_ & _ & s & v & c & Hm & Hu & _)%CalculateEventHash_iff.
  assert (json_plain (payload e) = true) as Hpl.
  { unfold payload. rewrite payload_of_eq. by apply payload_plain. }
  rewrite (json_Unmarshal_Marshal _ _ Hpl Hm) in Hu.
  case_leb Hu as Hle; [|discriminate Hu].
  split; [exact Hle|]. intros k x Hx. split.
  - assert (is_ok (json_Marshal (payload e)) = true) as Hok by (rewrite Hm; reflexivity).
    exact (proj1 (json_Marshal_members (payload_map e)) Hok k x Hx).
  - pose proof (json_depth_member (payload_map e) k x Hx) as Hlt. unfold payload in Hle. lia.
Qed.

Lemma reread_payload prev e h : event_ok e → CalculateEventHash prev (payload e) = Ok h →
  payload_map (reread e) = payload_of e (time_Format (Timestamp e))
    (json_norm time_Format (of_gomap (Params e))) (json_norm time_Format (of_gomap (Response e))).
Proof.
  intros He Hh. destruct (hash_members prev e h He Hh) as [_ Hm]. destruct He as (Hp & Hr & Ht).
  rewrite payload_of_eq. destruct (time_Parse_Format _ Ht) as (t' & Ht' & Hf).
  cbn [reread Timestamp Params Response]. rewrite Ht'. change (default zeroTime (Some t')) with t'. rewrite Hf.
  destruct (Hm "params" (of_gomap (Params e)) eq_refl).
  destruct (Hm "response" (of_gomap (Response e)) eq_refl).
  by rewrite !map_roundtrip.
Qed.

(** Reading an event back does not change the data its hash commits to. *)
Lemma reread_data prev e h : event_ok e → CalculateEventHash prev (payload e) = Ok h →
  payload_data (reread e) = payload_data e.
Proof.
  intros He Hh. unfold payload_data, payload. cbn [json_norm]. f_equal.
  rewrite (reread_payload prev e h), payload_of_eq by done.
  rewrite !(payload_of_norm e _ _ (of_gomap _)), payload_of_norm. by rewrite !json_norm_idem.
Qed.

Lemma reread_plain prev e h : event_ok e → CalculateEventHash prev (payload e) = Ok h →
  json_plain (payload (reread e)) = true.
Proof.
  intros He Hh. unfold payload. rewrite (reread_payload prev e h) by done.
  destruct He as (? & ? & _). apply payload_plain; by apply json_norm_plain.
Qed.

Lemma reread_encodes prev e h : event_ok e → CalculateEventHash prev (payload e) = Ok h →
  is_ok (json_Marshal (payload (reread e))) = true.
Proof.
  intros He Hh. apply json_Marshal_members. rewrite (reread_payload prev e h) by done.
  destruct (hash_members prev e h He Hh) as [_ Hm].
  assert (map_Forall (λ _ v, is_ok (json_Marshal v) = true) (payload_map e)) as Hall.
  { intros k v Hv. by apply (Hm k). }
  destruct (Hm "params" (of_gomap (Params e)) eq_refl) as [Hp _].
  destruct (Hm "response" (of_gomap (Response e)) eq_refl) as [Hr _].
  intros k v. unfold payload_of. rewrite lookup_insert. case_decide.
  { intros [= <-]. by apply json_Marshal_norm. }
  rewrite lookup_insert. case_decide; [intros [= <-]; by apply json_Marshal_norm|].
  intros Hk. apply (Hall k). rewrite payload_of_eq. unfold payload_of.
  rewrite lookup_insert_ne by assumption. rewrite lookup_insert_ne by assumption. exact Hk.
Qed.

Lemma is_ok_Ok {A} (o : outcome A) : is_ok o = true → ∃ a, o = Ok a.
Proof. destruct o as [a| |]; [by exists a|done..]. Qed.

Lemma reread_hash prev e h : event_ok e → CalculateEventHash prev (payload e) = Ok h →
  CalculateEventHash prev (payload (reread e)) = Ok h.
Proof.
  intros He Hh. destruct (is_ok_Ok _ (reread_encodes prev e h He Hh)) as [s' Hm'].
  pose proof (reread_plain prev e h He Hh) as Hpl'.
  pose proof (reread_data prev e h He Hh) as Hdata.
  pose proof Hh as (Hp & _ & s & v & c & Hm & Hu & Hj & ->)%CalculateEventHash_iff.
  apply CalculateEventHash_iff. split; [exact Hp|]. split; [reflexivity|].
  exists s', v, c. split; [exact Hm'|]. split; [|split; [exact Hj|reflexivity]].
  rewrite <- Hu.
  assert (json_plain (payload e) = true) as Hpl.
  { destruct He as (? & ? & _). unfold payload. rewrite payload_of_eq. apply payload_plain; assumption. }
  rewrite (json_Unmarshal_Marshal _ _ Hpl Hm), (json_Unmarshal_Marshal _ _ Hpl' Hm').
  unfold payload_data in Hdata. rewrite Hdata.
  rewrite <- (json_norm_depth time_Format (payload (reread e))), Hdata, json_norm_depth. reflexivity.
Qed.
End Chain.
