(* ===== verification/Anchor.v ===== *)
(** * internal/ledger/audit: fetching Bitcoin anchors

    [Anchor] and [FetchBitcoinAnchor] of [internal/ledger/audit/anchor.go],
    and [FetchBitcoinAnchorAtHeight] of [verify.go].  The block explorer is a
    parameter: what it answers to the n-th request of a process, for each URL.
    What the two readers of the standard library take from a body
    ([json.Decoder.Decode] into a [uint64], [fmt.Fscan] into a string) is written
    out. *)
From S2P Require Import Prelude Models.
Record Anchor := mkAnchor {
  Source : string;
  BlockHeight : Z;
  BlockHash : string;
  an_Timestamp : Time;
}.

(** An HTTP response; closing its body may fail. *)
Record http_response := mkResponse {
  StatusCode : Z;
  Body : string;
  body_close : option error;
}.

(** The network: [client.Get] of a URL as the n-th request of the process. *)
Class Http := { http_Get : nat → string → outcome http_response }.

(** ** Readers of the standard library *)

Definition is_space (a : ascii) : bool :=
  Ascii.eqb a " " || Ascii.eqb a "009" || Ascii.eqb a "010" || Ascii.eqb a "011"
  || Ascii.eqb a "012" || Ascii.eqb a "013".

(** JSON's white space leaves out the vertical tab and the form feed. *)
Definition is_json_space (a : ascii) : bool :=
  Ascii.eqb a " " || Ascii.eqb a "009" || Ascii.eqb a "010" || Ascii.eqb a "013".

Definition is_digit (a : ascii) : bool := in_range 48 57 a.

Fixpoint skip_space (space : ascii → bool) (s : string) : string :=
  match s with
  | String a s' => if space a then skip_space space s' else s
  | EmptyString => s
  end.

Fixpoint token (s : string) : string :=
  match s with
  | String a s' => if is_space a then "" else String a (token s')
  | EmptyString => ""
  end.

(** [fmt.Fscan(body, &s)]: the first token; an error when there is none.
    White space is ASCII's. *)
Definition Fscan (body : string) : outcome string :=
  match token (skip_space is_space body) with
  | EmptyString => Err (ENew "EOF")
  | t => Ok t
  end.

Fixpoint digits (s : string) (acc : Z) : Z * string :=
  match s with
  | String a s' => if is_digit a then digits s' (acc * 10 + (Z.of_N (byte_of a) - 48)) else (acc, s)
  | EmptyString => (acc, s)
  end.

Definition continues_number (s : string) : bool :=
  match s with
  | String a _ => Ascii.eqb a "." || Ascii.eqb a "e" || Ascii.eqb a "E"
  | EmptyString => false
  end.

(** [json.NewDecoder(body).Decode(&height)] into a [uint64]: the first JSON
    value of the body must be an integer literal that fits, or [null], which
    leaves the zero value.  A literal that starts with 0 ends there. *)
Definition decode_uint64 (body : string) : outcome Z :=
  let s := skip_space is_json_space body in
  if String.prefix "null" s then Ok 0 else
  match s with
  | String a s' =>
      if is_digit a then
        let '(n, rest) := if Ascii.eqb a "0" then (0, s') else digits s 0 in
        if continues_number rest then Err (ENew "json: cannot unmarshal number into Go value of type uint64")
        else if n <=? max_uint64 then Ok n
        else Err (ENew "json: cannot unmarshal number into Go value of type uint64")
      else Err (ENew "json: cannot unmarshal value into Go value of type uint64")
  | EmptyString => Err (ENew "EOF")
  end.

Section Fetch.
Context `{Http}.

Definition closeBody (r : http_response) (context : string) : outcome unit :=
  match body_close r with
  | Some e => Err (EWrap ("closing " +:+ context) e)
  | None => Ok tt
  end.

Definition wrap_err {A} (ctx : string) (o : outcome A) : outcome A :=
  match o with Err e => Err (EWrap ctx e) | _ => o end.

Definition api_error (r : http_response) : string :=
  "blockstream api error: " +:+ pretty (StatusCode r).

(** An error on a body that is then closed: a failure to close is reported
    with it, as the wrapped cause. *)
Definition fail_closing {A} (r : http_response) (context text : string) (e : error) : outcome A :=
  match closeBody r context with
  | Err ce => Err (EWrap text ce)
  | _ => Err e
  end.

Definition tip_url : string := "https://blockstream.info/api/blocks/tip/height".
Definition height_url (h : Z) : string := "https://blockstream.info/api/block-height/" +:+ pretty h.

(** The height and the hash at it are two requests, the [n]-th and the next. *)
Definition FetchBitcoinAnchor (n : nat) (now : Time) : outcome Anchor :=
  resp ← wrap_err "fetching tip height" (http_Get n tip_url);
  (if StatusCode resp =? 200 then Ok tt
   else fail_closing resp "tip height response" (api_error resp) (ENew (api_error resp)));;
  height ← match decode_uint64 (Body resp) with
           | Err e => fail_closing resp "tip height response"
                        ("decoding height: " +:+ Error e) (EWrap "decoding height" e)
           | o => o
           end;
  closeBody resp "tip height response";;
  resp2 ← wrap_err "fetching block hash" (http_Get (S n) (height_url height));
  hash ← match Fscan (Body resp2) with
         | Err e => fail_closing resp2 "block hash response"
                      ("reading block hash: " +:+ Error e) e
         | o => o
         end;
  closeBody resp2 "block hash response";;
  Ok (mkAnchor "bitcoin-mainnet" height hash now).

Definition FetchBitcoinAnchorAtHeight (n : nat) (height : Z) (now : Time) : outcome Anchor :=
  resp ← wrap_err "fetching block hash" (http_Get n (height_url height));
  (if StatusCode resp =? 200 then Ok tt
   else fail_closing resp "block hash response" (api_error resp) (ENew (api_error resp)));;
  hash ← match Fscan (Body resp) with
         | Err e => fail_closing resp "block hash response"
                      ("reading block hash: " +:+ Error e) e
         | o => o
         end;
  closeBody resp "block hash response";;
  Ok (mkAnchor "bitcoin-mainnet" height hash now).

(** ** What a fetched anchor is worth *)

Lemma closeBody_ok r c u : closeBody r c = Ok u → body_close r = None.
Proof. unfold closeBody. by destruct (body_close r). Qed.

Lemma fail_closing_not_ok {A} r c t e (x : A) : fail_closing r c t e ≠ Ok x.
Proof. unfold fail_closing, closeBody. by destruct (body_close r). Qed.

Lemma wrap_err_ok {A} c (o : outcome A) x : wrap_err c o = Ok x → o = Ok x.
Proof. by destruct o. Qed.

Lemma decode_uint64_range s h : decode_uint64 s = Ok h → h ≤ max_uint64.
Proof.
  unfold decode_uint64. repeat case_match; try done; intros [= <-]; first [done|by apply Z.leb_le].
Qed.

Lemma Fscan_token body h : Fscan body = Ok h → h ≠ "" ∧ h = token (skip_space is_space body).
Proof. unfold Fscan. destruct (token (skip_space is_space body)); [done|]. by intros [= <-]. Qed.

(** A successful fetch of the height, then of the hash. *)
Lemma anchor_at_height_ok n height now a : FetchBitcoinAnchorAtHeight n height now = Ok a →
  ∃ r, http_Get n (height_url height) = Ok r ∧ StatusCode r = 200 ∧
    Fscan (Body r) = Ok (BlockHash a) ∧ BlockHeight a = height.
Proof.
  unfold FetchBitcoinAnchorAtHeight. intros E. inv_ok. simplify_eq.
  destruct (Z.eqb_spec (StatusCode x) 200); [|by match goal with
    Hf : fail_closing _ _ _ _ = Ok _ |- _ => apply fail_closing_not_ok in Hf end].
  match goal with Hw : wrap_err _ _ = _ |- _ => apply wrap_err_ok in Hw end.
  exists x. split_and!; try done.
  destruct (Fscan (Body x)) eqn:Ef; [by simplify_eq|by exfalso; eapply fail_closing_not_ok|done].
Qed.

(** [FetchBitcoinAnchor] takes the first token of the second
    response as the block hash whatever the status of that response, so the
    page of a failed request becomes an anchor; [FetchBitcoinAnchorAtHeight],
    which audits anchors, refuses every status but 200. *)
Theorem FetchBitcoinAnchor_any_status n tip height st body hash now :
  http_Get n tip_url = Ok (mkResponse 200 tip None) →
  decode_uint64 tip = Ok height →
  http_Get (S n) (height_url height) = Ok (mkResponse st body None) →
  Fscan body = Ok hash →
  FetchBitcoinAnchor n now = Ok (mkAnchor "bitcoin-mainnet" height hash now) ∧
  FetchBitcoinAnchorAtHeight (S n) height now =
    (if st =? 200 then Ok (mkAnchor "bitcoin-mainnet" height hash now)
     else Err (ENew ("blockstream api error: " +:+ pretty st))).
Proof.
  intros H1 H2 H3 H4. unfold FetchBitcoinAnchor, FetchBitcoinAnchorAtHeight. rewrite H1.
  cbn. rewrite H2. cbn. rewrite H3. cbn. rewrite H4. split; [done|].
  by destruct (st =? 200).
Qed.

End Fetch.

(** An explorer that answers the second request with an error page. *)
Definition throttled : Http := {|
  http_Get _ url := if String.eqb url tip_url then Ok (mkResponse 200 "840000" None)
                  else Ok (mkResponse 429 "Too Many Requests" None);
|}.

Lemma FetchBitcoinAnchor_any_status_witness :
  let _ := throttled in
  FetchBitcoinAnchor 0 zeroTime = Ok (mkAnchor "bitcoin-mainnet" 840000 "Too" zeroTime) ∧
  FetchBitcoinAnchorAtHeight 1 840000 zeroTime = Err (ENew "blockstream api error: 429").
Proof.
  intros h. apply (FetchBitcoinAnchor_any_status (H := throttled) 0 "840000" 840000 429
    "Too Many Requests" "Too" zeroTime); vm_compute; reflexivity.
Defined.
