(* ===== verification/Processor.v ===== *)
(** * internal/ledger: the event processor

    [EventProcessor] of [internal/ledger/processor.go], over any event
    repository.  An event is mutated in place, so it is part of the state of
    the operations that receive a pointer to it.  What the operations take
    from their environment (the object the pool hands out, a UUID, the time,
    the anchor) is an argument. *)
From S2P Require Import Prelude Assert Models Sha256 Crypto Repository Pool Chain.
(** In-place updates of an event. *)
Definition set_position (seq : Z) (run : string) (e : Event) : Event :=
  mkEvent (ID e) run seq (Timestamp e) (Actor e) (EventType e) (Method e) (Params e) (Response e)
    (TaskID e) (TaskState e) (ParentID e) (PolicyID e) (RiskLevel e) (PrevHash e) (CurrentHash e)
    (Signature e) (WasBlocked e).

Definition set_PrevHash (h : string) (e : Event) : Event :=
  mkEvent (ID e) (RunID e) (SeqIndex e) (Timestamp e) (Actor e) (EventType e) (Method e) (Params e)
    (Response e) (TaskID e) (TaskState e) (ParentID e) (PolicyID e) (RiskLevel e) h (CurrentHash e)
    (Signature e) (WasBlocked e).

Definition set_CurrentHash (h : string) (e : Event) : Event :=
  mkEvent (ID e) (RunID e) (SeqIndex e) (Timestamp e) (Actor e) (EventType e) (Method e) (Params e)
    (Response e) (TaskID e) (TaskState e) (ParentID e) (PolicyID e) (RiskLevel e) (PrevHash e) h
    (Signature e) (WasBlocked e).

Definition set_Signature (sg : string) (e : Event) : Event :=
  mkEvent (ID e) (RunID e) (SeqIndex e) (Timestamp e) (Actor e) (EventType e) (Method e) (Params e)
    (Response e) (TaskID e) (TaskState e) (ParentID e) (PolicyID e) (RiskLevel e) (PrevHash e)
    (CurrentHash e) sg (WasBlocked e).

Record EventProcessor (St : Type) := mkEventProcessor {
  db : St;
  signer : Signer;
  runID : string;
  taskStates : gmap string string;
}.
Arguments mkEventProcessor {St}.
Arguments db {St}.
Arguments signer {St}.
Arguments runID {St}.
Arguments taskStates {St}.

Definition isTerminalState (state : string) : bool :=
  String.eqb state "completed" || String.eqb state "failed" || String.eqb state "cancelled".

(** What creating a task-completion event takes from its environment. *)
Record completion_env := mkCompletionEnv {
  env_pick : option nat;
  env_uuid : string;
  env_now : Time;
}.

Definition put_param (k : string) (v : value) (m : gomap) : gomap :=
  Some (<[k := v]> (default ∅ m)).

Section Processor.
Context `{AssertMode} `{TL : TimeLib} `{JL : JsonLib} `{Ed25519} {St : Type} `{EventRepository St}.

Abbreviation Proc := (EventProcessor St).

Definition set_db (s : St) (p : Proc) : Proc := mkEventProcessor s (signer p) (runID p) (taskStates p).
Definition set_tasks (t : gmap string string) (p : Proc) : Proc :=
  mkEventProcessor (db p) (signer p) (runID p) t.

(** A call on the processor's repository. *)
Definition on_db {A X} (m : M St A) : M (Proc * X) A := λ '(p, x),
  let r := m (db p) in (r.1, (set_db r.2 p, x)).

Definition modify_event (f : Event → Event) : M (Proc * Event) unit := modify (λ '(p, e), (p, f e)).

Definition NewEventProcessor (s : St) (sg : Signer) (run : string) : Proc :=
  mkEventProcessor s sg run ∅.

Definition assignSequenceAndPrevHash : M (Proc * Event) unit :=
  '(p, _) ← get;
  stats ← try (on_db (GetRunStats (runID p))) (λ r, match r with
    | inl st => mret st
    | inr e => wrap "getting run stats"
                 (lift (Check false ("failed to get run stats: " +:+ Error e));; fail e)
    end);
  modify_event (set_position (TotalEvents stats) (runID p));;
  '(lastIndex, lastHash) ← wrap "getting last event" (on_db (GetLastEvent (runID p)));
  '(_, event) ← get;
  if SeqIndex event =? 0 then
    lift (Check (String.eqb lastHash "") "expected empty last hash for seq 0");;
    modify_event (set_PrevHash zero_hash)
  else
    lift (Check (nonempty lastHash)
            ("prev_hash must be non-empty: seq=" +:+ pretty (SeqIndex event)));;
    lift (Check (SeqIndex event =? u64 (lastIndex + 1))
            ("sequence gap detected: prev=" +:+ pretty lastIndex +:+ ", curr="
               +:+ pretty (SeqIndex event)));;
    modify_event (set_PrevHash lastHash).

Definition hashAndSignEvent : M (Proc * Event) unit :=
  '(p, event) ← get;
  lift (Check (nonempty (PrevHash event)) "prev_hash must be set");;
  currentHash ← wrap "calculating hash" (lift (CalculateEventHash (PrevHash event) (payload event)));
  modify_event (set_CurrentHash currentHash);;
  signature ← wrap "signing hash" (lift (SignHash (signer p) currentHash));
  modify_event (set_Signature signature).

Definition persistEvent : M (Proc * Event) unit :=
  assignSequenceAndPrevHash;;
  hashAndSignEvent;;
  '(_, event) ← get;
  on_db (StoreEvent event).

(** The event [createTaskCompletionEvent] fills in, from a pooled one. *)
Definition completion_event (taskID state : string) (env : completion_env) (event : Event) : Event :=
  mkEvent (String.substring 0 8 (env_uuid env)) (RunID event) (SeqIndex event) (env_now env)
    (Actor event) "task_terminal" "logryph:task_state"
    (put_param "state" (VString state) (put_param "task_id" (VString taskID) (Params event)))
    (Response event) taskID state (ParentID event) (PolicyID event) (RiskLevel event)
    (PrevHash event) (CurrentHash event) (Signature event) (WasBlocked event).

Definition on_pool {A X} (m : M Pool A) : M (X * Pool) A := λ '(x, pl),
  let r := m pl in (r.1, (x, r.2)).

Definition createTaskCompletionEvent (taskID state : string) (env : completion_env) :
    M (Proc * Pool) unit :=
  or_return (Check (nonempty taskID) "taskID must not be empty")
  (or_return (Check (nonempty state) "state must not be empty")
  (event0 ← on_pool (GetEvent (env_pick env));
   '(p, pl) ← get;
   let '(o, (p', event)) := persistEvent (p, completion_event taskID state env event0) in
   put (p', pl);;
   match o with
   | Panic e => lift (Panic e)
   | Err err =>
       match Check false ("persist task completion event failed: " +:+ Error err) with
       | Panic e => lift (Panic e)
       | _ => on_pool (PutEvent event)
       end
   | Ok _ => on_pool (PutEvent event)
   end)).

Definition trackTaskState (event : Event) (env : completion_env) : M (Proc * Pool) unit :=
  or_return (Check (nonempty (TaskID event)) "taskID must not be empty")
  ('(p, _) ← get;
   (match taskStates p !! TaskID event with
    | Some oldState =>
        if negb (String.eqb oldState (TaskState event)) && isTerminalState (TaskState event) then
          createTaskCompletionEvent (TaskID event) (TaskState event) env;;
          modify (λ '(p, pl), (set_tasks (delete (TaskID event) (taskStates p)) p, pl))
        else mret tt
    | None => mret tt
    end);;
   if negb (isTerminalState (TaskState event))
   then modify (λ '(p, pl),
          (set_tasks (<[TaskID event := TaskState event]> (taskStates p)) p, pl))
   else mret tt).

(** Whether [ProcessEvent] tracks the task of an event. *)
Definition tracked (event : Event) : bool :=
  (String.eqb (EventType event) "tool_call" || String.eqb (EventType event) "tool_response")
  && nonempty (TaskID event).

(** The state holds the event the caller passed, as [ProcessEvent] leaves it;
    a nil event is [None]. *)
Definition ProcessEvent (env : completion_env) : M (Proc * option Event * Pool) unit :=
  '(p, oe, pl) ← get;
  match oe with
  | None => lift (Check false "event must not be nil")
  | Some e =>
      let '(o, (p1, event)) := persistEvent (p, e) in
      put (p1, Some event, pl);;
      lift o;;
      if tracked event then
        let '(o', (p2, pl2)) := trackTaskState event env (p1, pl) in
        put (p2, Some event, pl2);;
        lift o'
      else mret tt
  end.

(** ** Specification of the operations *)

(** An event without the fields the processor fills in. *)
Definition content (e : Event) : Event :=
  set_position 0 "" (set_PrevHash "" (set_CurrentHash "" (set_Signature "" e))).

Definition same_proc (p p' : Proc) : Prop :=
  signer p' = signer p ∧ runID p' = runID p ∧ taskStates p' = taskStates p.

Lemma same_proc_refl p : same_proc p p.
Proof. done. Qed.

Lemma same_proc_trans p q r : same_proc p q → same_proc q r → same_proc p r.
Proof. unfold same_proc. intuition congruence. Qed.

Lemma same_proc_db p s : same_proc p (set_db s p).
Proof. done. Qed.

Lemma content_event_ok e e' : content e' = content e → event_ok e → event_ok e'.
Proof. unfold content, event_ok. intros [=]. by repeat match goal with E : _ = _ |- _ => rewrite E end. Qed.

#[local] Hint Resolve same_proc_refl same_proc_trans same_proc_db : core.

Lemma hash_spec p e o p' e' : hashAndSignEvent (p, e) = (o, (p', e')) →
  p' = p ∧ content e' = content e ∧
  RunID e' = RunID e ∧ SeqIndex e' = SeqIndex e ∧ PrevHash e' = PrevHash e ∧
  (o = Ok tt → hashed e' ∧ SignHash (signer p) (CurrentHash e') = Ok (Signature e')).
Proof.
  unfold hashAndSignEvent, hashed. intros E.
  apply M_bind_inv in E as [(x & s1 & [= <- <-] & E)|[(? & [=] & _)|(? & [=] & _)]].
  apply M_bind_inv in E as [(x & s1 & [= _ <-] & E)|[(? & [= _ <- <-] & ->)|(? & [= _ <- <-] & ->)]]; [|done..].
  unfold wrap in E. destruct (CalculateEventHash (PrevHash e) (payload e)) as [h| |] eqn:Hh;
    unfold mbind, M_bind, modify_event, modify, lift, SignHash in E; simplify_eq;
    (split; [reflexivity|]); (split; [reflexivity|]); (split; [reflexivity|]);
    (split; [reflexivity|]); (split; [reflexivity|]); [|intros [=]..].
  intros _. split; [exact Hh|reflexivity].
Qed.

(** Steps of a computation that only checks conditions and updates the
    event: each either stops it or goes on. *)
Ltac inv_run E :=
  repeat (unfold modify_event in E;
    lazymatch type of E with
    | (lift (Check ?c ?m) ≫= _) _ = _ =>
        let Hc := fresh "Hc" in
        unfold mbind at 1, M_bind at 1, lift at 1 in E; unfold Check at 1 in E;
        destruct c eqn:Hc; [|destruct StrictMode]
    | _ => progress (unfold modify in E; simplify_eq)
    end).

Context {RL : RepositoryLaws St}.

Lemma link_last (log : list Event) i h : length log ≠ 0%nat →
  match last log with
  | None => i = 0 ∧ h = ""
  | Some e => i = SeqIndex e ∧ h = CurrentHash e
  end → h = link_hash log (length log).
Proof.
  intros Hn Hl. rewrite last_lookup in Hl. destruct log as [|e0 log]; [done|]. simpl length in *.
  simpl pred in Hl. simpl link_hash. unfold from_option.
  destruct ((e0 :: log) !! length log) as [x|] eqn:E; [by destruct Hl|].
  apply lookup_ge_None in E. simpl in E. lia.
Qed.

(** The state of one run after [assignSequenceAndPrevHash]. *)
Lemma assign_spec p e o p' e' : repo_ok (db p) →
  assignSequenceAndPrevHash (p, e) = (o, (p', e')) →
  same_proc p p' ∧ repo_ok (db p') ∧ run_log (db p') = run_log (db p) ∧ content e' = content e ∧
  (o = Ok tt → RunID e' = runID p ∧
     SeqIndex e' = Z.of_nat (length (run_log (db p) (runID p))) ∧
     PrevHash e' = link_hash (run_log (db p) (runID p)) (length (run_log (db p) (runID p)))).
Proof.
  intros Hok E. unfold assignSequenceAndPrevHash in E.
  unfold mbind at 1, M_bind at 1, get at 1 in E. unfold mbind at 1, M_bind at 1, try, on_db at 1 in E.
  destruct (GetRunStats (runID p) (db p)) as [o1 s1] eqn:E1.
  destruct (GetRunStats_log _ _ _ _ Hok E1) as (Hok1 & Hl1 & Htot). cbn [fst snd] in E.
  destruct o1 as [st|er|er]; [|unfold Check in E; destruct StrictMode|]; [|cbn in E; injection E as <- <- <-..].
  2-4: by split_and!.
  unfold mret, M_ret in E. unfold mbind at 1, M_bind at 1, modify_event at 1, modify in E.
  unfold mbind at 1, M_bind at 1, wrap, on_db in E. cbn [db set_db runID] in E.
  destruct (GetLastEvent (runID p) s1) as [o2 s2] eqn:E2.
  destruct (GetLastEvent_log _ _ _ _ Hok1 E2) as (Hok2 & Hl2 & Hlast). cbn [fst snd] in E.
  rewrite Hl1 in Hl2, Hlast.
  destruct o2 as [[i h]|er|er]; [|by simplify_eq..].
  specialize (Hlast i h eq_refl). specialize (Htot st eq_refl).
  unfold mbind at 1, M_bind at 1, get in E. cbn [SeqIndex set_position] in E.
  rewrite Htot in E. destruct (Z.eqb_spec (Z.of_nat (length (run_log (db p) (runID p)))) 0) as [Hz|Hnz];
    inv_run E; split_and!; try done; simpl; intros _; split_and!; try done.
  - replace (length (run_log (db p) (runID p))) with 0%nat by lia. done.
  - apply link_last with i; [lia|done].
Qed.

Context {JLaws : JsonLaws TL JL} {TLaws : TimeLaws TL} {ELaws : Ed25519Laws _}.

(** A call that appended [es] to the log of the processor's run and changed
    nothing else in the store. *)
Definition appends (p p' : Proc) (es : list Event) : Prop :=
  signer p' = signer p ∧ runID p' = runID p ∧
  run_log (db p') (runID p) = run_log (db p) (runID p) ++ es ∧
  ∀ r, r ≠ runID p → run_log (db p') r = run_log (db p) r.

Lemma appends_nil p p' : same_proc p p' → run_log (db p') = run_log (db p) → appends p p' [].
Proof. intros (? & ? & ?) E. unfold appends. by rewrite E, app_nil_r. Qed.

Lemma appends_trans p q r es es' : appends p q es → appends q r es' → appends p r (es ++ es').
Proof.
  intros (? & E & Hl & Ho) (? & ? & Hl' & Ho'). rewrite E in *. unfold appends. split_and!; try congruence.
  - by rewrite Hl', Hl, app_assoc.
  - intros x Hx. by rewrite Ho', Ho.
Qed.

(** The invariant of a processor: its key pair is genuine, the store is
    sound, and the log of its run is a signed hash chain. *)
Record proc_ok (p : Proc) : Prop := {
  po_signer : signer_ok (signer p);
  po_repo : repo_ok (db p);
  po_chain : chain_ok (signer p) (run_log (db p) (runID p));
}.

Lemma chain_event_stored s log e : signer_ok s → event_ok e → hashed e →
  SignHash s (CurrentHash e) = Ok (Signature e) →
  SeqIndex e = Z.of_nat (length log) → PrevHash e = link_hash log (length log) →
  chain_event s log (length log) (reread e).
Proof.
  intros Hs He Hh Hsg Hi Hp. split; simpl; try assumption.
  - apply reread_hash; assumption.
  - unfold signed. simpl. by apply verify_signed.
  - by eapply SignHash_nonempty.
Qed.

(** Storing an event that is hashed, signed and linked to the end of the log. *)
Lemma store_spec p e o p' e' : proc_ok p → event_ok e → hashed e →
  SignHash (signer p) (CurrentHash e) = Ok (Signature e) → RunID e = runID p →
  SeqIndex e = Z.of_nat (length (run_log (db p) (runID p))) →
  PrevHash e = link_hash (run_log (db p) (runID p)) (length (run_log (db p) (runID p))) →
  on_db (StoreEvent e) (p, e) = (o, (p', e')) →
  proc_ok p' ∧ same_proc p p' ∧ e' = e ∧ appends p p' (if is_ok o then [reread e] else []).
Proof.
  intros [Hs Hr Hc] He Hh Hsg Hrun Hseq Hprev. unfold on_db.
  destruct (StoreEvent e (db p)) as [o3 s3] eqn:E3. simpl. intros [= <- <- <-].
  destruct (decide (o3 = Ok tt)) as [->|Hne].
  - apply StoreEvent_ok in E3 as (Hr3 & Hl3 & Ho3); [|assumption|by rewrite Hrun].
    rewrite Hrun in Hl3, Ho3. split_and!; try done. split; simpl; try assumption.
    rewrite Hl3. apply chain_ok_snoc; [assumption|]. by apply chain_event_stored.
  - apply StoreEvent_fail in E3 as (Hr3 & Hl3); [|assumption..].
    split; [split; simpl; rewrite ?Hl3; assumption|]. split; [done|]. split; [done|].
    destruct o3 as [[]| |]; [done|by apply appends_nil..].
Qed.

(** [persistEvent] appends the event, as a link of the chain, or fails and
    leaves every log as it was. *)
Lemma persist_spec p e o p' e' : proc_ok p → event_ok e →
  persistEvent (p, e) = (o, (p', e')) →
  proc_ok p' ∧ same_proc p p' ∧ content e' = content e ∧
  if is_ok o then appends p p' [reread e'] ∧ RunID e' = runID p else appends p p' [].
Proof.
  intros [Hs Hr Hc] He E. unfold persistEvent in E. unfold mbind at 1, M_bind at 1 in E.
  destruct (assignSequenceAndPrevHash (p, e)) as [o1 [p1 e1]] eqn:E1.
  apply assign_spec in E1 as (Hp1 & Hr1 & Hl1 & Hc1 & Ho1); [|assumption].
  assert (proc_ok p1) as Hok1.
  { destruct Hp1 as (E2 & E3 & _). split; rewrite ?E2, ?E3, ?Hl1; assumption. }
  destruct o1 as [[]|er|er]; [|injection E as <- <- <-; cbn [is_ok]; auto using appends_nil..].
  destruct (Ho1 eq_refl) as (Hrun & Hseq & Hprev). clear Ho1.
  unfold mbind at 1, M_bind at 1 in E.
  destruct (hashAndSignEvent (p1, e1)) as [o2 [p2 e2]] eqn:E2.
  apply hash_spec in E2 as (-> & Hc2 & Hrun2 & Hseq2 & Hprev2 & Ho2).
  rewrite Hrun in Hrun2. rewrite Hseq in Hseq2. rewrite Hprev in Hprev2. rewrite Hc1 in Hc2.
  destruct o2 as [[]|er|er]; [|injection E as <- <- <-; cbn [is_ok]; auto using appends_nil..].
  destruct (Ho2 eq_refl) as (Hh & Hsg). clear Ho2.
  unfold mbind, M_bind, get in E.
  destruct (store_spec p1 e2 o p' e') as (? & ? & -> & ?); try assumption.
  - by eapply content_event_ok.
  - by destruct Hp1 as (_ & -> & _).
  - destruct Hp1 as (_ & -> & _). by rewrite Hl1.
  - destruct Hp1 as (_ & -> & _). by rewrite Hl1.
  - split; [assumption|]. split; [by eapply same_proc_trans|]. split; [assumption|].
    assert (appends p p1 []) as Ha by by apply appends_nil.
    destruct (is_ok o); [split|]; [by eapply (appends_trans p p1 p' [])|assumption|].
    by eapply (appends_trans p p1 p' []).
Qed.

Lemma proc_ok_tasks p t : proc_ok p → proc_ok (set_tasks t p).
Proof. by intros []. Qed.

Lemma empty_map_plain m : empty_map m → json_plain (of_gomap m) = true.
Proof. by intros [->| ->]. Qed.

Lemma completion_ok taskID state env e : clean e → time_ok (env_now env) = true →
  event_ok (completion_event taskID state env e).
Proof.
  intros (Hp & Hr & _) Ht. unfold event_ok. cbn [completion_event Params Response Timestamp].
  split; [|split; [by apply empty_map_plain|exact Ht]].
  destruct Hp as [-> | ->]; reflexivity.
Qed.

(** The completion event gives back to the pool what it took from it. *)
Lemma completion_put taskID state env e e' pl : clean e → pool_clean pl →
  content e' = content (completion_event taskID state env e) →
  (PutEvent e' pl).1 = Ok tt ∧ pool_clean (PutEvent e' pl).2.
Proof.
  intros (Hp & Hr & _) [He Hb] Hc. apply (f_equal (λ x, (Params x, Response x))) in Hc.
  injection Hc as Hp' Hr'. unfold PutEvent. rewrite Hp', Hr'. unfold or_return.
  destruct Hp as [-> | ->], Hr as [-> | ->]; cbn -[PutEvent clear_loop];
    (split; [reflexivity|]); (split; [|exact Hb]); (constructor; [|exact He]);
    (split; [|split; [|reflexivity]]); apply clear_loop_enough, Z.leb_le; vm_compute; reflexivity.
Qed.

(** [createTaskCompletionEvent] appends at most the completion event; it fails
    only by panicking, in strict mode. *)
Lemma create_spec taskID state env p pl o p' pl' :
  proc_ok p → pool_clean pl → time_ok (env_now env) = true → taskID ≠ "" → state ≠ "" →
  createTaskCompletionEvent taskID state env (p, pl) = (o, (p', pl')) →
  proc_ok p' ∧ pool_clean pl' ∧ same_proc p p' ∧
  ((∃ c c0, clean c0 ∧ content c = content (completion_event taskID state env c0) ∧
      RunID c = runID p ∧ appends p p' [reread c] ∧ o = Ok tt) ∨
   (appends p p' [] ∧ if StrictMode then is_panic o = true else o = Ok tt ∨ is_panic o = true)).
Proof.
  intros Hok Hpl Ht Hid Hst. unfold createTaskCompletionEvent.
  apply nonempty_true in Hid, Hst. rewrite Hid, Hst. unfold or_return. rewrite !Check_true.
  destruct (GetEvent_clean (env_pick env) pl Hpl) as (e0 & pl1 & E0 & Hc0 & Hpl1).
  unfold mbind at 1, M_bind at 1, on_pool at 1. rewrite E0. cbn [fst snd].
  unfold mbind at 1, M_bind at 1, get.
  destruct (persistEvent (p, completion_event taskID state env e0)) as [o1 [p1 e1]] eqn:E1.
  apply persist_spec in E1 as (Hok1 & Hs1 & Hc1 & Ha1); [|assumption|by apply completion_ok].
  destruct (completion_put taskID state env e0 e1 pl1) as [Hput Hpl2]; [assumption..|].
  unfold mbind, M_bind, put, on_pool. destruct o1 as [[]|err|err]; cbn [is_ok] in Ha1.
  - rewrite Hput. intros [= <- <- <-]. destruct Ha1. split_and!; try assumption. left. by exists e1, e0.
  - unfold Check. destruct StrictMode; [|rewrite Hput]; intros [= <- <- <-];
      (split; [assumption|]; split; [assumption|]; split; [assumption|]); right; auto.
  - intros [= <- <- <-]. (split; [assumption|]; split; [assumption|]; split; [assumption|]).
    right. split; [assumption|]. destruct StrictMode; auto.
Qed.

(** Whether processing an event completes a tracked task. *)
Definition completes (tasks : gmap string string) (e : Event) : bool :=
  tracked e &&
  match tasks !! TaskID e with
  | Some old => negb (String.eqb old (TaskState e)) && isTerminalState (TaskState e)
  | None => false
  end.

(** The task states after an event has been processed. *)
Definition tasks_after (tasks : gmap string string) (e : Event) : gmap string string :=
  if tracked e then
    if isTerminalState (TaskState e)
    then if completes tasks e then delete (TaskID e) tasks else tasks
    else <[TaskID e := TaskState e]> tasks
  else tasks.

Definition tasks_ok (tasks : gmap string string) : Prop :=
  map_Forall (λ t s, t ≠ "" ∧ isTerminalState s = false) tasks.

Lemma tasks_after_ok tasks e : tasks_ok tasks → tasks_ok (tasks_after tasks e).
Proof.
  intros Ht. unfold tasks_after. destruct (tracked e) eqn:Htr; [|done].
  destruct (isTerminalState _) eqn:Hter.
  - destruct (completes tasks e); [by apply map_Forall_delete|done].
  - apply map_Forall_insert_2; [|done]. apply andb_true_iff in Htr as [_ Hn%nonempty_true]. done.
Qed.

Lemma content_tracked e e' : content e' = content e →
  EventType e' = EventType e ∧ TaskID e' = TaskID e ∧ TaskState e' = TaskState e.
Proof. unfold content. intros [=]. done. Qed.

(** What a completion step appended: the completion event, or, after a
    failure that strict mode turns into a panic, nothing. *)
Definition completed (taskID state : string) (env : completion_env) (p p' : Proc) (o : outcome unit) : Prop :=
  (o = Ok tt ∧ ∃ c c0, clean c0 ∧ content c = content (completion_event taskID state env c0) ∧
     RunID c = runID p ∧ appends p p' [reread c]) ∨
  (appends p p' [] ∧ (o = Ok tt → StrictMode = false) ∧ (∀ err, o ≠ Err err)).

Lemma appends_tasks p p' t es : appends p p' es → appends p (set_tasks t p') es.
Proof. done. Qed.

Lemma track_spec e env p pl o p' pl' :
  proc_ok p → pool_clean pl → time_ok (env_now env) = true → tracked e = true →
  trackTaskState e env (p, pl) = (o, (p', pl')) →
  proc_ok p' ∧ pool_clean pl' ∧
  (o = Ok tt → taskStates p' = tasks_after (taskStates p) e) ∧
  (o ≠ Ok tt → taskStates p' = taskStates p) ∧
  if completes (taskStates p) e then completed (TaskID e) (TaskState e) env p p' o
  else o = Ok tt ∧ appends p p' [].
Proof.
  intros Hok Hpl Ht Htr. unfold trackTaskState, tasks_after, completes. rewrite Htr.
  pose proof Htr as [_ Hid]%andb_true_iff. rewrite Hid. unfold or_return. rewrite Check_true.
  apply nonempty_true in Hid. unfold mbind at 1, M_bind at 1, get. cbn [andb].
  assert (∀ t, appends p (set_tasks t p) []) as Hnil by (intros t; apply appends_tasks; by apply appends_nil).
  destruct (taskStates p !! TaskID e) as [old|] eqn:Hold;
    [destruct (negb (String.eqb old (TaskState e))) eqn:Hne|]; cbn [andb];
    destruct (isTerminalState (TaskState e)) eqn:Hter; cbn [negb];
    try (unfold mbind, M_bind, mret, M_ret, modify; intros [= <- <- <-];
         split; [by apply proc_ok_tasks || assumption|]; split; [assumption|];
         split; [done|]; split; [done|]; split; [done|]; (apply Hnil || (apply appends_nil; reflexivity || done))).
  unfold mbind at 1 2, M_bind at 1 2.
  destruct (createTaskCompletionEvent (TaskID e) (TaskState e) env (p, pl)) as [o1 [p1 pl1]] eqn:E1.
  apply create_spec in E1 as (Hok1 & Hpl1 & (Hsg & Hrn & Htk) & Hcase); try assumption;
    [|by intros Hs; rewrite Hs in Hter].
  unfold modify, mret, M_ret, completed.
  destruct o1 as [[]|err|err]; intros [= <- <- <-]; cbn [taskStates set_tasks];
    (split; [by apply proc_ok_tasks || assumption|]); (split; [assumption|]);
    rewrite ?Htk; (split; [done|]); (split; [done|]).
  - destruct Hcase as [(c & c0 & ? & ? & ? & ? & _)|[? Hst]]; [left; eauto 10|].
    right. split; [done|]. split; [|done]. intros _. by destruct StrictMode.
  - exfalso. destruct Hcase as [(c & c0 & _ & _ & _ & _ & [=])|[_ Hst]].
    destruct StrictMode; naive_solver.
  - right. destruct Hcase as [(c & c0 & _ & _ & _ & _ & [=])|[? _]]. done.
Qed.

(** The outcomes of [ProcessEvent]. *)
Lemma process_spec env p e pl o p' oe pl' :
  proc_ok p → event_ok e → pool_clean pl → time_ok (env_now env) = true →
  ProcessEvent env (p, Some e, pl) = (o, (p', oe, pl')) →
  proc_ok p' ∧ pool_clean pl' ∧ ∃ e1, oe = Some e1 ∧ content e1 = content e ∧
  (o = Ok tt → taskStates p' = tasks_after (taskStates p) e) ∧
  (o ≠ Ok tt → taskStates p' = taskStates p) ∧
  ((o ≠ Ok tt ∧ appends p p' []) ∨
   (RunID e1 = runID p ∧ ∃ q, appends p q [reread e1] ∧
    if completes (taskStates p) e then completed (TaskID e) (TaskState e) env q p' o
    else o = Ok tt ∧ appends q p' [])).
Proof.
  intros Hok He Hpl Ht. unfold ProcessEvent. unfold mbind at 1, M_bind at 1, get.
  destruct (persistEvent (p, e)) as [o1 [p1 e1]] eqn:E1.
  apply persist_spec in E1 as (Hok1 & Hs1 & Hc1 & Ha1); [|assumption..].
  destruct (content_tracked _ _ Hc1) as (Ety & Eid & Est).
  assert (tracked e1 = tracked e) as Etr by (unfold tracked; by rewrite Ety, Eid).
  assert (∀ t, tasks_after t e1 = tasks_after t e ∧ completes t e1 = completes t e) as Eta.
  { intros t. unfold tasks_after, completes. by rewrite Etr, Eid, Est. }
  unfold mbind at 1, M_bind at 1, put at 1. unfold mbind at 1, M_bind at 1, lift at 1.
  destruct Hs1 as (Hsg & Hrn & Htk).
  destruct o1 as [[]|err|err]; cbn [is_ok] in Ha1;
    [|intros [= <- <- <- <-]; split_and!; try assumption; exists e1; split_and!; try done; by left..].
  destruct Ha1 as [Ha1 Hrun1]. destruct (tracked e1) eqn:Htr.
  - destruct (trackTaskState e1 env (p1, pl)) as [o2 [p2 pl2]] eqn:E2.
    apply track_spec in E2 as (Hok2 & Hpl2 & Ht1 & Ht2 & Hcase); try assumption.
    rewrite Htk in *. rewrite Eid, Est in Hcase.
    destruct (Eta (taskStates p)) as [Ea Ec]. rewrite Ea in Ht1. rewrite Ec in Hcase.
    unfold mbind, M_bind, put, lift. destruct o2 as [[]|err|err]; intros [= <- <- <- <-];
      split_and!; try assumption; exists e1; split_and!; try done; right; eauto.
  - unfold mret, M_ret. intros [= <- <- <- <-]. split_and!; try assumption. exists e1.
    split_and!; try done.
    + intros _. unfold tasks_after. by rewrite <- Etr.
    + right. split; [done|]. exists p1. split; [done|]. unfold completes. rewrite <- Etr. cbn [andb].
      split; [done|]. by apply appends_nil.
Qed.

(** What processing one event may add to a log: nothing, or the event, at most
    one more after it. *)
Definition chunk_of (e : Event) (es : list Event) : Prop :=
  match es with
  | [] => True
  | x :: rest => (∃ e1, x = reread e1 ∧ content e1 = content e) ∧ (length rest ≤ 1)%nat
  end.

Lemma process_chunk env p e pl o p' oe pl' :
  proc_ok p → tasks_ok (taskStates p) → event_ok e → pool_clean pl → time_ok (env_now env) = true →
  ProcessEvent env (p, Some e, pl) = (o, (p', oe, pl')) →
  proc_ok p' ∧ tasks_ok (taskStates p') ∧ pool_clean pl' ∧
  (∃ e1, oe = Some e1 ∧ content e1 = content e) ∧
  ∃ es, appends p p' es ∧ chunk_of e es ∧ (o = Ok tt → es ≠ []).
Proof.
  intros Hok Hts He Hpl Ht E.
  apply process_spec in E as (Hok' & Hpl' & e1 & ? & Hc1 & Ht1 & Ht2 & Hc); [|assumption..].
  split; [assumption|]. split.
  { destruct (decide (o = Ok tt)) as [Eo|Eo]; [rewrite Ht1|rewrite Ht2]; auto using tasks_after_ok. }
  split; [assumption|]. split; [by exists e1|].
  destruct Hc as [[Ho Ha]|(_ & q & Ha & Hc)]; [by exists []|].
  assert (∃ es', appends q p' es' ∧ (length es' ≤ 1)%nat) as (es' & Hq & Hlen).
  { destruct (completes (taskStates p) e).
    - destruct Hc as [(_ & c & c0 & _ & _ & _ & Hq)|(Hq & _)]; eauto.
    - destruct Hc as [_ Hq]. eauto. }
  exists ([reread e1] ++ es'). split; [by eapply appends_trans|]. split; [|done].
  split; [by exists e1|done].
Qed.

(** ** Theorems *)

(** C1: whatever the repository answers or fails, and however
    [ProcessEvent] ends (success, error or panic), the run's log stays a
    signed hash chain numbered from zero, it grows at its end by nothing, by
    the given event, or by the given event and one more, no other run is
    touched, task states of finished tasks are not kept, and the object pool
    stays clean. *)
Theorem ProcessEvent_chain env p e pl o p' oe pl' :
  proc_ok p → tasks_ok (taskStates p) → event_ok e → pool_clean pl → time_ok (env_now env) = true →
  ProcessEvent env (p, Some e, pl) = (o, (p', oe, pl')) →
  proc_ok p' ∧ tasks_ok (taskStates p') ∧ pool_clean pl' ∧
  ∃ es, appends p p' es ∧ chunk_of e es ∧ (o = Ok tt → es ≠ []).
Proof.
  intros Hok Hts He Hpl Ht E.
  by destruct (process_chunk env p e pl o p' oe pl') as (? & ? & ? & _ & ?).
Qed.

(** C14: when [ProcessEvent] succeeds in strict mode, the log has
    grown by exactly the given event (its content unchanged, its run the
    processor's), followed by a task-completion event exactly when the event
    moved a tracked task from another state to a terminal one. *)
Theorem ProcessEvent_log env p e pl p' oe pl' :
  StrictMode = true →
  proc_ok p → event_ok e → pool_clean pl → time_ok (env_now env) = true →
  ProcessEvent env (p, Some e, pl) = (Ok tt, (p', oe, pl')) →
  taskStates p' = tasks_after (taskStates p) e ∧
  ∃ e1, oe = Some e1 ∧ content e1 = content e ∧ RunID e1 = runID p ∧
  if completes (taskStates p) e then
    ∃ c, EventType c = "task_terminal" ∧ TaskID c = TaskID e ∧ TaskState c = TaskState e ∧
      run_log (db p') (runID p) = run_log (db p) (runID p) ++ [reread e1; reread c]
  else run_log (db p') (runID p) = run_log (db p) (runID p) ++ [reread e1].
Proof.
  intros Hst Hok He Hpl Ht E.
  apply process_spec in E as (_ & _ & e1 & -> & Hc1 & Ht1 & _ & Hc); [|assumption..].
  split; [auto|]. exists e1. split; [done|]. split; [done|].
  destruct Hc as [[Ho _]|(Hr & q & Ha & Hc)]; [done|]. split; [done|].
  destruct (completes (taskStates p) e).
  - destruct Hc as [(_ & c & c0 & _ & Hcc & _ & Hq)|(_ & Hf & _)];
      [|by rewrite Hst in Hf; specialize (Hf eq_refl)].
    exists c. destruct (content_tracked _ _ Hcc) as (-> & -> & ->). split_and!; try done.
    by destruct (appends_trans _ _ _ _ _ Ha Hq) as (_ & _ & -> & _).
  - destruct Hc as [_ Hq]. by destruct (appends_trans _ _ _ _ _ Ha Hq) as (_ & _ & -> & _).
Qed.

End Processor.
