(* ===== verification/Genesis.v ===== *)
(** * internal/ledger: the genesis block

    [CreateGenesisBlock] of [internal/ledger/genesis.go]: a run and its first
    event, with the public key and, when the block explorer answers, a Bitcoin
    anchor in its parameters. *)
From S2P Require Import Prelude Assert Models Sha256 Crypto Repository Pool Chain Anchor Processor.
(** What the environment supplies: the pooled object, two UUIDs, the time of
    the event and of the anchor. *)
Record genesis_env := mkGenesisEnv {
  g_pick : option nat;
  g_run_uuid : string;
  g_event_uuid : string;
  g_now : Time;
  g_anchor_now : Time;
}.

Section Genesis.
Context `{AssertMode} `{TL : TimeLib} `{JL : JsonLib} `{Ed25519} `{Http} {St : Type}
        `{EventRepository St}.

Definition modify_cell (f : Event → Event) : M (St * Event) unit := modify (λ '(s, e), (s, f e)).

Definition on_repo {A} (m : M St A) : M (St * Event) A := λ '(s, e),
  let r := m s in (r.1, (r.2, e)).

Definition set_Params (m : gomap) (e : Event) : Event :=
  mkEvent (ID e) (RunID e) (SeqIndex e) (Timestamp e) (Actor e) (EventType e) (Method e) m
    (Response e) (TaskID e) (TaskState e) (ParentID e) (PolicyID e) (RiskLevel e) (PrevHash e)
    (CurrentHash e) (Signature e) (WasBlocked e).

(** [genesisEvent.Params[k] = v]: a write to a nil map panics. *)
Definition write_param (k : string) (v : value) : M (St * Event) unit :=
  '(_, e) ← get;
  match Params e with
  | None => lift (Panic (ENew "assignment to entry in nil map"))
  | Some m => modify_cell (set_Params (Some (<[k := v]> m)))
  end.

Definition genesis_fields (env : genesis_env) (e : Event) : Event :=
  mkEvent (g_event_uuid env) (g_run_uuid env) 0 (g_now env) "system" "genesis" "logryph:init"
    (Params e) (Response e) (TaskID e) (TaskState e) (ParentID e) (PolicyID e) (RiskLevel e)
    (PrevHash e) (CurrentHash e) (Signature e) (WasBlocked e).

Definition set_first (e : Event) : Event :=
  mkEvent (ID e) (RunID e) (SeqIndex e) (Timestamp e) (Actor e) (EventType e) (Method e) (Params e)
    (Response e) (TaskID e) (TaskState e) (ParentID e) (PolicyID e) (RiskLevel e) zero_hash
    (CurrentHash e) (Signature e) false.

(** The parameters: public key, agent name, version, and the anchor if it can
    be fetched. *)
Definition genesis_params (signer : Signer) (agentName : string) (env : genesis_env) :
    M (St * Event) unit :=
  write_param "public_key" (VString (GetPublicKey signer));;
  write_param "agent_name" (VString agentName);;
  write_param "version" (VString "1.0.0");;
  modify_cell set_first;;
  match FetchBitcoinAnchor 0 (g_anchor_now env) with
  | Err _ => mret tt
  | Panic e => lift (Panic e)
  | Ok anchor =>
      write_param "anchor_source" (VString (Source anchor));;
      write_param "anchor_height" (VUint64 (BlockHeight anchor));;
      write_param "anchor_hash" (VString (BlockHash anchor));;
      write_param "anchor_time" (VTime (an_Timestamp anchor))
  end.

Definition genesis_body (signer : Signer) (agentName : string) (env : genesis_env) :
    M (St * Event) string :=
  modify_cell (genesis_fields env);;
  genesis_params signer agentName env;;
  '(_, e) ← get;
  currentHash ← wrap "calculating genesis hash"
                  (lift (CalculateEventHash (PrevHash e) (payload e)));
  modify_cell (set_CurrentHash currentHash);;
  signature ← wrap "signing genesis hash" (lift (SignHash signer currentHash));
  modify_cell (set_Signature signature);;
  wrap "inserting run"
    (on_repo (InsertRun (g_run_uuid env) agentName currentHash (GetPublicKey signer)));;
  '(_, e) ← get;
  wrap "inserting genesis event" (on_repo (StoreEvent e));;
  mret (g_run_uuid env).

(** The deferred [PutEvent] runs however the body ends. *)
Definition CreateGenesisBlock (signer : Signer) (agentName : string) (env : genesis_env) :
    M (St * Pool) string :=
  event0 ← on_pool (GetEvent (g_pick env));
  '(s, pl) ← get;
  let '(o, (s', event)) := genesis_body signer agentName env (s, event0) in
  let '(po, pl') := PutEvent event pl in
  put (s', pl');;
  match po with
  | Panic e => lift (Panic e)
  | _ => lift o
  end.

(** ** The event while it is being filled in *)

(** What every pooled event the body handles satisfies: small enough to go
    back to the pool. *)
Definition small (e : Event) : Prop := empty_map (Response e) ∧ map_len (Params e) ≤ 16.

Record filling (env : genesis_env) (n : Z) (e : Event) : Prop := {
  fi_run : RunID e = g_run_uuid env;
  fi_seq : SeqIndex e = 0;
  fi_time : Timestamp e = g_now env;
  fi_resp : empty_map (Response e);
  fi_plain : json_plain (of_gomap (Params e)) = true;
  fi_len : map_len (Params e) ≤ n;
}.

(** [m] leaves the store alone, takes an event with [P] to one with [Q] when it
    succeeds, and to a small one in any case. *)
Definition fills {A} (P : Event → Prop) (m : M (St * Event) A) (Q : Event → Prop) : Prop :=
  ∀ s e o s' e', P e → m (s, e) = (o, (s', e')) → s' = s ∧ small e' ∧ (is_ok o = true → Q e').

Lemma fills_bind {A B} P Q R (m : M (St * Event) A) (f : A → M (St * Event) B) :
  fills P m Q → (∀ a, fills Q (f a) R) → fills P (m ≫= f) R.
Proof.
  intros Hm Hf s e o s' e' Hp. unfold mbind, M_bind.
  destruct (m (s, e)) as [o1 [s1 e1]] eqn:E1. destruct (Hm _ _ _ _ _ Hp E1) as (-> & Hs & Hq).
  destruct o1 as [a|er|er]; [|by intros [= <- <- <-]..].
  intros E. by eapply Hf; [apply Hq|].
Qed.

Lemma filling_small env n e : n ≤ 16 → filling env n e → small e.
Proof. intros ? []. split; [done|lia]. Qed.

Lemma map_len_put k v m : map_len (Some (<[k := v]> m)) ≤ map_len (Some m) + 1.
Proof.
  simpl. destruct (m !! k) as [x|] eqn:E.
  - rewrite map_size_insert_Some by (by exists x). lia.
  - rewrite map_size_insert_None by done. lia.
Qed.

Lemma write_param_fills env n k v : n < 16 → utf8_coerce k = k → json_plain v = true →
  fills (filling env n) (write_param k v) (filling env (n + 1)).
Proof.
  intros Hn Hk Hv s e o s' e' Hf. unfold write_param, mbind, M_bind, get.
  destruct (Params e) as [m|] eqn:Ep.
  - unfold modify_cell, modify. intros [= <- <- <-]. split; [done|].
    assert (filling env (n + 1) (set_Params (Some (<[k := v]> m)) e)) as Hf'.
    { destruct Hf as [? ? ? ? Hpl Hl]. split; cbn [set_Params RunID SeqIndex Timestamp Response Params]; try done.
      - rewrite Ep in Hpl. apply json_plain_obj, map_Forall_insert_2; [by split|]. by apply json_plain_obj.
      - rewrite Ep in Hl. pose proof (map_len_put k v m). lia. }
    split; [by eapply filling_small; [|exact Hf']; lia|done].
  - intros [= <- <- <-]. split; [done|]. split; [by eapply filling_small; [|exact Hf]; lia|done].
Qed.

Lemma set_first_fills env n : n ≤ 16 →
  fills (filling env n) (modify_cell set_first) (λ e, filling env n e ∧ PrevHash e = zero_hash).
Proof.
  intros Hn s e o s' e' Hf [= <- <- <-]. split; [done|].
  assert (filling env n (set_first e)) by by destruct Hf.
  split; [by eapply filling_small|done].
Qed.

(** The previous hash survives a write to the parameters. *)
Lemma write_param_prev env n k v : n < 16 → utf8_coerce k = k → json_plain v = true →
  fills (λ e, filling env n e ∧ PrevHash e = zero_hash) (write_param k v)
    (λ e, filling env (n + 1) e ∧ PrevHash e = zero_hash).
Proof.
  intros Hn Hk Hv s e o s' e' [Hf Hz] E.
  destruct (write_param_fills env n k v Hn Hk Hv s e o s' e' Hf E) as (-> & ? & Hq).
  split; [done|]. split; [done|]. intros Ho. split; [auto|]. revert E.
  unfold write_param, mbind, M_bind, get. destruct (Params e); by intros [= <- <-].
Qed.

Lemma fills_weaken {A} P Q Q' (m : M (St * Event) A) :
  (∀ e, Q e → Q' e) → fills P m Q → fills P m Q'.
Proof. intros HQ Hm s e o s' e' Hp E. destruct (Hm _ _ _ _ _ Hp E) as (? & ? & ?). auto. Qed.

Lemma genesis_params_fills signer agentName env :
  fills (filling env 0) (genesis_params signer agentName env)
    (λ e, filling env 7 e ∧ PrevHash e = zero_hash).
Proof.
  unfold genesis_params.
  do 3 (eapply fills_bind; [apply write_param_fills; [lia|done|done]|intros _]).
  eapply fills_bind; [apply set_first_fills; lia|intros _].
  destruct (FetchBitcoinAnchor 0 (g_anchor_now env)) as [a|er|er].
  - do 3 (eapply fills_bind; [apply write_param_prev; [lia|done|done]|intros _]).
    by apply write_param_prev.
  - intros s e o s' e' [Hf Hz] [= <- <- <-]. split; [done|].
    split; [by eapply filling_small; [|exact Hf]; lia|]. intros _. split; [|done].
    destruct Hf. split; try done. lia.
  - intros s e o s' e' [Hf Hz] [= <- <- <-]. split; [done|].
    by split; [eapply filling_small; [|exact Hf]; lia|].
Qed.

Context {RL : RepositoryLaws St} {JLaws : JsonLaws TL JL} {TLaws : TimeLaws TL} {ELaws : Ed25519Laws _}.

Lemma small_put e pl : small e → pool_clean pl →
  (PutEvent e pl).1 = Ok tt ∧ pool_clean (PutEvent e pl).2.
Proof.
  intros [Hr Hl] [He Hb]. assert (map_len (Response e) ≤ 16) as Hl' by by destruct Hr as [-> | ->].
  unfold PutEvent, or_return.
  rewrite (proj2 (Z.leb_le (map_len (Params e)) (Z.of_nat maxEventFields)))
    by (unfold maxEventFields; lia).
  rewrite (proj2 (Z.leb_le (map_len (Response e)) (Z.of_nat maxEventFields)))
    by (unfold maxEventFields; lia).
  rewrite !Check_true. split; [reflexivity|]. split; [|exact Hb]. constructor; [|exact He].
  split; [|split; [|reflexivity]]; apply clear_loop_enough; unfold maxEventFields; lia.
Qed.

(** The last two steps: the run row, then the event. *)
Lemma genesis_store s e o s' agentName key h run : repo_ok s → run_log s run = [] →
  RunID e = run → SeqIndex e = 0 →
  (wrap "inserting run" (on_repo (InsertRun run agentName h key));;
   '(_, e) ← get;
   wrap "inserting genesis event" (on_repo (StoreEvent e));;
   mret run) (s, e) = (o, s') →
  repo_ok s'.1 ∧ s'.2 = e ∧
  if is_ok o then o = Ok run ∧ run_log s'.1 run = [reread e] ∧
                  ∀ r, r ≠ run → run_log s'.1 r = run_log s r
  else run_log s'.1 = run_log s.
Proof.
  intros Hr Hl Hrun Hseq. unfold mbind at 1, M_bind at 1, wrap at 1, on_repo at 1.
  destruct (InsertRun run agentName h key s) as [o1 s1] eqn:E1.
  apply InsertRun_log in E1 as [Hr1 Hl1]; [|assumption]. cbn [fst snd].
  destruct o1 as [[]|er|er]; [|by intros [= <- <-]..].
  unfold mbind, M_bind, get, wrap, on_repo.
  destruct (StoreEvent e s1) as [o2 s2] eqn:E2. cbn [fst snd].
  destruct (decide (o2 = Ok tt)) as [->|Hne].
  - apply StoreEvent_ok in E2 as (Hr2 & Hl2 & Ho2); [|assumption|by rewrite Hrun, Hl1, Hl, Hseq].
    rewrite Hrun, Hl1, Hl in Hl2. rewrite Hrun, Hl1 in Ho2. by intros [= <- <-].
  - apply StoreEvent_fail in E2 as [Hr2 Hl2]; [|assumption..]. rewrite Hl1 in Hl2.
    destruct o2 as [[]|er|er]; [done|by intros [= <- <-]..].
Qed.

Lemma genesis_body_spec signer agentName env s e0 o s' e' :
  signer_ok signer → repo_ok s → run_log s (g_run_uuid env) = [] → clean e0 →
  time_ok (g_now env) = true →
  genesis_body signer agentName env (s, e0) = (o, (s', e')) →
  repo_ok s' ∧ small e' ∧
  if is_ok o then o = Ok (g_run_uuid env) ∧ run_log s' (g_run_uuid env) = [reread e'] ∧
                  chain_ok signer [reread e'] ∧
                  ∀ r, r ≠ g_run_uuid env → run_log s' r = run_log s r
  else run_log s' = run_log s.
Proof.
  intros Hsg Hr Hl (Hcp & Hcr & _) Ht. unfold genesis_body.
  unfold mbind at 1, M_bind at 1, modify_cell at 1, modify at 1.
  assert (filling env 0 (genesis_fields env e0)) as Hf0.
  { split; try done; cbn [genesis_fields Params]; [by apply empty_map_plain|by destruct Hcp as [-> | ->]]. }
  unfold mbind at 1, M_bind at 1.
  destruct (genesis_params signer agentName env (s, genesis_fields env e0)) as [o1 [s1 e1]] eqn:E1.
  apply genesis_params_fills in E1 as (-> & Hsm & Hq); [|assumption].
  destruct o1 as [[]|er|er]; [|by intros [= <- <- <-]..]. destruct (Hq eq_refl) as [[] Hz]. clear Hq.
  unfold mbind at 1, M_bind at 1, get at 1. unfold mbind at 1, M_bind at 1, wrap at 1, lift at 1.
  destruct (CalculateEventHash (PrevHash e1) (payload e1)) as [h|er|er] eqn:Hh; [|by intros [= <- <- <-]..].
  unfold mbind at 1, M_bind at 1, modify_cell at 1, modify at 1.
  unfold mbind at 1, M_bind at 1, wrap at 1, lift at 1, SignHash.
  unfold mbind at 1, M_bind at 1, modify_cell at 1, modify at 1.
  set (e2 := set_Signature _ _). intros E.
  apply genesis_store in E as (? & Ee & Ho); try assumption. cbn [fst snd] in *. subst e'.
  split; [assumption|]. split; [exact Hsm|].
  destruct (is_ok o); [|exact Ho]. destruct Ho as (? & ? & ?). split_and!; try assumption.
  apply (chain_ok_snoc signer []); [apply chain_ok_nil|].
  apply (chain_event_stored signer [] e2); [assumption| |exact Hh|reflexivity|assumption|assumption].
  unfold event_ok. subst e2. cbn [set_Signature set_CurrentHash Params Response Timestamp].
  split; [assumption|]. split; [by apply empty_map_plain|congruence].
Qed.

Lemma genesis_spec signer agentName env s pl o s' pl' :
  signer_ok signer → repo_ok s → run_log s (g_run_uuid env) = [] → pool_clean pl →
  time_ok (g_now env) = true →
  CreateGenesisBlock signer agentName env (s, pl) = (o, (s', pl')) →
  repo_ok s' ∧ pool_clean pl' ∧
  if is_ok o then
    o = Ok (g_run_uuid env) ∧ chain_ok signer (run_log s' (g_run_uuid env)) ∧
    length (run_log s' (g_run_uuid env)) = 1%nat ∧
    ∀ r, r ≠ g_run_uuid env → run_log s' r = run_log s r
  else run_log s' = run_log s.
Proof.
  intros Hsg Hr Hl Hpl Ht. unfold CreateGenesisBlock.
  destruct (GetEvent_clean (g_pick env) pl Hpl) as (e0 & pl1 & E0 & Hc0 & Hpl1).
  unfold mbind at 1, M_bind at 1, on_pool at 1. rewrite E0. cbn [fst snd].
  unfold mbind at 1, M_bind at 1, get.
  destruct (genesis_body signer agentName env (s, e0)) as [o1 [s1 e1]] eqn:E1.
  apply genesis_body_spec in E1 as (Hr1 & Hsm & Ho1); try assumption.
  destruct (small_put e1 pl1 Hsm Hpl1) as [Hput Hpl2].
  destruct (PutEvent e1 pl1) as [po pl2]. cbn [fst snd] in *. subst po.
  unfold mbind, M_bind, put, lift. intros [= <- <- <-].
  split; [assumption|]. split; [assumption|]. destruct (is_ok o1); [|assumption].
  destruct Ho1 as (? & E & ? & ?). rewrite E. split_and!; done.
Qed.

(** C15: on a run identifier that is not in use, [CreateGenesisBlock]
    either succeeds, and the log of the new run is one genesis event forming a
    signed chain that links to the zero hash, or fails and no log changes;
    other runs and the pool's cleanliness are preserved in both cases. *)
Theorem CreateGenesisBlock_spec signer agentName env s pl o s' pl' :
  signer_ok signer → repo_ok s → run_log s (g_run_uuid env) = [] → pool_clean pl →
  time_ok (g_now env) = true →
  CreateGenesisBlock signer agentName env (s, pl) = (o, (s', pl')) →
  repo_ok s' ∧ pool_clean pl' ∧
  if is_ok o then
    o = Ok (g_run_uuid env) ∧ chain_ok signer (run_log s' (g_run_uuid env)) ∧
    length (run_log s' (g_run_uuid env)) = 1%nat ∧
    ∀ r, r ≠ g_run_uuid env → run_log s' r = run_log s r
  else run_log s' = run_log s.
Proof. apply genesis_spec. Qed.

End Genesis.
