(* ===== verification/Verify.v ===== *)
(** * internal/ledger/audit: verifying a run

    [VerifyChain], [VerifyEvent] and [VerifyAnchors] of
    [internal/ledger/audit/verify.go] with the errors of [errors.go]: what the
    audit accepts, that it accepts every chain, and what its acceptance says
    about the data. *)
From S2P Require Import Prelude Assert Models Sha256 Crypto Repository Chain Anchor.
Definition ErrChainTampered : error := ENew "forensic integrity error: hash chain link broken".
Definition ErrInvalidSignature : error :=
  ENew "forensic integrity error: invalid ed25519 signature".
Definition ErrHashMismatch : error :=
  ENew "forensic integrity error: hash mismatch (data tampered)".
Definition ErrNoEvents : error := ENew "forensic integrity error: no events found in ledger".

Record VerificationResult := mkVerificationResult {
  Valid : bool;
  vr_TotalEvents : Z;
  ErrorMessage : string;
  FailedAtSeq : Z;
}.

Record AnchorVerificationResult := mkAnchorVerificationResult {
  av_Valid : bool;
  AnchorsChecked : Z;
  av_ErrorMessage : string;
}.

Definition maxVerifyEvents : Z := 100000.
Definition maxAnchorEvents : Z := 100000.

(** The integer part of a finite float, and Go's [uint64(f)]: truncation when
    the result fits; what it gives otherwise depends on the machine. *)
Definition float_trunc (f : spec_float) : option Z :=
  match f with
  | S754_zero _ => Some 0
  | S754_finite s m e =>
      let a := if 0 <=? e then Zpos m * 2 ^ e else Zpos m / 2 ^ (- e) in
      Some (if s then - a else a)
  | _ => None
  end.

Definition uint64_of_float (machine : spec_float → Z) (f : spec_float) : Z :=
  match float_trunc f with
  | Some z => if (0 <=? z) && (z <=? max_uint64) then z else machine f
  | None => machine f
  end.

Section Audit.
Context `{AssertMode} `{TL : TimeLib} `{JL : JsonLib} `{Ed25519}.

Definition VerifyEvent (event : Event) (signer : Signer) : outcome unit :=
  Check (nonempty (Signature event)) ("event signature must not be empty: id=" +:+ ID event);;
  Check (nonempty (CurrentHash event)) ("event current hash is missing: id=" +:+ ID event);;
  calculatedHash ← wrap_err "failed to calculate hash"
                     (CalculateEventHash (PrevHash event) (payload event));
  if negb (String.eqb calculatedHash (CurrentHash event)) then Err ErrHashMismatch
  else if negb (VerifySignature signer calculatedHash (Signature event)) then Err ErrInvalidSignature
  else Ok tt.

(** The verification loop from index [i], at most [n] rounds. *)
Fixpoint verify_loop (n i : nat) (events : list Event) (signer : Signer) (total : Z) :
    outcome VerificationResult :=
  match n with
  | O => Ok (mkVerificationResult true total "" 0)
  | S n' =>
      match events !! i with
      | None => Ok (mkVerificationResult true total "" 0)
      | Some event =>
          if match i with
             | O => true
             | S j => match events !! j with
                      | Some prevEvent => String.eqb (PrevHash event) (CurrentHash prevEvent)
                      | None => true
                      end
             end
          then
            match VerifyEvent event signer with
            | Err err =>
                Ok (mkVerificationResult false total
                      ("Event " +:+ pretty (N.of_nat i) +:+ " (seq " +:+ pretty (SeqIndex event)
                         +:+ ") failed verification: " +:+ Error err) (SeqIndex event))
            | Panic e => Panic e
            | Ok _ => verify_loop n' (S i) events signer total
            end
          else Ok (mkVerificationResult false total (Error ErrChainTampered) (SeqIndex event))
      end
  end.

Context {St : Type} `{EventRepository St}.

Definition VerifyChain (runID : string) (signer : Signer) : M St VerificationResult :=
  lift (Check (nonempty runID) "runID must not be empty");;
  events ← wrap "failed to get events" (GetAllEvents runID);
  let total := Z.of_nat (length events) in
  match events with
  | [] => mret (mkVerificationResult false total (Error ErrNoEvents) 0)
  | _ =>
      lift (Check (total <=? maxVerifyEvents) ("event count exceeds max: " +:+ pretty total));;
      lift (verify_loop (Z.to_nat maxVerifyEvents) 0 events signer total)
  end.

Context `{Http} (machine : spec_float → Z).

(** One anchored event: the hash and the height its parameters carry. *)
Definition anchor_of (event : Event) : option (string * Z) :=
  if String.eqb (EventType event) "genesis" || String.eqb (EventType event) "anchor" then
    anchorHash ← as_string (map_get (Params event) "anchor_hash");
    anchorHeight ← as_float64 (map_get (Params event) "anchor_height");
    Some (anchorHash, uint64_of_float machine anchorHeight)
  else None.

Fixpoint anchor_loop (n i : nat) (events : list Event) (now : Time) (checked : Z) :
    outcome AnchorVerificationResult :=
  match n with
  | O => Ok (mkAnchorVerificationResult true checked "")
  | S n' =>
      match events !! i with
      | None => Ok (mkAnchorVerificationResult true checked "")
      | Some event =>
          match anchor_of event with
          | None => anchor_loop n' (S i) events now checked
          | Some (anchorHash, height) =>
              match FetchBitcoinAnchorAtHeight (Z.to_nat checked) height now with
              | Err err =>
                  Ok (mkAnchorVerificationResult false (checked + 1)
                        ("failed to verify anchor at height " +:+ pretty height +:+ ": " +:+ Error err))
              | Panic e => Panic e
              | Ok liveAnchor =>
                  if String.eqb (BlockHash liveAnchor) anchorHash
                  then anchor_loop n' (S i) events now (checked + 1)
                  else Ok (mkAnchorVerificationResult false (checked + 1)
                             ("anchor mismatch at height " +:+ pretty height +:+ ": ledger="
                                +:+ anchorHash +:+ ", live=" +:+ BlockHash liveAnchor))
              end
          end
      end
  end.

Definition VerifyAnchors (runID : string) (now : Time) : M St AnchorVerificationResult :=
  events ← wrap "failed to get events for anchor verification" (GetAllEvents runID);
  lift (Check (Z.of_nat (length events) <=? maxAnchorEvents)
          ("anchor events exceed max: " +:+ pretty (Z.of_nat (length events))));;
  lift (anchor_loop (Z.to_nat maxAnchorEvents) 0 events now 0).

(** ** What the audit accepts *)

Definition linked (events : list Event) (i : nat) (e : Event) : Prop :=
  match i with
  | O => True
  | S j => ∀ prev, events !! j = Some prev → PrevHash e = CurrentHash prev
  end.

(** The [i]-th event links to its predecessor, carries the hash of its own
    payload and a signature of it. *)
Record accepted (s : Signer) (events : list Event) (i : nat) (e : Event) : Prop := {
  ac_link : linked events i e;
  ac_hash : hashed e;
  ac_sig : signed s e;
  ac_sig_ne : Signature e ≠ "";
}.

Definition audited (s : Signer) (events : list Event) : Prop :=
  events ≠ [] ∧ Z.of_nat (length events) ≤ maxVerifyEvents ∧
  ∀ i e, events !! i = Some e → accepted s events i e.

Lemma VerifyEvent_iff s e : VerifyEvent e s = Ok tt ↔ hashed e ∧ signed s e ∧ Signature e ≠ "".
Proof.
  unfold VerifyEvent, hashed, signed. split.
  - intros E. inv_ok.
    repeat match goal with Hc : Check _ _ = Ok _ |- _ => apply Check_ok, nonempty_true in Hc end.
    match goal with Hw : wrap_err _ _ = _ |- _ => apply wrap_err_ok in Hw; rewrite Hw end.
    destruct (String.eqb_spec x1 (CurrentHash e)) as [->|]; [|done]. simpl in *.
    by destruct (VerifySignature s (CurrentHash e) (Signature e)).
  - intros (Hh & Hs & Hn). rewrite Hh. apply nonempty_true in Hn as ->.
    apply hash_nonempty, nonempty_true in Hh as ->. rewrite !Check_true. cbn.
    by rewrite String.eqb_refl, Hs.
Qed.

Lemma VerifyEvent_bad_signature s e : hashed e → Signature e ≠ "" →
  VerifySignature s (CurrentHash e) (Signature e) = false → ∃ err, VerifyEvent e s = Err err.
Proof.
  unfold VerifyEvent, hashed. intros Hh Hn Hs. rewrite Hh. apply nonempty_true in Hn as ->.
  apply hash_nonempty, nonempty_true in Hh as ->. rewrite !Check_true. cbn.
  rewrite String.eqb_refl, Hs. by eexists.
Qed.

Definition link_ok (events : list Event) (i : nat) (e : Event) : bool :=
  match i with
  | O => true
  | S j => match events !! j with
           | Some prevEvent => String.eqb (PrevHash e) (CurrentHash prevEvent)
           | None => true
           end
  end.

Lemma link_ok_true events i e : link_ok events i e = true ↔ linked events i e.
Proof.
  destruct i as [|j]; simpl; [done|]. destruct (events !! j) as [pe|] eqn:E.
  - rewrite String.eqb_eq. naive_solver.
  - naive_solver.
Qed.

Lemma verify_loop_S n i events s t : verify_loop (S n) i events s t =
  match events !! i with
  | None => Ok (mkVerificationResult true t "" 0)
  | Some event =>
      if link_ok events i event then
        match VerifyEvent event s with
        | Err err =>
            Ok (mkVerificationResult false t
                  ("Event " +:+ pretty (N.of_nat i) +:+ " (seq " +:+ pretty (SeqIndex event)
                     +:+ ") failed verification: " +:+ Error err) (SeqIndex event))
        | Panic e => Panic e
        | Ok _ => verify_loop n (S i) events s t
        end
      else Ok (mkVerificationResult false t (Error ErrChainTampered) (SeqIndex event))
  end.
Proof. by destruct i. Qed.

(** The loop accepts when every remaining event is acceptable, and else stops
    at the first that is not. *)
Lemma verify_loop_accepts n i events s t : (length events ≤ i + n)%nat →
  (∀ j e, (i ≤ j)%nat → events !! j = Some e → accepted s events j e) →
  verify_loop n i events s t = Ok (mkVerificationResult true t "" 0).
Proof.
  revert i. induction n as [|n IH]; intros i Hl Ha; [done|]. rewrite verify_loop_S.
  destruct (events !! i) as [e|] eqn:Ee; [|done].
  destruct (Ha i e (Nat.le_refl i) Ee) as [Hln Hh Hs Hn]. apply link_ok_true in Hln as ->.
  rewrite (proj2 (VerifyEvent_iff s e)) by done. apply IH; [lia|].
  intros j e' Hj. apply Ha. lia.
Qed.

Lemma verify_loop_result n i events s t r : (length events ≤ i + n)%nat →
  (∀ j e, (j < i)%nat → events !! j = Some e → accepted s events j e) →
  verify_loop n i events s t = Ok r →
  vr_TotalEvents r = t ∧
  if Valid r then ErrorMessage r = "" ∧ ∀ j e, events !! j = Some e → accepted s events j e
  else ∃ j e, events !! j = Some e ∧ FailedAtSeq r = SeqIndex e ∧ ¬ accepted s events j e ∧
    ∀ k e', (k < j)%nat → events !! k = Some e' → accepted s events k e'.
Proof.
  revert i. induction n as [|n IH]; intros i Hl Hb.
  - intros [= <-]. split; [done|]. split; [done|]. intros j e Hj. apply Hb; [|done].
    apply lookup_lt_Some in Hj. lia.
  - rewrite verify_loop_S. destruct (events !! i) as [e|] eqn:Ee.
    + destruct (link_ok events i e) eqn:Hln.
      * destruct (VerifyEvent e s) as [[]|err|err] eqn:Hv; [|intros [= <-]; split; [done|]|done].
        -- apply VerifyEvent_iff in Hv as (? & ? & ?). apply link_ok_true in Hln.
           apply IH; [lia|]. intros j e' Hj Ej.
           destruct (decide (j = i)) as [->|]; [|by apply Hb; [lia|]].
           rewrite Ee in Ej. injection Ej as <-. by split.
        -- exists i, e. split; [done|]. split; [done|]. split; [|done]. intros [].
           assert (VerifyEvent e s = Ok tt) as Hok by by apply VerifyEvent_iff.
           by rewrite Hok in Hv.
      * intros [= <-]. split; [done|]. exists i, e. split; [done|]. split; [done|]. split; [|done].
        intros [Hl' _ _ _]. apply link_ok_true in Hl'. congruence.
    + intros [= <-]. split; [done|]. split; [done|]. intros j e Hj. apply Hb; [|done].
      apply lookup_lt_Some in Hj. apply lookup_ge_None in Ee. lia.
Qed.

(** Every chain is acceptable, and so is every segment of it. *)
Lemma chain_accepted s log i e : chain_ok s log → log !! i = Some e → accepted s log i e.
Proof.
  intros Hc Hi. destruct (Hc i e Hi) as [_ Hl Hh Hs Hn]. split; try done.
  destruct i as [|j]; simpl in *; [done|]. intros prev Hp. by rewrite Hl, Hp.
Qed.

Lemma accepted_segment s log k n i e : (∀ i e, log !! i = Some e → accepted s log i e) →
  take n (drop k log) !! i = Some e → accepted s (take n (drop k log)) i e.
Proof.
  intros Ha Hi. pose proof Hi as Hi'. apply lookup_take_Some in Hi' as [Hi' Hlt].
  rewrite lookup_drop in Hi'. destruct (Ha _ _ Hi') as [Hl Hh Hs Hn]. split; try done.
  destruct i as [|j]; simpl; [done|]. intros prev [Hp _]%lookup_take_Some.
  rewrite lookup_drop in Hp. rewrite Nat.add_succ_r in Hl. by apply Hl.
Qed.

Lemma VerifyChain_unfold r sg (s s' : St) es : r ≠ "" → GetAllEvents r s = (Ok es, s') →
  VerifyChain r sg s =
  let total := Z.of_nat (length es) in
  match es with
  | [] => (Ok (mkVerificationResult false total (Error ErrNoEvents) 0), s')
  | _ => ((Check (total <=? maxVerifyEvents) ("event count exceeds max: " +:+ pretty total);;
          verify_loop (Z.to_nat maxVerifyEvents) 0 es sg total), s')
  end.
Proof.
  intros Hr E. unfold VerifyChain. apply nonempty_true in Hr as ->. rewrite Check_true.
  unfold mbind, M_bind, outcome_bind, lift, wrap. rewrite E. destruct es as [|e es]; [done|].
  unfold Check. destruct (_ <=? _); [done|]. by destruct StrictMode.
Qed.

Lemma VerifyChain_accepts r sg (s s' : St) es : r ≠ "" → GetAllEvents r s = (Ok es, s') →
  audited sg es →
  VerifyChain r sg s = (Ok (mkVerificationResult true (Z.of_nat (length es)) "" 0), s').
Proof.
  intros Hr E (Hne & Hl & Ha). rewrite (VerifyChain_unfold r sg s s' es Hr E). cbv zeta.
  destruct es as [|e es]; [done|]. rewrite (proj2 (Z.leb_le _ _) Hl), Check_true.
  unfold mbind, outcome_bind. f_equal. apply verify_loop_accepts; [lia|]. auto.
Qed.

(** A verdict of [VerifyChain], on any store. *)
Lemma verdict_spec r sg (s s1 : St) es res s' :
  GetAllEvents r s = (Ok es, s1) → VerifyChain r sg s = (Ok res, s') →
  r ≠ "" ∧ vr_TotalEvents res = Z.of_nat (length es) ∧
  if Valid res then audited sg es ∧ ErrorMessage res = ""
  else (es = [] ∧ ErrorMessage res = Error ErrNoEvents) ∨
       ∃ i e, es !! i = Some e ∧ FailedAtSeq res = SeqIndex e ∧ ¬ accepted sg es i e ∧
         ∀ k e', (k < i)%nat → es !! k = Some e' → accepted sg es k e'.
Proof.
  intros E Hv. assert (r ≠ "") as Hr.
  { intros ->. unfold VerifyChain, Check in Hv. by destruct StrictMode. }
  rewrite (VerifyChain_unfold r sg s s1 es Hr E) in Hv. cbv zeta in Hv.
  split; [assumption|]. destruct es as [|e es]; [injection Hv as <- <-; simpl; auto|].
  apply pair_equal_spec in Hv as [Hv _]. apply bind_ok in Hv as (u & Hl%Check_ok%Z.leb_le & Hv).
  apply verify_loop_result in Hv as [Ht Hc]; [|lia|intros; lia].
  split; [done|]. destruct (Valid res); [|by right]. destruct Hc as [? ?]. done.
Qed.

(** A chain is not accepted with a key under which its first signature is not
    valid. *)
Lemma foreign_verdict {RL : RepositoryLaws St} r sg sg' (s s' : St) e rest es :
  repo_ok s → r ≠ "" → run_log s r = e :: rest → chain_ok sg (run_log s r) →
  VerifySignature sg' (CurrentHash e) (Signature e) = false →
  GetAllEvents r s = (Ok es, s') →
  ∃ msg, VerifyChain r sg' s = (Ok (mkVerificationResult false (Z.of_nat (length es)) msg 0), s').
Proof.
  intros Hok Hr Hl Hc Hs E. pose proof (GetAllEvents_log _ _ _ _ Hok E) as (_ & _ & Hes).
  specialize (Hes es eq_refl). destruct (Hc 0%nat e) as [Hseq _ Hh _ Hn]; [by rewrite Hl|].
  rewrite Hl in Hes. rewrite (VerifyChain_unfold r sg' s s' es Hr E). cbv zeta.
  assert (∃ es', es = e :: es' ∧ Z.of_nat (length es) ≤ maxVerifyEvents) as (es' & -> & Hm).
  { exists (take (Z.to_nat (maxEventRows - 1)) rest). rewrite Hes. split.
    - replace (Z.to_nat maxEventRows) with (S (Z.to_nat (maxEventRows - 1))); [done|unfold maxEventRows; lia].
    - rewrite length_take. unfold maxVerifyEvents, maxEventRows. lia. }
  rewrite (proj2 (Z.leb_le _ _) Hm), Check_true. unfold mbind, outcome_bind.
  destruct (VerifyEvent_bad_signature sg' e Hh Hn Hs) as [err Hv].
  replace (Z.to_nat maxVerifyEvents) with (S (Z.to_nat (maxVerifyEvents - 1))) by (unfold maxVerifyEvents; lia).
  rewrite verify_loop_S. cbn [list_lookup lookup link_ok]. rewrite Hv, Hseq. by eexists.
Qed.

(** A signed hash chain that can be read is accepted. *)
Lemma chain_verdict {RL : RepositoryLaws St} r sg (s s' : St) es :
  repo_ok s → r ≠ "" → run_log s r ≠ [] → chain_ok sg (run_log s r) →
  GetAllEvents r s = (Ok es, s') →
  VerifyChain r sg s =
    (Ok (mkVerificationResult true (Z.min (Z.of_nat (length (run_log s r))) maxVerifyEvents) "" 0), s').
Proof.
  intros Hok Hr Hne Hc E. pose proof (GetAllEvents_log _ _ _ _ Hok E) as (_ & _ & Hes).
  specialize (Hes es eq_refl). assert (length es = Nat.min (Z.to_nat maxEventRows) (length (run_log s r))) as Hlen
    by (rewrite Hes; apply length_take).
  rewrite (VerifyChain_accepts r sg s s' es Hr E).
  - do 3 f_equal. rewrite Hlen. unfold maxVerifyEvents, maxEventRows. lia.
  - split; [|split].
    + intros ->. destruct (run_log s r); [done|]. cbn [length] in Hlen. unfold maxEventRows in Hlen. lia.
    + rewrite Hlen. unfold maxVerifyEvents, maxEventRows. lia.
    + rewrite Hes, <- (drop_0 (run_log s r)). intros i e. apply accepted_segment.
      intros j e'. by apply chain_accepted.
Qed.

(** ** Theorems *)

(** C4: no false alarms.  When the log of a run is a signed hash
    chain, as [CreateGenesisBlock] and [ProcessEvent] keep it, and the store
    can be read, [VerifyChain] reports it valid, with the number of events it
    read: all of them, or the first 100000. *)
Theorem VerifyChain_accepts_chain {RL : RepositoryLaws St} r sg (s s' : St) es :
  repo_ok s → r ≠ "" → run_log s r ≠ [] → chain_ok sg (run_log s r) →
  GetAllEvents r s = (Ok es, s') →
  VerifyChain r sg s =
    (Ok (mkVerificationResult true (Z.min (Z.of_nat (length (run_log s r))) maxVerifyEvents) "" 0), s').
Proof. apply chain_verdict. Qed.

(** C5: a verdict of [VerifyChain], on any store, means what it says:
    [Valid] when every event read links to its predecessor and carries the hash
    of its own data and a valid signature; not valid when there are no events,
    or when the event [FailedAtSeq] names is the first that does not. *)
Theorem VerifyChain_verdict r sg (s s1 : St) es res s' :
  GetAllEvents r s = (Ok es, s1) → VerifyChain r sg s = (Ok res, s') →
  vr_TotalEvents res = Z.of_nat (length es) ∧
  if Valid res then audited sg es ∧ ErrorMessage res = ""
  else (es = [] ∧ ErrorMessage res = Error ErrNoEvents) ∨
       ∃ i e, es !! i = Some e ∧ FailedAtSeq res = SeqIndex e ∧ ¬ accepted sg es i e ∧
         ∀ k e', (k < i)%nat → es !! k = Some e' → accepted sg es k e'.
Proof. intros E Hv. by apply (verdict_spec r sg s s1 es res s'). Qed.

(** C40: [VerifyChain] does not tie a run to its ends: if it accepts
    the events of a run, it accepts every non-empty segment of them, with
    events removed from the front, the back or both. *)
Theorem VerifyChain_segment r sg (s s1 : St) es s2 res k n (t t1 : St) :
  GetAllEvents r s = (Ok es, s1) → VerifyChain r sg s = (Ok res, s2) → Valid res = true →
  GetAllEvents r t = (Ok (take n (drop k es)), t1) → take n (drop k es) ≠ [] →
  VerifyChain r sg t =
    (Ok (mkVerificationResult true (Z.of_nat (length (take n (drop k es)))) "" 0), t1).
Proof.
  intros E Hv Hval Et Hne. destruct (verdict_spec _ _ _ _ _ _ _ E Hv) as (Hr & _ & Ha).
  rewrite Hval in Ha. destruct Ha as [(_ & Hl & Ha) _].
  apply VerifyChain_accepts; [done|done|]. split; [done|]. split.
  - rewrite length_take, length_drop. lia.
  - intros i e. by apply accepted_segment.
Qed.

(** The live chain, asked as the [j]-th request, has the hash an anchor names. *)
Definition live (now : Time) (j : Z) (a : string * Z) : Prop :=
  ∃ x, FetchBitcoinAnchorAtHeight (Z.to_nat j) a.2 now = Ok x ∧ BlockHash x = a.1.

(** The first [n] of a list of anchors are confirmed, one request for each. *)
Definition all_live (now : Time) (anchors : list (string * Z)) (checked : Z) (n : nat) : Prop :=
  ∀ j a, (j < n)%nat → anchors !! j = Some a → live now (checked + Z.of_nat j) a.

Lemma all_live_cons now a anchors checked n : live now checked a → all_live now anchors (checked + 1) n →
  all_live now (a :: anchors) checked (S n).
Proof.
  intros Ha Hl [|j] b Hj Hb; cbn in Hb.
  - injection Hb as <-. by replace (checked + Z.of_nat 0) with checked by lia.
  - replace (checked + Z.of_nat (S j)) with (checked + 1 + Z.of_nat j) by lia. apply Hl; [lia|done].
Qed.

(** The verdict on a list of anchors, [checked] of them seen before. *)
Definition anchors_verdict (now : Time) (anchors : list (string * Z)) (checked : Z)
    (res : AnchorVerificationResult) : Prop :=
  if av_Valid res then AnchorsChecked res = checked + Z.of_nat (length anchors) ∧ all_live now anchors checked (length anchors)
  else ∃ j a, anchors !! j = Some a ∧ AnchorsChecked res = checked + Z.of_nat j + 1 ∧
    ¬ live now (checked + Z.of_nat j) a ∧ all_live now anchors checked j.

Lemma anchors_verdict_cons now a anchors checked res : live now checked a →
  anchors_verdict now anchors (checked + 1) res → anchors_verdict now (a :: anchors) checked res.
Proof.
  intros Hl. unfold anchors_verdict. destruct (av_Valid res).
  - intros [-> ?]. split; [simpl; lia|by apply all_live_cons].
  - intros (j & b & ? & -> & Hn & ?). exists (S j), b. split; [done|]. split; [lia|].
    split; [by replace (checked + Z.of_nat (S j)) with (checked + 1 + Z.of_nat j) by lia|by apply all_live_cons].
Qed.

Lemma anchor_loop_verdict n i es now checked res : (length es ≤ i + n)%nat →
  anchor_loop n i es now checked = Ok res →
  anchors_verdict now (omap anchor_of (drop i es)) checked res.
Proof.
  revert i checked. induction n as [|n IH]; intros i checked Hl.
  - rewrite drop_ge by lia. intros [= <-]. split; [simpl; lia|by intros j a Hj%Nat.nlt_0_r].
  - simpl anchor_loop. destruct (es !! i) as [e|] eqn:Ee.
    + rewrite (drop_S es e i Ee). cbn [omap list_omap].
      destruct (anchor_of e) as [[h height]|] eqn:Ea; [|apply IH; lia].
      destruct (FetchBitcoinAnchorAtHeight (Z.to_nat checked) height now) as [x|err|err] eqn:Ef; [|intros [= <-]|done].
      * destruct (String.eqb_spec (BlockHash x) h) as [Hb|Hb].
        -- intros E. apply anchors_verdict_cons; [by exists x|]. apply IH in E; [done|lia].
        -- intros [= <-]. exists 0%nat, (h, height). split; [done|]. split; [simpl; lia|].
           split; [|by intros j b Hj%Nat.nlt_0_r]. intros (y & Hy & Hh). rewrite Z.add_0_r in Hy. simpl in *. congruence.
      * exists 0%nat, (h, height). split; [done|]. split; [simpl; lia|].
        split; [|by intros j b Hj%Nat.nlt_0_r]. intros (y & Hy & Hh). rewrite Z.add_0_r in Hy. simpl in *. congruence.
    + intros [= <-]. apply lookup_ge_None in Ee. rewrite drop_ge by done.
      split; [simpl; lia|by intros j a Hj%Nat.nlt_0_r].
Qed.

(** C34: [VerifyAnchors] reports a run valid when the live chain, asked once
    for each anchor its genesis and anchor events carry and free to answer each
    request differently, confirms them all, and counts them; else it
    stops at the first anchor the live chain does not confirm. *)
Theorem VerifyAnchors_verdict r now (s s1 : St) es res s' :
  GetAllEvents r s = (Ok es, s1) → VerifyAnchors r now s = (Ok res, s') →
  anchors_verdict now (omap anchor_of es) 0 res.
Proof.
  intros E. unfold VerifyAnchors. unfold mbind at 1, M_bind at 1, wrap. rewrite E.
  intros (u & t & Hc & Hl)%M_bind_ok. apply pair_equal_spec in Hc as [Hc%Check_ok%Z.leb_le _].
  apply pair_equal_spec in Hl as [Hl _]. apply anchor_loop_verdict in Hl; [by rewrite drop_0 in Hl|].
  unfold maxAnchorEvents in *. lia.
Qed.

End Audit.

(** ** Tamper evidence *)

Section Tamper.
Context `{AssertMode} `{TL : TimeLib} `{JL : JsonLib} `{Ed25519}.
Context {JLaws : JsonLaws TL JL} {CLaws : JcsLaws TL JL}.

(** The text an event's hash is computed from. *)
Definition preimage (e : Event) : outcome string :=
  s ← json_Marshal (payload e);
  v ← json_Unmarshal s;
  c ← jcs_Format v;
  Ok (PrevHash e +:+ c).

(** Two events exhibit a collision of SHA-256. *)
Definition collision (e e' : Event) : Prop :=
  ∃ x y, preimage e = Ok x ∧ preimage e' = Ok y ∧ x ≠ y ∧ sha256 x = sha256 y.

(** The data of two events is the same, up to the sign of zero. *)
Definition same_data (e e' : Event) : Prop :=
  unsigned_zero (payload_data e) = unsigned_zero (payload_data e').

Lemma hashed_preimage e : hashed e → json_plain (payload e) = true →
  ∃ c, preimage e = Ok (PrevHash e +:+ c) ∧ jcs_Format (payload_data e) = Ok c ∧
    CurrentHash e = hex_EncodeToString (sha256 (PrevHash e +:+ c)).
Proof.
  intros (_ & _ & s & v & c & Hm & Hu & Hj & Hc)%CalculateEventHash_iff Hp. exists c.
  unfold preimage. rewrite Hm. cbn. rewrite Hu. cbn. rewrite Hj. split; [reflexivity|].
  split; [|exact Hc]. rewrite (json_Unmarshal_Marshal _ _ Hp Hm) in Hu.
  case_leb Hu as Hle; [|discriminate Hu]. injection Hu as <-. exact Hj.
Qed.

Lemma same_hash e e' : hashed e → hashed e' →
  json_plain (payload e) = true → json_plain (payload e') = true →
  String.length (PrevHash e) = String.length (PrevHash e') →
  CurrentHash e = CurrentHash e' →
  collision e e' ∨ (PrevHash e = PrevHash e' ∧ same_data e e').
Proof.
  intros Hh Hh' Hp Hp' Hl Hc.
  destruct (hashed_preimage e Hh Hp) as (c & Hx & Hj & E).
  destruct (hashed_preimage e' Hh' Hp') as (c' & Hx' & Hj' & E').
  rewrite E, E' in Hc. apply hex_inj in Hc.
  destruct (decide (PrevHash e +:+ c = PrevHash e' +:+ c')) as [Heq|Hne].
  - right. apply string_app_inj in Heq as [-> ->]; [|exact Hl]. split; [reflexivity|].
    apply (jcs_Format_inj _ _ c'); try assumption;
      unfold payload_data; apply json_norm_plain || apply json_norm_idem; assumption.
  - left. exists (PrevHash e +:+ c), (PrevHash e' +:+ c'). auto.
Qed.

Lemma hashed_length e : hashed e → String.length (CurrentHash e) = 64%nat.
Proof. intros Hh. by eapply hash_length. Qed.

(** One step back along two chains. *)
Lemma chains_step s s' es es' i e e' : 
  (∀ i e, es !! i = Some e → accepted s es i e ∧ json_plain (payload e) = true) →
  (∀ i e, es' !! i = Some e → accepted s' es' i e ∧ json_plain (payload e) = true) →
  (∀ e e', es !! 0%nat = Some e → es' !! 0%nat = Some e' →
     String.length (PrevHash e) = String.length (PrevHash e')) →
  es !! i = Some e → es' !! i = Some e' → CurrentHash e = CurrentHash e' →
  collision e e' ∨ (same_data e e' ∧ match i with
    | O => PrevHash e = PrevHash e'
    | S j => ∀ a a', es !! j = Some a → es' !! j = Some a' → CurrentHash a = CurrentHash a'
    end).
Proof.
  intros Ha Ha' Hfst He He' Hc. destruct (Ha i e He) as [[Hl Hh _ _] Hp].
  destruct (Ha' i e' He') as [[Hl' Hh' _ _] Hp'].
  assert (String.length (PrevHash e) = String.length (PrevHash e')) as Hlen.
  { destruct i as [|j]; [by apply Hfst|]. pose proof He as Hj%lookup_lt_Some. pose proof He' as Hj'%lookup_lt_Some.
    destruct (lookup_lt_is_Some_2 es j ltac:(lia)) as [a Hb], (lookup_lt_is_Some_2 es' j ltac:(lia)) as [a' Hb'].
    rewrite (Hl a Hb), (Hl' a' Hb').
    rewrite !hashed_length; [done|by apply (Ha' j)|by apply (Ha j)]. }
  destruct (same_hash e e') as [?|[Hprev Hd]]; try assumption; [by left|]. right. split; [done|].
  destruct i as [|j]; [done|]. intros a a' Hb Hb'. rewrite <- (Hl a Hb), <- (Hl' a' Hb'). done.
Qed.

Lemma chains_back s s' es es' n : 
  (∀ i e, es !! i = Some e → accepted s es i e ∧ json_plain (payload e) = true) →
  (∀ i e, es' !! i = Some e → accepted s' es' i e ∧ json_plain (payload e) = true) →
  (∀ e e', es !! 0%nat = Some e → es' !! 0%nat = Some e' →
     String.length (PrevHash e) = String.length (PrevHash e')) →
  ∀ e e', es !! n = Some e → es' !! n = Some e' → CurrentHash e = CurrentHash e' →
  (∃ i a a', es !! i = Some a ∧ es' !! i = Some a' ∧ collision a a') ∨
  ∀ i a a', (i ≤ n)%nat → es !! i = Some a → es' !! i = Some a' → same_data a a'.
Proof.
  intros Ha Ha' Hfst. induction n as [|n IH]; intros e e' He He' Hc;
    destruct (chains_step s s' es es' _ e e' Ha Ha' Hfst He He' Hc) as [Hcol|[Hd Hs]];
    try (left; eexists _, e, e'; split; [exact He|]; split; [exact He'|exact Hcol]).
  - right. intros i a a' Hi Hb Hb'. assert (i = 0%nat) as -> by lia. simplify_eq. exact Hd.
  - pose proof He as Hj%lookup_lt_Some. pose proof He' as Hj'%lookup_lt_Some.
    destruct (lookup_lt_is_Some_2 es n ltac:(lia)) as [b Hb], (lookup_lt_is_Some_2 es' n ltac:(lia)) as [b' Hb'].
    destruct (IH b b' Hb Hb' (Hs b b' Hb Hb')) as [?|IH']; [by left|]. right.
    intros i a a' Hi Hx Hx'. destruct (decide (i = S n)) as [->|]; [simplify_eq; exact Hd|].
    apply (IH' i); [lia|done|done].
Qed.

(** C6: tamper evidence.  If two versions of a run both pass the audit
    (under any keys), have as many events, end in the same hash and start from
    previous hashes of the same length, then they hold the same data at every
    position, or some position exhibits two different texts with the same
    SHA-256. *)
Theorem audited_tamper_evident s s' es es' n e e' :
  audited s es → audited s' es' →
  Forall (λ e, json_plain (payload e) = true) es → Forall (λ e, json_plain (payload e) = true) es' →
  length es = S n → length es' = S n →
  (∀ e e', es !! 0%nat = Some e → es' !! 0%nat = Some e' →
     String.length (PrevHash e) = String.length (PrevHash e')) →
  es !! n = Some e → es' !! n = Some e' → CurrentHash e = CurrentHash e' →
  (∃ i a a', es !! i = Some a ∧ es' !! i = Some a' ∧ collision a a') ∨
  ∀ i a a', es !! i = Some a → es' !! i = Some a' → same_data a a'.
Proof.
  intros (_ & _ & Ha) (_ & _ & Ha') Hp Hp' Hl Hl' Hfst He He' Hc.
  rewrite Forall_lookup in Hp, Hp'.
  assert (∀ i e, es !! i = Some e → accepted s es i e ∧ json_plain (payload e) = true) as H1 by eauto.
  assert (∀ i e, es' !! i = Some e → accepted s' es' i e ∧ json_plain (payload e) = true) as H2 by eauto.
  destruct (chains_back s s' es es' n H1 H2 Hfst e e' He He' Hc) as [Hcol|Hd]; [by left|right].
  intros i a a' Hx Hx'. apply (Hd i); [|done|done]. apply lookup_lt_Some in Hx. lia.
Qed.

End Tamper.
