(* ===== verification/Cli.v ===== *)
(** * cmd/logyctl: the command line

    The dispatcher [cmd/logyctl/main.go] and the commands of [system.go] and
    [verify.go].  A command acts on the files of the working directory and on
    what has been printed; it ends by returning (exit status 0), by
    [os.Exit(1)] or [log.Fatalf] (an [Err]: deferred calls do not run), or by
    a panic.  What opening the database finds and leaves in its files, the clock,
    HTTP and the failures of file operations are arguments.  A [log]
    line is recorded without the logger's date prefix. *)
From S2P Require Import Prelude Assert Models Sha256 Crypto Repository Store Chain Anchor Verify.
Inductive line :=
| Out (s : string)
| ErrOut (s : string).

Record Cli := mkCli { cli_files : files; cli_out : list line }.

Definition say (s : string) : M Cli unit :=
  modify (λ c, mkCli (cli_files c) (cli_out c ++ [Out s])).
Definition log_Printf (s : string) : M Cli unit :=
  modify (λ c, mkCli (cli_files c) (cli_out c ++ [ErrOut s])).

Definition exit_status_1 : error := ENew "exit status 1".
Definition os_Exit {St A} : M St A := fail exit_status_1.
Definition log_Fatalf {A} (s : string) : M Cli A := log_Printf s;; os_Exit.

(** [s[:n]]. *)
Definition slice_to (n : nat) (s : string) : outcome string :=
  if (n <=? String.length s)%nat then Ok (String.substring 0 n s)
  else Panic (ENew ("runtime error: slice bounds out of range [:" +:+ pretty (N.of_nat n) +:+
                    "] with length " +:+ pretty (N.of_nat (String.length s)))).

(** ** Files *)

Definition file_exists (path : string) (c : Cli) : bool := bool_decide (is_Some (cli_files c !! path)).

Definition on_files {A} (m : M files A) : M Cli A := λ c,
  let r := m (cli_files c) in (r.1, mkCli r.2 (cli_out c)).

Definition no_such_file (op path : string) : error :=
  ENew (op +:+ " " +:+ path +:+ ": no such file or directory").

Definition os_WriteFile (fault : option write_fault) (path data : string) : M files unit := λ fs,
  match fault with
  | None => (Ok tt, <[path := data]> fs)
  | Some f => (Err (wf_error f), partial_alter (λ _, wf_left f) path fs)
  end.

Definition os_Rename (fault : option error) (old new : string) : M files unit := λ fs,
  match fault with
  | Some e => (Err e, fs)
  | None =>
      match fs !! old with
      | None => (Err (no_such_file "rename" old), fs)
      | Some data => (Ok tt, <[new := data]> (delete old fs))
      end
  end.

(** A call whose error is reported on standard output before exiting. *)
Definition or_exit {A} (m : M files A) (msg : string) : M Cli A :=
  try (on_files m) (λ r, match r with
    | inl a => mret a
    | inr e => say (msg +:+ Error e);; os_Exit
    end).

(** ** system.go: keys *)

Definition keyPath : string := ".logryph_key".

Definition dbPath : string := "logryph.db".

(** [stamp]: the current time in the layout 20060102T150405Z. *)
Definition BackupKeyCommand (stamp : string) (read : option error) (write : option write_fault) :
    M Cli unit :=
  c ← get;
  if negb (file_exists keyPath c) then say "Error: No key file found at .logryph_key";; os_Exit else
  let backupPath := ".logryph_key.backup." +:+ stamp in
  if (256 <? String.length backupPath)%nat
  then say "Error: Backup path exceeds maximum length";; os_Exit else
  keyData ← or_exit (λ fs, (os_ReadFile read keyPath fs, fs)) "Error: Failed to read key file: ";
  or_exit (os_WriteFile write backupPath keyData) "Error: Failed to write backup: ";;
  say ("Key backed up to: " +:+ backupPath);;
  say "Store this backup securely (offline storage recommended)".

Definition RestoreKeyCommand (backupPath : string) (read rename : option error)
    (write : option write_fault) : M Cli unit :=
  if (512 <? String.length backupPath)%nat
  then say "Error: Backup path exceeds maximum length";; os_Exit else
  c ← get;
  if negb (file_exists backupPath c)
  then say ("Error: Backup file not found: " +:+ backupPath);; os_Exit else
  backupData ← or_exit (λ fs, (os_ReadFile read backupPath fs, fs)) "Error: Failed to read backup: ";
  c ← get;
  (if file_exists keyPath c then
     let oldPath := keyPath +:+ ".old" in
     or_exit (os_Rename rename keyPath oldPath) "Error: Failed to preserve old key: ";;
     say ("Existing key moved to: " +:+ oldPath)
   else mret tt);;
  or_exit (os_WriteFile write keyPath backupData) "Error: Failed to restore key: ";;
  say "Key restored successfully";;
  say "Warning: Chain verification will fail for events signed with the old key".

(** A directory entry, with its size and modification time unless reading them
    fails. *)
Record DirEntry := mkDirEntry { de_Name : string; de_Info : option (Z * string) }.

(** [filepath.Ext]: the text from the last dot of the last path element. *)
Fixpoint ext_of (acc s : string) : string :=
  match s with
  | EmptyString => acc
  | String a s' =>
      if Ascii.eqb a "." then ext_of s s'
      else if Ascii.eqb a "/" then ext_of "" s'
      else ext_of acc s'
  end.

Definition filepath_Ext (path : string) : string := ext_of "" path.

(** The test of the collecting loop; the slice is within bounds when it is
    reached. *)
Definition is_backup (name : string) : bool :=
  String.eqb (filepath_Ext name) "" && (17 <? String.length name)%nat &&
  String.eqb (String.substring 0 17 name) ".logryph_key.backup".

Definition maxFiles : nat := 1000.

Fixpoint list_backups (backups : list DirEntry) : M Cli unit :=
  match backups with
  | [] => mret tt
  | b :: bs =>
      match de_Info b with
      | Some (size, mtime) =>
          say (de_Name b +:+ " (" +:+ pretty size +:+ " bytes, " +:+ mtime +:+ ")")
      | None => mret tt
      end;;
      list_backups bs
  end.

Definition ListBackupsCommand (dir : outcome (list DirEntry)) : M Cli unit :=
  match dir with
  | Panic e => lift (Panic e)
  | Err e => say ("Error: Failed to read directory: " +:+ Error e);; os_Exit
  | Ok entries =>
      let backups := List.filter (λ f, is_backup (de_Name f)) (take maxFiles entries) in
      match backups with
      | [] => say "No key backups found"
      | _ => say "Key Backups";; say "===========";; list_backups backups
      end
  end.

(** The response to the rekey request: its body, or an error. *)
Definition RekeyCommand (post : outcome (outcome string * option error)) : M Cli unit :=
  match post with
  | Panic e => lift (Panic e)
  | Err e => log_Fatalf ("Failed to contact Logryph API: " +:+ Error e)
  | Ok (body, close) =>
      match body with
      | Panic e => lift (Panic e)
      | Err e => say ("Error: Failed to read response body: " +:+ Error e);; os_Exit
      | Ok s =>
          say s;;
          match close with
          | Some e => log_Printf ("Failed to close rekey response: " +:+ Error e)
          | None => mret tt
          end
      end
  end.

(** ** Commands on the database *)

(** A command body runs on the terminal and the open database. *)
Definition on_cli {A} (m : M Cli A) : M (Cli * DB) A := λ '(c, d),
  let r := m c in (r.1, (r.2, d)).

Definition on_db {A} (m : M DB A) : M (Cli * DB) A := λ '(c, d),
  let r := m d in (r.1, (c, r.2)).

Section Database.
Context `{AssertMode} `{TL : TimeLib} `{JL : JsonLib} `{Ed25519} `{Http}.

(** The deferred [db.Close()], which also leaves its traces in the database's
    files. *)
Definition deferred_close (env : SQLite.open_env) (d : DB) : M Cli unit :=
  on_files (modify (SQLite.touch dbPath (SQLite.oe_disk_closed env)));;
  match (SQLite.Close d).1 with
  | Err e => log_Printf ("Failed to close database: " +:+ Error e)
  | _ => mret tt
  end.

(** Opening the database, running the body, and closing unless the process
    exited. *)
Definition with_db {A} (env : SQLite.open_env) (failed : error → M Cli A) (k : M (Cli * DB) A) : M Cli A :=
  λ c,
  match on_files (SQLite.NewDB dbPath env) c with
  | (Err e, c0) => failed e c0
  | (Panic e, c0) => (Panic e, c0)
  | (Ok d, c0) =>
      let '(o, (c', d')) := k (c0, d) in
      match o with
      | Err _ => (o, c')
      | _ => (o, (deferred_close env d' c').2)
      end
  end.

(** [if err := assert.Check(err == nil, ..); err != nil { log.Fatalf(.., err) }]
    when [err] is not nil: the line names the error of the assertion. *)
Definition fatal_check {A} (msg fatal : string) : M Cli A :=
  try (lift (Check false msg)) (λ r, match r with
    | inl _ => os_Exit
    | inr e => log_Fatalf (fatal +:+ Error e)
    end).

Definition open_failed {A} (e : error) : M Cli A :=
  fatal_check ("failed to open database: " +:+ Error e) "Failed to open database: ".

(** A database call whose error is fatal, asserted or not. *)
Definition or_fatal {A} (m : M DB A) (fatal : string) : M (Cli * DB) A :=
  try (on_db m) (λ r, match r with
    | inl a => mret a
    | inr e => on_cli (log_Fatalf (fatal +:+ Error e))
    end).

Definition or_fatal_check {A} (m : M DB A) (msg fatal : string) : M (Cli * DB) A :=
  try (on_db m) (λ r, match r with
    | inl a => mret a
    | inr e => on_cli (fatal_check (msg +:+ Error e) fatal)
    end).

Definition StatusCommand (dbe : SQLite.open_env) : M Cli unit :=
  with_db dbe (λ e, log_Fatalf ("Failed to open database: " +:+ Error e)) (
  runID ← or_fatal SQLite.GetRunID "Failed to get run ID: ";
  if String.eqb runID "" then on_cli (say "No runs found in database") else
  '(agentName, genesisHash, pubKey) ← or_fatal (SQLite.GetRunInfo runID) "Failed to get run info: ";
  on_cli (
    say "Current Run Status";;
    say "==================";;
    r ← lift (slice_to 8 runID);
    say ("Run ID:       " +:+ r);;
    say ("Agent:        " +:+ agentName);;
    h ← lift (slice_to 16 genesisHash);
    say ("Genesis Hash: " +:+ h +:+ "...");;
    k ← lift (slice_to 32 pubKey);
    say ("Public Key:   " +:+ k +:+ "..."))).

(** ** verify.go *)

Definition chain_ok_line (r : VerificationResult) : string :=
  "[OK] Chain is valid (" +:+ pretty (vr_TotalEvents r) +:+ " events verified)".

(** Loading the key: a missing or unreadable key file is replaced. *)
Definition load_signer (entropy : outcome string) (read : option error) (fault : option write_fault) : M Cli Signer :=
  try (on_files (NewSigner keyPath entropy read fault)) (λ r, match r with
    | inl s => mret s
    | inr e => fatal_check ("failed to load signer: " +:+ Error e) "Failed to load signer: "
    end).

(** What [verify] does with a run, once the key is loaded. *)
Definition verify_run (skipLive : bool) (machine : spec_float → Z) (now : Time) (signer : Signer)
    (runID : string) : M (Cli * DB) unit :=
  if String.eqb runID "" then on_cli (say "No runs found in database") else
  r8 ← lift (slice_to 8 runID);
  on_cli (say ("Verifying chain for run: " +:+ r8));;
  result ← or_fatal (VerifyChain runID signer) "Verification error: ";
  (if Valid result then on_cli (say (chain_ok_line result))
   else on_cli (
     say "[FAILED] Chain verification failed";;
     say ("  Error: " +:+ ErrorMessage result);;
     (if 0 <? FailedAtSeq result then say ("  Failed at sequence: " +:+ pretty (FailedAtSeq result))
      else mret tt);;
     os_Exit));;
  if skipLive then mret tt else
  on_cli (say "Verifying external Bitcoin anchors...");;
  try (on_db (VerifyAnchors machine runID now)) (λ r, on_cli (match r with
    | inr e => say ("[WARN] Anchor verification failed: " +:+ Error e)
    | inl a =>
        if av_Valid a then
          say ("[OK] Bitcoin anchors verified against Blockstream API (" +:+
               pretty (AnchorsChecked a) +:+ " anchors checked)")
        else say ("[FAILED] Bitcoin anchor mismatch: " +:+ av_ErrorMessage a);; os_Exit
    end)).

Definition VerifyCommand (skipLive : bool) (machine : spec_float → Z) (now : Time)
    (dbe : SQLite.open_env) (entropy : outcome string) (read : option error) (fault : option write_fault) : M Cli unit :=
  with_db dbe open_failed (
  signer ← on_cli (load_signer entropy read fault);
  runID ← or_fatal SQLite.GetRunID "Failed to get run ID: ";
  verify_run skipLive machine now signer runID).

(** ** main.go of logyctl *)

Inductive command :=
| CVerify | CStatus | CEvents | CStats | CRisk | CExport | CRekey | CBackupKey
| CRestoreKey (path : string) | CListBackups | CTrace | CReplay.

Definition usage : list string := [
  "Logryph CLI - Associated Evidence Ledger (AEL) Tool tool";
  "";
  "Usage:";
  "  logyctl verify                    Validate the entire hash chain";
  "  logyctl status                    Show current run information";
  "  logyctl events [--limit N]        List recent events (default: 10)";
  "  logyctl stats                     Show detailed run and global statistics";
  "  logyctl risk                      List all high-risk events";
  "  logyctl export <file.zip>         Export the current run as an Evidence Bag (ZIP)";
  "  logyctl trace <task-id>           Visualize the forensic timeline of a task";
  "  logyctl replay <id>               Re-execute a tool call to reproduce an incident";
  "";
  "Key Management:";
  "  logyctl rekey                     Rotate the Ed25519 signing keys";
  "  logyctl backup-key                Create timestamped backup of signing key";
  "  logyctl restore-key <file>        Restore signing key from backup";
  "  logyctl list-backups              List available key backups"].

Fixpoint say_all (l : list string) : M Cli unit :=
  match l with
  | [] => mret tt
  | s :: l' => say s;; say_all l'
  end.

Definition printUsage : M Cli unit := say_all usage.

(** [run]: the command functions. *)
Definition main (run : command → M Cli unit) (args : list string) : M Cli unit :=
  match args !! 1%nat with
  | None => printUsage;; os_Exit
  | Some "verify" => run CVerify
  | Some "status" => run CStatus
  | Some "events" => run CEvents
  | Some "stats" => run CStats
  | Some "risk" => run CRisk
  | Some "export" => run CExport
  | Some "rekey" => run CRekey
  | Some "backup-key" => run CBackupKey
  | Some "restore-key" =>
      match args !! 2%nat with
      | None =>
          say "Error: restore-key requires backup file path";;
          say "Usage: logyctl restore-key <backup-file>";;
          os_Exit
      | Some path => run (CRestoreKey path)
      end
  | Some "list-backups" => run CListBackups
  | Some "trace" => run CTrace
  | Some "replay" => run CReplay
  | Some command =>
      say ("Unknown command: " +:+ command);;
      printUsage;;
      os_Exit
  end.

End Database.

(** ** Backups *)

Section Keys.
Context `{Ed25519} {laws : Ed25519Laws _}.

Definition backup_path (stamp : string) : string := ".logryph_key.backup." +:+ stamp.

Lemma backup_path_ne stamp : backup_path stamp ≠ keyPath ∧ backup_path stamp ≠ keyPath +:+ ".old".
Proof. split; discriminate. Qed.

Lemma file_exists_true path data c : cli_files c !! path = Some data → file_exists path c = true.
Proof. intros E. apply bool_decide_eq_true. by exists data. Qed.

Lemma Backup_ok stamp data fs out :
  fs !! keyPath = Some data → (String.length stamp ≤ 236)%nat →
  BackupKeyCommand stamp None None (mkCli fs out) =
  (Ok tt, mkCli (<[backup_path stamp := data]> fs)
            (out ++ [Out ("Key backed up to: " +:+ backup_path stamp)] ++
             [Out "Store this backup securely (offline storage recommended)"])).
Proof.
  intros Ek Hl. unfold BackupKeyCommand. unfold mbind at 1, M_bind at 1, get.
  rewrite (file_exists_true _ data) by done. cbn [negb]. fold (backup_path stamp).
  assert ((256 <? String.length (backup_path stamp))%nat = false) as ->.
  { apply Nat.ltb_ge. unfold backup_path. rewrite string_app_length. cbn [String.length]. lia. }
  unfold mbind, M_bind, or_exit, try, on_files, os_ReadFile, os_WriteFile. cbn [cli_files fst snd].
  rewrite Ek. unfold say, modify. cbn [cli_files cli_out fst snd mret M_ret].
  by rewrite <- app_assoc.
Qed.

Lemma Restore_ok backup data old fs out :
  fs !! backup = Some data → fs !! keyPath = Some old → (String.length backup ≤ 512)%nat →
  ∃ out', RestoreKeyCommand backup None None None (mkCli fs out) =
    (Ok tt, mkCli (<[keyPath := data]> (<[keyPath +:+ ".old" := old]> (delete keyPath fs))) out').
Proof.
  intros Eb Ek Hl. unfold RestoreKeyCommand. apply Nat.ltb_ge in Hl. rewrite Hl.
  unfold mbind at 1, M_bind at 1, get at 1. rewrite (file_exists_true _ data) by done. cbn [negb].
  unfold mbind, M_bind, or_exit, try, on_files, os_ReadFile, os_Rename, os_WriteFile.
  cbn [cli_files fst snd]. rewrite Eb. unfold get. cbn [cli_files fst snd mret M_ret].
  rewrite (file_exists_true keyPath old) by done. cbn [cli_files]. rewrite Ek.
  unfold say, modify. cbn [cli_files cli_out fst snd mret M_ret]. eauto.
Qed.

(** C29: a key backup survives a rotation.  From files that hold the key
    of a signer, [backup-key], then a key rotation, then [restore-key] on the
    backup all succeed; the next start loads the original signer, whatever its
    entropy, and writes nothing; the rotated key is kept under
    [.logryph_key.old]. *)
Theorem backup_restore_roundtrip stamp s seed' fs out :
  signer_ok s → key_stored keyPath s fs → (String.length stamp ≤ 236)%nat →
  let c1 := BackupKeyCommand stamp None None (mkCli fs out) in
  let r := RotateKey keyPath (Ok seed') None (s, cli_files c1.2) in
  let c2 := RestoreKeyCommand (backup_path stamp) None None None (mkCli r.2.2 (cli_out c1.2)) in
  c1.1 = Ok tt ∧ is_ok r.1 = true ∧ c2.1 = Ok tt ∧
  (∀ entropy w, NewSigner keyPath entropy None w (cli_files c2.2) = (Ok s, cli_files c2.2)) ∧
  key_stored (keyPath +:+ ".old") r.2.1 (cli_files c2.2).
Proof.
  intros Hs Hk Hl. cbv zeta. destruct (backup_path_ne stamp) as [Hn1 Hn2].
  unfold key_stored in Hk. rewrite (Backup_ok _ _ _ _ Hk Hl). cbn [fst snd cli_files cli_out].
  set (fs1 := <[backup_path stamp:=_]> fs). set (out1 := out ++ _).
  unfold RotateKey, GenerateKey. go_unfold. set (new := ed_NewKeyFromSeed seed').
  destruct (Restore_ok (backup_path stamp) (hex_EncodeToString (privateKey s)) (hex_EncodeToString new)
    (<[keyPath:=hex_EncodeToString new]> fs1) out1) as [out' E].
  - rewrite lookup_insert_ne by done. apply lookup_insert_eq.
  - apply lookup_insert_eq.
  - unfold backup_path. rewrite string_app_length. cbn [String.length]. lia.
  - rewrite E. cbn [fst snd cli_files]. split; [done|]. split; [done|]. split; [done|]. split.
    + intros entropy w. unfold NewSigner. go_unfold.
      rewrite (load_stored keyPath s) by (done || apply lookup_insert_eq).
      by destruct Hs as [seed ->].
    + unfold key_stored. rewrite lookup_insert_ne by done. apply lookup_insert_eq.
Qed.

Lemma substring_length_le n s : (String.length (String.substring 0 n s) ≤ n)%nat.
Proof.
  revert n. induction s as [|a s IH]; intros [|n]; simpl; try lia. specialize (IH n). lia.
Qed.

Lemma is_backup_false name : is_backup name = false.
Proof.
  unfold is_backup. apply andb_false_intro2, String.eqb_neq. intros E.
  pose proof (substring_length_le 17 name) as Hl. rewrite E in Hl. simpl in Hl. lia.
Qed.

(** [list-backups] never lists a backup: it compares a slice of 17
    bytes with a literal of 19, so it reports that there are none whatever the
    directory holds. *)
Theorem ListBackups_lists_nothing entries c :
  ListBackupsCommand (Ok entries) c =
    (Ok tt, mkCli (cli_files c) (cli_out c ++ [Out "No key backups found"])).
Proof.
  unfold ListBackupsCommand.
  assert (List.filter (λ f, is_backup (de_Name f)) (take maxFiles entries) = []) as ->; [|done].
  induction (take maxFiles entries) as [|e l IH]; [done|]. cbn [List.filter].
  by rewrite is_backup_false.
Qed.

End Keys.

(** ** The verdict of [verify] *)

Section Verdict.
Context `{AssertMode} `{TL : TimeLib} `{JL : JsonLib} `{Ed25519} `{Http} {laws : Ed25519Laws _}.

Lemma load_signer_stored entropy fault s c : signer_ok s → key_stored keyPath s (cli_files c) →
  load_signer entropy None fault c = (Ok s, c).
Proof.
  intros Hs Hk. unfold load_signer, try, on_files, NewSigner. go_unfold.
  rewrite (load_stored keyPath s) by done. destruct c. by destruct Hs as [seed ->].
Qed.

(** Opening and closing write the files of the database only. *)
Lemma touch_other disk (fs : files) q : q ∉ SQLite.db_paths dbPath → SQLite.touch dbPath disk fs !! q = fs !! q.
Proof.
  unfold SQLite.db_paths, SQLite.touch, SQLite.db_suffixes. cbn [foldr fmap list_fmap]. intros Hq.
  rewrite !not_elem_of_cons in Hq. destruct Hq as (H1' & H2' & H3' & _).
  by rewrite !lookup_partial_alter_ne by done.
Qed.

Lemma key_not_db : keyPath ∉ SQLite.db_paths dbPath.
Proof. apply (bool_decide_unpack _). vm_compute. exact I. Qed.

Lemma db_in_paths : dbPath ∈ SQLite.db_paths dbPath.
Proof. apply (bool_decide_unpack _). vm_compute. exact I. Qed.

(** The terminal once the database has been opened. *)
Definition opened_cli (env : SQLite.open_env) (c : Cli) : Cli :=
  mkCli (SQLite.touch dbPath (SQLite.oe_disk env) (cli_files c)) (cli_out c).

Lemma with_db_opens {A} env d failed (k : M (Cli * DB) A) c : SQLite.opens env d →
  with_db env failed k c =
    (let '(o, (c', d')) := k (opened_cli env c, d) in
     match o with Err _ => (o, c') | _ => (o, (deferred_close env d' c').2) end).
Proof. intros Ho. unfold with_db, on_files. by rewrite (SQLite.NewDB_opens _ _ d). Qed.

Lemma with_db_outcome {A} env d failed (k : M (Cli * DB) A) c : SQLite.opens env d →
  (with_db env failed k c).1 = (k (opened_cli env c, d)).1.
Proof. intros Ho. rewrite (with_db_opens env d) by done. by destruct (k _) as [[] [? ?]]. Qed.

(** C21: on a database that opens and can be read, and with its key in
    place, [verify --skip-live] exits with status 0 exactly when the events of
    the latest run are audited: linked, hashed and signed by that key. *)
Theorem VerifyCommand_exit machine now dbe d entropy fault s c r d1 es d2 :
  SQLite.opens dbe d → signer_ok s → key_stored keyPath s (cli_files c) →
  SQLite.GetRunID d = (Ok r, d1) → (8 ≤ String.length r)%nat →
  GetAllEvents r d1 = (Ok es, d2) →
  (VerifyCommand true machine now dbe entropy None fault c).1 = Ok tt ↔ audited s es.
Proof.
  intros Ho Hs Hk Er Hl Ee.
  assert (key_stored keyPath s (cli_files (opened_cli dbe c))) as Hk1
    by (unfold key_stored; cbn [opened_cli cli_files]; by rewrite touch_other by apply key_not_db).
  assert (r ≠ "") as Hr by (intros ->; simpl in Hl; lia).
  unfold VerifyCommand. rewrite (with_db_outcome dbe d) by done.
  unfold mbind at 1, M_bind at 1, on_cli at 1. rewrite (load_signer_stored entropy fault s) by done.
  unfold mbind at 1, M_bind at 1, or_fatal at 1, try at 1, on_db at 1. cbn [fst snd]. rewrite Er.
  cbn [fst snd mret M_ret]. unfold verify_run. destruct (String.eqb_spec r ""); [done|].
  unfold mbind at 1, M_bind at 1, lift at 1, slice_to. rewrite (proj2 (Nat.leb_le 8 _) Hl).
  unfold mbind at 1, M_bind at 1, on_cli at 1, say at 1, modify at 1. cbn [fst snd].
  unfold mbind at 1, M_bind at 1, or_fatal at 1, try at 1, on_db at 1. cbn [fst snd].
  split.
  - destruct (VerifyChain r s d1) as [[res|e|e] d3] eqn:Ev; cbn [fst snd]; [|done|done].
    destruct (verdict_spec _ _ _ _ _ _ _ Ee Ev) as (_ & _ & Hv).
    cbn [mret M_ret]. destruct (Valid res); [by intros _; apply Hv|].
    unfold mbind, M_bind, on_cli, say, modify. destruct (0 <? FailedAtSeq res); discriminate.
  - intros Ha. by rewrite (VerifyChain_accepts r s d1 d2 es Hr Ee Ha).
Qed.

End Verdict.

(** ** Files a command leaves alone *)

Definition keeps_files {A} (m : M (Cli * DB) A) : Prop :=
  ∀ st, cli_files (m st).2.1 = cli_files st.1.

Lemma keeps_files_ret {A} (o : outcome A) : keeps_files (lift o).
Proof. by intros [c d]. Qed.

Lemma keeps_files_bind {A B} (m : M (Cli * DB) A) (f : A → M (Cli * DB) B) :
  keeps_files m → (∀ a, keeps_files (f a)) → keeps_files (m ≫= f).
Proof.
  intros Hm Hf st. specialize (Hm st). unfold mbind, M_bind.
  destruct (m st) as [[a| |] st1]; simpl in *; try done. by rewrite Hf.
Qed.

Lemma keeps_files_try {A B} (m : M (Cli * DB) A) (k : A + error → M (Cli * DB) B) :
  keeps_files m → (∀ x, keeps_files (k x)) → keeps_files (try m k).
Proof.
  intros Hm Hk st. specialize (Hm st). unfold try.
  destruct (m st) as [[a| |] st1]; simpl in *; try done; by rewrite Hk.
Qed.

Lemma keeps_files_db {A} (m : M DB A) : keeps_files (on_db m).
Proof. by intros [c d]. Qed.

Lemma keeps_files_say s : keeps_files (on_cli (say s)).
Proof. by intros [c d]. Qed.

Lemma keeps_files_cli {A} (o : outcome A) : keeps_files (on_cli (lift o)).
Proof. by intros [c d]. Qed.

Lemma keeps_files_cli_bind {A B} (m : M Cli A) (f : A → M Cli B) :
  keeps_files (on_cli m) → (∀ a, keeps_files (on_cli (f a))) → keeps_files (on_cli (m ≫= f)).
Proof.
  intros Hm Hf [c d]. specialize (Hm (c, d)). unfold on_cli, mbind, M_bind in *.
  destruct (m c) as [[a| |] c1]; simpl in *; try done. specialize (Hf a (c1, d)). simpl in Hf.
  by rewrite Hf.
Qed.

Lemma keeps_files_fatal {A} s : keeps_files (on_cli (log_Fatalf (A := A) s)).
Proof. by intros [c d]. Qed.

(** The deferred close writes the files of the database only. *)
Lemma deferred_close_files `{AssertMode} `{TimeLib} `{JsonLib} env d c q : q ∉ SQLite.db_paths dbPath →
  cli_files (deferred_close env d c).2 !! q = cli_files c !! q.
Proof.
  intros Hq. unfold deferred_close, mbind, M_bind, on_files, modify. cbn [fst snd cli_files cli_out].
  destruct (SQLite.Close d).1; cbn [log_Printf modify mret M_ret snd cli_files]; by apply touch_other.
Qed.

Lemma deferred_close_out `{AssertMode} `{TimeLib} `{JsonLib} env d c l :
  l ∈ cli_out c → l ∈ cli_out (deferred_close env d c).2.
Proof.
  intros Hl. unfold deferred_close, mbind, M_bind, on_files, modify. cbn [fst snd cli_files cli_out].
  destruct (SQLite.Close d).1; cbn [log_Printf modify mret M_ret snd cli_out]; set_solver.
Qed.

Lemma with_db_files `{AssertMode} `{TimeLib} `{JsonLib} {A} env d failed (k : M (Cli * DB) A) c q :
  SQLite.opens env d → q ∉ SQLite.db_paths dbPath →
  cli_files (with_db env failed k c).2 !! q = cli_files (k (opened_cli env c, d)).2.1 !! q.
Proof.
  intros Ho Hq. rewrite (with_db_opens env d) by done.
  destruct (k _) as [[] [? ?]]; cbn [snd fst]; rewrite ?deferred_close_files; done.
Qed.

Create HintDb keeps_files.
#[export] Hint Resolve keeps_files_bind keeps_files_try keeps_files_db keeps_files_say keeps_files_fatal
  : keeps_files.
#[export] Hint Extern 2 (keeps_files (mret _)) => apply (keeps_files_ret (Ok _)) : keeps_files.
#[export] Hint Extern 2 (keeps_files (on_cli (mret _))) => apply (keeps_files_cli (Ok _)) : keeps_files.
#[export] Hint Extern 2 (keeps_files (on_cli os_Exit)) => apply (keeps_files_cli (Err _)) : keeps_files.
#[export] Hint Extern 2 (keeps_files (lift _)) => apply keeps_files_ret : keeps_files.
(** Walks through the sequence, the error handlers and the branches of a body. *)
Ltac solve_keeps_files :=
  repeat (intros; lazymatch goal with
    | |- keeps_files (_ ≫= _) => apply keeps_files_bind
    | |- keeps_files (try _ _) => apply keeps_files_try
    | |- keeps_files (match ?x with _ => _ end) => destruct x
    | |- keeps_files (on_cli (_ ≫= _)) => apply keeps_files_cli_bind
    | |- keeps_files (on_cli (match ?x with _ => _ end)) => destruct x
    | |- keeps_files _ => first [solve [eauto 2 with keeps_files] | fail 1]
    end).

Section ReplacedKey.
Context `{AssertMode} `{TL : TimeLib} `{JL : JsonLib} `{Ed25519} `{Http}.

Lemma verify_run_keeps skipLive machine now signer runID :
  keeps_files (verify_run skipLive machine now signer runID).
Proof.
  unfold verify_run, or_fatal. solve_keeps_files.
Qed.

Lemma load_signer_missing seed read e c : loadPrivateKey read keyPath (cli_files c) = Err e →
  load_signer (Ok seed) read None c =
    (Ok (keypair seed),
     mkCli (<[keyPath := hex_EncodeToString (ed_NewKeyFromSeed seed)]> (cli_files c)) (cli_out c)).
Proof. intros El. unfold load_signer, try, on_files, NewSigner. go_unfold. by rewrite El. Qed.

Lemma load_opened dbe read c :
  loadPrivateKey read keyPath (cli_files (opened_cli dbe c)) = loadPrivateKey read keyPath (cli_files c).
Proof.
  unfold loadPrivateKey, os_ReadFile. cbn [opened_cli cli_files]. by rewrite touch_other by apply key_not_db.
Qed.

(** C30: [verify] is not read-only.  When the key file is missing, cannot be read
    or does not decode to a key, the command generates a key and writes it over the
    file, whatever it then reports; but for the key file and the three files of the
    database, which opening creates, no file changes. *)
Theorem VerifyCommand_replaces_key skipLive machine now dbe d seed read e c :
  SQLite.opens dbe d → loadPrivateKey read keyPath (cli_files c) = Err e →
  let fs' := cli_files (VerifyCommand skipLive machine now dbe (Ok seed) read None c).2 in
  fs' !! keyPath = Some (hex_EncodeToString (ed_NewKeyFromSeed seed)) ∧
  ∀ q, q ≠ keyPath → q ∉ SQLite.db_paths dbPath → fs' !! q = cli_files c !! q.
Proof.
  intros Ho El fs'.
  assert (∀ q, q ∉ SQLite.db_paths dbPath → fs' !! q =
    <[keyPath := hex_EncodeToString (ed_NewKeyFromSeed seed)]> (cli_files (opened_cli dbe c)) !! q) as Hq.
  { intros q Hq. unfold fs', VerifyCommand. rewrite (with_db_files dbe d) by done.
    unfold mbind at 1, M_bind at 1, on_cli at 1.
    rewrite (load_signer_missing seed read e) by (by rewrite load_opened).
    assert (keeps_files (
      runID ← or_fatal SQLite.GetRunID "Failed to get run ID: ";
      verify_run skipLive machine now (keypair seed) runID)) as Hk.
    { unfold or_fatal. solve_keeps_files. apply verify_run_keeps. }
    exact (f_equal (lookup q) (Hk (_, d))). }
  split.
  - rewrite Hq by apply key_not_db. apply lookup_insert_eq.
  - intros q Hne Hdb. rewrite Hq by done. rewrite lookup_insert_ne by done. cbn [opened_cli cli_files].
    by apply touch_other.
Qed.

End ReplacedKey.
