(* ===== verification/Trace.v ===== *)
(** * cmd/logyctl: the forensic trace

    [trace.go]: rebuilding the tree of a task's events, printing it with an
    explicit stack, and the HTML report.  A report is written chunk by chunk
    and any write may fail.  The Go formatting of paddings, durations, times
    and maps is a parameter. *)
From S2P Require Import Prelude Assert Models Sha256 Crypto Repository Store Cli.
(** [%-15s], a duration and a map with [%v], and two time layouts. *)
Class TraceFmt := {
  pad_right : nat → string → string;
  fmt_duration : Z → string;
  fmt_map : gmap string value → string;
  fmt_RFC3339 : Time → string;
  fmt_RFC1123 : Time → string;
  fmt_clock : Time → string;
}.

(** [t.Sub(u)], which saturates, and [d.Truncate(time.Millisecond)]. *)
Definition nanos (t : Time) : Z := t_sec t * 1000000000 + t_nsec t.

Definition time_Sub (t u : Time) : Z :=
  Z.max (- 2 ^ 63) (Z.min max_int (nanos t - nanos u)).

Definition Truncate (d m : Z) : Z := d - d `rem` m.

Definition elapsed (t u : Time) : Z := Truncate (time_Sub t u) 1000000.

Definition maxEvents : Z := 100000.
Definition maxTraceNodes : Z := 100000.
Definition maxChildren : Z := 10000.
Definition maxTasks : Z := 10000.
Definition maxRoots : Z := 10000.
Definition maxReportEvents : Z := 100000.

(** ** The tree *)

Abbreviation children_map := (gmap string (list Event)).

(** The loop body of [buildTree]. *)
Definition tree_step (acc : list Event * children_map) (e : Event) : list Event * children_map :=
  let '(roots, childrenMap) := acc in
  if String.eqb (ParentID e) "" then (roots ++ [e], childrenMap)
  else (roots, <[ParentID e := default [] (childrenMap !! ParentID e) ++ [e]]> childrenMap).

Record traceFrame := mkFrame {
  fr_node : Event;
  fr_prefix : string;
  fr_isLast : bool;
}.

Section Trace.
Context `{AssertMode} `{TraceFmt}.

Definition buildTree (events : list Event) : outcome (list Event * children_map) :=
  check_or (Z.of_nat (length events) <=? maxEvents)
    ("events exceed max: " +:+ pretty (N.of_nat (length events))) ([], ∅)
    (Ok (foldl tree_step ([], ∅) events)).

(** ** Printing *)

(** The frames of a list of siblings, in order. *)
Fixpoint frames_of (prefix : string) (siblings : list Event) : list traceFrame :=
  match siblings with
  | [] => []
  | e :: rest => mkFrame e prefix (match rest with [] => true | _ => false end) :: frames_of prefix rest
  end.

(** Pushing frames, the last one first, while there is room; the stack's top is
    the head of the list. *)
Fixpoint push_frames (frames stack : list traceFrame) : list traceFrame :=
  match frames with
  | [] => stack
  | f :: rest =>
      let stack' := push_frames rest stack in
      if Z.of_nat (length stack') <? maxTraceNodes then f :: stack' else stack'
  end.

Definition statusSym (e : Event) : string :=
  if String.eqb (RiskLevel e) "critical" then "[!!]"
  else if WasBlocked e then "[X]"
  else if String.eqb (EventType e) "tool_response" then "[x]"
  else "[ ]".

Definition trace_line (startTime : Time) (f : traceFrame) : outcome string :=
  let e := fr_node f in
  id6 ← slice_to 6 (ID e);
  Ok (fr_prefix f +:+ (if fr_isLast f then "`-- " else "|-- ") +:+ statusSym e +:+ " " +:+
      pad_right 15 (Method e) +:+ " [" +:+ id6 +:+ "] (+" +:+
      fmt_duration (elapsed (Timestamp e) startTime) +:+ ")").

Definition newPrefix (f : traceFrame) : string :=
  fr_prefix f +:+ (if fr_isLast f then "    " else "|   ").

(** The main loop, at most [n] nodes. *)
Fixpoint trace_loop (n : nat) (childrenMap : children_map) (startTime : Time)
    (stack : list traceFrame) : M Cli unit :=
  match n, stack with
  | O, _ => mret tt
  | _, [] => mret tt
  | S n', f :: stack' =>
      l ← lift (trace_line startTime f);
      say l;;
      let children := default [] (childrenMap !! ID (fr_node f)) in
      match Check (Z.of_nat (length children) <=? maxChildren)
              ("children exceed max for node=" +:+ ID (fr_node f) +:+ ": " +:+
               pretty (N.of_nat (length children))) with
      | Panic e => lift (Panic e)
      | Err _ => trace_loop n' childrenMap startTime stack'
      | Ok _ => trace_loop n' childrenMap startTime
                  (push_frames (frames_of (newPrefix f) children) stack')
      end
  end.

Definition printTraceTree (roots : list Event) (childrenMap : children_map) (startTime : Time) :
    M Cli unit :=
  or_return (Check (Z.of_nat (length roots) <=? maxTraceNodes)
               ("roots exceed max: " +:+ pretty (N.of_nat (length roots))))
    (trace_loop (Z.to_nat maxTraceNodes) childrenMap startTime (push_frames (frames_of "" roots) [])).

(** ** The HTML report *)

Definition formatRiskBadge (risk : string) : string :=
  if String.eqb risk "" || String.eqb risk "low" then
    dquoted "<span class='risk-badge risk-low'>Low Risk</span>"
  else if String.eqb risk "high" then
    dquoted "<span class='risk-badge risk-high'>High Risk</span>"
  else dquoted "<span class='risk-badge risk-critical'>Critical Risk</span>".

Definition formatPayload (p : gmap string value) : string := fmt_map p.

Definition html_header (title taskID runID now : string) : string :=
  dquoted "<!DOCTYPE html>
<html>
<head>
    <title>" +:+ title +:+
  dquoted "</title>
    <style>
        body { font-family: -apple-system, BlinkMacSystemFont, 'Segoe UI', Roboto, sans-serif; line-height: 1.6; color: #333; max-width: 1000px; margin: 0 auto; padding: 20px; background: #f9f9f9; }
        .header { background: #1a1a1a; color: white; padding: 20px; border-radius: 8px; margin-bottom: 30px; }
        .event { background: white; border: 1px solid #ddd; padding: 15px; border-radius: 6px; margin-bottom: 10px; border-left: 5px solid #eee; }
        .event-call { border-left-color: #007bff; }
        .event-response { border-left-color: #28a745; }
        .event-risk-high { border-left-color: #ffc107; background: #fffdf5; }
        .event-risk-critical { border-left-color: #dc3545; background: #fff5f5; }
        .meta { font-size: 0.85em; color: #666; margin-bottom: 5px; }
        .payload { background: #f1f1f1; padding: 10px; border-radius: 4px; font-family: 'SFMono-Regular', Consolas, 'Liberation Mono', Menlo, monospace; font-size: 0.9em; white-space: pre-wrap; overflow-x: auto; margin-top: 10px; }
        .id { color: #007bff; font-weight: bold; }
        .risk-badge { display: inline-block; padding: 2px 8px; border-radius: 12px; font-size: 0.8em; font-weight: bold; text-transform: uppercase; }
        .risk-low { background: #e2fcd4; color: #2e7d32; }
        .risk-high { background: #fff3cd; color: #856404; }
        .risk-critical { background: #f8d7da; color: #721c24; }
    </style>
</head>
<body>
    <div class='header'>
        <h1>Forensic Evidence Report</h1>
        <p><strong>Task ID:</strong> " +:+ taskID +:+
  dquoted "</p>
        <p><strong>Run ID:</strong> " +:+ runID +:+
  dquoted "</p>
        <p><strong>Generated:</strong> " +:+ now +:+
  dquoted "</p>
    </div>
".

Definition riskClass (e : Event) : string :=
  if String.eqb (RiskLevel e) "high" then "event-risk-high"
  else if String.eqb (RiskLevel e) "critical" then "event-risk-critical"
  else if String.eqb (EventType e) "tool_call" then "event-call"
  else "event-response".

Definition payload_chunk (label : string) (p : gomap) : list string :=
  match p with
  | Some m => if 0 <? map_len (Some m) then [dquoted "        <div class='payload'><strong>" +:+ label +:+
                ":</strong> " +:+ formatPayload m +:+ "</div>"] else []
  | None => []
  end.

(** What is written for an event, call by call. *)
Definition event_chunks (e : Event) : outcome (list string) :=
  id8 ← slice_to 8 (ID e);
  Ok ([dquoted "
    <div class='event " +:+
      riskClass e +:+ dquoted "'>
        <div class='meta'>
            <span class='id'>[" +:+
      id8 +:+ dquoted "]</span> " +:+
      fmt_clock (Timestamp e) +:+ dquoted " &bull; <strong>" +:+
      Actor e +:+ dquoted "</strong> &bull; " +:+
      EventType e +:+ dquoted "
            " +:+
      formatRiskBadge (RiskLevel e) +:+ dquoted "
        </div>
        <div><strong>Method:</strong> " +:+
      Method e +:+ dquoted "</div>
"] ++
      payload_chunk "Params" (Params e) ++ payload_chunk "Response" (Response e) ++ ["    </div>"]).

(** [fault k]: how the [k]-th write to the file fails, if it does: after how
    many bytes, and with which error. *)
Abbreviation write_faults := (nat → option (nat * error)).

Definition append_file (path s : string) : M Cli unit :=
  on_files (modify (λ fs, <[path := default "" (fs !! path) +:+ s]> fs)).

(** Successive writes from the [k]-th on; the number of the next one. *)
Fixpoint write_chunks (fault : write_faults) (path : string) (k : nat) (chunks : list string) : M Cli nat :=
  match chunks with
  | [] => mret k
  | s :: rest =>
      match fault k with
      | Some (n, e) => append_file path (String.substring 0 n s);; fail e
      | None => append_file path s;; write_chunks fault path (S k) rest
      end
  end.

Fixpoint report_loop (fault : write_faults) (path : string) (k : nat) (events : list Event) : M Cli nat :=
  match events with
  | [] => mret k
  | e :: rest =>
      chunks ← lift (event_chunks e);
      k' ← write_chunks fault path k chunks;
      report_loop fault path k' rest
  end.

Definition html_footer : string := dquoted "
</body>
</html>
".

Definition report_body (fault : write_faults) (taskID : string) (events : list Event) (now : Time)
    (path : string) : M Cli unit :=
  first ← lift (match events with
                | e :: _ => Ok e
                | [] => Panic (ENew "runtime error: index out of range [0] with length 0")
                end);
  k ← write_chunks fault path 0 [html_header ("Logryph Forensic Report - Task " +:+ taskID) taskID
                                   (RunID first) (fmt_RFC1123 now)];
  lift (Check (Z.of_nat (length events) <=? maxReportEvents)
          ("report events exceed max: " +:+ pretty (N.of_nat (length events))));;
  k' ← report_loop fault path k events;
  write_chunks fault path k' [html_footer];;
  mret tt.

(** [create] and [close]: the errors of [os.Create] and of the deferred
    [f.Close()], which runs however the body ends. *)
Definition generateHTMLReport (fault : write_faults) (create close : option error) (taskID : string)
    (events : list Event) (now : Time) (outputPath : string) : M Cli unit := λ c,
  match create with
  | Some e => (Err e, c)
  | None =>
      let '(o, c') := (on_files (modify (λ fs, <[outputPath := ""]> fs));;
                       report_body fault taskID events now outputPath) c in
      match close with
      | Some e => (o, (log_Printf ("Failed to close HTML file: " +:+ Error e) c').2)
      | None => (o, c')
      end
  end.

(** ** The command *)

Definition rule30 : string := "------------------------------".
Definition rule60 : string := rule30 +:+ rule30.
Definition double60 : string := "============================================================".

Definition list_tasks : M (Cli * DB) unit :=
  tasks ← or_fatal SQLite.GetUniqueTasks "Failed to get tasks: ";
  match tasks with
  | [] => on_cli (say "No recorded tasks found in ledger.")
  | _ =>
      on_cli (
        try (lift (Check (Z.of_nat (length tasks) <=? maxTasks)
                     ("tasks exceed max: " +:+ pretty (N.of_nat (length tasks)))))
          (λ r, match r with inl _ => mret tt | inr e => log_Fatalf ("Tasks exceed max: " +:+ Error e) end);;
        say "Available Tasks for Forensic Trace:";;
        say rule30;;
        say_all (String.append "• " <$> List.filter nonempty tasks);;
        say "";;
        say "Usage: logyctl trace <task-id>")
  end.

(** What a trace command takes from its environment. *)
Record trace_env := mkTraceEnv {
  te_faults : write_faults;
  te_create : option error;
  te_close : option error;
  te_now : Time;
}.

Definition trace_events (env : trace_env) (taskID htmlOutput : string) (events : list Event) : M Cli unit :=
  match events, last events with
  | first :: _, Some final =>
      if nonempty htmlOutput then
        try (generateHTMLReport (te_faults env) (te_create env) (te_close env) taskID events (te_now env)
               htmlOutput) (λ r, match r with
          | inr e => log_Fatalf ("Failed to generate HTML report: " +:+ Error e)
          | inl _ => say ("[OK] Forensic HTML report generated: " +:+ htmlOutput)
          end)
      else
        say ("Forensic Timeline Trace: " +:+ taskID);;
        r8 ← lift (slice_to 8 (RunID first));
        say ("Run ID: " +:+ r8);;
        say ("Start:  " +:+ fmt_RFC3339 (Timestamp first));;
        say double60;;
        '(roots, childrenMap) ← lift (buildTree events);
        try (lift (Check (Z.of_nat (length roots) <=? maxRoots)
                     ("root nodes exceed max: " +:+ pretty (N.of_nat (length roots)))))
          (λ r, match r with inl _ => mret tt | inr e => log_Fatalf ("Root nodes exceed max: " +:+ Error e) end);;
        printTraceTree roots childrenMap (Timestamp first);;
        say rule60;;
        say ("Summary: " +:+ pretty (N.of_nat (length events)) +:+ " events | Total Duration: " +:+
             fmt_duration (elapsed (Timestamp final) (Timestamp first)))
  | _, _ => say ("No events found for task " +:+ taskID)
  end.

Context `{TimeLib} `{JsonLib}.

Definition TraceCommand (env : trace_env) (args : list string) (dbe : SQLite.open_env) : M Cli unit :=
  with_db dbe (λ e, log_Fatalf ("Failed to open database: " +:+ Error e)) (
  match args !! 2%nat with
  | None => list_tasks
  | Some taskID =>
      let htmlOutput := match args !! 3%nat, args !! 4%nat with
                        | Some flag, Some path => if String.eqb flag "--html" then path else ""
                        | _, _ => ""
                        end in
      events ← or_fatal (SQLite.GetEventsByTaskID taskID) "Failed to get events: ";
      on_cli (trace_events env taskID htmlOutput events)
  end).

End Trace.

(** ** What the tree is *)

(** The events of a list with a given parent, in order. *)
Definition kids (events : list Event) (p : string) : list Event :=
  filter (λ e, ParentID e = p) events.

(** Connected to an event without a parent. *)
Inductive reachable (events : list Event) : Event → Prop :=
| reach_root e : e ∈ events → ParentID e = "" → reachable events e
| reach_child p e : reachable events p → e ∈ events → ParentID e = ID p → ParentID e ≠ "" →
    reachable events e.

(** The order in which a recursive traversal visits a list of frames: each one,
    then its children, then its right siblings. *)
Inductive preorder (events : list Event) : list traceFrame → list traceFrame → Prop :=
| pre_nil : preorder events [] []
| pre_cons f fs a b :
    preorder events (frames_of (newPrefix f) (kids events (ID (fr_node f)))) a →
    preorder events fs b → preorder events (f :: fs) (f :: a ++ b).

Lemma preorder_app events a b out : preorder events (a ++ b) out →
  ∃ o1 o2, out = o1 ++ o2 ∧ preorder events a o1 ∧ preorder events b o2.
Proof.
  revert out. induction a as [|f a IH]; intros out Hp.
  - exists [], out. split; [done|]. split; [constructor|done].
  - inversion Hp as [|f' fs x y Hx Hy]; subst. destruct (IH _ Hy) as (o1 & o2 & -> & H1 & H2).
    exists (f :: x ++ o1), o2. split; [simpl; by rewrite app_assoc|]. split; [by constructor|done].
Qed.

Lemma frames_nodes prefix l : fr_node <$> frames_of prefix l = l.
Proof. induction l as [|e l IH]; [done|]. simpl. by f_equal. Qed.

Lemma kids_cons e l p : kids (e :: l) p = if decide (ParentID e = p) then e :: kids l p else kids l p.
Proof. unfold kids. by rewrite filter_cons. Qed.

Lemma filter_none {A} (Q : A → Prop) `{!∀ x, Decision (Q x)} (l : list A) :
  (∀ x, x ∈ l → ¬ Q x) → filter Q l = [].
Proof.
  intros Hl. induction l as [|x l IH]; [done|]. rewrite filter_cons_False by (apply Hl; set_solver).
  apply IH. set_solver.
Qed.

(** [buildTree] sorts the events by parent. *)
Lemma tree_fold events roots m :
  let '(roots', m') := foldl tree_step (roots, m) events in
  roots' = roots ++ kids events "" ∧
  (∀ p, p ≠ "" → default [] (m' !! p) = default [] (m !! p) ++ kids events p) ∧
  m' !! "" = m !! "".
Proof.
  revert roots m. induction events as [|e events IH]; intros roots m; cbn [foldl].
  - split; [by rewrite app_nil_r|]. split; [|done]. intros p _. by rewrite app_nil_r.
  - unfold tree_step at 2. rewrite kids_cons.
    destruct (String.eqb_spec (ParentID e) "") as [E|E].
    + specialize (IH (roots ++ [e]) m). destruct (foldl _ _ _) as [roots' m'].
      destruct IH as (-> & Hm & Hn). rewrite decide_True by done. split; [by rewrite <- app_assoc|].
      split; [|done]. intros p Hp. rewrite kids_cons, decide_False by congruence. by apply Hm.
    + specialize (IH roots (<[ParentID e:=default [] (m !! ParentID e) ++ [e]]> m)).
      destruct (foldl _ _ _) as [roots' m']. destruct IH as (-> & Hm & Hn).
      rewrite decide_False by done. split; [done|]. split; [|by rewrite Hn, lookup_insert_ne].
      intros p Hp. rewrite Hm, kids_cons by done. case_decide as Ep.
      * rewrite Ep, lookup_insert_eq. simpl. by rewrite <- app_assoc.
      * by rewrite lookup_insert_ne.
Qed.

Section TreeTheorems.
Context `{AssertMode} `{TraceFmt}.

Lemma buildTree_spec events : Z.of_nat (length events) ≤ maxEvents →
  ∃ m, buildTree events = Ok (kids events "", m) ∧
    ∀ p, p ≠ "" → default [] (m !! p) = kids events p.
Proof.
  intros Hl%Z.leb_le. unfold buildTree, check_or. rewrite Hl, Check_true.
  pose proof (tree_fold events [] ∅) as Hf. destruct (foldl _ _ _) as [roots m].
  destruct Hf as (-> & Hm & _). exists m. split; [done|]. intros p Hp. by rewrite Hm.
Qed.

Lemma push_frames_room frames stack : Z.of_nat (length frames + length stack) ≤ maxTraceNodes →
  push_frames frames stack = frames ++ stack.
Proof.
  induction frames as [|f frames IH]; [done|]. cbn [length push_frames app]. intros Hl.
  rewrite IH by lia. rewrite length_app. by rewrite (proj2 (Z.ltb_lt _ _)) by lia.
Qed.

(** ** The traversal

    [V]: the events printed so far; [st]: the stack; [P]: the others. *)
Section Traversal.
Context (events : list Event).
Context (Hids : NoDup (ID <$> events)).
Context (Hlen : Z.of_nat (length events) ≤ maxEvents).
Context (Hid : Forall (λ e, (6 ≤ String.length (ID e))%nat) events).
Context (Hkids : ∀ p, Z.of_nat (length (kids events p)) ≤ maxChildren).

Record traversal (V : list Event) (st : list traceFrame) (P : list Event) : Prop := {
  tr_perm : events ≡ₚ V ++ (fr_node <$> st) ++ P;
  tr_reach e : e ∈ V ++ (fr_node <$> st) → reachable events e;
  tr_parent e : e ∈ V ++ (fr_node <$> st) → ParentID e = "" ∨ ∃ v, v ∈ V ∧ ParentID e = ID v;
  tr_roots e : e ∈ events → ParentID e = "" → e ∈ V ++ (fr_node <$> st);
  tr_kids v e : v ∈ V → e ∈ events → ParentID e = ID v → e ∈ V ++ (fr_node <$> st);
}.

Lemma same_id a b : a ∈ events → b ∈ events → ID a = ID b → a = b.
Proof.
  intros [i Hi]%list_elem_of_lookup [j Hj]%list_elem_of_lookup E.
  assert (i = j) as ->; [|congruence].
  eapply (NoDup_lookup (ID <$> events)); [done|rewrite list_lookup_fmap, Hi; done|].
  rewrite list_lookup_fmap, Hj. simpl. by rewrite E.
Qed.

Lemma id_nonempty e : e ∈ events → ID e ≠ "".
Proof.
  intros He E. rewrite Forall_forall in Hid. specialize (Hid e He). rewrite E in Hid. simpl in Hid. lia.
Qed.

(** The children of the top of the stack are all among the others. *)
Lemma kids_in_pool V f st P : traversal V (f :: st) P →
  kids events (ID (fr_node f)) ≡ₚ filter (λ e, ParentID e = ID (fr_node f)) P.
Proof.
  intros [Hp Hr Hpar _ _]. set (n := fr_node f) in *.
  assert (∀ e, e ∈ V ++ (fr_node <$> f :: st) → ParentID e ≠ ID n) as Hno.
  { intros e He E. assert (n ∈ events) as Hn by (rewrite Hp; set_solver).
    destruct (Hpar e He) as [E'|(v & Hv & E')]; [apply (id_nonempty n Hn); congruence|].
    assert (v = n) as ->. { apply same_id; [rewrite Hp; set_solver|done|congruence]. }
    assert (NoDup events) as Hnd by (by eapply NoDup_fmap_1).
    rewrite Hp in Hnd. apply NoDup_app in Hnd as (_ & Hd & _). apply (Hd n Hv). set_solver. }
  unfold kids. rewrite Hp, app_assoc, filter_app.
  by rewrite (filter_none _ (V ++ _)).
Qed.

Lemma traversal_step V f st P : traversal V (f :: st) P →
  traversal (V ++ [fr_node f]) (frames_of (newPrefix f) (kids events (ID (fr_node f))) ++ st)
    (filter (λ e, ParentID e ≠ ID (fr_node f)) P).
Proof.
  intros Ht. pose proof (kids_in_pool _ _ _ _ Ht) as HK. destruct Ht as [Hp Hr Hpar Hroot Hk].
  set (n := fr_node f) in *. set (K := kids events (ID n)) in *.
  assert (n ∈ events) as Hn by (rewrite Hp; set_solver).
  assert (∀ e, e ∈ K ↔ ParentID e = ID n ∧ e ∈ events) as HKe
    by (intros; unfold K, kids; by rewrite list_elem_of_filter).
  assert (∀ e, e ∈ (V ++ [n]) ++ (fr_node <$> frames_of (newPrefix f) K ++ st) ↔
               e ∈ V ++ (fr_node <$> f :: st) ∨ e ∈ K) as Hsplit.
  { intros e. rewrite fmap_app, frames_nodes. fold n. set_solver. }
  split.
  - rewrite fmap_app, frames_nodes, HK.
    transitivity (V ++ [n] ++ (fr_node <$> st) ++ P); [by rewrite Hp|].
    rewrite <- (app_assoc V), <- !app_assoc. do 2 f_equiv.
    rewrite (Permutation_app_comm (filter _ P)), <- app_assoc. f_equiv.
    symmetry. rewrite Permutation_app_comm. apply filter_app_complement.
  - intros e [He|[E He]%HKe]%Hsplit; [by apply Hr|].
    apply (reach_child _ n); [|done|done|]. { apply Hr. set_solver. }
    rewrite E. by apply id_nonempty.
  - intros e [He|[E He]%HKe]%Hsplit; [|right; exists n; set_solver].
    destruct (Hpar e He) as [?|(v & Hv & E)]; [by left|]. right. exists v. set_solver.
  - intros e He E. apply Hsplit. left. by apply Hroot.
  - intros v e Hv He E. apply Hsplit. apply elem_of_app in Hv as [Hv|Hv].
    + left. by eapply Hk.
    + right. apply HKe. split; [|done]. set_solver.
Qed.

(** The line of a frame whose identifier can be shortened. *)
Definition trace_text (startTime : Time) (f : traceFrame) : string :=
  match trace_line startTime f with Ok l => l | _ => "" end.

Lemma trace_line_ok startTime f : fr_node f ∈ events →
  trace_line startTime f = Ok (trace_text startTime f).
Proof.
  intros He. rewrite Forall_forall in Hid. specialize (Hid _ He). apply Nat.leb_le in Hid.
  unfold trace_text, trace_line, slice_to. by rewrite Hid.
Qed.

Definition printed (startTime : Time) (out : list traceFrame) (c : Cli) : Cli :=
  mkCli (cli_files c) (cli_out c ++ ((λ f, Out (trace_text startTime f)) <$> out)).

Lemma trace_loop_spec m startTime n :
  (∀ p, p ≠ "" → default [] (m !! p) = kids events p) →
  ∀ V st P c, traversal V st P → (length st + length P ≤ n)%nat →
  ∃ out P', trace_loop n m startTime st c = (Ok tt, printed startTime out c) ∧
    preorder events st out ∧ traversal (V ++ (fr_node <$> out)) [] P'.
Proof.
  intros Hm. induction n as [|n IH]; intros V st P c Ht Hn.
  - destruct st as [|f st]; [|simpl in Hn; lia]. exists [], P. destruct c as [fs o]. unfold printed. simpl.
    rewrite !app_nil_r. split; [done|]. split; [constructor|done].
  - destruct st as [|f st].
    { exists [], P. destruct c as [fs o]. unfold printed. simpl. rewrite !app_nil_r.
      split; [done|]. split; [constructor|done]. }
    pose proof (traversal_step _ _ _ _ Ht) as Ht'. pose proof (tr_perm _ _ _ Ht) as Hp.
    assert (fr_node f ∈ events) as Hf by (rewrite Hp; set_solver).
    pose proof (Permutation_length (tr_perm _ _ _ Ht')) as Hl'. apply Permutation_length in Hp.
    rewrite fmap_app, frames_nodes, !length_app, !length_fmap in Hl'.
    rewrite !length_app, length_fmap in Hp. cbn [length] in Hl', Hp, Hn.
    cbn [trace_loop]. unfold mbind, M_bind, lift. rewrite trace_line_ok by done.
    unfold say, modify at 1. rewrite Hm by (by apply id_nonempty).
    rewrite (proj2 (Z.leb_le _ _) (Hkids _)), Check_true.
    set (K := kids events (ID (fr_node f))) in *.
    assert (length (frames_of (newPrefix f) K) = length K) as EK
      by (by rewrite <- (length_fmap fr_node), frames_nodes).
    rewrite push_frames_room by (rewrite EK; unfold maxTraceNodes, maxEvents in *; lia).
    destruct (IH _ _ _ (mkCli (cli_files c) (cli_out c ++ [Out (trace_text startTime f)])) Ht')
      as (out & P' & E & Hpre & Hend); [rewrite length_app, EK; lia|].
    rewrite E. apply preorder_app in Hpre as (o1 & o2 & -> & H1 & H2).
    exists (f :: o1 ++ o2), P'. split; [|split].
    + unfold printed. cbn [cli_files cli_out fmap list_fmap]. by rewrite <- app_assoc.
    + by constructor.
    + cbn [fmap list_fmap] in Hend |- *. by rewrite <- app_assoc in Hend.
Qed.

Lemma traversal_init : traversal [] (frames_of "" (kids events "")) (filter (λ e, ParentID e ≠ "") events).
Proof.
  assert (∀ e, e ∈ kids events "" ↔ ParentID e = "" ∧ e ∈ events) as HK
    by (intros; unfold kids; by rewrite list_elem_of_filter).
  split; rewrite ?frames_nodes; cbn [app].
  - symmetry. apply filter_app_complement.
  - intros e [E He]%HK. by constructor.
  - intros e [E _]%HK. by left.
  - intros e He E. by apply HK.
  - intros v e []%not_elem_of_nil.
Qed.

(** C20: [buildTree] followed by [printTraceTree] terminates and prints, in
    the order of a recursive traversal, one line for each event connected to
    a root, and for no other: nothing twice, and an event whose parent is not
    in the list, or on a cycle, not at all. *)
Theorem printTraceTree_preorder startTime c :
  ∃ m out, buildTree events = Ok (kids events "", m) ∧
    printTraceTree (kids events "") m startTime c = (Ok tt, printed startTime out c) ∧
    preorder events (frames_of "" (kids events "")) out ∧
    NoDup (fr_node <$> out) ∧ ∀ e, e ∈ fr_node <$> out ↔ reachable events e.
Proof.
  destruct (buildTree_spec events Hlen) as (m & Eb & Hm).
  assert (length (kids events "") ≤ length events)%nat as Hk by apply length_filter.
  assert (length (frames_of "" (kids events "")) = length (kids events "")) as EK
    by (by rewrite <- (length_fmap fr_node), frames_nodes).
  pose proof traversal_init as Ht. pose proof (Permutation_length (tr_perm _ _ _ Ht)) as Hp.
  rewrite frames_nodes, !length_app in Hp. cbn [length] in Hp.
  destruct (trace_loop_spec m startTime (Z.to_nat maxTraceNodes) Hm _ _ _ c Ht) as (out & P' & E & Hpre & Hend).
  { rewrite EK. unfold maxTraceNodes, maxEvents in *. lia. }
  exists m, out. split; [done|]. split; [|split; [done|]].
  - unfold printTraceTree, or_return. rewrite (proj2 (Z.leb_le _ _)), Check_true
      by (unfold maxTraceNodes, maxEvents in *; lia).
    rewrite push_frames_room by (rewrite EK; cbn [length]; unfold maxTraceNodes, maxEvents in *; lia).
    by rewrite app_nil_r, E.
  - destruct Hend as [Hp' Hr _ Hroot Hkid]. cbn [app fmap list_fmap] in *. rewrite app_nil_r in *.
    split.
    + assert (NoDup events) as Hnd by (by eapply NoDup_fmap_1). rewrite Hp' in Hnd.
      by apply NoDup_app in Hnd as [? _].
    + intros e. split; [apply Hr|]. intros He. induction He as [e He E0|p e _ IH He E0 _]; eauto.
Qed.

End Traversal.

End TreeTheorems.
