(* ===== verification/Analytics.v ===== *)
(** * cmd/logyctl: listing, statistics, export and replay

    The commands of [analytics.go], [export.go] and [replay.go].  Go's
    formatting verbs, the HTTP client, the zip writer's failures and the
    contents of files are arguments or parameters; a zip archive is the list
    of its members. *)
From S2P Require Import Prelude Assert Models Sha256 Crypto Repository Store Pool Cli Trace.
(** [%-5d] of an integer and [%.1f] of the hit rate of two counters. *)
Class StatsFmt := {
  pad_int : nat → Z → string;
  fmt_rate : Z → Z → string;
}.

Definition maxRecentEvents : Z := 10000.
Definition maxRiskEvents : Z := 10000.

Section Analytics.
Context `{AssertMode} `{TL : TimeLib} `{JL : JsonLib} `{TraceFmt} `{StatsFmt}.

(** [if err := assert.Check(c, ..); err != nil { log.Fatalf(.., err) }]. *)
Definition check_or_fatal (c : bool) (msg fatal : string) : M Cli unit :=
  try (lift (Check c msg)) (λ r, match r with
    | inl _ => mret tt
    | inr e => log_Fatalf (fatal +:+ Error e)
    end).

(** A deferred call whose error goes to standard error. *)
Definition close_noted (failed : option error) (msg : string) : M Cli unit :=
  match failed with
  | Some e => log_Printf (msg +:+ Error e)
  | None => mret tt
  end.

(** ** analytics.go *)

Fixpoint print_events (events : list Event) : M Cli unit :=
  match events with
  | [] => mret tt
  | e :: rest =>
      id8 ← lift (slice_to 8 (ID e));
      say ("[" +:+ pretty (SeqIndex e) +:+ "] " +:+ id8 +:+ " | " +:+ EventType e +:+ " | " +:+ Method e);;
      (if WasBlocked e then say "    BLOCKED" else mret tt);;
      print_events rest
  end.

Definition EventsCommand (limit : Z) (dbe : SQLite.open_env) : M Cli unit :=
  with_db dbe open_failed (
  runID ← or_fatal_check SQLite.GetRunID "failed to get run ID: " "Failed to get run ID: ";
  if String.eqb runID "" then on_cli (say "No runs found in database") else
  events ← or_fatal_check (SQLite.GetRecentEvents runID limit) "failed to get events: "
             "Failed to get events: ";
  on_cli (
    check_or_fatal (Z.of_nat (length events) <=? maxRecentEvents)
      ("recent events exceed max: " +:+ pretty (N.of_nat (length events))) "Recent events exceed max: ";;
    say ("Recent Events (showing " +:+ pretty (N.of_nat (length events)) +:+ ")");;
    say "===========================";;
    print_events (reverse events))).

(** The loop that prints and deletes a key of the map until none is left, in
    one of the orders Go may iterate in. *)
Fixpoint print_risks (n : nat) (m : gmap string Z) : M Cli unit :=
  match n with
  | O => mret tt
  | S n' =>
      match map_to_list m with
      | [] => mret tt
      | (key, count) :: _ =>
          say ("  " +:+ pad_right 10 key +:+ ": " +:+ pretty count);;
          print_risks n' (delete key m)
      end
  end.

Definition printPoolMetric (name : string) (hits misses : Z) : M Cli unit :=
  say (pad_right 12 name +:+ " | Hits: " +:+ pad_int 5 hits +:+ " | Misses: " +:+ pad_int 5 misses +:+
       " | Efficiency: " +:+ fmt_rate hits (u64 (hits + misses)) +:+ "%").

(** [api]: the response of the admin API, if there is one: the metrics, unless
    they cannot be decoded, and the error of closing its body. *)
Definition StatsCommand (api : option (option Metrics * option error)) (dbe : SQLite.open_env) : M Cli unit :=
  with_db dbe (λ e, log_Fatalf ("Failed to open database: " +:+ Error e)) (
  runID ← try (on_db SQLite.GetRunID) (λ r, mret (match r with inl s => s | inr _ => "" end));
  if String.eqb runID "" then on_cli (say "No runs found") else
  stats ← or_fatal_check (SQLite.GetRunStats runID) "failed to get stats: " "Failed to get stats: ";
  gStats ← try (on_db SQLite.GetGlobalStats)
             (λ r, mret (match r with inl g => Some g | inr _ => None end));
  on_cli (
    r8 ← lift (slice_to 8 runID);
    say ("Run Statistics (" +:+ r8 +:+ ")");;
    say "=======================";;
    say ("Total Events:    " +:+ pretty (TotalEvents stats));;
    say ("Tool Calls:      " +:+ pretty (CallCount stats));;
    say ("Blocked Calls:   " +:+ pretty (BlockedCount stats));;
    say "";;
    say "Risk Breakdown:";;
    (if (size (RiskBreakdown stats) =? 0)%nat then say "  None" else
     check_or_fatal (size (RiskBreakdown stats) <=? SQLite.maxRiskLevels)%nat
       ("risk breakdown exceeds max: " +:+ pretty (N.of_nat (size (RiskBreakdown stats))))
       "Risk breakdown exceeds max: ";;
     print_risks SQLite.maxRiskLevels (RiskBreakdown stats));;
    match gStats with
    | None => mret tt
    | Some g =>
        say "";;
        say "Global Context";;
        say "--------------";;
        say ("Total Runs:      " +:+ pretty (gs_TotalRuns g));;
        say ("Total Events:    " +:+ pretty (gs_TotalEvents g));;
        say ("Critical Alerts: " +:+ pretty (CriticalCount g))
    end;;
    match api with
    | None => mret tt
    | Some (metrics, close) =>
        match metrics with
        | None => mret tt
        | Some m =>
            say "";;
            say "Memory Infrastructure (Zero-Allocation Pools)";;
            say "--------------------------------------------";;
            printPoolMetric "Event Pool" (EventHits m) (EventMisses m);;
            printPoolMetric "Buffer Pool" (BufferHits m) (BufferMisses m)
        end;;
        close_noted close "Failed to close metrics response: "
    end)).

Fixpoint print_risky (events : list Event) : M Cli unit :=
  match events with
  | [] => mret tt
  | e :: rest =>
      id8 ← lift (slice_to 8 (ID e));
      say ("[" +:+ RiskLevel e +:+ "] " +:+ pad_right 8 id8 +:+ " | " +:+ pad_right 10 (EventType e) +:+
           " | " +:+ Method e);;
      (if nonempty (PolicyID e) then say ("    Policy: " +:+ PolicyID e) else mret tt);;
      print_risky rest
  end.

Definition RiskCommand (dbe : SQLite.open_env) : M Cli unit :=
  with_db dbe (λ e, log_Fatalf ("Failed to open database: " +:+ Error e)) (
  risky ← or_fatal_check SQLite.GetRiskEvents "failed to get risky events: "
            "Failed to get risky events: ";
  on_cli (
    match risky with
    | [] => say "[OK] No high-risk events detected"
    | _ =>
        check_or_fatal (Z.of_nat (length risky) <=? maxRiskEvents)
          ("risky events exceed max: " +:+ pretty (N.of_nat (length risky))) "Risky events exceed max: ";;
        say ("High-Risk Events Found: " +:+ pretty (N.of_nat (length risky)));;
        say "==========================";;
        print_risky risky
    end)).

(** ** replay.go *)

Record replay_request := mkReplayRequest {
  rq_url : string;
  rq_body : string;
  rq_event : string;
}.

(** The response to a replay: its status line and code, and its body. *)
Record replay_response := mkReplayResponse {
  rp_status : string;
  rp_code : Z;
  rp_body : string;
  rp_close : option error;
}.

(** What the command takes from its environment: whether the URL makes a
    request, the server, the time a call takes, and indented JSON. *)
Record replay_env := mkReplayEnv {
  rv_new_request : string → option error;
  rv_do : replay_request → outcome replay_response;
  rv_duration : string;
  rv_indent : gomap → string;
}.

(** The request a replay of an event sends. *)
Definition replay_of (targetURL : string) (event : Event) : outcome replay_request :=
  let body := match json_Marshal (of_gomap (Params event)) with Ok s => Ok s | Err _ => Ok "" | p => p end in
  b ← body; Ok (mkReplayRequest targetURL b (ID event)).

Definition show_replay (env : replay_env) (event : Event) (resp : replay_response) : M Cli unit :=
  try (lift (json_Unmarshal (rp_body resp))) (λ r,
    match r with
    | inr e => log_Fatalf ("Failed to decode replay response: " +:+ Error e)
    | inl (VObj m) => mret (Some m)
    | inl VNil => mret None
    | inl _ => log_Fatalf "Failed to decode replay response: json: cannot unmarshal into Go value"
    end) ≫= λ newResp : gomap,
  say ("Status:   " +:+ rp_status resp);;
  say ("Duration: " +:+ rv_duration env);;
  say "";;
  say "Original Response:";;
  say (rv_indent env (Response event));;
  say "";;
  say "Replay Response:";;
  say (rv_indent env newResp);;
  say "";;
  (if rp_code resp <? 300 then say "[OK] Replay successful (HTTP 2xx)"
   else say ("[FAILED] Replay failed (HTTP " +:+ pretty (rp_code resp) +:+ ")"));;
  match rp_close resp with
  | Some e => log_Printf ("Failed to close replay response: " +:+ Error e)
  | None => mret tt
  end.

Definition ReplayCommand (env : replay_env) (args : list string) (dbe : SQLite.open_env) : M Cli unit :=
  match args !! 2%nat with
  | None => say "Usage: logyctl replay <event-id> [--target http://localhost:8080]";; os_Exit
  | Some eventID =>
      let targetURL := match args !! 3%nat, args !! 4%nat with
                       | Some flag, Some url => if String.eqb flag "--target" then url
                                                else "http://localhost:8080"
                       | _, _ => "http://localhost:8080"
                       end in
      with_db dbe (λ e, log_Fatalf ("Failed to open database: " +:+ Error e)) (
      event ← or_fatal (SQLite.GetEventByID eventID) "Failed to find event: ";
      on_cli (
        (if negb (String.eqb (EventType event) "tool_call")
         then log_Fatalf ("Can only replay events of type 'tool_call' (found: " +:+ EventType event +:+ ")")
         else mret tt);;
        say ("Replaying Event: " +:+ ID event +:+ " (" +:+ Method event +:+ ")");;
        say ("Target URL:     " +:+ targetURL);;
        say rule60;;
        req ← lift (replay_of targetURL event);
        match rv_new_request env targetURL with
        | Some e => log_Fatalf ("Failed to create request: " +:+ Error e)
        | None => mret tt
        end;;
        try (lift (rv_do env req)) (λ r, match r with
          | inr e => log_Fatalf ("Replay failed: " +:+ Error e)
          | inl resp => show_replay env event resp
          end)))
  end.

(** ** export.go *)

Record EvidenceManifest := mkManifest {
  em_Version : string;
  em_RunID : string;
  em_ExportTime : Time;
  em_RunStats : RunStats;
  em_GenesisAnchor : gomap;
  em_LastHash : string;
}.

(** The indented encoding of a manifest, the encoding of an archive, and how
    the steps of an export fail; a failure to close the archive or its file comes
    with what is left in the file. *)
Record export_env := mkExportEnv {
  ee_encode : EvidenceManifest → outcome string;
  ee_zip : list (string * string) → string;
  ee_now : Time;
  ee_create : option error;
  ee_manifest_member : option error;
  ee_open : option error;
  ee_db_member : option error;
  ee_copy : option (nat * error);
  ee_zip_close : option (error * string);
  ee_file_close : option (error * string);
  ee_source_close : option error;
}.

(** The members an export adds, up to its end or its first error. *)
Definition bag_members (env : export_env) (manifest : EvidenceManifest) (fs : files) :
    list (string * string) * outcome unit :=
  match ee_manifest_member env with
  | Some e => ([], Err e)
  | None =>
      match ee_encode env manifest with
      | Err e => ([("manifest.json", "")], Err e)
      | Panic e => ([("manifest.json", "")], Panic e)
      | Ok text =>
          let members := [("manifest.json", text)] in
          match os_ReadFile (ee_open env) dbPath fs with
          | Err e => (members, Err (EWrap "opening logryph.db" e))
          | Panic e => (members, Panic e)
          | Ok content =>
              match ee_db_member env with
              | Some e => (members, Err e)
              | None =>
                  match ee_copy env with
                  | Some (n, e) => (members ++ [(dbPath, String.substring 0 n content)], Err e)
                  | None => (members ++ [(dbPath, content)], Ok tt)
                  end
              end
          end
      end
  end.

(** Whether the database file was opened, to be closed again. *)
Definition source_opened (env : export_env) (manifest : EvidenceManifest) (fs : files) : bool :=
  match ee_manifest_member env with
  | Some _ => false
  | None => is_ok (ee_encode env manifest) && is_ok (os_ReadFile (ee_open env) dbPath fs)
  end.

(** Creating the archive: the deferred calls close the database file, finish
    the archive and close it on every path. *)
Definition write_bag (env : export_env) (zipPath : string) (manifest : EvidenceManifest) : M Cli unit := λ c,
  match ee_create env with
  | Some e => (Err (EWrap "creating zip file" e), c)
  | None =>
      let fs := <[zipPath := ""]> (cli_files c) in
      let '(members, o) := bag_members env manifest fs in
      let c1 := if source_opened env manifest fs
                then (close_noted (ee_source_close env) "Failed to close DB file: " c).2 else c in
      let '(content, c2) := match ee_zip_close env with
        | Some (e, rest) => (rest, (log_Printf ("Failed to close zip writer: " +:+ Error e) c1).2)
        | None => (ee_zip env members, c1)
        end in
      let '(left_, c3) := match ee_file_close env with
        | Some (e, rest) => (rest, (log_Printf ("Failed to close zip file: " +:+ Error e) c2).2)
        | None => (content, c2)
        end in
      (o, mkCli (<[zipPath := left_]> fs) (cli_out c3))
  end.

(** Gathering the data of the manifest. *)
Definition gather_manifest (now : Time) (targetRunID : string) : M DB EvidenceManifest :=
  runID ← (if String.eqb targetRunID "" then wrap "getting run id" SQLite.GetRunID
           else mret targetRunID);
  (if String.eqb runID "" then fail (ENew "no runs found") else mret tt);;
  stats ← wrap "getting stats" (SQLite.GetRunStats runID);
  '(_, lastHash) ← wrap "getting last hash" (SQLite.GetLastEvent runID);
  mret (mkManifest "1.0 (Logryph 2026.1)" runID now stats None lastHash).

Definition ExportEvidenceBag (env : export_env) (zipPath targetRunID : string) (dbe : SQLite.open_env) :
    M Cli unit := λ c,
  match on_files (SQLite.NewDB dbPath dbe) c with
  | (Err e, c0) => (Err (EWrap "opening db" e), c0)
  | (Panic e, c0) => (Panic e, c0)
  | (Ok d, c0) =>
      let '(o, d') := gather_manifest (ee_now env) targetRunID d in
      let r := (manifest ← lift o; write_bag env zipPath manifest) c0 in
      (r.1, (deferred_close dbe d' r.2).2)
  end.

Definition ExportCommand (env : export_env) (args : list string) (dbe : SQLite.open_env) : M Cli unit :=
  match args !! 2%nat with
  | None => say "Usage: logyctl export <output-file.zip> [run-id]";; os_Exit
  | Some outputFile =>
      let targetRunID := default "" (args !! 3%nat) in
      try (ExportEvidenceBag env outputFile targetRunID dbe) (λ r, match r with
        | inr e => log_Fatalf ("Export failed: " +:+ Error e)
        | inl _ => say ("[OK] Evidence bag created: " +:+ outputFile)
        end)
  end.

(** ** Theorems *)

(** whatever parameters an event was recorded with, a replay of it
    sends the body [null]: the reader it uses does not decode the columns. *)
Theorem replay_sends_null {JLaws : JsonLaws TL JL} d eventID event d' url :
  SQLite.GetEventByID eventID d = (Ok event, d') →
  replay_of url event = Ok (mkReplayRequest url "null" (ID event)).
Proof.
  intros E. assert (Params event = None) as Hp.
  { revert E. unfold SQLite.GetEventByID. intros (u & d1 & _ & E)%M_bind_ok.
    revert E. unfold wrap. unfold mbind, M_bind, get. destruct (sql_call d1) as [[]]; try done.
    destruct (List.find _ _); by intros [= <- _]. }
  unfold replay_of. rewrite Hp. simpl. by rewrite json_Marshal_nil.
Qed.

(** The line of an event in the listing. *)
Definition event_line (e : Event) : line :=
  Out ("[" +:+ pretty (SeqIndex e) +:+ "] " +:+ String.substring 0 8 (ID e) +:+ " | " +:+ EventType e +:+
       " | " +:+ Method e).

Lemma slice_to_ok n s : (n ≤ String.length s)%nat → slice_to n s = Ok (String.substring 0 n s).
Proof. intros Hl%Nat.leb_le. unfold slice_to. by rewrite Hl. Qed.

Lemma print_events_ok events c :
  Forall (λ e, (8 ≤ String.length (ID e))%nat ∧ WasBlocked e = false) events →
  print_events events c = (Ok tt, mkCli (cli_files c) (cli_out c ++ (event_line <$> events))).
Proof.
  intros He. revert c. induction He as [|e events [Hl Hb] _ IH]; intros [fs out]; cbn [print_events].
  - simpl. by rewrite app_nil_r.
  - unfold mbind, M_bind, lift. rewrite (slice_to_ok 8) by done. rewrite Hb.
    unfold say, modify, mret, M_ret. rewrite IH. cbn [cli_files cli_out fmap list_fmap].
    by rewrite <- app_assoc.
Qed.

(** [events --limit n] prints the last [n] events of the latest run,
    or all of them when there are fewer, in chain order, under a heading with
    their number. *)
Theorem EventsCommand_recent limit dbe d c r d1 es d2 :
  SQLite.opens dbe d → db_faults d2 = [] → SQLite.tables_ok d → 0 < limit ≤ maxRecentEvents →
  SQLite.GetRunID d = (Ok r, d1) → r ≠ "" →
  SQLite.GetRecentEvents r limit d1 = (Ok es, d2) →
  Forall (λ x, (8 ≤ String.length (r_id x))%nat) (SQLite.of_run r (db_events d)) →
  let rows := SQLite.of_run r (db_events d) in
  let shown := SQLite.event_of_row_brief <$> drop (length rows - Z.to_nat limit) rows in
  EventsCommand limit dbe c =
    (Ok tt, mkCli (SQLite.touch dbPath (SQLite.oe_disk_closed dbe) (cli_files (opened_cli dbe c))) (cli_out c ++
       [Out ("Recent Events (showing " +:+ pretty (N.of_nat (length shown)) +:+ ")");
        Out "==========================="] ++ (event_line <$> shown))).
Proof.
  intros Hop Hnf Hok Hlim Er Hr Ee Hids rows shown.
  assert (SQLite.same_tables d d1) as Hs by (pose proof (SQLite.reads_GetRunID d) as Hs; by rewrite Er in Hs).
  assert (db_events d1 = db_events d) as Ed by apply Hs.
  assert (reverse es = shown) as Hes.
  { rewrite (SQLite.GetRecentEvents_ok r limit d1 es d2);
      [by rewrite Ed|by eapply SQLite.same_tables_ok|unfold maxRecentEvents, maxEventRows in *; lia|done]. }
  assert (length es = length shown) as Hlen by (by rewrite <- Hes, length_reverse).
  assert (Z.of_nat (length es) ≤ maxRecentEvents) as Hmax.
  { rewrite Hlen. unfold shown. rewrite length_fmap, length_drop. lia. }
  unfold EventsCommand. rewrite (with_db_opens dbe d) by done. unfold mbind at 1, M_bind at 1, or_fatal_check at 1, try at 1, on_db at 1.
  rewrite Er. cbn [fst snd mret M_ret]. rewrite (proj2 (String.eqb_neq _ _) Hr).
  unfold mbind at 1, M_bind at 1, or_fatal_check, try at 1, on_db. rewrite Ee.
  cbn [fst snd mret M_ret]. unfold on_cli, check_or_fatal. rewrite (proj2 (Z.leb_le _ _) Hmax).
  unfold mbind, M_bind, try, lift. rewrite Check_true. unfold mret, M_ret, say, modify.
  rewrite print_events_ok, Hes, Hlen.
  - cbn [fst snd cli_files cli_out]. unfold deferred_close, on_files, mbind, M_bind, modify, SQLite.Close.
    rewrite Hnf. destruct (db_closed d2); cbn [fst snd mret M_ret cli_files cli_out opened_cli]; by rewrite <- !app_assoc.
  - rewrite Hes. unfold shown. apply Forall_fmap, Forall_drop.
    eapply Forall_impl; [exact Hids|]. by intros x Hx.
Qed.

(** The run an export is about: the one asked for, or the one started last. *)
Definition exported_run (target : string) (d : DB) (run : string) : Prop :=
  if String.eqb target "" then
    ∃ row, row ∈ db_runs d ∧ run_id row = run ∧
      ∀ row', row' ∈ db_runs d → run_started_at row' ≤ run_started_at row
  else run = target.

Lemma GetRunID_latest d r d1 : SQLite.GetRunID d = (Ok r, d1) → r ≠ "" → exported_run "" d r.
Proof.
  unfold SQLite.GetRunID. intros E Hr. apply M_bind_ok in E as (u & d2 & E1%wrap_ok & E).
  pose proof (SQLite.reads_call d) as Hs. rewrite E1 in Hs. destruct Hs as [_ Hs]. cbn [snd] in Hs.
  unfold mbind, M_bind, get in E. rewrite Hs in E.
  destruct (head _) as [row|] eqn:Eh; injection E as <- _; [|done].
  apply sort_by_head in Eh as [Hin Hmax].
  - exists row. split; [done|]. split; [done|]. intros row' Hrow'.
    destruct (Hmax row' Hrow') as [->|Hle]; [lia|by apply Z.leb_le in Hle].
  - intros a b. rewrite !Z.leb_le. lia.
  - intros a b c. rewrite !Z.leb_le. lia.
Qed.

(** The manifest describes a run of the store. *)
Lemma gather_manifest_ok now target d man d' : SQLite.tables_ok d →
  gather_manifest now target d = (Ok man, d') →
  em_RunID man ≠ "" ∧ exported_run target d (em_RunID man) ∧ em_GenesisAnchor man = None ∧
  TotalEvents (em_RunStats man) = Z.of_nat (length (SQLite.log_of d (em_RunID man))) ∧
  em_LastHash man = from_option CurrentHash "" (last (SQLite.log_of d (em_RunID man))).
Proof.
  intros Hok E. unfold gather_manifest in E. apply M_bind_ok in E as (r & d1 & E1 & E).
  assert (SQLite.same_tables d d1 ∧ (r ≠ "" → exported_run target d r)) as [Hs1 Ht].
  { unfold exported_run. destruct (String.eqb_spec target "") as [->|Hne].
    - apply wrap_ok in E1. pose proof (SQLite.reads_GetRunID d) as Hs. rewrite E1 in Hs. split; [done|].
      intros Hr. exact (GetRunID_latest d r d1 E1 Hr).
    - injection E1 as <- <-. done. }
  apply M_bind_ok in E as (u & d1' & E2 & E). destruct (String.eqb_spec r "") as [->|Hne]; [done|].
  injection E2 as _ <-. apply M_bind_ok in E as (st & d2 & E3%wrap_ok & E).
  pose proof (SQLite.reads_GetRunStats r d1) as Hs2. rewrite E3 in Hs2. apply SQLite.GetRunStats_ok in E3.
  apply M_bind_ok in E as ([i h] & d3 & E4%wrap_ok & E). injection E as <- <-. cbn.
  assert (SQLite.tables_ok d2) as Hok2 by (eauto using SQLite.same_tables_ok).
  apply SQLite.GetLastEvent_ok in E4; [|done].
  rewrite (SQLite.same_tables_log _ _ Hs2), (SQLite.same_tables_log _ _ Hs1) in E4.
  rewrite (SQLite.same_tables_log _ _ Hs1) in E3.
  split_and!; auto. by destruct (last _); destruct E4.
Qed.

(** What an export that added the two members leaves in the file: the archive, or
    what a failed close of the archive or of the file left, which is only reported
    on standard error. *)
Definition bag_left (env : export_env) (members : list (string * string)) : string :=
  match ee_file_close env, ee_zip_close env with
  | Some (_, rest), _ => rest
  | None, Some (_, rest) => rest
  | None, None => ee_zip env members
  end.

(** The deferred calls do not change what the export returns. *)
Lemma write_bag_outcome env zipPath man c : ee_create env = None →
  (write_bag env zipPath man c).1 = (bag_members env man (<[zipPath := ""]> (cli_files c))).2.
Proof.
  intros Hc. unfold write_bag. rewrite Hc. destruct (bag_members _ _ _) as [members o].
  destruct (ee_zip_close env) as [[]|], (ee_file_close env) as [[]|]; done.
Qed.

(** The members of an export without an error. *)
Lemma bag_members_ok env man fs members : bag_members env man fs = (members, Ok tt) →
  ∃ text content, ee_encode env man = Ok text ∧ fs !! dbPath = Some content ∧
    members = [("manifest.json", text); (dbPath, content)].
Proof.
  unfold bag_members, os_ReadFile. destruct (ee_manifest_member env); [done|].
  destruct (ee_encode env man) as [text| |]; [|done..]. destruct (ee_open env); [done|].
  destruct (fs !! dbPath) as [content|]; [|done]. destruct (ee_db_member env); [done|].
  destruct (ee_copy env) as [[]|]; [done|]. intros [= <-]. by exists text, content.
Qed.

(** What it leaves, in the files and on standard error. *)
Lemma write_bag_left env zipPath man c members :
  ee_create env = None → bag_members env man (<[zipPath := ""]> (cli_files c)) = (members, Ok tt) →
  let c' := (write_bag env zipPath man c).2 in
  cli_files c' !! zipPath = Some (bag_left env members) ∧
  (∀ e rest, ee_zip_close env = Some (e, rest) → ErrOut ("Failed to close zip writer: " +:+ Error e) ∈ cli_out c') ∧
  (∀ e rest, ee_file_close env = Some (e, rest) → ErrOut ("Failed to close zip file: " +:+ Error e) ∈ cli_out c') ∧
  ∀ q, q ≠ zipPath → cli_files c' !! q = cli_files c !! q.
Proof.
  intros Hc Hm. cbv zeta. unfold write_bag. rewrite Hc, Hm. unfold bag_left.
  destruct (ee_zip_close env) as [[e1 r1]|], (ee_file_close env) as [[e2 r2]|];
    cbn [snd fst cli_files cli_out log_Printf modify app];
    (split; [apply lookup_insert_eq|]); (split; [intros e rest [= -> ->]; set_solver|]);
    (split; [intros e rest [= -> ->]; set_solver|]); intros q Hq; by rewrite !lookup_insert_ne by done.
Qed.

(** C31: an export that returns without an error added exactly two members to
    the archive, the manifest and a verbatim copy of the database file as it was
    once opened; the manifest names the run asked for, or else the one started
    last, with its number of events and the hash of its last event; its genesis
    anchor is never filled in.  The file holds that archive, unless closing the
    archive or the file failed, which the export does not report as an error but on
    standard error; beside it and the files of the database no file changes. *)
Theorem ExportEvidenceBag_bag env zipPath target dbe d c c' :
  SQLite.opens dbe d → SQLite.tables_ok d → zipPath ∉ SQLite.db_paths dbPath →
  ExportEvidenceBag env zipPath target dbe c = (Ok tt, c') →
  ∃ man text content,
    ee_encode env man = Ok text ∧ cli_files (opened_cli dbe c) !! dbPath = Some content ∧
    exported_run target d (em_RunID man) ∧ em_GenesisAnchor man = None ∧
    TotalEvents (em_RunStats man) = Z.of_nat (length (SQLite.log_of d (em_RunID man))) ∧
    em_LastHash man = from_option CurrentHash "" (last (SQLite.log_of d (em_RunID man))) ∧
    cli_files c' !! zipPath = Some (bag_left env [("manifest.json", text); (dbPath, content)]) ∧
    (∀ e rest, ee_zip_close env = Some (e, rest) →
       ErrOut ("Failed to close zip writer: " +:+ Error e) ∈ cli_out c') ∧
    (∀ e rest, ee_file_close env = Some (e, rest) →
       ErrOut ("Failed to close zip file: " +:+ Error e) ∈ cli_out c') ∧
    ∀ q, q ≠ zipPath → q ∉ SQLite.db_paths dbPath → cli_files c' !! q = cli_files c !! q.
Proof.
  intros Hop Hok Hzip E. unfold ExportEvidenceBag, on_files in E. rewrite (SQLite.NewDB_opens _ _ d) in E by done.
  cbn [fst snd] in E. fold (opened_cli dbe c) in E.
  destruct (gather_manifest (ee_now env) target d) as [[man| |] d'] eqn:Eg; try discriminate E.
  apply (gather_manifest_ok _ _ _ _ _ Hok) in Eg as (_ & Ht & Hg & Hn & Hh).
  apply pair_equal_spec in E as [E <-].
  unfold lift, mbind, M_bind in *. cbn [fst snd] in *.
  destruct (ee_create env) as [ce|] eqn:Hce; [unfold write_bag in E; by rewrite Hce in E|].
  rewrite write_bag_outcome in E by done.
  destruct (bag_members env man _) as [members o] eqn:Hm. cbn [snd] in E. subst o.
  destruct (write_bag_left _ _ _ _ _ Hce Hm) as (Hz & Hl & Hf & Hq).
  apply bag_members_ok in Hm as (text & content & Et & Ec & ->).
  rewrite lookup_insert_ne in Ec by (intros ->; by apply Hzip, db_in_paths).
  exists man, text, content. do 6 (split; [done|]).
  split; [by rewrite deferred_close_files|]. split; [intros; by eapply deferred_close_out, Hl|].
  split; [intros; by eapply deferred_close_out, Hf|].
  intros q Hne' Hdb. rewrite deferred_close_files, Hq by done. by apply touch_other.
Qed.

End Analytics.
