(* ===== verification/Worker.v ===== *)
(** * internal/ledger: the asynchronous worker

    The [Worker] of [internal/ledger/worker.go]: construction, start,
    submission with its two backpressure modes, the drain loop of the
    background goroutine and of the shutdown, the latency histogram and the
    accessors.  The processor shares the worker's database, signer and run, so
    the worker holds them once and the processor adds its task states.  What
    other goroutines do while a call sleeps, the clock, and the select choices
    are arguments; the interleaving of the goroutines is the subject of
    [Submission]. *)
From S2P Require Import Ring Prelude Assert Models Sha256 Crypto Repository Pool Chain Anchor Processor Genesis.
(** ** Data *)

(** [BackpressureMode] is an [int]. *)
Definition BackpressureDrop : Z := 0.
Definition BackpressureBlock : Z := 1.

Definition maxAnchorTicks : Z := 2 ^ 30.
Definition maxSignalBatches : Z := 2 ^ 30.
Definition maxDrainEvents : Z := 2 ^ 20.
Definition maxShutdownTicks : Z := 2 ^ 12.
Definition maxLatencyBuckets : nat := 7.
Definition maxBlockAttempts : nat := 1000.

Definition Millisecond : Z := 1000000.

Definition latencyBucketUpperNs : list Z :=
  [1 * Millisecond; 5 * Millisecond; 10 * Millisecond; 25 * Millisecond; 50 * Millisecond;
   100 * Millisecond; max_uint64].

Record LatencySnapshot := mkLatencySnapshot {
  BoundsNs : list Z;
  Counts : list Z;
  SumNs : Z;
  Count : Z;
}.

(** The atomic counters of a worker. *)
Record WorkerMetrics := mkWorkerMetrics {
  processedEvents : Z;
  droppedEvents : Z;
  blockedSubmits : Z;
  latencySumNs : Z;
  latencyCount : Z;
  latencyBuckets : list Z;
}.

(** A [chan struct{}] of capacity 1. *)
Record chan1 := mkChan { pending : bool; chan_closed : bool }.

(** An event pointer. *)
Abbreviation event_ptr := (option Event).

Record Worker (St : Type) := mkWorker {
  ringBuffer : Buffer event_ptr;
  signalChan : chan1;
  quit_closed : bool;
  w_db : St;
  w_signer : Signer;
  w_runID : string;
  processor : option (gmap string string);
  backpressureMode : Z;
  isUnhealthy : bool;
  metrics : WorkerMetrics;
  closing : bool;
}.
Arguments mkWorker {St}.
Arguments ringBuffer {St}.
Arguments signalChan {St}.
Arguments quit_closed {St}.
Arguments w_db {St}.
Arguments w_signer {St}.
Arguments w_runID {St}.
Arguments processor {St}.
Arguments backpressureMode {St}.
Arguments isUnhealthy {St}.
Arguments metrics {St}.
Arguments closing {St}.

Definition nil_deref : error := ENew "runtime error: invalid memory address or nil pointer dereference".

Section Setters.
Context {St : Type}.

Definition set_ring (r : Buffer event_ptr) (w : Worker St) : Worker St :=
  mkWorker r (signalChan w) (quit_closed w) (w_db w) (w_signer w) (w_runID w)
  (processor w) (backpressureMode w) (isUnhealthy w) (metrics w) (closing w).
Definition set_signal (c : chan1) (w : Worker St) : Worker St :=
  mkWorker (ringBuffer w) c (quit_closed w) (w_db w) (w_signer w) (w_runID w)
  (processor w) (backpressureMode w) (isUnhealthy w) (metrics w) (closing w).
Definition set_quit (q : bool) (w : Worker St) : Worker St :=
  mkWorker (ringBuffer w) (signalChan w) q (w_db w) (w_signer w) (w_runID w)
  (processor w) (backpressureMode w) (isUnhealthy w) (metrics w) (closing w).
Definition set_wdb (s : St) (w : Worker St) : Worker St :=
  mkWorker (ringBuffer w) (signalChan w) (quit_closed w) s (w_signer w) (w_runID w)
  (processor w) (backpressureMode w) (isUnhealthy w) (metrics w) (closing w).
Definition set_run (r : string) (w : Worker St) : Worker St :=
  mkWorker (ringBuffer w) (signalChan w) (quit_closed w) (w_db w) (w_signer w) r
  (processor w) (backpressureMode w) (isUnhealthy w) (metrics w) (closing w).
Definition set_processor (p : option (gmap string string)) (w : Worker St) : Worker St :=
  mkWorker (ringBuffer w) (signalChan w) (quit_closed w) (w_db w) (w_signer w)
  (w_runID w) p (backpressureMode w) (isUnhealthy w) (metrics w) (closing w).
Definition set_mode (m : Z) (w : Worker St) : Worker St :=
  mkWorker (ringBuffer w) (signalChan w) (quit_closed w) (w_db w) (w_signer w)
  (w_runID w) (processor w) m (isUnhealthy w) (metrics w) (closing w).
Definition set_unhealthy (u : bool) (w : Worker St) : Worker St :=
  mkWorker (ringBuffer w) (signalChan w) (quit_closed w) (w_db w) (w_signer w)
  (w_runID w) (processor w) (backpressureMode w) u (metrics w) (closing w).
Definition set_metrics (m : WorkerMetrics) (w : Worker St) : Worker St :=
  mkWorker (ringBuffer w) (signalChan w) (quit_closed w) (w_db w) (w_signer w)
  (w_runID w) (processor w) (backpressureMode w) (isUnhealthy w) m (closing w).
Definition set_closing (c : bool) (w : Worker St) : Worker St :=
  mkWorker (ringBuffer w) (signalChan w) (quit_closed w) (w_db w) (w_signer w)
  (w_runID w) (processor w) (backpressureMode w) (isUnhealthy w) (metrics w) c.
End Setters.

Definition add_processed (m : WorkerMetrics) : WorkerMetrics :=
  mkWorkerMetrics (u64 (processedEvents m + 1)) (droppedEvents m) (blockedSubmits m) (latencySumNs m)
    (latencyCount m) (latencyBuckets m).
Definition add_dropped (m : WorkerMetrics) : WorkerMetrics :=
  mkWorkerMetrics (processedEvents m) (u64 (droppedEvents m + 1)) (blockedSubmits m) (latencySumNs m)
    (latencyCount m) (latencyBuckets m).
Definition add_blocked (m : WorkerMetrics) : WorkerMetrics :=
  mkWorkerMetrics (processedEvents m) (droppedEvents m) (u64 (blockedSubmits m + 1)) (latencySumNs m)
    (latencyCount m) (latencyBuckets m).
Definition add_latency (i : nat) (ns : Z) (m : WorkerMetrics) : WorkerMetrics :=
  mkWorkerMetrics (processedEvents m) (droppedEvents m) (blockedSubmits m) (u64 (latencySumNs m + ns))
    (u64 (latencyCount m + 1)) (alter (λ c, u64 (c + 1)) i (latencyBuckets m)).

Definition zero_metrics : WorkerMetrics := mkWorkerMetrics 0 0 0 0 0 (replicate maxLatencyBuckets 0).

(** The first bucket whose bound a latency does not exceed. *)
Fixpoint bucket_from (i : nat) (bounds : list Z) (ns : Z) : option nat :=
  match bounds with
  | [] => None
  | b :: bounds' => if ns <=? b then Some i else bucket_from (S i) bounds' ns
  end.

Section Worker.
Context `{AssertMode} `{TL : TimeLib} `{JL : JsonLib} `{Ed25519} `{Http} {St : Type}
        `{EventRepository St}.

Abbreviation W := (Worker St).

(** ** Construction and configuration *)

Definition NewWorker (bufferSize : Z) (s : St) (keyPath : string) (entropy : outcome string)
    (read : option error) (fault : option write_fault) : M files W :=
  lift (Check (0 <? bufferSize) "buffer size must be positive");;
  lift (Check (nonempty keyPath) "key path must not be empty");;
  sg ← wrap "initializing signer" (NewSigner keyPath entropy read fault);
  rb ← lift (New (None : event_ptr) bufferSize);
  mret (mkWorker rb (mkChan false false) false s sg "" None BackpressureDrop false zero_metrics false).

Definition valid_mode (mode : Z) : bool :=
  (mode =? BackpressureDrop) || (mode =? BackpressureBlock).

Definition SetBackpressureMode (mode : Z) : M W unit :=
  lift (Check (valid_mode mode) "invalid backpressure mode");;
  modify (set_mode mode).

(** An invalid mode reads as [BackpressureDrop], or panics in strict mode. *)
Definition BackpressureMode (w : W) : outcome Z :=
  match Check (valid_mode (backpressureMode w)) "invalid backpressure mode" with
  | Ok _ => Ok (backpressureMode w)
  | Err _ => Ok BackpressureDrop
  | Panic e => Panic e
  end.

Definition BlockedSubmits (w : W) : Z := blockedSubmits (metrics w).
Definition IsHealthy (w : W) : bool := negb (isUnhealthy w).
Definition Stats (w : W) : Z * Z := (processedEvents (metrics w), droppedEvents (metrics w)).
Definition QueueDepth (w : W) : Z * Z := (Len (ringBuffer w), Cap (ringBuffer w)).

Definition LatencyMetrics (w : W) : LatencySnapshot :=
  mkLatencySnapshot latencyBucketUpperNs (take maxLatencyBuckets (latencyBuckets (metrics w)))
    (latencySumNs (metrics w)) (latencyCount (metrics w)).

(** ** Start

    The two goroutines it starts are [processEvents] and [anchorLoop]. *)

Definition on_wdb {A} (m : M St A) : M (W * Pool) A := λ '(w, pl),
  let r := m (w_db w) in (r.1, (set_wdb r.2 w, pl)).

Definition on_worker {A} (m : M W A) : M (W * Pool) A := λ '(w, pl),
  let r := m w in (r.1, (r.2, pl)).

Definition Start (env : genesis_env) : M (W * Pool) unit :=
  hasRuns ← wrap "checking for existing runs" (on_wdb HasRuns);
  (if negb hasRuns then
     '(w, _) ← get;
     runID ← wrap "creating genesis block" (λ '(w, pl),
       let '(o, (s', pl')) := CreateGenesisBlock (w_signer w) "Logryph-Agent" env (w_db w, pl) in
       (o, (set_wdb s' w, pl')));
     on_worker (modify (set_run runID))
   else
     runID ← wrap "loading run ID" (on_wdb GetRunID);
     on_worker (modify (set_run runID)));;
  on_worker (modify (set_processor (Some ∅)));;
  on_worker (modify (set_closing false)).

(** ** Submit *)

(** Reading a field through a pointer. *)
Definition deref (event : event_ptr) : outcome Event :=
  match event with
  | Some e => Ok e
  | None => Panic nil_deref
  end.

Definition bump (f : WorkerMetrics → WorkerMetrics) : M W unit :=
  modify (λ w, set_metrics (f (metrics w)) w).

(** Counting a drop, then logging it with the event's identifier. *)
Definition drop_event (event : event_ptr) : M W unit :=
  bump add_dropped;; lift (deref event);; mret tt.

(** The waiting loop: [None] when the event was dropped, [Some tt] when the
    wait is over.  [others i] is what the other goroutines do during the
    [i]-th sleep. *)
Fixpoint block_loop (n i : nat) (others : nat → W → W) (event : event_ptr) : M W (option unit) :=
  match n with
  | O => mret (Some tt)
  | S n' =>
      w ← get;
      if negb (IsFull (ringBuffer w)) then mret (Some tt)
      else if closing w then drop_event event;; mret None
      else bump add_blocked;; modify (others i);; block_loop n' (S i) others event
  end.

(** [select { case signalChan <- struct{}{}: default: }]. *)
Definition notify : M W unit :=
  w ← get;
  let c := signalChan w in
  if chan_closed c then lift (Panic (ENew "send on closed channel"))
  else if pending c then mret tt
  else modify (set_signal (mkChan true false)).

Definition on_ring {A} (m : M (Buffer event_ptr) A) : M W A := λ w,
  let r := m (ringBuffer w) in (r.1, set_ring r.2 w).

Definition Submit (others : nat → W → W) (event : event_ptr) : M W unit :=
  lift (NotNil (IPtr "models.Event" (bool_decide (event = None))) "event");;
  w ← get;
  if closing w then drop_event event else
  room ← (if backpressureMode w =? BackpressureBlock then
            r ← block_loop maxBlockAttempts 0 others event;
            match r with
            | None => mret false
            | Some _ =>
                w ← get;
                if IsFull (ringBuffer w) then drop_event event;; mret false else mret true
            end
          else if IsFull (ringBuffer w) then drop_event event;; mret false
          else mret true);
  if negb room then mret tt else
  try (on_ring (Push event)) (λ r, match r with
    | inr _ => mret tt
    | inl _ => notify
    end).

(** ** Latency *)

Definition recordLatency (d : Z) : M W unit :=
  or_return (Check (0 <=? d) "latency duration must be non-negative")
  (if d =? 0 then bump (add_latency 0 0)
   else
     let latencyNs := u64 d in
     match bucket_from 0 latencyBucketUpperNs latencyNs with
     | Some i => bump (add_latency i latencyNs)
     | None => bump (add_latency maxLatencyBuckets latencyNs)
     end).

(** ** Draining *)

(** What one round of the drain loop takes from its environment. *)
Record tick := mkTick { tk_env : completion_env; tk_latency : Z }.

(** [w.processor.ProcessEvent(event)] on the shared database: its outcome, the
    event as it leaves it, and the state. *)
Definition process (env : completion_env) (event : event_ptr) (w : W) (pl : Pool) :
    outcome unit * event_ptr * (W * Pool) :=
  match processor w with
  | None => (Panic nil_deref, event, (w, pl))
  | Some tasks =>
      let '(o, (p', event', pl')) :=
        ProcessEvent env (mkEventProcessor (w_db w) (w_signer w) (w_runID w) tasks, event, pl) in
      (o, event', (set_processor (Some (taskStates p')) (set_wdb (db p') w), pl'))
  end.

(** The same, with an error logged (reading the event's identifier) and
    remembered. *)
Definition process_logged (env : completion_env) (event : event_ptr) : M (W * Pool) event_ptr :=
  λ '(w, pl),
  let '(o, event', (w', pl')) := process env event w pl in
  match o with
  | Ok _ => (Ok event', (w', pl'))
  | Err _ =>
      match event' with
      | Some _ => (Ok event', (set_unhealthy true w', pl'))
      | None => (Panic nil_deref, (w', pl'))
      end
  | Panic e => (Panic e, (w', pl'))
  end.

(** The body of the drain loop, once an event has been popped. *)
Definition drain_round (t : tick) (event : event_ptr) : M (W * Pool) unit :=
  event' ← process_logged (tk_env t) event;
  on_worker (recordLatency (tk_latency t));;
  on_worker (bump add_processed);;
  match event' with
  | Some e => on_pool (PutEvent e)
  | None => mret tt
  end.

Fixpoint drain_loop (n j : nat) (ticks : nat → tick) : M (W * Pool) unit :=
  match n with
  | O => mret tt
  | S n' =>
      '(w, _) ← get;
      if IsEmpty (ringBuffer w) then mret tt else
      try (on_worker (on_ring Pop)) (λ r, match r with
        | inr _ => mret tt
        | inl event => drain_round (ticks j) event;; drain_loop n' (S j) ticks
        end)
  end.

Definition cap_check (w : W) : outcome unit :=
  Check (Cap (ringBuffer w) <=? maxDrainEvents)
    ("ring buffer cap exceeds max: " +:+ pretty (Cap (ringBuffer w))).

Definition drainBuffer (ticks : nat → tick) : M (W * Pool) unit :=
  '(w, _) ← get;
  match cap_check w with
  | Ok _ => drain_loop (Z.to_nat maxDrainEvents) 0 ticks
  | Err e => on_worker (modify (set_unhealthy true));; fail e
  | Panic e => lift (Panic e)
  end.

(** ** The background goroutines

    The messages a goroutine's [select] or receive picks, in order. *)

(** [processEvents]: the result of each receive from [signalChan], a signal
    ([true], which empties the channel) or the notice that it is closed, with
    the environment of the drain that follows a signal. *)
Fixpoint processEvents (i : Z) (signals : list (bool * (nat → tick))) : M (W * Pool) unit :=
  if maxSignalBatches <=? i
  then or_return (Check false "processEvents exceeded max signal batches") (mret tt)
  else
  match signals with
  | [] => mret tt
  | (false, _) :: _ => mret tt
  | (true, ticks) :: signals' =>
      on_worker (modify (λ w, set_signal (mkChan false (chan_closed (signalChan w))) w));;
      '(w, _) ← get;
      match cap_check w with
      | Ok _ => drain_loop (Z.to_nat maxDrainEvents) 0 ticks;; processEvents (i + 1) signals'
      | Err _ => on_worker (modify (set_unhealthy true))
      | Panic e => lift (Panic e)
      end
  end.

(** What one tick of [anchorLoop] takes from its environment; [at_request]: how
    many requests the process has sent before. *)
Record anchor_tick := mkAnchorTick {
  at_request : nat;
  at_pick : option nat;
  at_uuid : string;
  at_now : Time;
  at_anchor_now : Time;
}.

Definition anchor_event (t : anchor_tick) (a : Anchor) (event : Event) : Event :=
  mkEvent (String.substring 0 8 (at_uuid t)) (RunID event) (SeqIndex event) (at_now t)
    "system" "anchor" "logryph:anchor"
    (put_param "anchor_time" (VTime (an_Timestamp a))
      (put_param "anchor_hash" (VString (BlockHash a))
        (put_param "anchor_height" (VUint64 (BlockHeight a))
          (put_param "anchor_source" (VString (Source a)) (Params event)))))
    (Response event) (TaskID event) (TaskState event) (ParentID event) (PolicyID event)
    (RiskLevel event) (PrevHash event) (CurrentHash event) (Signature event) (WasBlocked event).

(** The ticker case of the loop; a failed fetch waits for the next tick. *)
Definition anchor_once (others : nat → W → W) (t : anchor_tick) : M (W * Pool) unit :=
  match FetchBitcoinAnchor (at_request t) (at_anchor_now t) with
  | Err _ => mret tt
  | Panic e => lift (Panic e)
  | Ok anchor =>
      event ← on_pool (GetEvent (at_pick t));
      on_worker (Submit others (Some (anchor_event t anchor event)))
  end.

(** [Some t]: the ticker fired; [None]: [quitChan] was closed. *)
Fixpoint anchorLoop (i : Z) (others : nat → W → W) (choices : list (option anchor_tick)) :
    M (W * Pool) unit :=
  if maxAnchorTicks <=? i
  then or_return (Check false "anchor loop exceeded max ticks") (mret tt)
  else
  match choices with
  | [] => mret tt
  | None :: _ => mret tt
  | Some t :: choices' => anchor_once others t;; anchorLoop (i + 1) others choices'
  end.

(** ** Shutdown *)

(** [done_at = Some n]: the goroutines have stopped when the [n]-th tick is
    awaited. *)
Definition waitForStop (timeout : Z) (done_at : option nat) : outcome unit :=
  Check (0 <? timeout) "timeout must be positive";;
  let step := timeout `quot` maxShutdownTicks in
  let step := if step =? 0 then Millisecond else step in
  Check (0 <? step) "shutdown step must be positive";;
  match done_at with
  | Some n => if Z.of_nat n <? maxShutdownTicks then Ok tt
              else Err (ENew "worker shutdown wait exceeded timeout")
  | None => Err (ENew "worker shutdown wait exceeded timeout")
  end.

(** [shutdownOnce]: only the first call closes the two channels. *)
Definition close_channels (w : W) : W :=
  if quit_closed w then w
  else set_quit true (set_signal (mkChan (pending (signalChan w)) true) w).

(** Up to the wait. *)
Definition begin_shutdown (timeout : Z) : M (W * Pool) unit :=
  lift (Check (0 <? timeout) "timeout must be positive");;
  on_worker (modify (set_closing true));;
  on_worker (modify close_channels).

(** After the wait.  When it timed out, the background loop may still be draining
    the ring, and the two process events side by side without a lock: [raced] is
    whatever that leaves. *)
Definition finish_shutdown (timed_out : bool) (raced : M (W * Pool) unit) (ticks : nat → tick) :
    M (W * Pool) unit :=
  (if timed_out then raced else drainBuffer ticks);;
  on_wdb Repository.Close.

(** The other goroutines act while the call waits ([others]). *)
Definition Shutdown (timeout : Z) (done_at : option nat) (others : W * Pool → W * Pool)
    (raced : M (W * Pool) unit) (ticks : nat → tick) : M (W * Pool) unit :=
  begin_shutdown timeout;;
  modify others;;
  match waitForStop timeout done_at with
  | Panic e => lift (Panic e)
  | Err _ => finish_shutdown true raced ticks
  | Ok _ => finish_shutdown false raced ticks
  end.

Definition Close (done_at : option nat) (others : W * Pool → W * Pool) (raced : M (W * Pool) unit)
    (ticks : nat → tick) : M (W * Pool) unit :=
  Shutdown (5 * 1000 * Millisecond) done_at others raced ticks.

(** ** Invariants *)

Context {RL : RepositoryLaws St} {JLaws : JsonLaws TL JL} {TLaws : TimeLaws TL} {ELaws : Ed25519Laws _}.

(** The processor of a worker, on the worker's database. *)
Definition proc_of (w : W) : EventProcessor St :=
  mkEventProcessor (w_db w) (w_signer w) (w_runID w) (default ∅ (processor w)).

(** The queued event pointers, oldest first. *)
Definition queue (w : W) : list event_ptr := contents None (ringBuffer w).

Record worker_ok (w : W) : Prop := {
  wo_ring : wf (ringBuffer w);
  wo_queue : Forall (λ p, ∃ e, p = Some e ∧ event_ok e) (queue w);
  wo_started : is_Some (processor w);
  wo_proc : proc_ok (proc_of w);
  wo_tasks : tasks_ok (taskStates (proc_of w));
}.

Definition ticks_ok (ticks : nat → tick) : Prop :=
  ∀ j, time_ok (env_now (tk_env (ticks j))) = true.

(** What processing leaves alone. *)
Definition same_queue (w w' : W) : Prop :=
  ringBuffer w' = ringBuffer w ∧ signalChan w' = signalChan w ∧ closing w' = closing w ∧
  metrics w' = metrics w.

Lemma process_logged_spec env e w pl o w' pl' :
  worker_ok w → event_ok e → pool_clean pl → time_ok (env_now env) = true →
  process_logged env (Some e) (w, pl) = (o, (w', pl')) →
  worker_ok w' ∧ pool_clean pl' ∧ same_queue w w' ∧
  (∃ es, appends (proc_of w) (proc_of w') es ∧ chunk_of e es ∧
     (is_ok o = true → isUnhealthy w' = false → es ≠ [])) ∧
  (isUnhealthy w = true → isUnhealthy w' = true) ∧
  ∀ oe, o = Ok oe → ∃ e1, oe = Some e1 ∧ content e1 = content e.
Proof.
  intros [Hr Hq [t Et] Hp Hts] He Hpl Ht. unfold process_logged, process. rewrite Et.
  unfold proc_of in Hp, Hts. rewrite Et in Hp, Hts.
  destruct (ProcessEvent env _) as [o1 [[p' oe] pl1]] eqn:E1.
  apply process_chunk in E1 as (Hp' & Hts' & Hpl' & (e1 & -> & Hc1) & es & Ha & Hch & Hne); try assumption.
  assert (∀ u, worker_ok (set_unhealthy u (set_processor (Some (taskStates p')) (set_wdb (db p') w)))) as Hw.
  { intros u. pose proof Ha as (Es & Er & _ & _). simpl in Es, Er.
    split; try assumption; [by eexists|unfold proc_of; simpl; destruct p'; simpl in *; by subst..]. }
  assert (∀ u, appends (proc_of w) (proc_of (set_unhealthy u
            (set_processor (Some (taskStates p')) (set_wdb (db p') w)))) es) as Ha'.
  { intros u. unfold proc_of. rewrite Et. pose proof Ha as (Es & Er & _ & _). simpl in Es, Er.
    destruct p'. simpl in *. by subst. }
  destruct o1 as [[]|err|err]; intros [= <- <- <-].
  - split; [apply (Hw (isUnhealthy w))|]. split; [done|]. split; [done|]. split.
    + exists es. split; [apply (Ha' (isUnhealthy w))|]. auto.
    + split; [done|]. intros oe [= <-]. by exists e1.
  - split; [apply (Hw true)|]. split; [done|]. split; [done|]. split.
    + exists es. split; [apply (Ha' true)|]. split; [done|]. intros _ [=].
    + split; [done|]. intros oe [= <-]. by exists e1.
  - split; [apply (Hw (isUnhealthy w))|]. split; [done|]. split; [done|]. split.
    + exists es. split; [apply (Ha' (isUnhealthy w))|]. split; [done|]. intros [=].
    + split; [done|]. intros oe [=].
Qed.

(** Metrics and pool do not matter to the invariant. *)
Lemma worker_ok_metrics m w : worker_ok w → worker_ok (set_metrics m w).
Proof. by intros []. Qed.

Lemma recordLatency_frame d w o w' : recordLatency d w = (o, w') →
  ∃ m, w' = set_metrics m w ∧ processedEvents m = processedEvents (metrics w) ∧
       droppedEvents m = droppedEvents (metrics w) ∧ blockedSubmits m = blockedSubmits (metrics w).
Proof.
  unfold recordLatency, or_return, bump, modify.
  assert (w = set_metrics (metrics w) w) as Hw by by destruct w.
  destruct (Check _ _) as [[]| |]; [|intros [= <- <-]; by exists (metrics w)..].
  destruct (d =? 0); [intros [= <- <-]; eauto|]. destruct (bucket_from _ _ _); intros [= <- <-]; eauto.
Qed.

Lemma worker_ok_pop w : worker_ok w → Ring.count (ringBuffer w) ≠ 0 →
  ∃ e q, queue w = Some e :: q ∧ event_ok e ∧
    on_ring Pop w = (Ok (Some e), set_ring (popped (ringBuffer w)) w) ∧
    worker_ok (set_ring (popped (ringBuffer w)) w) ∧
    queue (set_ring (popped (ringBuffer w)) w) = q.
Proof.
  intros [Hr Hq Hs Hp Hts] Hc. pose proof (contents_popped None _ Hr Hc) as Hcont.
  unfold queue in *. rewrite Hcont in Hq. inversion Hq as [|x l (e & Hx & He) Hl]; subst.
  exists e, (contents None (popped (ringBuffer w))).
  rewrite Hcont. split; [by rewrite Hx|]. split; [done|]. split.
  - unfold on_ring. rewrite (Pop_eq None) by done. destruct (Z.eqb_spec (Ring.count (ringBuffer w)) 0); [done|].
    by rewrite <- Hx.
  - split; [|done]. split; try assumption. by apply popped_wf.
Qed.

(** What processing an event that has been taken off the queue may do. *)
Definition round_effect (e : Event) (w w' : W) (o : outcome unit) : Prop :=
  closing w' = closing w ∧ (isUnhealthy w = true → isUnhealthy w' = true) ∧
  (o = Ok tt → Stats w' = (u64 ((Stats w).1 + 1), (Stats w).2)) ∧
  ∃ es, appends (proc_of w) (proc_of w') es ∧ chunk_of e es ∧
    (o = Ok tt → isUnhealthy w' = false → es ≠ []).

Lemma round_spec t e w pl o w' pl' :
  worker_ok w → event_ok e → pool_clean pl → time_ok (env_now (tk_env t)) = true →
  drain_round t (Some e) (w, pl) = (o, (w', pl')) →
  worker_ok w' ∧ pool_clean pl' ∧ ringBuffer w' = ringBuffer w ∧ round_effect e w w' o.
Proof.
  intros Hw He Hpl Ht E. unfold drain_round in E. unfold mbind at 1, M_bind at 1 in E.
  destruct (process_logged (tk_env t) (Some e) (w, pl)) as [o1 [w1 pl1]] eqn:E1.
  apply process_logged_spec in E1 as (Hw1 & Hpl1 & (Er1 & _ & Ecl & Em1) & (es & Ha & Hch & Hne) & Hun & Hoe);
    try assumption.
  destruct o1 as [oe|err|err];
    [|injection E as <- <- <-; split_and!; try assumption; split_and!; try done; by exists es..].
  destruct (Hoe oe eq_refl) as (e1 & -> & _). specialize (Hne eq_refl).
  unfold mbind at 1, M_bind at 1, on_worker at 1 in E.
  destruct (recordLatency (tk_latency t) w1) as [o2 w2] eqn:E2.
  apply recordLatency_frame in E2 as (m & -> & Hm1 & Hm2 & _). cbn [fst snd] in E.
  assert (∀ m', worker_ok (set_metrics m' w1)) as Hwm by (intros; by apply worker_ok_metrics).
  assert (∀ m' o', (o' = Ok tt → (processedEvents m', droppedEvents m') = (u64 ((Stats w).1 + 1), (Stats w).2)) →
    round_effect e w (set_metrics m' w1) o') as Hre.
  { intros m' o' Hm'. split_and!; try done. exists es. by split_and!. }
  destruct o2 as [[]|err|err]; [|injection E as <- <- <-; split; [auto|]; split; [auto|]; split; [auto|]; by apply Hre..].
  unfold mbind, M_bind, on_worker, bump, modify, on_pool in E. cbn [fst snd] in E.
  injection E as <- <- <-. split; [apply (Hwm (add_processed m))|].
  split; [by apply PutEvent_clean|]. split; [done|]. apply (Hre (add_processed m)). intros _.
  unfold Stats. simpl. by rewrite Hm1, Hm2, Em1.
Qed.

(** A drain took the events [es] off the queue, oldest first, and added
    [chunks] to the log, one chunk per event in the same order. *)
Record drained (w w' : W) (o : outcome unit) (es : list Event) (chunks : list (list Event)) : Prop := {
  dr_queue : queue w = (Some <$> es) ++ queue w';
  dr_chunks : Forall2 chunk_of es chunks;
  dr_log : appends (proc_of w) (proc_of w') (concat chunks);
  dr_stats : o = Ok tt → Stats w' = (u64 ((Stats w).1 + Z.of_nat (length es)), (Stats w).2);
  dr_closing : closing w' = closing w;
  dr_unhealthy : isUnhealthy w = true → isUnhealthy w' = true;
  dr_healthy : o = Ok tt → isUnhealthy w' = false → Forall (λ c, c ≠ []) chunks;
}.

Lemma drained_nil w o : 0 ≤ (Stats w).1 ≤ max_uint64 → drained w w o [] [].
Proof.
  intros Hs. split; try done; [by apply appends_nil|]. intros _. simpl length.
  rewrite Z.add_0_r, u64_small by done. by destruct (Stats w).
Qed.

Lemma u64_add_succ a n : u64 (u64 (a + 1) + Z.of_nat n) = u64 (a + Z.of_nat (S n)).
Proof. unfold u64. rewrite Z.add_mod_idemp_l by lia. f_equal. lia. Qed.

(** One round, then the rest. *)
Lemma drained_cons e w w1 w2 o es chunks : queue w = Some e :: queue w1 →
  round_effect e w w1 (Ok tt) → drained w1 w2 o es chunks →
  ∃ c, drained w w2 o (e :: es) (c :: chunks).
Proof.
  intros Hq (Hcl & Hun & Hst & c & Ha & Hch & Hne) [Hq2 Hc2 Ha2 Hs2 Hcl2 Hu2 Hh2]. exists c. split.
  - rewrite Hq, Hq2. done.
  - by constructor.
  - by eapply appends_trans.
  - intros Ho. rewrite Hs2, Hst by done. cbn [fst snd length]. by rewrite u64_add_succ.
  - congruence.
  - auto.
  - intros Ho Hh. constructor; [|auto]. apply Hne; [done|].
    destruct (isUnhealthy w1) eqn:Eu; [|done]. rewrite Hu2 in Hh by done. done.
Qed.

Lemma drained_stop e w w1 o : queue w = Some e :: queue w1 → o ≠ Ok tt →
  round_effect e w w1 o → ∃ c, drained w w1 o [e] [c].
Proof.
  intros Hq Ho (Hcl & Hun & _ & c & Ha & Hch & _). exists c. split; try done.
  - by repeat constructor.
  - simpl. by rewrite app_nil_r.
Qed.

Lemma drain_loop_S n j ticks w pl :
  drain_loop (S n) j ticks (w, pl) =
  if IsEmpty (ringBuffer w) then (Ok tt, (w, pl)) else
  try (on_worker (on_ring Pop)) (λ r, match r with
    | inr _ => mret tt
    | inl event => drain_round (ticks j) event;; drain_loop n (S j) ticks
    end) (w, pl).
Proof. simpl. unfold mbind at 1, M_bind at 1, get. by destruct (IsEmpty _). Qed.

(** A single step of the loop on a non-empty queue. *)
Lemma drain_step n j ticks w pl e : worker_ok w → Ring.count (ringBuffer w) ≠ 0 →
  on_ring Pop w = (Ok (Some e), set_ring (popped (ringBuffer w)) w) →
  drain_loop (S n) j ticks (w, pl) =
  match drain_round (ticks j) (Some e) (set_ring (popped (ringBuffer w)) w, pl) with
  | (Ok _, st) => drain_loop n (S j) ticks st
  | (Err err, st) => (Err err, st)
  | (Panic err, st) => (Panic err, st)
  end.
Proof.
  intros Hw Hc Hpop. rewrite drain_loop_S. unfold IsEmpty.
  destruct (Z.eqb_spec (Ring.count (ringBuffer w)) 0); [done|].
  unfold try, on_worker. rewrite Hpop. cbn [fst snd]. unfold mbind, M_bind.
  by destruct (drain_round _ _ _) as [[] ?].
Qed.

Lemma Stats_range w z d : Stats w = (u64 z, d) → 0 ≤ (Stats w).1 ≤ max_uint64.
Proof. intros ->. apply u64_range. Qed.

Lemma drain_loop_spec n j ticks w pl o w' pl' : 0 ≤ (Stats w).1 ≤ max_uint64 →
  worker_ok w → pool_clean pl → ticks_ok ticks →
  drain_loop n j ticks (w, pl) = (o, (w', pl')) →
  worker_ok w' ∧ pool_clean pl' ∧ ∃ es chunks, drained w w' o es chunks ∧
    (o = Ok tt → (length (queue w) ≤ n)%nat → queue w' = []).
Proof.
  revert j w pl. induction n as [|n IH]; intros j w pl Hs Hw Hpl Ht E.
  { injection E as <- <- <-. split; [done|]. split; [done|]. exists [], [].
    split; [by apply drained_nil|]. intros _ Hl. apply length_zero_iff_nil. lia. }
  destruct (decide (Ring.count (ringBuffer w) = 0)) as [Hz|Hz].
  { rewrite drain_loop_S in E. unfold IsEmpty in E. rewrite Hz in E. injection E as <- <- <-.
    split; [done|]. split; [done|]. exists [], []. split; [by apply drained_nil|]. intros _ _.
    by apply contents_nil; [apply Hw|]. }
  destruct (worker_ok_pop w Hw Hz) as (e & q & Hq & He & Hpop & Hw1 & Hq1).
  rewrite (drain_step n j ticks w pl e Hw Hz Hpop) in E.
  set (w1 := set_ring (popped (ringBuffer w)) w) in *.
  destruct (drain_round (ticks j) (Some e) (w1, pl)) as [o2 [w2 pl2]] eqn:E2.
  apply round_spec in E2 as (Hw2 & Hpl2 & Hring & Hre); [|assumption..|apply Ht].
  change (round_effect e w w2 o2) in Hre.
  assert (queue w = Some e :: queue w2) as Hqq by (rewrite Hq, <- Hq1; unfold queue; by rewrite Hring).
  destruct o2 as [[]|err|err].
  2-3: injection E as <- <- <-; split; [done|]; split; [done|];
    edestruct (drained_stop e w w2) as [c Hd]; [done| |exact Hre|]; [done|exists [e], [c]; by split].
  apply IH in E as (Hw3 & Hpl3 & es & chunks & Hd & Hend); try assumption;
    [|eapply Stats_range; by apply (proj1 (proj2 (proj2 Hre)))].
  split; [done|]. split; [done|]. destruct (drained_cons e w w2 w' o es chunks Hqq Hre Hd) as [c Hd'].
  exists (e :: es), (c :: chunks). split; [done|]. intros Ho Hl. apply Hend; [done|].
  rewrite Hqq in Hl. simpl in Hl. lia.
Qed.

Lemma queue_length w : worker_ok w → Z.of_nat (length (queue w)) = Len (ringBuffer w).
Proof. intros [[] _ _ _ _]. unfold queue. rewrite contents_length. unfold Len. lia. Qed.

Lemma drainBuffer_spec ticks w pl o w' pl' :
  0 ≤ (Stats w).1 ≤ max_uint64 → worker_ok w → pool_clean pl → ticks_ok ticks →
  drainBuffer ticks (w, pl) = (o, (w', pl')) →
  worker_ok w' ∧ pool_clean pl' ∧ ∃ es chunks, drained w w' o es chunks ∧
    (o = Ok tt → queue w' = []).
Proof.
  intros Hs Hw Hpl Ht E. unfold drainBuffer in E. unfold mbind at 1, M_bind at 1, get in E.
  destruct (cap_check w) as [u|err|err] eqn:Ec.
  - unfold cap_check in Ec. apply Check_ok, Z.leb_le in Ec.
    apply drain_loop_spec in E as (? & ? & es & chunks & ? & Hend); try assumption.
    split; [done|]. split; [done|]. exists es, chunks. split; [done|]. intros Ho. apply Hend; [done|].
    pose proof (queue_length w Hw). destruct Hw as [[] _ _ _ _]. unfold Cap, Len in *. lia.
  - apply pair_equal_spec in E as [<- E]. apply pair_equal_spec in E as [<- <-].
    split; [by destruct Hw|]. split; [done|]. exists [], []. split; [|done].
    split; try done. by apply appends_nil.
  - apply pair_equal_spec in E as [<- E]. apply pair_equal_spec in E as [<- <-].
    split; [done|]. split; [done|]. exists [], []. split; [by apply drained_nil|done].
Qed.

(** ** Theorems *)

(** C9: draining keeps the ledger sound and the order of the events.
    However it ends, [drainBuffer] takes a prefix of the queue, oldest first,
    and extends the run's log by one chunk per event in that order, each chunk
    empty (the event could not be stored) or led by the event; the log stays a
    signed hash chain.  When it returns, the queue is empty and the processed
    counter has grown by the number of events taken, stored or not; if the
    worker is then healthy, every one of them was stored. *)
Theorem drainBuffer_fifo ticks w pl o w' pl' :
  0 ≤ (Stats w).1 ≤ max_uint64 → worker_ok w → pool_clean pl → ticks_ok ticks →
  drainBuffer ticks (w, pl) = (o, (w', pl')) →
  worker_ok w' ∧ pool_clean pl' ∧ ∃ es chunks, drained w w' o es chunks ∧
    (o = Ok tt → queue w' = []).
Proof. apply drainBuffer_spec. Qed.

Lemma submit_drop others e w :
  wf (ringBuffer w) → backpressureMode w = BackpressureDrop → chan_closed (signalChan w) = false →
  Submit others (Some e) w =
    (Ok tt, if closing w || IsFull (ringBuffer w) then set_metrics (add_dropped (metrics w)) w
            else set_signal (mkChan true false) (set_ring (pushed (ringBuffer w) (Some e)) w)) ∧
  (closing w || IsFull (ringBuffer w) = false →
     contents None (pushed (ringBuffer w) (Some e)) = queue w ++ [Some e] ∧
     wf (pushed (ringBuffer w) (Some e))).
Proof.
  intros Hr Hm Hc. split.
  - unfold Submit, NotNil. rewrite bool_decide_eq_true_2 by done.
    unfold mbind at 1, M_bind at 1, lift. rewrite Check_true.
    unfold mbind at 1, M_bind at 1, get at 1.
    destruct (closing w) eqn:Hcl; [done|]. rewrite Hm. cbn [orb].
    change (BackpressureDrop =? BackpressureBlock) with false. cbv iota.
    destruct (IsFull (ringBuffer w)) eqn:Hf; [done|].
    unfold mbind, M_bind, mret, M_ret, try, on_ring. cbn [negb].
    rewrite Push_eq by done. unfold IsFull in Hf. rewrite Hf. cbn [fst snd].
    unfold notify, mbind, M_bind, get. cbn [signalChan set_ring]. rewrite Hc.
    destruct (pending (signalChan w)) eqn:Hp; [|done]. unfold mret, M_ret. f_equal.
    unfold set_signal, set_ring. simpl. f_equal. destruct (signalChan w). simpl in *. by subst.
  - intros [_ Hf]%orb_false_iff. unfold IsFull in Hf. apply Z.eqb_neq in Hf.
    split; [by apply contents_pushed|by apply pushed_wf].
Qed.

(** In drop mode a submission never fails, also while the channel is closed,
    which happens after [closing] is set. *)
Lemma submit_drop_total others e w :
  wf (ringBuffer w) → backpressureMode w = BackpressureDrop →
  (chan_closed (signalChan w) = true → closing w = true) →
  ∃ w', Submit others (Some e) w = (Ok tt, w').
Proof.
  intros Hr Hm Hc. destruct (chan_closed (signalChan w)) eqn:Hcc.
  - unfold Submit, NotNil. rewrite bool_decide_eq_true_2 by done.
    unfold mbind at 1, M_bind at 1, lift. rewrite Check_true.
    unfold mbind at 1, M_bind at 1, get at 1. rewrite Hc by done. by eexists.
  - destruct (submit_drop others e w Hr Hm Hcc) as [-> _]. by eexists.
Qed.

(** A submission in drop mode is decided at once.  While the worker
    is closing, or when the ring is full, the event is dropped and counted and
    nothing else changes; otherwise it is queued last, the goroutine is
    signalled, and no counter changes. *)
Theorem Submit_drop_mode others e w :
  wf (ringBuffer w) → backpressureMode w = BackpressureDrop → chan_closed (signalChan w) = false →
  Submit others (Some e) w =
    (Ok tt, if closing w || IsFull (ringBuffer w) then set_metrics (add_dropped (metrics w)) w
            else set_signal (mkChan true false) (set_ring (pushed (ringBuffer w) (Some e)) w)) ∧
  (closing w || IsFull (ringBuffer w) = false →
     contents None (pushed (ringBuffer w) (Some e)) = queue w ++ [Some e] ∧
     wf (pushed (ringBuffer w) (Some e))).
Proof. apply submit_drop. Qed.

(** [n] waits, counted. *)
Definition waited (n : Z) (m : WorkerMetrics) : WorkerMetrics :=
  mkWorkerMetrics (processedEvents m) (droppedEvents m) (u64 (blockedSubmits m + n)) (latencySumNs m)
    (latencyCount m) (latencyBuckets m).

Lemma block_loop_full n i event w :
  IsFull (ringBuffer w) = true → closing w = false → 0 ≤ blockedSubmits (metrics w) ≤ max_uint64 →
  block_loop n i (λ _ w, w) event w =
    (Ok (Some tt), set_metrics (waited (Z.of_nat n) (metrics w)) w).
Proof.
  revert i w. induction n as [|n IH]; intros i w Hf Hc Hb.
  - unfold waited. simpl block_loop. unfold mret, M_ret. rewrite Z.add_0_r, u64_small by done.
    by destruct w as [? ? ? ? ? ? ? ? ? [] ?].
  - simpl block_loop. unfold mbind at 1, M_bind at 1, get. rewrite Hf, Hc. cbn [negb].
    unfold mbind, M_bind, bump, modify. rewrite IH; [|done|done|apply u64_range].
    unfold waited. cbn [set_metrics metrics add_blocked processedEvents droppedEvents blockedSubmits
      latencySumNs latencyCount latencyBuckets]. by rewrite u64_add_succ.
Qed.

(** In block mode a submission to a full ring that nobody drains waits
    exactly 1000 times and then drops the event: the caller is delayed, not
    blocked for good, and [blockedSubmits] grows by the number of waits, not by
    one. *)
Theorem Submit_block_timeout e w :
  IsFull (ringBuffer w) = true → closing w = false → backpressureMode w = BackpressureBlock →
  0 ≤ blockedSubmits (metrics w) ≤ max_uint64 →
  Submit (λ _ w, w) (Some e) w =
    (Ok tt, set_metrics (add_dropped (waited 1000 (metrics w))) w).
Proof.
  intros Hf Hc Hm Hb. unfold Submit, NotNil. rewrite bool_decide_eq_true_2 by done.
  unfold mbind at 1, M_bind at 1, lift. rewrite Check_true.
  unfold mbind at 1, M_bind at 1, get at 1. rewrite Hc, Hm.
  change (BackpressureBlock =? BackpressureBlock) with true. cbv iota.
  unfold mbind at 1, M_bind at 1. unfold mbind at 1, M_bind at 1.
  rewrite block_loop_full by done. change (Z.of_nat maxBlockAttempts) with 1000.
  unfold mbind at 1, M_bind at 1, get. cbn [ringBuffer set_metrics]. by rewrite Hf.
Qed.

(** The histogram counts every observation once. *)
Definition histogram_ok (m : WorkerMetrics) : Prop :=
  length (latencyBuckets m) = maxLatencyBuckets ∧
  latencyCount m = u64 (foldr Z.add 0 (latencyBuckets m)).

Lemma sum_alter (l : list Z) i : (i < length l)%nat →
  u64 (foldr Z.add 0 (alter (λ c, u64 (c + 1)) i l)) = u64 (foldr Z.add 0 l + 1).
Proof.
  revert i. induction l as [|c l IH]; intros [|i] Hi; simpl in *; try lia.
  - unfold u64. rewrite Z.add_mod_idemp_l by lia. f_equal. lia.
  - assert (i < length l)%nat as Hi' by lia. specialize (IH i Hi').
    change (list_alter (λ c, u64 (c + 1)) i l) with (alter (λ c, u64 (c + 1)) i l).
    unfold u64 in *. rewrite <- Z.add_mod_idemp_r, IH, Z.add_mod_idemp_r by lia. f_equal. lia.
Qed.

Lemma add_latency_histogram i ns m : (i < maxLatencyBuckets)%nat → histogram_ok m →
  histogram_ok (add_latency i ns m).
Proof.
  intros Hi [Hl Hc]. split; simpl; [by rewrite length_alter|]. rewrite sum_alter by lia.
  unfold u64 in *. by rewrite Hc, Z.add_mod_idemp_l by lia.
Qed.

Lemma bucket_from_spec bounds k ns i : bucket_from k bounds ns = Some i →
  ∃ j b, i = (k + j)%nat ∧ bounds !! j = Some b ∧ ns ≤ b ∧
    ∀ j' b', (j' < j)%nat → bounds !! j' = Some b' → b' < ns.
Proof.
  revert k. induction bounds as [|b bounds IH]; intros k; simpl; [done|].
  destruct (Z.leb_spec ns b).
  - intros [= <-]. exists 0%nat, b. split; [lia|]. split; [done|]. split; [done|]. intros; lia.
  - intros (j & b' & -> & Hj & Hle & Hlt)%IH. exists (S j), b'. split; [lia|]. split; [done|].
    split; [done|]. intros [|j'] b'' Hj' Hb; simpl in Hb; simplify_eq; [done|]. by eapply Hlt; [|exact Hb]; lia.
Qed.

(** a non-negative latency lands in exactly one bucket, the first
    whose bound it does not exceed; the sum and the count grow with it, modulo
    2^64, and the buckets keep adding up to the count. *)
Theorem recordLatency_bucket d w :
  0 ≤ d ≤ max_int → histogram_ok (metrics w) →
  ∃ i b, recordLatency d w = (Ok tt, set_metrics (add_latency i d (metrics w)) w) ∧
    latencyBucketUpperNs !! i = Some b ∧ d ≤ b ∧
    (∀ j b', (j < i)%nat → latencyBucketUpperNs !! j = Some b' → b' < d) ∧
    histogram_ok (add_latency i d (metrics w)).
Proof.
  intros Hd Hh. unfold recordLatency, or_return.
  rewrite (proj2 (Z.leb_le 0 d)) by lia. rewrite Check_true. destruct (Z.eqb_spec d 0) as [->|Hz].
  - exists 0%nat, (1 * Millisecond). split; [done|]. split; [done|]. split; [done|].
    split; [intros; lia|]. by apply add_latency_histogram; [unfold maxLatencyBuckets; lia|].
  - rewrite u64_small by (unfold max_int, max_uint64 in *; lia).
    destruct (bucket_from 0 latencyBucketUpperNs d) as [i|] eqn:Eb.
    + apply bucket_from_spec in Eb as (j & b & -> & Hj & Hle & Hlt). exists j, b.
      split; [done|]. split; [done|]. split; [done|]. split; [done|].
      apply add_latency_histogram; [|done]. by apply lookup_lt_Some in Hj.
    + exfalso. revert Eb. unfold latencyBucketUpperNs, bucket_from.
      repeat case_match; try done. unfold max_int, max_uint64 in *. lia.
Qed.

(** A signal received by the background loop. *)
Lemma processEvents_S i ticks signals w pl : (maxSignalBatches <=? i) = false →
  let w1 := set_signal (mkChan false (chan_closed (signalChan w))) w in
  ∃ n, Z.of_nat n = maxDrainEvents ∧ processEvents i ((true, ticks) :: signals) (w, pl) =
  match cap_check w1 with
  | Ok _ => (drain_loop n 0 ticks;; processEvents (i + 1) signals) (w1, pl)
  | Err _ => (Ok tt, (set_unhealthy true w1, pl))
  | Panic e => (Panic e, (w1, pl))
  end.
Proof.
  intros Hi w1. exists (Z.to_nat maxDrainEvents). split; [by apply Z2Nat.id|].
  cbn [processEvents]. rewrite Hi. unfold mbind at 1, M_bind at 1, on_worker at 1, modify at 1.
  cbn [fst snd]. unfold mbind at 1, M_bind at 1, get. by destruct (cap_check _).
Qed.

(** A worker before [Start]: an empty ring, a genuine key pair, and a store
    whose runs are all chains under that key. *)
Record startable (w : W) : Prop := {
  st_ring : wf (ringBuffer w);
  st_queue : queue w = [];
  st_signer : signer_ok (w_signer w);
  st_repo : repo_ok (w_db w);
  st_chains : ∀ r, chain_ok (w_signer w) (run_log (w_db w) r);
}.

(** The last steps of [Start], on whichever run was found or made. *)
Lemma started w run s pl o w' pl' : startable w → repo_ok s →
  chain_ok (w_signer w) (run_log s run) →
  (on_worker (modify (set_run run));;
   on_worker (modify (set_processor (Some ∅)));;
   on_worker (modify (set_closing false))) (set_wdb s w, pl) = (o, (w', pl')) →
  worker_ok w' ∧ closing w' = false ∧ w_runID w' = run ∧ w_db w' = s ∧ pl' = pl ∧
  w_signer w' = w_signer w ∧ metrics w' = metrics w.
Proof.
  intros [Hr Hq Hs _ _] Hok Hc [= <- <- <-]. split; [|done].
  split; try done.
  - unfold queue in *. simpl. rewrite Hq. constructor.
Qed.

Lemma start_spec env w pl w' pl' :
  startable w → run_log (w_db w) (g_run_uuid env) = [] → pool_clean pl → time_ok (g_now env) = true →
  Start env (w, pl) = (Ok tt, (w', pl')) →
  worker_ok w' ∧ pool_clean pl' ∧ closing w' = false ∧ w_signer w' = w_signer w ∧ metrics w' = metrics w ∧
  (((HasRuns (w_db w)).1 = Ok false ∧ w_runID w' = g_run_uuid env ∧
    length (run_log (w_db w') (w_runID w')) = 1%nat) ∨
   ((HasRuns (w_db w)).1 = Ok true ∧ run_log (w_db w') = run_log (w_db w))).
Proof.
  intros Hst Hfresh Hpl Ht E. pose proof Hst as [_ _ Hsg Hr Hch].
  unfold Start in E. unfold mbind at 1, M_bind at 1, wrap, on_wdb at 1 in E.
  destruct (HasRuns (w_db w)) as [o1 s1] eqn:E1. cbn [fst snd] in E.
  apply HasRuns_log in E1 as [Hr1 Hl1]; [|done]. destruct o1 as [b|err|err]; [|done..].
  destruct b; cbn [negb] in E.
  - unfold mbind at 1, M_bind at 1 in E. unfold mbind at 1, M_bind at 1, on_wdb at 1 in E. cbn [w_db set_wdb] in E.
    destruct (GetRunID s1) as [o2 s2] eqn:E2. cbn [fst snd] in E.
    apply GetRunID_log in E2 as [Hr2 Hl2]; [|done]. destruct o2 as [run|err|err]; [|done..].
    apply (started w run s2) in E as (? & ? & Hrun & Hdb & -> & ? & ?); try done; [|by rewrite Hl2, Hl1].
    split_and!; try done. right. by rewrite Hdb, Hl2, Hl1.
  - unfold mbind at 1, M_bind at 1 in E. unfold mbind at 1, M_bind at 1, get at 1 in E.
    unfold mbind at 1, M_bind at 1 in E. cbn [w_db w_signer set_wdb] in E.
    destruct (CreateGenesisBlock (w_signer w) "Logryph-Agent" env (s1, pl)) as [o2 [s2 pl2]] eqn:E2.
    apply genesis_spec in E2 as (Hr2 & Hpl2 & Ho2); try done; [|by rewrite Hl1].
    destruct o2 as [run|err|err]; [|done..]. destruct Ho2 as (Hrun & Hc2 & Hlen & _).
    injection Hrun as ->.
    apply (started w (g_run_uuid env) s2) in E as (? & ? & Hrun & Hdb & -> & ? & ?); try done.
    split_and!; try done. left. by rewrite Hdb, Hrun.
Qed.

(** [Start] leaves the worker ready: when it succeeds, its run's log is
    a signed hash chain, and it accepts submissions.  On an empty store it has
    created the run, with one genesis event; else it has loaded the latest run
    and added nothing. *)
Theorem Start_ready env w pl w' pl' :
  startable w → run_log (w_db w) (g_run_uuid env) = [] → pool_clean pl → time_ok (g_now env) = true →
  Start env (w, pl) = (Ok tt, (w', pl')) →
  worker_ok w' ∧ pool_clean pl' ∧ closing w' = false ∧
  (((HasRuns (w_db w)).1 = Ok false ∧ w_runID w' = g_run_uuid env ∧
    length (run_log (w_db w') (w_runID w')) = 1%nat) ∨
   ((HasRuns (w_db w)).1 = Ok true ∧ run_log (w_db w') = run_log (w_db w))).
Proof.
  intros Hst Hf Hp Ht E. destruct (start_spec _ _ _ _ _ Hst Hf Hp Ht E) as (? & ? & ? & _ & _ & ?). done.
Qed.

(** The end of a shutdown that did not time out, with any outcome: the queue is
    drained, and then the store closed. *)
Lemma finish_spec raced ticks w pl o w' pl' :
  worker_ok w → pool_clean pl → 0 ≤ (Stats w).1 ≤ max_uint64 → ticks_ok ticks →
  finish_shutdown false raced ticks (w, pl) = (o, (w', pl')) →
  ∃ o2 es chunks w2, drained w w2 o2 es chunks ∧ worker_ok w2 ∧ (o2 = Ok tt → queue w2 = []) ∧
    (o = Ok tt → o2 = Ok tt) ∧
    ∃ s3, w' = set_wdb s3 w2 ∧ repo_ok s3 ∧ run_log s3 = run_log (w_db w2).
Proof.
  intros Hw Hpl Hs Ht E. unfold finish_shutdown in E. unfold mbind, M_bind in E.
  destruct (drainBuffer ticks (w, pl)) as [o2 [w2 pl2]] eqn:Ed.
  apply drainBuffer_spec in Ed as (Hw2 & _ & es & chunks & Hdr & Hq); auto.
  exists o2, es, chunks, w2. split; [done|]. split; [done|]. split; [done|]. destruct o2 as [[]|e|e].
  - unfold on_wdb in E. destruct (Repository.Close (w_db w2)) as [o3 s3] eqn:E3. cbn [fst snd] in E.
    injection E as <- <- <-. apply Close_log in E3 as [Hr3 Hl3]; [|apply Hw2]. split; [done|]. by exists s3.
  - injection E as <- <- <-. split; [done|]. exists (w_db w2). split; [by destruct w2|]. split; [apply Hw2|done].
  - injection E as <- <- <-. split; [done|]. exists (w_db w2). split; [by destruct w2|]. split; [apply Hw2|done].
Qed.

(** A successful shutdown that did not time out drained the queue and then closed
    the store. *)
Lemma shutdown_spec timeout done_at others raced ticks w pl w1 pl1 w' pl' :
  others (close_channels (set_closing true w), pl) = (w1, pl1) → waitForStop timeout done_at = Ok tt →
  worker_ok w1 → pool_clean pl1 → 0 ≤ (Stats w1).1 ≤ max_uint64 → ticks_ok ticks →
  Shutdown timeout done_at others raced ticks (w, pl) = (Ok tt, (w', pl')) →
  ∃ es chunks w2 s3, drained w1 w2 (Ok tt) es chunks ∧ worker_ok w2 ∧ queue w2 = [] ∧
    w' = set_wdb s3 w2 ∧ repo_ok s3 ∧ run_log s3 = run_log (w_db w2).
Proof.
  intros Ho Hwait Hw1 Hpl1 Hs1 Ht E. unfold Shutdown in E.
  apply M_bind_ok in E as (u & st & Hc & E). unfold begin_shutdown in Hc.
  apply M_bind_ok in Hc as (u0 & st0 & Hc0 & Hc). apply pair_equal_spec in Hc0 as [_ <-].
  unfold mbind, M_bind in Hc. cbn [on_worker modify fst snd] in Hc. injection Hc as <- <-.
  unfold mbind at 1, M_bind at 1, modify at 1 in E. rewrite Ho, Hwait in E.
  apply finish_spec in E as (o2 & es & chunks & w2 & Hdr & Hw2 & Hq & Hok & s3 & -> & Hr3 & Hl3); try done.
  specialize (Hok eq_refl). subst o2. exists es, chunks, w2, s3. by split_and!; auto.
Qed.

(** When [Shutdown] returns without error, whatever the goroutines
    did before they stopped within its timeout, every event that was
    still queued has been taken off the queue in order and processed, the
    ledger is a chain, and any later submission is dropped and counted. *)
Theorem Shutdown_flushes timeout done_at others raced ticks w pl w1 pl1 w' pl' :
  others (close_channels (set_closing true w), pl) = (w1, pl1) → waitForStop timeout done_at = Ok tt →
  closing w1 = true → worker_ok w1 → pool_clean pl1 → 0 ≤ (Stats w1).1 ≤ max_uint64 → ticks_ok ticks →
  Shutdown timeout done_at others raced ticks (w, pl) = (Ok tt, (w', pl')) →
  queue w' = [] ∧ chain_ok (w_signer w') (run_log (w_db w') (w_runID w')) ∧
  (∃ es chunks w2, drained w1 w2 (Ok tt) es chunks ∧ queue w1 = Some <$> es ∧
     run_log (w_db w') = run_log (w_db w2)) ∧
  ∀ o' e, Submit o' (Some e) w' = (Ok tt, set_metrics (add_dropped (metrics w')) w').
Proof.
  intros Ho Hwait Hcl Hw1 Hpl1 Hs1 Ht E.
  destruct (shutdown_spec _ _ _ _ _ _ _ _ _ _ _ Ho Hwait Hw1 Hpl1 Hs1 Ht E)
    as (es & chunks & w2 & s3 & Hdr & Hw2 & Hq & -> & Hr3 & Hl3).
  split; [done|]. split; [simpl; rewrite Hl3; apply Hw2|]. split.
  - exists es, chunks, w2. split; [done|]. split; [|by simpl].
    rewrite (dr_queue _ _ _ _ _ Hdr), Hq. by rewrite app_nil_r.
  - intros o' e. assert (closing (set_wdb s3 w2) = true) as Hcl'
      by (simpl; by rewrite (dr_closing _ _ _ _ _ Hdr)). unfold Submit, NotNil. rewrite bool_decide_eq_true_2 by done.
    unfold mbind at 1, M_bind at 1, lift. rewrite Check_true.
    unfold mbind at 1, M_bind at 1, get at 1. by rewrite Hcl'.
Qed.

End Worker.
