(* ===== verification/Submission.v ===== *)
(** * Concurrent submission

    The goroutines that share a worker's ring, as a labelled transition system:
    any number of [Submit] calls in either backpressure mode, the background
    [processEvents] loop, and one [Shutdown] with its own drain, each split at
    its atomic operations (an atomic load or store, a call on the
    mutex-protected ring, a channel operation).  Events are identified by
    numbers; the ring is the bounded queue that [Ring] is proved to refine.
    Processing an event is one step, as in [Worker]; [SubmissionRefinement]
    relates the two. *)
From S2P Require Import Prelude Worker.
(** Where a [Submit] call is: before its check of [closing]; in the [i]-th
    attempt of block mode, before [IsFull], before the second check of
    [closing], before counting the wait; before the last [IsFull], before
    [Push], before the signal; done, or panicked. *)
Inductive submit_pc :=
| SCheck
| SWait (i : nat)
| SStall (i : nat)
| SBlocked (i : nat)
| SFull
| SPush
| SSignal
| SDone
| SPanicked.

(** Where a drain is, in its [j]-th round: at [IsEmpty], at [Pop], processing an
    event. *)
Inductive drain_pc := DEmpty (j : Z) | DPop (j : Z) | DProcess (j : Z) (e : nat).

(** Where the background loop is: at its [i]-th receive from [signalChan],
    draining, or stopped. *)
Inductive loop_pc := LRecv (i : Z) | LDrain (i : Z) (d : drain_pc) | LStopped.

(** Where [Shutdown] is: not called, [closing] set, channels closed and waiting,
    draining, or finished. *)
Inductive shutdown_pc := NotCalled | Closing | Closed | ShutDrain (d : drain_pc) | Finished.

(** The shared state and the position of each goroutine; [timed_out]: whether
    [waitForStop] gave up. *)
Record sys := mkSys {
  capacity : nat;
  blocking : bool;
  ring : list nat;
  sub : gmap nat submit_pc;
  loop : loop_pc;
  shutdown : shutdown_pc;
  timed_out : bool;
  signal_pending : bool;
  processed : list nat;
  dropped : list nat;
  lost : list nat;
  blocked : nat;
}.

Definition set_sub (e : nat) (pc : submit_pc) (s : sys) : sys :=
  mkSys (capacity s) (blocking s) (ring s) (<[e := pc]> (sub s)) (loop s) (shutdown s) (timed_out s)
    (signal_pending s) (processed s) (dropped s) (lost s) (blocked s).
Definition set_loop (l : loop_pc) (s : sys) : sys :=
  mkSys (capacity s) (blocking s) (ring s) (sub s) l (shutdown s) (timed_out s)
    (signal_pending s) (processed s) (dropped s) (lost s) (blocked s).
Definition set_shutdown (p : shutdown_pc) (s : sys) : sys :=
  mkSys (capacity s) (blocking s) (ring s) (sub s) (loop s) p (timed_out s)
    (signal_pending s) (processed s) (dropped s) (lost s) (blocked s).
Definition set_timed_out (s : sys) : sys :=
  mkSys (capacity s) (blocking s) (ring s) (sub s) (loop s) (shutdown s) true
    (signal_pending s) (processed s) (dropped s) (lost s) (blocked s).
Definition set_ring (r : list nat) (s : sys) : sys :=
  mkSys (capacity s) (blocking s) r (sub s) (loop s) (shutdown s) (timed_out s)
    (signal_pending s) (processed s) (dropped s) (lost s) (blocked s).
Definition set_pending (b : bool) (s : sys) : sys :=
  mkSys (capacity s) (blocking s) (ring s) (sub s) (loop s) (shutdown s) (timed_out s)
    b (processed s) (dropped s) (lost s) (blocked s).
Definition add_processed (e : nat) (s : sys) : sys :=
  mkSys (capacity s) (blocking s) (ring s) (sub s) (loop s) (shutdown s) (timed_out s)
    (signal_pending s) (processed s ++ [e]) (dropped s) (lost s) (blocked s).
Definition add_dropped (e : nat) (s : sys) : sys :=
  mkSys (capacity s) (blocking s) (ring s) (sub s) (loop s) (shutdown s) (timed_out s)
    (signal_pending s) (processed s) (e :: dropped s) (lost s) (blocked s).
Definition add_lost (e : nat) (s : sys) : sys :=
  mkSys (capacity s) (blocking s) (ring s) (sub s) (loop s) (shutdown s) (timed_out s)
    (signal_pending s) (processed s) (dropped s) (e :: lost s) (blocked s).
Definition add_blocked (s : sys) : sys :=
  mkSys (capacity s) (blocking s) (ring s) (sub s) (loop s) (shutdown s) (timed_out s)
    (signal_pending s) (processed s) (dropped s) (lost s) (S (blocked s)).

Definition is_full (s : sys) : bool := (length (ring s) =? capacity s)%nat.

(** [closing] is set. *)
Definition closing (s : sys) : bool := match shutdown s with NotCalled => false | _ => true end.

(** [signalChan] is closed. *)
Definition chan_shut (s : sys) : bool :=
  match shutdown s with NotCalled | Closing => false | _ => true end.

Definition cap_ok (s : sys) : bool := Z.of_nat (capacity s) <=? maxDrainEvents.

(** ** Steps *)

(** The step of the call for event [e] at [pc]: the state it leaves and where it
    goes. *)
Definition submit_step (e : nat) (pc : submit_pc) (s : sys) : option sys :=
  match pc with
  | SCheck =>
      Some (if closing s then set_sub e SDone (add_dropped e s)
            else set_sub e (if blocking s then SWait 0 else SFull) s)
  | SWait i =>
      Some (if (maxBlockAttempts <=? i)%nat then set_sub e SFull s
            else set_sub e (if is_full s then SStall i else SFull) s)
  | SStall i =>
      Some (if closing s then set_sub e SDone (add_dropped e s) else set_sub e (SBlocked i) s)
  | SBlocked i => Some (set_sub e (SWait (S i)) (add_blocked s))
  | SFull =>
      Some (if is_full s then set_sub e SDone (add_dropped e s) else set_sub e SPush s)
  | SPush =>
      Some (if is_full s then set_sub e SDone (add_lost e s)
            else set_sub e SSignal (set_ring (ring s ++ [e]) s))
  | SSignal =>
      Some (if chan_shut s then set_sub e SPanicked s else set_sub e SDone (set_pending true s))
  | SDone | SPanicked => None
  end.

(** A step of a drain: the state it leaves, and where it goes or [None] at its
    end.  A [Pop] fails when another drain was faster. *)
Definition drain_step (d : drain_pc) (s : sys) : sys * option drain_pc :=
  match d with
  | DEmpty j =>
      if maxDrainEvents <=? j then (s, None)
      else match ring s with [] => (s, None) | _ => (s, Some (DPop j)) end
  | DPop j =>
      match ring s with
      | [] => (s, None)
      | e :: r => (set_ring r s, Some (DProcess j e))
      end
  | DProcess j e => (add_processed e s, Some (DEmpty (j + 1)))
  end.

(** The background loop; it waits while there is no signal and the channel is
    open.  At its bound it stops (with strict assertions it panics). *)
Definition loop_step (s : sys) : option sys :=
  match loop s with
  | LRecv i =>
      if maxSignalBatches <=? i then Some (set_loop LStopped s)
      else if signal_pending s then
        Some (set_loop (if cap_ok s then LDrain i (DEmpty 0) else LStopped) (set_pending false s))
      else if chan_shut s then Some (set_loop LStopped s)
      else None
  | LDrain i d =>
      let '(s', d') := drain_step d s in
      Some (set_loop (match d' with Some d' => LDrain i d' | None => LRecv (i + 1) end) s')
  | LStopped => None
  end.

(** What follows the wait of [Shutdown]. *)
Definition shutdown_drain (s : sys) : shutdown_pc := if cap_ok s then ShutDrain (DEmpty 0) else Finished.

Inductive actor := Sub (e : nat) | Loop | Shut.

#[global] Instance actor_eq_dec : EqDecision actor.
Proof. solve_decision. Defined.

Inductive step : actor → sys → sys → Prop :=
| step_call e s : sub s !! e = None → step (Sub e) s (set_sub e SCheck s)
| step_submit e pc s s' : sub s !! e = Some pc → submit_step e pc s = Some s' → step (Sub e) s s'
| step_loop s s' : loop_step s = Some s' → step Loop s s'
| step_set_closing s : shutdown s = NotCalled → step Shut s (set_shutdown Closing s)
| step_close s : shutdown s = Closing → step Shut s (set_shutdown Closed s)
| step_stopped s : shutdown s = Closed → loop s = LStopped → step Shut s (set_shutdown (shutdown_drain s) s)
| step_timeout s : shutdown s = Closed →
    step Shut s (set_shutdown (shutdown_drain s) (set_timed_out s))
| step_shut_drain d s s' d' : shutdown s = ShutDrain d → drain_step d s = (s', d') →
    step Shut s (set_shutdown (match d' with Some d' => ShutDrain d' | None => Finished end) s').

Definition any_step (s s' : sys) : Prop := ∃ a, step a s s'.

Definition init (cap : nat) (block : bool) : sys :=
  mkSys cap block [] ∅ (LRecv 0) NotCalled false false [] [] [] 0.

Definition reachable (cap : nat) (block : bool) (s : sys) : Prop := rtc any_step (init cap block) s.

(** An invariant of the steps holds in every reachable state. *)
Lemma reachable_ind (P : sys → Prop) cap block s :
  P (init cap block) → (∀ a s s', P s → step a s s' → P s') → reachable cap block s → P s.
Proof.
  intros H0 Hs Hr. unfold reachable in Hr. remember (init cap block) as s0 eqn:E. clear E.
  induction Hr as [|s1 s2 s3 [a Ha] _ IH]; eauto.
Qed.

(** ** Where each event is *)

Definition in_hand (d : drain_pc) : list nat := match d with DProcess _ e => [e] | _ => [] end.

Definition loop_hand (s : sys) : list nat := match loop s with LDrain _ d => in_hand d | _ => [] end.
Definition shut_hand (s : sys) : list nat := match shutdown s with ShutDrain d => in_hand d | _ => [] end.

(** The places an event that has left its [Submit] checks can be in. *)
Definition places (s : sys) : list nat :=
  ring s ++ loop_hand s ++ shut_hand s ++ processed s ++ dropped s ++ lost s.

(** A call that is still before its push. *)
Definition waiting (pc : submit_pc) : bool :=
  match pc with SSignal | SDone | SPanicked => false | _ => true end.

Record inv (s : sys) : Prop := {
  inv_nodup : NoDup (places s);
  inv_sub : ∀ e, e ∈ places s ↔ ∃ pc, sub s !! e = Some pc ∧ waiting pc = false;
  inv_cap : (length (ring s) ≤ capacity s)%nat;
}.

Lemma is_full_spec s : reflect (length (ring s) = capacity s) (is_full s).
Proof. apply Nat.eqb_spec. Qed.

(** A step of a call moves only its own event, to a place when it leaves the
    checks. *)
Lemma submit_step_places e pc s s' : submit_step e pc s = Some s' →
  capacity s' = capacity s ∧ loop s' = loop s ∧ shutdown s' = shutdown s ∧ timed_out s' = timed_out s ∧
  ((length (ring s) ≤ capacity s → length (ring s') ≤ capacity s')%nat) ∧
  ∃ pc', sub s' = <[e := pc']> (sub s) ∧ (waiting pc = false → waiting pc' = false) ∧
    if waiting pc && negb (waiting pc') then places s' ≡ₚ e :: places s else places s' = places s.
Proof.
  intros E. destruct pc; cbn [submit_step] in E; simplify_eq;
    repeat match goal with |- context [if ?b then _ else _] => destruct b eqn:? end;
    (split; [done|]); (split; [done|]); (split; [done|]); (split; [done|]); split; try done;
    try (eexists; split; [reflexivity|]; split; [done|]; unfold places; simpl; try done; solve_Permutation).
  cbn. rewrite length_app. cbn. destruct (is_full_spec s); [done|]. lia.
Qed.

Definition hand_of (d : option drain_pc) : list nat := default [] (in_hand <$> d).

(** A step of a drain moves the oldest event from the ring to its hand, and from
    there to the processed ones. *)
Lemma drain_step_places d s s' d' : drain_step d s = (s', d') →
  capacity s' = capacity s ∧ sub s' = sub s ∧ loop s' = loop s ∧ shutdown s' = shutdown s ∧
  timed_out s' = timed_out s ∧ dropped s' = dropped s ∧ lost s' = lost s ∧
  signal_pending s' = signal_pending s ∧ (length (ring s') ≤ length (ring s))%nat ∧
  processed s' ++ hand_of d' ++ ring s' = processed s ++ in_hand d ++ ring s.
Proof.
  destruct d as [j|j|j e]; cbn [drain_step].
  - destruct (maxDrainEvents <=? j); [by intros [= <- <-]|]. destruct (ring s) eqn:E; intros [= <- <-]; by rewrite ?E.
  - destruct (ring s) as [|e r] eqn:E; intros [= <- <-]; cbn; rewrite ?E; split_and!; try done; lia.
  - intros [= <- <-]. cbn. split_and!; try done. by rewrite <- app_assoc.
Qed.

Lemma places_order s :
  places s ≡ₚ (processed s ++ loop_hand s ++ ring s) ++ shut_hand s ++ dropped s ++ lost s.
Proof. unfold places. solve_Permutation. Qed.

Lemma places_order_shut s :
  places s ≡ₚ (processed s ++ shut_hand s ++ ring s) ++ loop_hand s ++ dropped s ++ lost s.
Proof. unfold places. solve_Permutation. Qed.

Lemma loop_hand_drain s i d : loop s = LDrain i d → loop_hand s = in_hand d.
Proof. unfold loop_hand. by intros ->. Qed.

Lemma shut_hand_drain s d : shutdown s = ShutDrain d → shut_hand s = in_hand d.
Proof. unfold shut_hand. by intros ->. Qed.

Lemma loop_step_places s s' : loop_step s = Some s' →
  places s' ≡ₚ places s ∧ sub s' = sub s ∧ capacity s' = capacity s ∧ shutdown s' = shutdown s ∧
  timed_out s' = timed_out s ∧ (length (ring s') ≤ length (ring s))%nat ∧
  processed s' ++ loop_hand s' ++ ring s' = processed s ++ loop_hand s ++ ring s.
Proof.
  unfold loop_step. destruct (loop s) as [i|i d|] eqn:El; [| |done].
  - assert (loop_hand s = []) as Eh by (unfold loop_hand; by rewrite El).
    intros E. rewrite !places_order, Eh. repeat case_match; simplify_eq; try done.
  - destruct (drain_step d s) as [s1 d'] eqn:Ed. intros [= <-].
    apply drain_step_places in Ed as (Ec & Es & _ & Esh & Et & Edr & Elo & _ & Hl & Eo).
    set (s2 := set_loop _ s1).
    assert (processed s2 ++ loop_hand s2 ++ ring s2 = processed s ++ loop_hand s ++ ring s) as Eo'.
    { rewrite (loop_hand_drain _ _ _ El), <- Eo. unfold s2. by destruct d'. }
    split; [|done]. rewrite !places_order, Eo'. unfold shut_hand, s2. cbn. by rewrite Esh, Edr, Elo.
Qed.

Lemma shut_drain_places d s s' d' : shutdown s = ShutDrain d → drain_step d s = (s', d') →
  let s2 := set_shutdown (match d' with Some d' => ShutDrain d' | None => Finished end) s' in
  places s2 ≡ₚ places s ∧ processed s2 ++ shut_hand s2 ++ ring s2 = processed s ++ shut_hand s ++ ring s.
Proof.
  intros El Ed s2. apply drain_step_places in Ed as (Ec & Es & Elp & _ & Et & Edr & Elo & _ & Hl & Eo).
  assert (processed s2 ++ shut_hand s2 ++ ring s2 = processed s ++ shut_hand s ++ ring s) as Eo'.
  { rewrite (shut_hand_drain _ _ El), <- Eo. unfold s2. by destruct d'. }
  split; [|done]. rewrite !places_order_shut, Eo'. unfold loop_hand, s2. cbn. by rewrite Elp, Edr, Elo.
Qed.

Lemma shutdown_drain_hand s s' : shutdown s' = shutdown_drain s → shut_hand s' = [].
Proof. unfold shut_hand, shutdown_drain. intros ->. by destruct (cap_ok s). Qed.

(** Every step: a call is entered, a call moves its own event, or nothing moves
    but along the path from the ring to the processed events. *)
Lemma step_places a s s' : step a s s' →
  capacity s' = capacity s ∧ ((length (ring s) ≤ capacity s → length (ring s') ≤ capacity s')%nat) ∧
  ((places s' ≡ₚ places s ∧ sub s' = sub s) ∨
   ∃ e pc', a = Sub e ∧ sub s' = <[e := pc']> (sub s) ∧
     ((sub s !! e = None ∧ waiting pc' = true ∧ places s' = places s) ∨
      ∃ pc, sub s !! e = Some pc ∧ (waiting pc = false → waiting pc' = false) ∧
        if waiting pc && negb (waiting pc') then places s' ≡ₚ e :: places s else places s' = places s)).
Proof.
  assert (∀ s p, capacity (set_shutdown p s) = capacity s ∧ ring (set_shutdown p s) = ring s) as Hset by done.
  destruct 1 as [e s He|e pc s s' He Es|s s' El|s Eh|s Eh|s Eh El|s Eh|d s s' d' Eh Ed].
  - split; [done|]. split; [done|]. right. eexists e, SCheck. split; [done|]. split; [done|]. by left.
  - apply submit_step_places in Es as (Ec & _ & _ & _ & Hl & pc' & Es & Hw & Hp).
    split; [done|]. split; [done|]. right. exists e, pc'. split; [done|]. split; [done|]. right. by exists pc.
  - apply loop_step_places in El as (Hp & Es & Ec & _ & _ & Hl & _). split; [done|]. split; [lia|]. by left.
  - split; [done|]. split; [done|]. left. unfold places, shut_hand. cbn. by rewrite Eh.
  - split; [done|]. split; [done|]. left. unfold places, shut_hand. cbn. by rewrite Eh.
  - split; [done|]. split; [done|]. left. unfold places. rewrite (shutdown_drain_hand s) by done.
    unfold shut_hand. by rewrite Eh.
  - split; [done|]. split; [done|]. left. unfold places. rewrite (shutdown_drain_hand s) by done.
    unfold shut_hand. by rewrite Eh.
  - pose proof (shut_drain_places d s s' d' Eh Ed) as [Hp _]. cbv zeta in Hp.
    apply drain_step_places in Ed as (Ec & Es & _ & _ & _ & _ & _ & _ & Hl & _). cbn.
    split; [done|]. split; [cbn; lia|]. left. by split.
Qed.

Lemma inv_init cap block : inv (init cap block).
Proof.
  split; simpl; [constructor| |lia]. intros e. split; [set_solver|]. intros (pc & Hl & _).
  by rewrite lookup_empty in Hl.
Qed.

Lemma inv_step a s s' : inv s → step a s s' → inv s'.
Proof.
  intros [Hnd Hs Hc] Hstep. destruct (step_places a s s' Hstep) as (_ & Hl & Hcase).
  destruct Hcase as [[Hp Es]|(e & pc' & _ & Es & Hcase)].
  { split; [by rewrite Hp|intros e; by rewrite Hp, Es|auto]. }
  assert ((waiting pc' = true ∧ places s' = places s ∧ e ∉ places s) ∨
          (waiting pc' = false ∧ places s' ≡ₚ e :: places s ∧ e ∉ places s) ∨
          (waiting pc' = false ∧ places s' = places s ∧ e ∈ places s)) as Hk.
  { destruct Hcase as [(He & Hw & Hp)|(pc & He & Hmono & Hp)].
    - left. split_and!; try done. intros (pc & Hpc & _)%Hs. congruence.
    - assert (e ∈ places s ↔ waiting pc = false) as Hin by (rewrite Hs, He; naive_solver).
      destruct (waiting pc) eqn:Hw, (waiting pc') eqn:Hw'; cbn in Hp;
        [left|right; left|naive_solver|right; right]; split_and!; try done; rewrite ?Hin; naive_solver. }
  assert (∀ x, e ≠ x → (∃ pc, sub s' !! x = Some pc ∧ waiting pc = false) ↔ x ∈ places s) as Hne
    by (intros x Hx; by rewrite Es, lookup_insert_ne, Hs).
  assert ((∃ pc, sub s' !! e = Some pc ∧ waiting pc = false) ↔ waiting pc' = false) as Heq
    by (rewrite Es, lookup_insert_eq; naive_solver).
  split; [| |auto].
  - destruct Hk as [(_ & -> & _)|[(_ & -> & Hni)|(_ & -> & _)]]; [exact Hnd|by apply NoDup_cons|exact Hnd].
  - intros x. destruct (decide (e = x)) as [<-|Hx].
    + rewrite Heq. destruct Hk as [(-> & -> & ?)|[(-> & -> & ?)|(-> & -> & ?)]]; rewrite ?elem_of_cons; [done|by split; [|left]|done].
    + rewrite (Hne x Hx). destruct Hk as [(_ & -> & _)|[(_ & -> & _)|(_ & -> & _)]];
        rewrite ?elem_of_cons; [done|by split; [intros [->|?]|right]|done].
Qed.

Lemma inv_reachable cap block s : reachable cap block s → inv s.
Proof. apply reachable_ind; [apply inv_init|apply inv_step]. Qed.

Lemma reachable_capacity cap block s : reachable cap block s → capacity s = cap ∧ blocking s = block.
Proof.
  apply (reachable_ind (λ s, capacity s = cap ∧ blocking s = block)); [done|]. clear s.
  intros a s s' [<- <-] Hstep. destruct Hstep as [| e pc s s' _ Es|s s' El| | | | |d s s' d' _ Ed]; try done.
  - destruct pc; cbn [submit_step] in Es; simplify_eq; repeat case_match; done.
  - unfold loop_step in El. destruct (loop s) as [i|i d|]; [|destruct (drain_step d s) as [s1 d'] eqn:Ed|done].
    + repeat case_match; by simplify_eq.
    + simplify_eq. destruct d; cbn [drain_step] in Ed; repeat case_match; by simplify_eq.
  - destruct d; cbn [drain_step] in Ed; repeat case_match; by simplify_eq.
Qed.

(** ** No lost wake-up *)

(** A signal is pending, or a call is about to send one. *)
Definition signalled (s : sys) : Prop :=
  signal_pending s = true ∨ ∃ e, sub s !! e = Some SSignal ∨ sub s !! e = Some SPanicked.

(** The rounds a drain has begun since it was signalled. *)
Definition rounds (d : drain_pc) : Z :=
  match d with DEmpty j | DPop j => j | DProcess j _ => j + 1 end.

(** The events in the ring that no signal announces are the ones that were there
    when the loop received its last signal, and it has yet to pop them. *)
Definition announced (s : sys) : Prop :=
  signalled s ∨
  match loop s with
  | LRecv _ => ring s = []
  | LDrain _ d => 0 ≤ rounds d ∧ Z.of_nat (length (ring s)) + rounds d ≤ Z.of_nat (capacity s)
  | LStopped => True
  end.

(** A call leaves the others signalled, and itself once it has pushed. *)
Lemma signalled_submit e pc s s' : sub s !! e = Some pc → submit_step e pc s = Some s' →
  (signalled s → signalled s') ∧ (ring s' = ring s ∨ signalled s').
Proof.
  intros He E.
  assert (∀ pc' s1, sub s1 = sub s → signal_pending s1 = signal_pending s → pc ≠ SSignal → pc ≠ SPanicked →
    signalled s → signalled (set_sub e pc' s1)) as Hother.
  { intros pc' s1 E1 E2 H1 H2 [Hp|(x & Hx)]; [left; cbn; congruence|]. right. exists x. cbn.
    rewrite lookup_insert_ne by (intros <-; naive_solver congruence). by rewrite E1. }
  assert (∀ s1, signalled (set_sub e SSignal s1)) as Hsig
    by (intros s1; right; exists e; left; apply lookup_insert_eq).
  destruct pc; cbn [submit_step] in E; simplify_eq; repeat case_match; (split; [|try (by left)]);
    try (intros Hs; apply Hother; done); auto.
  - intros _. right. exists e. right. apply lookup_insert_eq.
  - intros _. by left.
Qed.

Lemma announced_step a s s' : Z.of_nat (capacity s) ≤ maxDrainEvents → (length (ring s) ≤ capacity s)%nat →
  announced s → step a s s' → announced s'.
Proof.
  intros Hcap Hlen Ha Hstep. destruct Hstep as [e s He|e pc s s' He Es|s s' El|s Eh|s Eh|s Eh El|s Eh|d s s' d' Eh Ed];
    try exact Ha.
  - destruct Ha as [[Hp|(x & Hx)]|Ha]; [by left; left| |by right]. left. right. exists x. cbn.
    rewrite lookup_insert_ne; [done|]. intros <-. naive_solver congruence.
  - destruct (signalled_submit e pc s s' He Es) as [Hs Hr].
    destruct Ha as [Ha|Ha]; [left; auto|]. destruct Hr as [Er|Hs']; [|by left]. right.
    apply submit_step_places in Es as (Ec & El & _). by rewrite El, Er, Ec.
  - unfold loop_step in El. destruct (loop s) as [i|i d|] eqn:Ell; [| |done].
    + assert (ring s = [] ∨ signalled s) as Hr by (destruct Ha as [?|Ha]; [by right|left; by rewrite Ell in Ha]).
      repeat case_match; simplify_eq; try (by right).
      right. cbn. unfold rounds. lia.
    + destruct (drain_step d s) as [s1 d'] eqn:Ed. simplify_eq.
      pose proof (drain_step_places d s s1 d' Ed) as (Ec & Es & _ & _ & _ & _ & _ & Ep & _).
      destruct Ha as [Ha|Ha].
      { left. unfold signalled in *. cbn. by rewrite Ep, Es. }
      rewrite Ell in Ha. right. cbn [loop set_loop ring capacity]. rewrite Ec.
      destruct d as [j|j|j e]; cbn [drain_step] in Ed; cbn [rounds] in Ha.
      * destruct (Z.leb_spec maxDrainEvents j); [|destruct (ring s) eqn:Er]; injection Ed as <- <-; cbn; [|by rewrite Er|].
        -- destruct (ring s); [done|]. cbn in Ha. lia.
        -- rewrite Er. exact Ha.
      * destruct (ring s) eqn:Er; injection Ed as <- <-; cbn; [by rewrite Er|]. cbn in Ha. lia.
      * injection Ed as <- <-. cbn. exact Ha.
  - pose proof (drain_step_places d s s' d' Ed) as (Ec & Es & El & _ & _ & _ & _ & Ep & Hl & _).
    destruct Ha as [Ha|Ha]; [left; unfold signalled in *; cbn; by rewrite Ep, Es|]. right. cbn.
    rewrite El, Ec. destruct (loop s); [|lia|done]. rewrite Ha in Hl. destruct (ring s'); [done|cbn in Hl; lia].
Qed.

(** The same for an invariant of rings that can be drained in one go. *)
Lemma reachable_bounded_ind (P : sys → Prop) cap block s :
  Z.of_nat cap ≤ maxDrainEvents → P (init cap block) →
  (∀ a s s', Z.of_nat (capacity s) ≤ maxDrainEvents → (length (ring s) ≤ capacity s)%nat →
    P s → step a s s' → P s') →
  reachable cap block s → P s.
Proof.
  intros Hcap H0 Hstep Hr. cut (inv s ∧ capacity s = cap ∧ P s); [tauto|]. revert Hr.
  apply (reachable_ind (λ s, inv s ∧ capacity s = cap ∧ P s)); [by split; [apply inv_init|]|].
  intros a s1 s2 (Hi & Hc & Ha) Hs. split; [by eapply inv_step|].
  destruct (step_places _ _ _ Hs) as (Ec & _). split; [congruence|].
  eapply Hstep; [|apply Hi|exact Ha|exact Hs]. by rewrite Hc.
Qed.

Lemma announced_reachable cap block s : Z.of_nat cap ≤ maxDrainEvents → reachable cap block s → announced s.
Proof. intros Hcap. apply reachable_bounded_ind; [done|by right|apply announced_step]. Qed.

(** ** Order *)

(** The order in which events entered the ring. *)
Definition pushed_order (s : sys) : list nat := processed s ++ loop_hand s ++ shut_hand s ++ ring s.

(** Unless [Shutdown] gave up waiting, the loop has stopped when its own drain
    begins. *)
Definition one_drain (s : sys) : Prop :=
  timed_out s = false →
  match shutdown s with ShutDrain _ | Finished => loop s = LStopped | _ => True end.

(** What each step does to the positions of the two drains. *)
Lemma step_positions a s s' : step a s s' →
  (timed_out s' = false → timed_out s = false) ∧
  match a with
  | Sub _ => loop s' = loop s ∧ shutdown s' = shutdown s
  | Loop => loop s ≠ LStopped ∧ shutdown s' = shutdown s
  | Shut => loop s' = loop s ∧ (timed_out s' = false → shutdown s = Closed → loop s = LStopped)
  end.
Proof.
  destruct 1 as [e s He|e pc s s' He Es|s s' El|s Eh|s Eh|s Eh El|s Eh|d s s' d' Eh Ed]; try done.
  - apply submit_step_places in Es as (_ & ? & ? & Et & _). by rewrite Et.
  - pose proof El as (_ & _ & _ & ? & Et & _)%loop_step_places. rewrite Et. split; [done|]. split; [|done].
    intros E. unfold loop_step in El. by rewrite E in El.
  - split; [done|]. split; [done|]. by rewrite Eh.
  - split; [done|]. split; [done|]. by rewrite Eh.
  - apply drain_step_places in Ed as (_ & _ & ? & _ & Et & _). cbn. rewrite Et. split; [done|].
    split; [done|]. by rewrite Eh.
Qed.

Lemma one_drain_step a s s' : one_drain s → step a s s' → one_drain s'.
Proof.
  intros Ho Hs Ht. pose proof (step_positions _ _ _ Hs) as [Ht' Hp]. specialize (Ho (Ht' Ht)).
  destruct a as [e| |].
  - destruct Hp as [-> ->]. exact Ho.
  - destruct Hp as [Hl ->]. destruct (shutdown s); done.
  - destruct Hp as [-> Hc]. inversion Hs as [| | |? Eh|? Eh|? Eh El|? Eh|d ? ? d' Eh Ed]; subst; cbn; try done.
    + by destruct (shutdown_drain s).
    + rewrite Eh in Ho. destruct d'; exact Ho.
Qed.

Lemma step_order a s s' : one_drain s → timed_out s' = false → step a s s' →
  pushed_order s `prefix_of` pushed_order s'.
Proof.
  intros Ho Ht Hs. pose proof (step_positions _ _ _ Hs) as [Ht' Hp]. specialize (Ho (Ht' Ht)).
  destruct Hs as [e s He|e pc s s' He Es|s s' El|s Eh|s Eh|s Eh El|s Eh|d s s' d' Eh Ed]; try done.
  - destruct Hp as [El Eh]. unfold pushed_order, loop_hand, shut_hand. rewrite El, Eh.
    destruct pc; cbn [submit_step] in Es; simplify_eq; repeat case_match; try done; cbn;
      exists [e]; by rewrite !(assoc_L (++)).
  - destruct Hp as [Hl Eh]. assert (shut_hand s = []) as Es
      by (unfold shut_hand; destruct (shutdown s); done).
    apply loop_step_places in El as (_ & _ & _ & _ & _ & _ & Eo).
    unfold pushed_order. assert (shut_hand s' = []) as -> by (unfold shut_hand in *; by rewrite Eh).
    rewrite Es. cbn. by rewrite Eo.
  - unfold pushed_order, shut_hand. cbn. by rewrite Eh.
  - unfold pushed_order, shut_hand. cbn. by rewrite Eh.
  - unfold pushed_order. rewrite (shutdown_drain_hand s (set_shutdown _ _)) by done.
    unfold shut_hand. by rewrite Eh.
  - pose proof (shut_drain_places d s s' d' Eh Ed) as [_ Eo]. cbv zeta in Eo. set (s2 := set_shutdown _ s') in *.
    destruct Hp as [El _]. rewrite Eh in Ho. unfold pushed_order.
    assert (loop_hand s2 = [] ∧ loop_hand s = []) as [-> ->] by (unfold loop_hand; by rewrite El, Ho).
    rewrite !app_nil_l. by rewrite Eo.
Qed.

Lemma rtc_timed_out s s' : rtc any_step s s' → timed_out s' = false → timed_out s = false.
Proof. induction 1 as [|s1 s2 s3 [a Ha] _ IH]; [done|]. intros Ht. by apply (step_positions _ _ _ Ha), IH. Qed.

Lemma one_drain_reachable cap block s : reachable cap block s → one_drain s.
Proof. apply reachable_ind; [done|apply one_drain_step]. Qed.

(** ** Submit is wait-free *)

Definition ended (pc : submit_pc) : bool := match pc with SDone | SPanicked => true | _ => false end.

(** A call is in one of the attempts of the code. *)
Definition pc_ok (pc : submit_pc) : Prop :=
  match pc with
  | SWait i => (i ≤ maxBlockAttempts)%nat
  | SStall i | SBlocked i => (i < maxBlockAttempts)%nat
  | _ => True
  end.

(** The steps a call has left at most. *)
Definition steps_left (pc : submit_pc) : nat :=
  match pc with
  | SCheck => 3 * maxBlockAttempts + 5
  | SWait i => 3 * (maxBlockAttempts - i) + 4
  | SStall i => 3 * (maxBlockAttempts - i) + 3
  | SBlocked i => 3 * (maxBlockAttempts - i) + 2
  | SFull => 3
  | SPush => 2
  | SSignal => 1
  | SDone | SPanicked => 0
  end.

Lemma submit_step_left e pc s s' : pc_ok pc → submit_step e pc s = Some s' →
  ∃ pc', sub s' = <[e := pc']> (sub s) ∧ pc_ok pc' ∧ (steps_left pc' < steps_left pc)%nat.
Proof.
  intros Hok E. assert (0 < maxBlockAttempts)%nat as Hpos by (unfold maxBlockAttempts; lia).
  destruct pc; cbn [submit_step] in E; simplify_eq; repeat case_match; simplify_eq;
    (eexists; split; [reflexivity|]); cbn [pc_ok steps_left] in *; split; try done;
    repeat match goal with H : (_ <=? _)%nat = _ |- _ => apply Nat.leb_le in H || apply Nat.leb_gt in H end; lia.
Qed.

Definition calls_ok (s : sys) : Prop := ∀ e pc, sub s !! e = Some pc → pc_ok pc.

(** What a step means for one call: its own steps bring it nearer to its end,
    the steps of others leave it where it is. *)
Lemma step_left a s s' e pc : calls_ok s → step a s s' → sub s !! e = Some pc →
  ∃ pc', sub s' !! e = Some pc' ∧
    if decide (a = Sub e) then (steps_left pc' < steps_left pc)%nat else pc' = pc.
Proof.
  intros Hok Hs He. destruct (step_places _ _ _ Hs) as (_ & _ & [[_ Es]|(x & pc' & -> & Es & _)]).
  - exists pc. rewrite Es. split; [done|]. case_decide; [|done]. subst a.
    inversion Hs as [? ? Hn|? pc0 ? ? Hx E| | | | | |]; subst; [congruence|].
    simplify_eq. apply submit_step_left in E as (pc' & Es' & _ & Hl); [|by eapply Hok].
    assert (pc' = pc) as ->; [|lia].
    assert (sub s' !! e = Some pc') as Hpc by (rewrite Es'; apply lookup_insert_eq). congruence.
  - destruct (decide (x = e)) as [->|Hne].
    + inversion Hs as [? ? Hn|? pc0 ? ? Hx E| | | | | |]; subst; [congruence|]. simplify_eq.
      apply submit_step_left in E as (pc1 & Es' & _ & Hl); [|by eapply Hok].
      exists pc1. rewrite Es', lookup_insert_eq. by rewrite decide_True.
    + exists pc. rewrite Es, lookup_insert_ne by done. split; [done|]. rewrite decide_False; [done|congruence].
Qed.

Lemma calls_ok_step a s s' : calls_ok s → step a s s' → calls_ok s'.
Proof.
  intros Hok Hs. destruct (step_places _ _ _ Hs) as (_ & _ & [[_ Es]|(x & pc' & -> & Es & _)]).
  - intros e pc. rewrite Es. apply Hok.
  - intros e pc He. destruct (decide (x = e)) as [->|Hne].
    + inversion Hs as [? ? Hn|? pc0 ? ? Hx E| | | | | |]; subst.
      * cbn in He. rewrite lookup_insert_eq in He. by simplify_eq.
      * apply submit_step_left in E as (pc1 & Es' & Hpc & _); [|by eapply Hok].
        rewrite Es', lookup_insert_eq in He. by simplify_eq.
    + rewrite Es, lookup_insert_ne in He by done. by eapply Hok.
Qed.

Lemma calls_ok_reachable cap block s : reachable cap block s → calls_ok s.
Proof. apply reachable_ind; [intros e pc He; discriminate He|apply calls_ok_step]. Qed.

(** An execution with the goroutines that took its steps. *)
Inductive exec : list actor → sys → sys → Prop :=
| exec_nil s : exec [] s s
| exec_cons a l s1 s2 s3 : step a s1 s2 → exec l s2 s3 → exec (a :: l) s1 s3.

(** The number of steps a call took. *)
Definition own_steps (e : nat) (l : list actor) : nat := length (filter (λ a, a = Sub e) l).

Lemma exec_left l s s' e pc : calls_ok s → exec l s s' → sub s !! e = Some pc →
  ∃ pc', sub s' !! e = Some pc' ∧ (own_steps e l + steps_left pc' ≤ steps_left pc)%nat.
Proof.
  intros Hok Hex. revert pc. induction Hex as [s|a l s1 s2 s3 Hs _ IH]; intros pc He; [by exists pc|].
  destruct (step_left _ _ _ _ _ Hok Hs He) as (pc1 & He1 & Hl).
  destruct (IH (calls_ok_step _ _ _ Hok Hs) pc1 He1) as (pc2 & He2 & Hl2). exists pc2. split; [done|].
  unfold own_steps in *. rewrite filter_cons. case_decide; [cbn [length]; lia|]. subst pc1. lia.
Qed.

(** ** After a shutdown *)

(** A call has pushed an event and not returned. *)
Definition pushing (s : sys) : Prop := ∃ e, sub s !! e = Some SSignal ∨ sub s !! e = Some SPanicked.

(** The events in the ring during the drain of [Shutdown] were there at its
    beginning, unless a call is still pushing. *)
Definition shut_announced (s : sys) : Prop :=
  match shutdown s with
  | ShutDrain d =>
      pushing s ∨ 0 ≤ rounds d ∧ Z.of_nat (length (ring s)) + rounds d ≤ Z.of_nat (capacity s)
  | Finished => pushing s ∨ ring s = []
  | _ => True
  end.

(** Once the channel is closed, no call that pushed returns. *)
Lemma pushing_submit e pc s s' : chan_shut s = true → sub s !! e = Some pc → submit_step e pc s = Some s' →
  (pushing s → pushing s') ∧ (ring s' = ring s ∨ pushing s').
Proof.
  intros Hc He E.
  assert (∀ pc', pc ≠ SSignal → pc ≠ SPanicked → ∀ s1, sub s1 = <[e := pc']> (sub s) → pushing s → pushing s1) as Ho.
  { intros pc' H1 H2 s1 E1 (x & Hx). exists x. rewrite E1.
    rewrite lookup_insert_ne by (intros <-; naive_solver congruence). done. }
  assert (∀ pc' s1, pc' = SSignal ∨ pc' = SPanicked → sub s1 = <[e := pc']> (sub s) → pushing s1) as Hp.
  { intros pc' s1 Hpc E1. exists e. rewrite E1, lookup_insert_eq. naive_solver. }
  destruct pc; cbn [submit_step] in E; simplify_eq; repeat case_match; simplify_eq; (split; [|try (by left)]);
    try (by eapply Ho); try (intros _; eapply Hp; [|reflexivity]; auto); auto.
  right. eapply Hp; [|reflexivity]. auto.
Qed.

Lemma chan_shut_closed s : shutdown s = Closed ∨ (∃ d, shutdown s = ShutDrain d) ∨ shutdown s = Finished →
  chan_shut s = true.
Proof. unfold chan_shut. by intros [->|[[d ->]| ->]]. Qed.

Lemma shut_announced_step a s s' : Z.of_nat (capacity s) ≤ maxDrainEvents → (length (ring s) ≤ capacity s)%nat →
  shut_announced s → step a s s' → shut_announced s'.
Proof.
  intros Hcap Hlen Ha Hstep. destruct Hstep as [e s He|e pc s s' He Es|s s' El|s Eh|s Eh|s Eh El|s Eh|d s s' d' Eh Ed];
    try done.
  - assert (pushing s → pushing (set_sub e SCheck s)) as Hp.
    { intros (x & Hx). exists x. cbn. rewrite lookup_insert_ne; [done|]. intros <-. naive_solver congruence. }
    unfold shut_announced in *. cbn. destruct (shutdown s); naive_solver.
  - pose proof Es as (Ec & _ & Eh & _)%submit_step_places. unfold shut_announced in *. rewrite Eh, Ec.
    destruct (shutdown s) eqn:Esh; try done;
      (destruct (pushing_submit e pc s s') as [Hp [Hr|Hr]]; [apply chan_shut_closed; eauto|done|done| |by left]);
      rewrite Hr; tauto.
  - pose proof El as (_ & Es & Ec & Eh & _ & Hl & _)%loop_step_places. unfold shut_announced, pushing in *.
    rewrite Eh, Ec, Es. destruct (shutdown s); try done; (destruct Ha as [Ha|Ha]; [by left|right]); [lia|].
    rewrite Ha in Hl. destruct (ring s'); [done|cbn in Hl; lia].
  - unfold shut_announced, shutdown_drain. cbn. unfold cap_ok. rewrite (proj2 (Z.leb_le _ _) Hcap). cbn. lia.
  - unfold shut_announced, shutdown_drain. cbn. unfold cap_ok. rewrite (proj2 (Z.leb_le _ _) Hcap). cbn. lia.
  - pose proof (drain_step_places d s s' d' Ed) as (Ec & Es & _ & _ & _ & _ & _ & _ & _).
    unfold shut_announced, pushing in *. rewrite Eh in Ha. cbn [shutdown set_shutdown sub ring capacity].
    rewrite Es, Ec. destruct Ha as [Ha|Ha]; [destruct d'; by left|].
    destruct d as [j|j|j e]; cbn [drain_step rounds] in *.
    + destruct (Z.leb_spec maxDrainEvents j); [|destruct (ring s) eqn:Er]; injection Ed as <- <-; cbn; right.
      * destruct (ring s); [done|]. cbn in Ha. lia.
      * done.
      * by rewrite Er.
    + destruct (ring s) eqn:Er; injection Ed as <- <-; cbn; right; [done|]. cbn in Ha. lia.
    + injection Ed as <- <-. cbn. by right.
Qed.

Lemma shut_announced_reachable cap block s :
  Z.of_nat cap ≤ maxDrainEvents → reachable cap block s → shut_announced s.
Proof. intros Hcap. apply reachable_bounded_ind; [done|done|apply shut_announced_step]. Qed.

(** ** Theorems *)

(** C17: however submissions in either mode, the background loop and a shutdown
    interleave, every event whose [Submit] call is past its checks is in exactly
    one place: the ring, the hands of one of the two drains, the processed ones,
    the dropped and counted ones, or the ones lost uncounted by a failed [Push];
    no other event is anywhere, and the ring never exceeds its capacity. *)
Theorem submission_conserves cap block s :
  reachable cap block s →
  NoDup (places s) ∧ (length (ring s) ≤ capacity s)%nat ∧
  ∀ e, e ∈ places s ↔ ∃ pc, sub s !! e = Some pc ∧ waiting pc = false.
Proof. intros [? ? ?]%inv_reachable. done. Qed.

(** C28: events are processed in the order they entered the ring: as long as
    [Shutdown] does not give up waiting for the background loop, along any
    execution the sequence of processed, in-hand and queued events only grows
    at its end. *)
Theorem submission_fifo cap block s s' :
  reachable cap block s → rtc any_step s s' → timed_out s' = false →
  pushed_order s `prefix_of` pushed_order s'.
Proof.
  intros Hr Hs Ht. apply one_drain_reachable in Hr.
  induction Hs as [|s1 s2 s3 [a Ha] Hs IH]; [done|]. transitivity (pushed_order s2).
  - eapply step_order; [done|by eapply rtc_timed_out|done].
  - apply IH; [by eapply one_drain_step|done].
Qed.

(** C26: no wake-up is lost, although a drain stops after 2^20 events: when the
    capacity is at most that, in every reachable state where the background
    loop waits on the channel and the ring is not empty, a signal is pending, or
    the call that pushed has yet to send it (or has panicked, which ends the
    process). *)
Theorem submission_wakes cap block s i :
  Z.of_nat cap ≤ maxDrainEvents → reachable cap block s → loop s = LRecv i → ring s ≠ [] → signalled s.
Proof.
  intros Hcap Hr%announced_reachable El Hne; [|done]. destruct Hr as [Hr|Hr]; [done|].
  by rewrite El in Hr.
Qed.


(** C19: a shutdown that did not give up waiting accounts for every
    event.  When it has finished and all calls have returned, the ring and both
    drains are empty, and every submitted event was processed, or dropped and
    counted, or lost by a failed [Push]. *)
Theorem shutdown_accounts cap block s :
  Z.of_nat cap ≤ maxDrainEvents → reachable cap block s → shutdown s = Finished → timed_out s = false →
  (∀ e pc, sub s !! e = Some pc → pc = SDone) →
  ring s = [] ∧ loop_hand s = [] ∧
  ∀ e, is_Some (sub s !! e) ↔ e ∈ processed s ++ dropped s ++ lost s.
Proof.
  intros Hcap Hr Hf Ht Hd.
  pose proof (shut_announced_reachable _ _ _ Hcap Hr) as Ha. unfold shut_announced in Ha. rewrite Hf in Ha.
  assert (ring s = []) as Er.
  { destruct Ha as [(e & [He|He])|?]; [apply Hd in He; done..|done]. }
  pose proof (one_drain_reachable _ _ _ Hr Ht) as Hl. rewrite Hf in Hl.
  assert (loop_hand s = []) as Eh by (unfold loop_hand; by rewrite Hl).
  split; [done|]. split; [done|]. intros e. destruct (inv_reachable _ _ _ Hr) as [_ Hs _].
  assert (places s = processed s ++ dropped s ++ lost s) as Ep
    by (unfold places, shut_hand; by rewrite Er, Eh, Hf).
  rewrite <- Ep, Hs. split.
  - intros [pc Hpc]. exists pc. split; [done|]. by rewrite (Hd e pc Hpc).
  - intros (pc & Hpc & _). by exists pc.
Qed.

(** ** Executions *)

(** The step of a goroutine; [Shutdown] gives up waiting exactly when the loop
    has not stopped. *)
Definition next (a : actor) (s : sys) : option sys :=
  match a with
  | Sub e =>
      match sub s !! e with
      | None => Some (set_sub e SCheck s)
      | Some pc => submit_step e pc s
      end
  | Loop => loop_step s
  | Shut =>
      match shutdown s with
      | NotCalled => Some (set_shutdown Closing s)
      | Closing => Some (set_shutdown Closed s)
      | Closed =>
          Some (set_shutdown (shutdown_drain s) (match loop s with LStopped => s | _ => set_timed_out s end))
      | ShutDrain d =>
          let '(s', d') := drain_step d s in
          Some (set_shutdown (match d' with Some d' => ShutDrain d' | None => Finished end) s')
      | Finished => None
      end
  end.

Lemma next_step a s s' : next a s = Some s' → step a s s'.
Proof.
  destruct a as [e| |]; cbn [next].
  - destruct (sub s !! e) as [pc|] eqn:He; [by eapply step_submit|]. intros [= <-]. by constructor.
  - apply step_loop.
  - destruct (shutdown s) as [| | |d|] eqn:Eh; [..|done].
    + intros [= <-]. by apply step_set_closing.
    + intros [= <-]. by apply step_close.
    + destruct (loop s) eqn:El; intros [= <-]; [by apply step_timeout..|by apply step_stopped].
    + destruct (drain_step d s) as [s1 d'] eqn:Ed. intros [= <-]. by econstructor.
Qed.

(** The state after a schedule. *)
Fixpoint run (l : list actor) (s : sys) : option sys :=
  match l with
  | [] => Some s
  | a :: l' => next a s ≫= run l'
  end.

Lemma run_rtc l s s' : run l s = Some s' → rtc any_step s s'.
Proof.
  revert s. induction l as [|a l IH]; intros s; [intros [= <-]; apply rtc_refl|].
  intros (s1 & Hn%next_step & Hr)%bind_Some. eapply rtc_l; [by exists a|auto].
Qed.

(** The state a schedule leads to, if all its steps can be taken. *)
Definition after (l : list actor) (s : sys) : sys := default s (run l s).

Lemma after_rtc l s : is_Some (run l s) → rtc any_step s (after l s).
Proof. intros [s' E]. apply (run_rtc l). unfold after. by rewrite E. Qed.

(** The steps of a call that submits event [e] with room in the ring. *)
Definition submits (e : nat) : list actor := replicate 5 (Sub e).

Ltac schedule := apply after_rtc; vm_compute; eexists; reflexivity.

(** C35: two calls that both see room in a ring with one free slot: the second
    [Push] fails and its event is neither stored nor counted as dropped. *)
Theorem lost_event_reachable :
  ∃ s, reachable 1 false s ∧ lost s = [1%nat] ∧ ring s = [0%nat] ∧ dropped s = [] ∧ sub s !! 1%nat = Some SDone.
Proof.
  exists (after [Sub 0; Sub 1; Sub 0; Sub 1; Sub 0; Sub 1; Sub 0; Sub 1] (init 1 false)).
  split; [schedule|]. split_and!; vm_compute; reflexivity.
Qed.

(** C36: a shutdown between a call's [Push] and its signal makes the call
    send on a closed channel, which panics. *)
Theorem send_on_closed_reachable :
  ∃ s, reachable 1 false s ∧ sub s !! 0%nat = Some SPanicked ∧ ring s = [0%nat].
Proof.
  exists (after [Sub 0; Sub 0; Sub 0; Sub 0; Shut; Shut; Sub 0] (init 1 false)).
  split; [schedule|]. split; vm_compute; reflexivity.
Qed.

(** C37: when [Shutdown] gives up waiting for a slow background loop, the two
    drain the ring together: each can be processing an event at the same time,
    with one processor that has no lock, and the later event can be done
    first. *)
Theorem racing_drains_reachable :
  ∃ s s', reachable 2 false s ∧ loop_hand s = [0%nat] ∧ shut_hand s = [1%nat] ∧
    rtc any_step s s' ∧ processed s' = [1%nat; 0%nat].
Proof.
  set (s := after (submits 0 ++ submits 1 ++ replicate 3 Loop ++ replicate 5 Shut) (init 2 false)).
  exists s, (after [Shut; Loop] s). split; [schedule|].
  split; [vm_compute; reflexivity|]. split; [vm_compute; reflexivity|].
  split; [schedule|vm_compute; reflexivity].
Qed.

(** A run in which one event is queued while the loop waits. *)
Definition sample_sys : sys :=
  mkSys 1 false [0%nat] {[0%nat := SSignal]} (LRecv 0) NotCalled false false [] [] [] 0.

Lemma sample_sys_reachable : reachable 1 false sample_sys.
Proof. apply (run_rtc (replicate 4 (Sub 0))). vm_compute. reflexivity. Qed.

Lemma one_drainable : Z.of_nat 1 ≤ maxDrainEvents.
Proof. by apply Z.leb_le. Qed.

Lemma submission_conserves_witness : NoDup (places sample_sys) ∧ 0%nat ∈ places sample_sys.
Proof.
  destruct (submission_conserves 1 false sample_sys sample_sys_reachable) as (H1 & _ & H2).
  split; [exact H1|]. apply H2. exists SSignal. split; reflexivity.
Defined.

(** Event 1 has been taken from the ring; event 0 is submitted while it is
    processed. *)
Definition earlier_sys : sys := after (submits 1 ++ replicate 3 Loop) (init 2 false).
Definition later_sys : sys := after (submits 0 ++ [Loop]) earlier_sys.

Lemma submission_fifo_witness :
  pushed_order earlier_sys = [1%nat] ∧ pushed_order later_sys = [1%nat; 0%nat] ∧ processed later_sys = [1%nat] ∧
  pushed_order earlier_sys `prefix_of` pushed_order later_sys.
Proof.
  split; [vm_compute; reflexivity|]. split; [vm_compute; reflexivity|]. split; [vm_compute; reflexivity|].
  apply (submission_fifo 2 false earlier_sys later_sys); [schedule|schedule|vm_compute; reflexivity].
Defined.

Lemma submission_wakes_witness : signalled sample_sys.
Proof.
  apply (submission_wakes 1 false sample_sys 0 one_drainable sample_sys_reachable); [reflexivity|discriminate].
Defined.

(** A call in block mode that finds the ring full. *)
Definition stalled_sys : sys := after (replicate 6 (Sub 0) ++ replicate 3 (Sub 1)) (init 1 true).


(** A submission, its processing and a shutdown. *)
Definition finished_sys : sys :=
  mkSys 1 false [] {[0%nat := SDone]} LStopped Finished false false [0%nat] [] [] 0.

Lemma finished_sys_reachable : reachable 1 false finished_sys.
Proof.
  apply (run_rtc (submits 0 ++ replicate 5 Loop ++ [Shut; Shut; Loop; Shut; Shut])). vm_compute. reflexivity.
Qed.

Lemma shutdown_accounts_witness :
  ring finished_sys = [] ∧ ∀ e, is_Some (sub finished_sys !! e) ↔ e ∈ [0%nat].
Proof.
  destruct (shutdown_accounts 1 false finished_sys one_drainable finished_sys_reachable eq_refl eq_refl)
    as (H1 & _ & H2).
  - intros e pc He. cbn [finished_sys sub] in He. apply lookup_singleton_Some in He as [_ <-]. reflexivity.
  - split; [exact H1|exact H2].
Defined.
