(* ===== verification/SubmissionRefinement.v ===== *)
(** * The worker's calls are executions of the concurrent model

    [Worker] describes a call of [Submit] and a batch of [processEvents] as
    functions on the worker, [Submission] as steps that interleave.  Here every
    call and every batch of the first is simulated by steps of the second, so
    what is proved of all interleavings holds of the code's calls. *)
From S2P Require Import Submission Ring Prelude Assert Models Sha256 Crypto Repository Pool Chain Anchor Processor Genesis Worker.

Section Refinement.
Context `{AssertMode} `{TL : TimeLib} `{JL : JsonLib} `{Ed25519} `{Http} {St : Type} `{EventRepository St}.

(** The number of an event. *)
Context (f : event_ptr → nat).

Abbreviation W := (Worker St).

(** A worker and the state of the model that describes it; the counters of the
    worker wrap around. *)
Record models (w : W) (s : sys) : Prop := {
  mo_wf : wf (ringBuffer w);
  mo_ring : ring s = f <$> queue w;
  mo_cap : Z.of_nat (Submission.capacity s) = Ring.capacity (ringBuffer w);
  mo_mode : blocking s = (backpressureMode w =? BackpressureBlock);
  mo_closing : Submission.closing s = closing w;
  mo_shut : chan_shut s = chan_closed (signalChan w);
  mo_pending : signal_pending s = pending (signalChan w);
  mo_processed : processedEvents (metrics w) = u64 (Z.of_nat (length (processed s)));
  mo_dropped : droppedEvents (metrics w) = u64 (Z.of_nat (length (dropped s)));
  mo_blocked : blockedSubmits (metrics w) = u64 (Z.of_nat (blocked s));
}.

Lemma u64_succ n : u64 (u64 (Z.of_nat n) + 1) = u64 (Z.of_nat (S n)).
Proof. unfold u64. rewrite Z.add_mod_idemp_l by lia. f_equal. lia. Qed.

Lemma models_full w s : models w s → is_full s = IsFull (ringBuffer w).
Proof.
  intros []. unfold is_full, IsFull. rewrite mo_ring0, length_fmap. unfold queue. rewrite contents_length.
  destruct mo_wf0. destruct (Z.eqb_spec (Ring.count (ringBuffer w)) (Ring.capacity (ringBuffer w))).
  - apply Nat.eqb_eq. lia.
  - apply Nat.eqb_neq. lia.
Qed.

Lemma models_sub e pc w s : models w s → models w (set_sub e pc s).
Proof. by intros []. Qed.

Lemma models_loop l w s : models w s → models w (set_loop l s).
Proof. by intros []. Qed.

Lemma models_drop e w s : models w s →
  models (set_metrics (Worker.add_dropped (metrics w)) w) (Submission.add_dropped e s).
Proof. intros []. split; try done. cbn. by rewrite mo_dropped0, u64_succ. Qed.

Lemma models_block w s : models w s →
  models (set_metrics (Worker.add_blocked (metrics w)) w) (Submission.add_blocked s).
Proof. intros []. split; try done. cbn. by rewrite mo_blocked0, u64_succ. Qed.

(** ** Submit *)

Section Submit.
Context (e : Event).
Abbreviation id := (f (Some e)).

(** The call is at [pc] in the model, reached by steps. *)
Definition at_pc (s : sys) (w : W) (pc : submit_pc) : Prop :=
  ∃ s', rtc any_step s s' ∧ models w s' ∧ sub s' !! id = Some pc.

(** What other goroutines do while the call sleeps are steps of the model that
    leave the call where it is. *)
Definition simulated (others : nat → W → W) : Prop :=
  ∀ i w s pc, models w s → sub s !! id = Some pc →
    ∃ s', rtc any_step s s' ∧ models (others i w) s' ∧ sub s' !! id = Some pc.

Lemma at_pc_here s w pc : models w s → sub s !! id = Some pc → at_pc s w pc.
Proof. intros Hm Hs. by exists s. Qed.

(** One more step of the call. *)
Lemma at_pc_step s w pc w' pc' : at_pc s w pc →
  (∀ s1, models w s1 → ∃ s2, submit_step id pc s1 = Some (set_sub id pc' s2) ∧ models w' s2) →
  at_pc s w' pc'.
Proof.
  intros (s1 & Hr & Hm & Hs) Hstep. destruct (Hstep s1 Hm) as (s2 & E & Hm2).
  exists (set_sub id pc' s2). split; [|split; [by apply models_sub|apply lookup_insert_eq]].
  eapply rtc_r; [exact Hr|]. exists (Sub id). by eapply step_submit.
Qed.

Lemma drop_event_eq (w : W) :
  drop_event (Some e) w = (Ok tt, set_metrics (Worker.add_dropped (metrics w)) w).
Proof. done. Qed.

Lemma block_refines others n i s w : simulated others → (i + n = maxBlockAttempts)%nat →
  at_pc s w (SWait i) →
  ∃ r w', block_loop n i others (Some e) w = (Ok r, w') ∧
    at_pc s w' (match r with Some _ => SFull | None => SDone end).
Proof.
  intros Ho. revert i w. induction n as [|n IH]; intros i w Hn Hat.
  { exists (Some tt), w. split; [done|]. apply (at_pc_step _ _ _ _ _ Hat). intros s1 Hm. exists s1.
    cbn [submit_step]. rewrite (proj2 (Nat.leb_le _ _)) by lia. done. }
  cbn [block_loop]. unfold mbind at 1, M_bind at 1, get at 1.
  assert ((maxBlockAttempts <=? i)%nat = false) as Hi by (apply Nat.leb_gt; lia).
  destruct (IsFull (ringBuffer w)) eqn:Hf; cbn [negb].
  - assert (at_pc s w (SStall i)) as Hst.
    { apply (at_pc_step _ _ _ _ _ Hat). intros s1 Hm. exists s1. cbn [submit_step].
      by rewrite Hi, (models_full w s1 Hm), Hf. }
    destruct (closing w) eqn:Hc.
    + exists None. eexists. split; [done|]. apply (at_pc_step _ _ _ _ _ Hst). intros s1 Hm.
      exists (Submission.add_dropped id s1). cbn [submit_step]. rewrite (mo_closing _ _ Hm), Hc.
      split; [done|by apply models_drop].
    + set (w1 := set_metrics (Worker.add_blocked (metrics w)) w).
      assert (at_pc s w1 (SWait (S i))) as (s2 & Hr2 & Hm2 & Hs2).
      { eapply at_pc_step; [apply (at_pc_step _ _ (SStall i) w (SBlocked i) Hst)|].
        - intros s1 Hm. exists s1. cbn [submit_step]. by rewrite (mo_closing _ _ Hm), Hc.
        - intros s1 Hm. exists (Submission.add_blocked s1). split; [done|by apply models_block]. }
      destruct (Ho i w1 s2 _ Hm2 Hs2) as (s3 & Hr3 & Hm3 & Hs3).
      destruct (IH (S i) (others i w1)) as (r & w' & E & Hat'); [lia| |].
      { exists s3. split; [by etrans|done]. }
      exists r, w'. split; [|done]. unfold mbind, M_bind, bump, modify. exact E.
  - exists (Some tt), w. split; [done|]. apply (at_pc_step _ _ _ _ _ Hat). intros s1 Hm. exists s1.
    cbn [submit_step]. by rewrite Hi, (models_full w s1 Hm), Hf.
Qed.

(** The last test of the ring, in both modes. *)
Lemma full_refines s (w : W) : at_pc s w SFull →
  if IsFull (ringBuffer w) then at_pc s (set_metrics (Worker.add_dropped (metrics w)) w) SDone
  else at_pc s w SPush.
Proof.
  intros Hat. destruct (IsFull (ringBuffer w)) eqn:Hf.
  - apply (at_pc_step _ _ _ _ _ Hat). intros s1 Hm. exists (Submission.add_dropped id s1).
    cbn [submit_step]. rewrite (models_full w s1 Hm), Hf. split; [done|by apply models_drop].
  - apply (at_pc_step _ _ _ _ _ Hat). intros s1 Hm. exists s1. cbn [submit_step].
    by rewrite (models_full w s1 Hm), Hf.
Qed.

(** The push and the signal. *)
Definition final_pc (o : outcome unit) : submit_pc := if is_panic o then SPanicked else SDone.

Lemma push_refines s (w : W) : IsFull (ringBuffer w) = false → at_pc s w SPush →
  ∃ o w', try (on_ring (Push (Some e))) (λ r, match r with inr _ => mret tt | inl _ => notify end) w = (o, w') ∧
    at_pc s w' (final_pc o).
Proof.
  intros Hf Hat. pose proof Hat as (s0 & _ & Hm0 & _). pose proof (mo_wf _ _ Hm0) as Hwf.
  assert (Ring.count (ringBuffer w) ≠ Ring.capacity (ringBuffer w)) as Hne by (by apply Z.eqb_neq).
  unfold try, on_ring. rewrite Push_eq by done. unfold IsFull in Hf. rewrite Hf. cbn [fst snd].
  set (w1 := set_ring (pushed (ringBuffer w) (Some e)) w).
  assert (at_pc s w1 SSignal) as Hsig.
  { apply (at_pc_step _ _ _ _ _ Hat). intros s1 Hm. exists (Submission.set_ring (ring s1 ++ [id]) s1).
    cbn [submit_step]. rewrite (models_full w s1 Hm). unfold IsFull. rewrite Hf. split; [done|].
    destruct Hm. split; try done; cbn [w1 set_ring ringBuffer].
    - by apply pushed_wf.
    - unfold queue. cbn [w1 set_ring ringBuffer ring Submission.set_ring].
      rewrite contents_pushed, fmap_app by done. by rewrite mo_ring0. }
  unfold notify, mbind, M_bind, get. cbv zeta.
  destruct (chan_closed (signalChan w1)) eqn:Hc.
  - eexists _, w1. split; [done|]. apply (at_pc_step _ _ _ _ _ Hsig). intros s1 Hm. exists s1.
    cbn [submit_step]. rewrite (mo_shut _ _ Hm), Hc. done.
  - assert (∀ w2, w2 = set_signal (mkChan true false) w1 → at_pc s w2 SDone) as Hdone.
    { intros w2 ->. apply (at_pc_step _ _ _ _ _ Hsig). intros s1 Hm. exists (set_pending true s1).
      cbn [submit_step]. rewrite (mo_shut _ _ Hm), Hc. split; [done|]. destruct Hm. split; try done.
      rewrite Hc in mo_shut0. exact mo_shut0. }
    destruct (pending (signalChan w1)) eqn:Hp.
    + eexists _, w1. split; [done|]. apply Hdone. unfold w1 in *.
      destruct w as [? [? ?] ?]. cbn in *. by subst.
    + eexists _, _. split; [done|]. by apply Hdone.
Qed.

Lemma submit_refines others s (w : W) : simulated others → models w s → sub s !! id = None →
  ∃ o w', Submit others (Some e) w = (o, w') ∧ at_pc s w' (final_pc o).
Proof.
  intros Ho Hm Hs.
  assert (at_pc s w SCheck) as Hat.
  { exists (set_sub id SCheck s). split; [|split; [by apply models_sub|apply lookup_insert_eq]].
    apply rtc_once. exists (Sub id). by apply step_call. }
  unfold Submit, NotNil. rewrite bool_decide_eq_true_2 by done.
  unfold mbind at 1, M_bind at 1, lift. rewrite Check_true. unfold mbind at 1, M_bind at 1, get at 1.
  destruct (closing w) eqn:Hc.
  { eexists _, _. split; [apply drop_event_eq|]. apply (at_pc_step _ _ _ _ _ Hat). intros s1 Hm1.
    exists (Submission.add_dropped id s1). cbn [submit_step]. rewrite (mo_closing _ _ Hm1), Hc.
    split; [done|by apply models_drop]. }
  assert (at_pc s w (if backpressureMode w =? BackpressureBlock then SWait 0 else SFull)) as Hat1.
  { apply (at_pc_step _ _ _ _ _ Hat). intros s1 Hm1. exists s1. cbn [submit_step].
    by rewrite (mo_closing _ _ Hm1), Hc, (mo_mode _ _ Hm1). }
  unfold mbind at 1, M_bind at 1. destruct (backpressureMode w =? BackpressureBlock).
  - destruct (block_refines others maxBlockAttempts 0 s w Ho eq_refl Hat1) as ([u|] & w1 & E & Hat2).
    + unfold mbind at 1, M_bind at 1. rewrite E. unfold mbind at 1, M_bind at 1, get at 1.
      pose proof (full_refines s w1 Hat2) as Hat3. destruct (IsFull (ringBuffer w1)) eqn:Hf.
      * eexists _, _. split; [done|]. exact Hat3.
      * by apply push_refines.
    + unfold mbind at 1, M_bind at 1. rewrite E. eexists _, _. split; [done|]. exact Hat2.
  - pose proof (full_refines s w Hat1) as Hat3. destruct (IsFull (ringBuffer w)) eqn:Hf.
    + eexists _, _. split; [done|]. exact Hat3.
    + by apply push_refines.
Qed.

End Submit.

(** ** Batches *)

(** Two workers that differ in what the model does not see. *)
Definition same_shape (w w' : W) : Prop :=
  ringBuffer w' = ringBuffer w ∧ signalChan w' = signalChan w ∧ backpressureMode w' = backpressureMode w ∧
  closing w' = closing w.

Lemma process_logged_shape env ev (w : W) pl o w' pl' : process_logged env ev (w, pl) = (o, (w', pl')) →
  same_shape w w' ∧ metrics w' = metrics w.
Proof.
  unfold process_logged, process. destruct (processor w) as [tasks|]; [|by intros [= <- <- <-]].
  destruct (ProcessEvent _ _) as [o1 [[p1 ev1] pl1]].
  destruct o1; [by intros [= <- <- <-]| |by intros [= <- <- <-]]. destruct ev1; by intros [= <- <- <-].
Qed.

Lemma round_refines t ev (w : W) pl w' pl' s : models w s →
  drain_round t ev (w, pl) = (Ok tt, (w', pl')) → models w' (Submission.add_processed (f ev) s).
Proof.
  intros Hm E. unfold drain_round in E. apply M_bind_ok in E as (ev' & [w1 pl1] & E1 & E).
  apply process_logged_shape in E1 as [(Er & Es & Eb & Ec) Em].
  apply M_bind_ok in E as (u & [w2 pl2] & E2 & E). unfold on_worker in E2.
  destruct (recordLatency (tk_latency t) w1) as [o2 w2'] eqn:El. injection E2 as -> -> ->.
  apply recordLatency_frame in El as (m & -> & M1 & M2 & M3).
  apply M_bind_ok in E as (u2 & st & E3 & E). injection E3 as _ <-.
  assert (w' = set_metrics (Worker.add_processed m) w1) as ->.
  { destruct ev' as [e'|]; [unfold on_pool in E; by injection E|by injection E]. }
  destruct Hm. split; cbn; unfold queue in *; cbn; rewrite ?Er, ?Es, ?Eb, ?Ec; try done.
  - rewrite M1, Em, mo_processed0, length_app. cbn. rewrite Nat.add_1_r. apply u64_succ.
  - by rewrite M2, Em.
  - by rewrite M3, Em.
Qed.

Lemma loop_steps s s' : loop_step s = Some s' → rtc any_step s s'.
Proof. intros E. apply rtc_once. exists Loop. by constructor. Qed.

(** A drain step of the loop. *)
Lemma loop_drains s i d s' d' : loop s = LDrain i d → Submission.drain_step d s = (s', d') →
  rtc any_step s (set_loop (match d' with Some d' => LDrain i d' | None => LRecv (i + 1) end) s').
Proof. intros El Ed. apply loop_steps. unfold loop_step. by rewrite El, Ed. Qed.

Lemma models_pop (w : W) s : models w s → Ring.count (ringBuffer w) ≠ 0 →
  ∃ ev, on_ring Pop w = (Ok ev, set_ring (popped (ringBuffer w)) w) ∧
    ∃ r, ring s = f ev :: r ∧ models (set_ring (popped (ringBuffer w)) w) (Submission.set_ring r s).
Proof.
  intros Hm Hc. pose proof (mo_wf _ _ Hm) as Hwf. exists (slot None (ringBuffer w) 0).
  split. { unfold on_ring. rewrite (Pop_eq None) by done. apply Z.eqb_neq in Hc. by rewrite Hc. }
  destruct Hm. exists (f <$> contents None (popped (ringBuffer w))).
  unfold queue in mo_ring0. rewrite (contents_popped None) in mo_ring0 by done.
  split; [exact mo_ring0|]. split; try done; cbn; by apply popped_wf.
Qed.

Lemma drain_refines ticks n j i N (w : W) pl w' pl' s : (j + n = N)%nat → Z.of_nat N = maxDrainEvents →
  models w s → loop s = LDrain i (DEmpty (Z.of_nat j)) →
  drain_loop n j ticks (w, pl) = (Ok tt, (w', pl')) →
  ∃ s', rtc any_step s s' ∧ models w' s' ∧ loop s' = LRecv (i + 1).
Proof.
  intros Hn HN. revert j w pl s Hn. induction n as [|n IH]; intros j w pl s Hn Hm El E.
  { injection E as <- <-. eexists. split; [eapply (loop_drains _ _ _ s None El)|split; [by apply models_loop|done]].
    cbn [Submission.drain_step]. by rewrite (proj2 (Z.leb_le _ _)) by lia. }
  cbn [drain_loop] in E. unfold mbind at 1, M_bind at 1, get at 1 in E.
  assert ((maxDrainEvents <=? Z.of_nat j) = false) as Hj by (apply Z.leb_gt; lia).
  assert (Ring.count (ringBuffer w) = 0 ↔ ring s = []) as Hemp.
  { rewrite (mo_ring _ _ Hm). unfold queue. rewrite (contents_nil None) by apply (mo_wf _ _ Hm).
    split; [by intros ->|]. by destruct (contents _ _). }
  unfold IsEmpty in E. destruct (Z.eqb_spec (Ring.count (ringBuffer w)) 0) as [Hz|Hz].
  { injection E as <- <-. eexists. split; [eapply (loop_drains _ _ _ s None El)|split; [by apply models_loop|done]].
    cbn [Submission.drain_step]. by rewrite Hj, (proj1 Hemp Hz). }
  destruct (models_pop w s Hm Hz) as (ev & Ep & r & Er & Hm1).
  unfold try, on_worker at 1 in E. rewrite Ep in E. cbn [fst snd] in E.
  apply M_bind_ok in E as (u & [w2 pl2] & E2 & E). destruct u.
  apply (round_refines _ _ _ _ _ _ _ Hm1) in E2.
  set (s1 := set_loop (LDrain i (DPop (Z.of_nat j))) s).
  set (s2 := set_loop (LDrain i (DProcess (Z.of_nat j) (f ev))) (Submission.set_ring r s1)).
  set (s3 := set_loop (LDrain i (DEmpty (Z.of_nat (S j)))) (Submission.add_processed (f ev) s2)).
  assert (rtc any_step s s3) as Hr3.
  { transitivity s1; [|transitivity s2].
    - apply (loop_drains s i _ s (Some (DPop (Z.of_nat j))) El). cbn [Submission.drain_step]. by rewrite Hj, Er.
    - apply (loop_drains s1 i (DPop (Z.of_nat j)) (Submission.set_ring r s1)
               (Some (DProcess (Z.of_nat j) (f ev))) eq_refl).
      cbn [Submission.drain_step]. cbn [s1 set_loop ring]. by rewrite Er.
    - unfold s3. rewrite Nat2Z.inj_succ, <- Z.add_1_r.
      by apply (loop_drains s2 i (DProcess (Z.of_nat j) (f ev)) _ (Some (DEmpty (Z.of_nat j + 1))) eq_refl). }
  destruct (IH (S j) w2 pl2 s3) as (s' & Hr & Hm' & El'); [lia| |done|done|].
  - by destruct E2.
  - exists s'. split; [by etrans|done].
Qed.

Lemma processEvents_nil i (w : W) pl : (maxSignalBatches <=? i) = false → processEvents i [] (w, pl) = (Ok tt, (w, pl)).
Proof. intros Hi. cbn [processEvents]. by rewrite Hi. Qed.

Lemma batch_refines i ticks (w : W) pl w' pl' s :
  models w s → loop s = LRecv i → i + 1 < maxSignalBatches → pending (signalChan w) = true →
  Ring.capacity (ringBuffer w) ≤ maxDrainEvents →
  processEvents i [(true, ticks)] (w, pl) = (Ok tt, (w', pl')) →
  ∃ s', rtc any_step s s' ∧ models w' s' ∧ loop s' = LRecv (i + 1).
Proof.
  intros Hm El Hi Hp Hcap E. assert ((maxSignalBatches <=? i) = false) as Hi' by (apply Z.leb_gt; lia).
  destruct (processEvents_S i ticks [] w pl Hi') as (n & Hn & En). rewrite En in E. clear En.
  set (w1 := set_signal _ w) in *. unfold cap_check in E.
  rewrite (proj2 (Z.leb_le (Cap (ringBuffer w1)) _) Hcap), Check_true in E.
  apply M_bind_ok in E as (u & [w2 pl2] & E1 & E2). destruct u.
  rewrite processEvents_nil in E2 by (apply Z.leb_gt; lia). injection E2 as <- <-.
  set (s1 := set_loop (LDrain i (DEmpty 0)) (set_pending false s)).
  assert (rtc any_step s s1) as Hr.
  { apply loop_steps. unfold loop_step. rewrite El, Hi', (mo_pending _ _ Hm), Hp. unfold cap_ok.
    by rewrite (mo_cap _ _ Hm), (proj2 (Z.leb_le _ _) Hcap). }
  destruct (drain_refines ticks n 0 i n w1 pl w2 pl2 s1 eq_refl Hn) as (s' & Hr' & Hm' & El'); try done.
  - apply models_loop. destruct Hm. split; done.
  - exists s'. split; [by etrans|done].
Qed.

(** A started worker is described by the initial state. *)
Lemma models_init (w : W) : wf (ringBuffer w) → queue w = [] → closing w = false →
  signalChan w = mkChan false false → metrics w = zero_metrics →
  models w (init (Z.to_nat (Ring.capacity (ringBuffer w))) (backpressureMode w =? BackpressureBlock)).
Proof.
  intros Hwf Hq Hc Hs Hm. pose proof (wf_cap _ Hwf). split; cbn; rewrite ?Hq, ?Hc, ?Hs, ?Hm; try done. lia.
Qed.

(** C18: the worker's functions are executions of the concurrent model.
    From a worker and a state that describes it: a call of [Submit] with a new
    event, in either mode, with other goroutines acting by steps of the model
    while it sleeps, ends where the steps of the model take it, with the same
    ring, signal and counters, and panics exactly when the model's call does;
    and a batch of [processEvents] that returns is a sequence of steps of the
    loop from one receive to the next. *)
Theorem worker_refines_submission w s : models w s →
  (∀ e others, simulated e others → sub s !! f (Some e) = None →
    ∃ o w' s', Submit others (Some e) w = (o, w') ∧ rtc any_step s s' ∧ models w' s' ∧
      sub s' !! f (Some e) = Some (if is_panic o then SPanicked else SDone)) ∧
  (∀ i ticks pl w' pl', loop s = LRecv i → i + 1 < maxSignalBatches → pending (signalChan w) = true →
    Ring.capacity (ringBuffer w) ≤ maxDrainEvents →
    processEvents i [(true, ticks)] (w, pl) = (Ok tt, (w', pl')) →
    ∃ s', rtc any_step s s' ∧ models w' s' ∧ loop s' = LRecv (i + 1)).
Proof.
  intros Hm. split.
  - intros e others Ho Hs. destruct (submit_refines e others s w Ho Hm Hs) as (o & w' & E & s' & Hr & Hm' & Hs').
    by exists o, w', s'.
  - intros i ticks pl w' pl'. by apply batch_refines.
Qed.

End Refinement.
