(* ===== verification/Observer.v ===== *)
(** * internal/observer: the policy engine

    [internal/observer/engine.go]: the policy file's data, [MatchPattern],
    [CheckConditions] and [toFloat], and the engine that loads, reloads and
    watches the file.  Formatting a value with [%v], parsing a float and
    parsing YAML are parameters. *)
From S2P Require Import Prelude Assert Models.
(** ** Data *)

Record Rule := mkRule {
  rule_ID : string;
  MatchMethods : list string;
  rule_RiskLevel : string;
  rule_LogLevel : string;
  MatchConditions : list (gmap string string);
  Redact : list string;
}.

Record Config := mkConfig {
  Version : string;
  RetentionDays : Z;
  SigningEnabled : bool;
  cfg_LogLevel : string;
  Policies : list Rule;
}.

(** [fmt.Sprintf("%v", v)] and [strconv.ParseFloat(s, 64)]. *)
Class FmtLib := {
  sprint_v : value → string;
  ParseFloat : string → option spec_float;
}.

(** [yaml.Unmarshal] into a [Config]. *)
Class YamlLib := { yaml_Unmarshal : string → outcome Config }.

Record ObserverEngine := mkObserverEngine {
  config : Config;
  configPath : string;
  stop_closed : bool;
}.

Definition maxWatchTicks : Z := 2 ^ 30.
Definition obs_maxConditions : nat := 64.

(** [strings.TrimSuffix(s, "*")], [None] when the suffix is missing. *)
Fixpoint trim_star (s : string) : option string :=
  match s with
  | EmptyString => None
  | String a EmptyString => if Ascii.eqb a "*" then Some "" else None
  | String a s' => String a <$> trim_star s'
  end.

Section Observer.
Context `{AssertMode} `{FmtLib}.

(** [if err := assert.Check(c, m); err != nil { return false }]. *)
Definition check_or_false (c : bool) (msg : string) (k : outcome bool) : outcome bool :=
  match Check c msg with
  | Ok _ => k
  | Err _ => Ok false
  | Panic e => Panic e
  end.

Definition MatchPattern (pattern method : string) : outcome bool :=
  check_or_false (nonempty pattern) "pattern is non-empty" (
  check_or_false (nonempty method) "method is non-empty" (
  if String.eqb pattern method then Ok true else
  match trim_star pattern with
  | Some prefix => Ok (String.prefix prefix method)
  | None => Ok false
  end)).

Definition toFloat (v : value) : option spec_float :=
  match v with
  | VFloat64 f => Some f
  | VFloat32 f => Some f
  | VInt z => Some (float64_of_Z z)
  | VInt64 z => Some (float64_of_Z z)
  | VString s => ParseFloat s
  | _ => None
  end.

(** A missing key of a [map[string]string] reads as the empty string. *)
Definition cond_get (cond : gmap string string) (k : string) : string := default "" (cond !! k).

(** One round of the condition loop: whether the condition lets the loop go
    on. *)
Definition condition_holds (params : gmap string value) (cond : gmap string string) : bool :=
  match params !! cond_get cond "key" with
  | None => false
  | Some val =>
      let operator := cond_get cond "operator" in
      if String.eqb operator "eq" then String.eqb (sprint_v val) (cond_get cond "value")
      else if existsb (String.eqb operator) ["gt"; "lt"; "gte"; "lte"] then
        match toFloat val, ParseFloat (cond_get cond "value") with
        | Some fVal, Some fTarget =>
            if String.eqb operator "gt" then SFltb fTarget fVal
            else if String.eqb operator "lt" then SFltb fVal fTarget
            else if String.eqb operator "gte" then SFleb fTarget fVal
            else SFleb fVal fTarget
        | _, _ => false
        end
      else true
  end.

Fixpoint condition_loop (n i : nat) (conditions : list (gmap string string))
    (params : gmap string value) : bool :=
  match n with
  | O => true
  | S n' =>
      match conditions !! i with
      | None => true
      | Some cond => if condition_holds params cond then condition_loop n' (S i) conditions params
                     else false
      end
  end.

Definition CheckConditions (conditions : list (gmap string string)) (params : gomap) : outcome bool :=
  match conditions with
  | [] => Ok true
  | _ =>
      check_or_false (bool_decide (is_Some params)) "params must not be nil" (
      check_or_false (length conditions <=? obs_maxConditions)%nat
        ("conditions exceed max: " +:+ pretty (N.of_nat (length conditions))) (
      Ok (condition_loop obs_maxConditions 0 conditions (default ∅ params))))
  end.

(** ** The engine *)

Context `{YamlLib}.

(** [loadConfig] on what [os.ReadFile] gives. *)
Definition loadConfig (file : outcome string) : outcome Config :=
  match file with
  | Err e => Err (EWrap "reading policy file" e)
  | Panic e => Panic e
  | Ok data =>
      match yaml_Unmarshal data with
      | Err e => Err (EWrap "parsing policy YAML" e)
      | o => o
      end
  end.

(** [abs] is the result of [filepath.Abs]. *)
Definition NewObserverEngine (path : string) (abs : outcome string) (read : string → outcome string) :
    outcome ObserverEngine :=
  Check (nonempty path) "config path must not be empty";;
  let absPath := match abs with Ok p => p | _ => path end in
  config ← loadConfig (read absPath);
  Ok (mkObserverEngine config absPath false).

Definition Reload (file : outcome string) : M ObserverEngine unit :=
  newConfig ← lift (loadConfig file);
  modify (λ e, mkObserverEngine newConfig (configPath e) (stop_closed e)).

(** What a tick of the watcher sees: the modification time of the file, if it
    can be read, and its contents when it is then loaded. *)
Record watch_tick := mkWatchTick { wt_stat : outcome Z; wt_file : outcome string }.

Definition watch_once (t : watch_tick) (lastMod : Z) : M ObserverEngine Z :=
  match wt_stat t with
  | Ok modTime =>
      if lastMod <? modTime then
        try (Reload (wt_file t)) (λ r, match r with
          | inl _ => mret modTime
          | inr _ => mret lastMod
          end)
      else mret lastMod
  | _ => mret lastMod
  end.

(** [Some t]: the ticker fired; [None]: [stopChan] was closed. *)
Fixpoint Watch (i : Z) (choices : list (option watch_tick)) (lastMod : Z) : M ObserverEngine unit :=
  if maxWatchTicks <=? i then or_return (Check false "watch loop exceeded max ticks") (mret tt) else
  match choices with
  | [] => mret tt
  | None :: _ => mret tt
  | Some t :: choices' => lastMod' ← watch_once t lastMod; Watch (i + 1) choices' lastMod'
  end.

(** [stopOnce]: closing twice is harmless. *)
Definition Stop : M ObserverEngine unit :=
  modify (λ e, mkObserverEngine (config e) (configPath e) true).

Definition GetVersion (e : ObserverEngine) : string := Version (config e).
Definition GetRuleCount (e : ObserverEngine) : Z := Z.of_nat (length (Policies (config e))).
Definition GetPolicies (e : ObserverEngine) : list Rule := Policies (config e).

(** ** Specifications *)

Lemma trim_star_Some s p : trim_star s = Some p ↔ s = p +:+ "*".
Proof.
  revert p. induction s as [|a s IH]; intros p.
  - split; [done|]. by destruct p.
  - destruct s as [|b s].
    + simpl. destruct (Ascii.eqb_spec a "*") as [->|Ha].
      * split; [by intros [= <-]|]. destruct p as [|c p]; [done|].
        intros E. exfalso. rewrite string_app_cons in E. injection E as _ E. by destruct p.
      * split; [done|]. intros E. exfalso. destruct p as [|c p]; rewrite ?string_app_cons in E.
        -- by injection E.
        -- injection E as _ E. by destruct p.
    + change (trim_star (String a (String b s))) with (String a <$> trim_star (String b s)).
      rewrite fmap_Some. split.
      * intros (q & Hq%IH & ->). by rewrite string_app_cons, Hq.
      * destruct p as [|c p]; [done|]. rewrite string_app_cons. intros [= -> E].
        exists p. split; [|done]. by apply IH.
Qed.

Lemma prefix_true p s : String.prefix p s = true ↔ ∃ r, s = p +:+ r.
Proof.
  revert s. induction p as [|a p IH]; intros s.
  - split; intros _; [by exists s|by destruct s].
  - destruct s as [|b s]; [split; [done|intros [r E]; by rewrite string_app_cons in E]|]. simpl.
    destruct (ascii_dec a b) as [->|Hne].
    + rewrite IH. split; intros [r E]; exists r; rewrite string_app_cons in *; [by rewrite E|by injection E].
    + split; [done|]. intros [r E]. rewrite string_app_cons in E. by injection E.
Qed.

(** on a non-empty pattern and method, [MatchPattern] accepts exactly the
    method equal to the pattern and, for a pattern that ends in a star, the
    methods that start with what comes before it. *)
Theorem MatchPattern_spec (pattern method : string) :
  pattern ≠ "" → method ≠ "" →
  ∃ b, MatchPattern pattern method = Ok b ∧
    (b = true ↔ pattern = method ∨ ∃ prefix rest, pattern = prefix +:+ "*" ∧ method = prefix +:+ rest).
Proof.
  intros Hp%nonempty_true Hm%nonempty_true. unfold MatchPattern, check_or_false. rewrite Hp, Hm, !Check_true.
  destruct (String.eqb_spec pattern method) as [->|Hne].
  { exists true. split; [done|]. split; auto. }
  destruct (trim_star pattern) as [p|] eqn:Et.
  - exists (String.prefix p method). split; [done|]. rewrite prefix_true.
    apply trim_star_Some in Et as ->. split.
    + intros [r ->]. right. by exists p, r.
    + intros [?|(p' & r & E & ->)]; [done|]. exists r.
      assert (trim_star (p +:+ "*") = Some p') as E' by by apply trim_star_Some.
      rewrite (proj2 (trim_star_Some (p +:+ "*") p) eq_refl) in E'. by injection E' as ->.
  - exists false. split; [done|]. split; [done|]. intros [?|(p' & r & E%trim_star_Some & _)]; [done|].
    congruence.
Qed.

Lemma condition_loop_all n i conditions params : (length conditions ≤ i + n)%nat →
  condition_loop n i conditions params = forallb (condition_holds params) (drop i conditions).
Proof.
  revert i. induction n as [|n IH]; intros i Hl; simpl.
  - by rewrite drop_ge by lia.
  - destruct (conditions !! i) as [c|] eqn:Ec.
    + rewrite (drop_S _ _ _ Ec). simpl. destruct (condition_holds params c); [|done]. apply IH. lia.
    + apply lookup_ge_None in Ec. by rewrite drop_ge.
Qed.

Lemma CheckConditions_ok conditions params : (length conditions ≤ obs_maxConditions)%nat →
  (conditions = [] ∨ is_Some params) →
  CheckConditions conditions params = Ok (forallb (condition_holds (default ∅ params)) conditions).
Proof.
  intros Hl Hp. unfold CheckConditions, check_or_false.
  destruct conditions as [|c conditions]; [done|]. destruct Hp as [?|Hp]; [done|].
  rewrite bool_decide_eq_true_2, (proj2 (Nat.leb_le _ _) Hl), !Check_true by done.
  by rewrite condition_loop_all by lia.
Qed.

(** [CheckConditions] on up to 64 conditions and non-nil parameters
    holds exactly when every condition does; with more conditions, or nil
    parameters and some condition, it is false, or a panic in strict mode. *)
Theorem CheckConditions_spec conditions (params : gomap) :
  CheckConditions conditions params =
  if bool_decide (conditions = []) || (bool_decide (is_Some params) && (length conditions <=? 64)%nat)
  then Ok (forallb (condition_holds (default ∅ params)) conditions)
  else if StrictMode then
    Panic (EAssert (if bool_decide (is_Some params)
                    then "conditions exceed max: " +:+ pretty (N.of_nat (length conditions))
                    else "params must not be nil"))
  else Ok false.
Proof.
  destruct conditions as [|c conditions]; [by rewrite bool_decide_eq_true_2|].
  rewrite (bool_decide_eq_false_2 (c :: conditions = [])) by done. cbn [orb].
  destruct params as [m|].
  - rewrite !(bool_decide_eq_true_2 (is_Some (Some m))) by (by exists m). cbn [andb].
    destruct (Nat.leb_spec (length (c :: conditions)) 64).
    + apply CheckConditions_ok; [done|]. right. by exists m.
    + unfold CheckConditions, check_or_false.
      rewrite (bool_decide_eq_true_2 (is_Some (Some m))) by (by exists m). rewrite Check_true.
      rewrite (proj2 (Nat.leb_gt (length (c :: conditions)) obs_maxConditions)) by done.
      unfold Check. by destruct StrictMode.
  - rewrite !(bool_decide_eq_false_2 (is_Some (None : gomap))) by (intros [? [=]]). cbn [andb].
    unfold CheckConditions, check_or_false.
    rewrite (bool_decide_eq_false_2 (is_Some (None : gomap))) by (intros [? [=]]).
    unfold Check. by destruct StrictMode.
Qed.

(** however the policy file changes or breaks, the watcher only ever
    installs configurations that were read and parsed without error, and keeps
    the one in force until then. *)
Theorem Watch_keeps_config choices i lastMod e o e' :
  Watch i choices lastMod e = (o, e') →
  configPath e' = configPath e ∧
  (config e' = config e ∨
   ∃ t, Some t ∈ choices ∧ loadConfig (wt_file t) = Ok (config e')).
Proof.
  revert i lastMod e. induction choices as [|c choices IH]; intros i lastMod e; simpl.
  { unfold or_return, mret, M_ret. destruct (_ <=? _).
    - unfold Check; destruct StrictMode; intros [= <- <-]; auto.
    - intros [= <- <-]. auto. }
  destruct (_ <=? _).
  { unfold or_return, mret, M_ret. unfold Check; destruct StrictMode; intros [= <- <-]; auto. }
  destruct c as [t|]; [|unfold mret, M_ret; intros [= <- <-]; auto].
  intros E. unfold mbind, M_bind in E. destruct (watch_once t lastMod e) as [o1 e1] eqn:E1.
  assert (configPath e1 = configPath e ∧ (config e1 = config e ∨ loadConfig (wt_file t) = Ok (config e1)))
    as [Hp1 Hc1].
  { revert E1. unfold watch_once, try, Reload, mret, M_ret, mbind, M_bind, lift, modify.
    destruct (wt_stat t) as [mt| |]; [|intros [= <- <-]; auto..].
    destruct (_ <? _); [|intros [= <- <-]; auto].
    destruct (loadConfig (wt_file t)) as [cfg| |] eqn:El; intros [= <- <-]; simpl; auto. }
  assert (config e1 = config e ∨ ∃ t', Some t' ∈ Some t :: choices ∧ loadConfig (wt_file t') = Ok (config e1))
    as Hc1' by (destruct Hc1; [by left|right; exists t; split; [set_solver|done]]).
  destruct o1 as [lm|err|err]; [|injection E as <- <-; auto..].
  apply IH in E as [Hp2 [Hc2|(t' & Hin & Hl)]].
  - rewrite Hp2, Hc2. auto.
  - rewrite Hp2. split; [done|]. right. exists t'. split; [set_solver|done].
Qed.

End Observer.
