(* ===== verification/Interceptor.v ===== *)
(** * internal/interceptor: the proxy's interceptor

    [internal/interceptor/server.go], with [internal/mcp/types.go] and the
    shared state of [internal/core/engine.go].  Request and response bodies
    are slices of pooled buffers, so the model keeps the storage cells and
    what each body refers to.  Decoding and encoding JSON-RPC messages are
    parameters; so is what the environment supplies (pooled objects, UUIDs,
    time, the growth of a buffer, other goroutines). *)
From S2P Require Import Ring Prelude Assert Models Sha256 Crypto Repository Pool Chain Anchor Processor Genesis Worker Observer.
(** ** Data *)

Record MCPRequest := mkMCPRequest {
  JSONRPC : string;
  mcp_ID : value;
  mcp_Method : string;
  mcp_Params : gomap;
}.

Record MCPResponse := mkMCPResponse {
  resp_JSONRPC : string;
  resp_ID : value;
  resp_Result : gomap;
  resp_Error : gomap;
}.

(** [json.Unmarshal] and [json.Marshal] at the two message types. *)
Class McpCodec := {
  decode_request : string → outcome MCPRequest;
  encode_request : MCPRequest → outcome string;
  decode_response : string → outcome MCPResponse;
}.

Inductive PolicyAction := ActionAllow | ActionTag | ActionRedact.

#[global] Instance PolicyAction_eq_dec : EqDecision PolicyAction.
Proof. solve_decision. Defined.

Definition maxPolicies : nat := 256.
Definition maxPatterns : nat := 128.
Definition maxConditions : nat := 64.
Definition maxRedactKeys : nat := 128.
Definition maxParams : Z := 256.

(** [core.Engine], with the global pool. *)
Record Engine (St : Type) := mkEngine {
  eng_Worker : Worker St;
  ActiveTasks : gmap string string;
  eng_Observer : ObserverEngine;
  LastEventByTask : gmap string string;
  eng_pool : Pool;
}.
Arguments mkEngine {St}.
Arguments eng_Worker {St}.
Arguments ActiveTasks {St}.
Arguments eng_Observer {St}.
Arguments LastEventByTask {St}.
Arguments eng_pool {St}.

(** A body: what reading it from the network will give (bytes, then the end of
    the body or an error), a slice of a storage cell, or bytes of its own. *)
Inductive body :=
| Wire (bytes : string) (err : option error)
| View (cell len : nat)
| Owned (bytes : string).

(** A request with its declared length, -1 when it is not known. *)
Record Request := mkRequest { req_Method : string; req_Body : option body; req_ContentLength : Z }.

(** What handling one message takes from its environment. *)
Record intercept_env {St : Type} := mkInterceptEnv {
  ie_buffer : option nat;
  ie_newcap : Z;
  ie_spill : nat;
  ie_event : option nat;
  ie_uuid : string;
  ie_now : Time;
  ie_others : nat → Worker St → Worker St;
}.
Arguments intercept_env : clear implicits.
Arguments mkInterceptEnv {St}.

(** ** Buffers *)

(** Writing [s] over the first bytes of a cell. *)
Definition overwrite (s old : string) : string :=
  s +:+ String.substring (String.length s) (String.length old - String.length s) old.

Definition set_storage (f : list string → list string) (p : Pool) : Pool :=
  mkPool (pooled_events p) (pooled_buffers p) (f (storage p)) (globalMetrics p).

(** [bytes.MinRead]. *)
Definition MinRead : Z := 512.

(** [buf.ReadFrom] on an empty buffer: in place when the bytes and the reserve
    fit, else into a new cell, after [spill] bytes went to the old one. *)
Definition ReadFrom (b : GoBuffer) (bytes : string) (newcap : Z) (spill : nat) : M Pool GoBuffer := λ p,
  if Z.of_nat (String.length bytes) + MinRead <=? buf_cap b then
    (Ok (mkGoBuffer (buf_cell b) (String.length bytes) (buf_cap b)),
     set_storage (alter (overwrite bytes) (buf_cell b)) p)
  else
    (Ok (mkGoBuffer (length (storage p)) (String.length bytes) newcap),
     set_storage (λ st, alter (overwrite (String.substring 0 spill bytes)) (buf_cell b) st ++ [bytes]) p).

(** What reading a body gives, in the storage as it is then. *)
Definition read_body (p : Pool) (b : body) : string * option error :=
  match b with
  | Wire s err => (s, err)
  | View c n => (String.substring 0 n (default "" (storage p !! c)), None)
  | Owned s => (s, None)
  end.

(** What is left of a body once it has been read: nothing, or the same error
    again. *)
Definition exhausted (b : body) : body :=
  match b with
  | Wire _ err => Wire "" err
  | View c _ => View c 0
  | Owned _ => Owned ""
  end.

Section Interceptor.
Context `{AssertMode} `{TL : TimeLib} `{JL : JsonLib} `{Ed25519} `{FmtLib} `{McpCodec}
        {St : Type} `{EventRepository St}.

(** ** Policy evaluation *)

(** Whether a rule applies through one of its patterns, at most [n] of them
    tried from index [j]. *)
Fixpoint pattern_loop (n j : nat) (rule : Rule) (method : string) (params : gomap) : outcome bool :=
  match n with
  | O => Ok false
  | S n' =>
      match MatchMethods rule !! j with
      | None => Ok false
      | Some pattern =>
          matched ← MatchPattern pattern method;
          if (matched : bool) then
            match MatchConditions rule with
            | [] => Ok true
            | _ =>
                holds ← CheckConditions (MatchConditions rule) params;
                if (holds : bool) then Ok true else pattern_loop n' (S j) rule method params
            end
          else pattern_loop n' (S j) rule method params
      end
  end.

Definition rule_action (rule : Rule) : PolicyAction :=
  match Redact rule with [] => ActionTag | _ => ActionRedact end.

Fixpoint policy_loop (n i : nat) (policies : list Rule) (method : string) (params : gomap) :
    outcome (PolicyAction * option Rule) :=
  match n with
  | O => Ok (ActionAllow, None)
  | S n' =>
      match policies !! i with
      | None => Ok (ActionAllow, None)
      | Some rule =>
          Check (length (MatchMethods rule) <=? maxPatterns)%nat
            ("match_methods exceeds max in rule=" +:+ rule_ID rule);;
          Check (length (MatchConditions rule) <=? maxConditions)%nat
            ("conditions exceeds max in rule=" +:+ rule_ID rule);;
          applies ← pattern_loop maxPatterns 0 rule method params;
          if (applies : bool) then Ok (rule_action rule, Some rule)
          else policy_loop n' (S i) policies method params
      end
  end.

Definition evaluatePolicy (obs : ObserverEngine) (method : string) (params : gomap) :
    outcome (PolicyAction * option Rule) :=
  Check (nonempty method) "method name is non-empty";;
  let policies := GetPolicies obs in
  Check (length policies <=? maxPolicies)%nat
    ("policy count exceeds max: " +:+ pretty (N.of_nat (length policies)));;
  policy_loop maxPolicies 0 policies method params.

(** ** Requests *)

Definition extractTaskMetadata (bytes : string) : outcome (MCPRequest * string * string) :=
  Check (nonempty bytes) "request body is empty";;
  Check (Z.of_nat (String.length bytes) <? 1024 * 1024)
    ("request body too large: size=" +:+ pretty (N.of_nat (String.length bytes)));;
  mcpReq ← wrap_err "invalid JSON-RPC" (decode_request bytes);
  Check (nonempty (mcp_Method mcpReq)) "method must not be empty";;
  Check (String.eqb (JSONRPC mcpReq) "2.0") ("invalid JSON-RPC version: " +:+ JSONRPC mcpReq);;
  let taskID := default "" (as_string (map_get (mcp_Params mcpReq) "task_id")) in
  Ok (mcpReq, taskID, mcp_Method mcpReq).

(** Replacing the values of the keys that are present. *)
Fixpoint redact_loop (n i : nat) (keys : list string) (params : gomap) : gomap :=
  match n with
  | O => params
  | S n' =>
      match keys !! i with
      | None => params
      | Some key =>
          redact_loop n' (S i) keys
            (match map_get params key with
             | Some _ => put_param key (VString "[REDACTED]") params
             | None => params
             end)
      end
  end.

Definition redactSensitiveData (bytes : string) (keys : list string) : outcome string :=
  Check (nonempty bytes) "body must not be empty";;
  match Check (0 <? length keys)%nat "redaction keys must be defined" with
  | Err _ => Ok bytes
  | Panic e => Panic e
  | Ok _ =>
      Check (length keys <=? maxRedactKeys)%nat
        ("redaction keys exceed max: " +:+ pretty (N.of_nat (length keys)));;
      mcpReq ← decode_request bytes;
      Check (map_len (mcp_Params mcpReq) <=? maxParams)
        ("excessive parameters in request: " +:+ pretty (map_len (mcp_Params mcpReq)));;
      encode_request (mkMCPRequest (JSONRPC mcpReq) (mcp_ID mcpReq) (mcp_Method mcpReq)
        (redact_loop maxRedactKeys 0 keys (mcp_Params mcpReq)))
  end.

(** The two helpers that format a rule for the log: an assertion that fails
    gives the empty string, or panics in strict mode. *)
Definition string_or_empty (c1 c2 : bool) (m1 m2 s : string) : outcome string :=
  match Check c1 m1 with
  | Err _ => Ok ""
  | Panic e => Panic e
  | Ok _ =>
      match Check c2 m2 with
      | Err _ => Ok ""
      | Panic e => Panic e
      | Ok _ => Ok s
      end
  end.

Definition policyIDOrEmpty (rule : option Rule) : outcome string :=
  match rule with
  | None => Ok ""
  | Some r => string_or_empty (nonempty (rule_ID r)) (String.length (rule_ID r) <=? 128)%nat
                "policy ID missing"
                ("policy ID too long: " +:+ pretty (N.of_nat (String.length (rule_ID r)))) (rule_ID r)
  end.

Definition riskLevelOrEmpty (rule : option Rule) : outcome string :=
  match rule with
  | None => Ok ""
  | Some r => string_or_empty (nonempty (rule_RiskLevel r)) (String.length (rule_RiskLevel r) <=? 32)%nat
                "risk level missing"
                ("risk level too long: " +:+ pretty (N.of_nat (String.length (rule_RiskLevel r))))
                (rule_RiskLevel r)
  end.

Abbreviation E := (Engine St).

Definition eng_on_pool {A} (m : M Pool A) : M E A := λ c,
  let r := m (eng_pool c) in
  (r.1, mkEngine (eng_Worker c) (ActiveTasks c) (eng_Observer c) (LastEventByTask c) r.2).

Definition eng_on_worker {A} (m : M (Worker St) A) : M E A := λ c,
  let r := m (eng_Worker c) in
  (r.1, mkEngine r.2 (ActiveTasks c) (eng_Observer c) (LastEventByTask c) (eng_pool c)).

Definition set_last (taskID id : string) (c : E) : E :=
  mkEngine (eng_Worker c) (ActiveTasks c) (eng_Observer c) (<[taskID := id]> (LastEventByTask c))
    (eng_pool c).

Definition set_active (taskID state : string) (c : E) : E :=
  mkEngine (eng_Worker c) (<[taskID := state]> (ActiveTasks c)) (eng_Observer c) (LastEventByTask c)
    (eng_pool c).

(** The event of a call, from a pooled one; [parent] is the task's last event. *)
Definition call_event (env : intercept_env St) (taskID : string) (mcpReq : MCPRequest)
    (rule : option Rule) (parent : option string) (event : Event) : Event :=
  mkEvent (String.substring 0 8 (ie_uuid env)) (RunID event) (SeqIndex event) (ie_now env) (Actor event)
    "tool_call" (mcp_Method mcpReq) (mcp_Params mcpReq) (Response event) taskID (TaskState event)
    (default (ParentID event) parent)
    (from_option rule_ID (PolicyID event) rule) (from_option rule_RiskLevel (RiskLevel event) rule)
    (PrevHash event) (CurrentHash event) (Signature event) (WasBlocked event).

Definition submitToolCallEvent (env : intercept_env St) (taskID : string) (mcpReq : MCPRequest)
    (matchedRule : option Rule) : M E unit :=
  event0 ← eng_on_pool (GetEvent (ie_event env));
  c ← get;
  let parent := if nonempty taskID then LastEventByTask c !! taskID else None in
  let event := call_event env taskID mcpReq matchedRule parent event0 in
  (if nonempty taskID then modify (set_last taskID (ID event)) else mret tt);;
  eng_on_worker (Submit (ie_others env) (Some event)).

(** The state of a handler: the engine and the message it was given. *)
Definition on_engine {A X} (m : M E A) : M (E * X) A := λ '(c, x),
  let r := m c in (r.1, (r.2, x)).

Definition set_body (b : body) (r : Request) : Request := mkRequest (req_Method r) (Some b) (req_ContentLength r).

Definition applyRedactionAndSubmit (env : intercept_env St) (action : PolicyAction)
    (matchedRule : option Rule) (bytes taskID method : string) (mcpReq : MCPRequest) :
    M (E * Request) unit :=
  lift (Check (nonempty method) "method must not be empty");;
  match action, matchedRule with
  | ActionRedact, Some rule =>
      scrubbed ← lift (redactSensitiveData bytes (Redact rule));
      modify (λ '(c, r), (c, set_body (Owned scrubbed) r))
  | _, _ => mret tt
  end;;
  lift (policyIDOrEmpty matchedRule);;
  lift (riskLevelOrEmpty matchedRule);;
  on_engine (submitToolCallEvent env taskID mcpReq matchedRule).

(** [SendErrorResponse] does nothing. *)
Definition SendErrorResponse : M (E * Request) unit := mret tt.

(** The body of the handler once the bytes are in the buffer [b]. *)
Definition handle_request (env : intercept_env St) (b : GoBuffer) (bytes : string) : M (E * Request) unit :=
  modify (λ '(c, r), (c, set_body (View (buf_cell b) (buf_len b)) r));;
  try (lift (extractTaskMetadata bytes)) (λ x, match x with
    | inr _ => SendErrorResponse
    | inl (mcpReq, taskID, method) =>
        '(c, _) ← get;
        try (lift (evaluatePolicy (eng_Observer c) method (mcp_Params mcpReq))) (λ y, match y with
          | inr _ => SendErrorResponse
          | inl (action, matchedRule) =>
              try (applyRedactionAndSubmit env action matchedRule bytes taskID method mcpReq)
                (λ _, mret tt)
          end)
    end).

(** A deferred [PutBuffer]: it runs however the handler ends; a panic of its own
    replaces the handler's outcome. *)
Definition with_put {X A} (b : GoBuffer) (m : M (E * X) A) : M (E * X) A := λ st,
  let '(o, (c, x)) := m st in
  let '(po, c') := eng_on_pool (PutBuffer b) c in
  (match po with Panic e => Panic e | _ => o end, (c', x)).

Definition InterceptRequest (env : intercept_env St) : M (E * Request) unit :=
  '(c, r) ← get;
  if negb (String.eqb (req_Method r) "POST") then mret tt else
  match req_Body r with
  | None => mret tt
  | Some wire =>
      b0 ← on_engine (eng_on_pool (GetBuffer (ie_buffer env)));
      let '(bytes, err) := read_body (eng_pool c) wire in
      b ← on_engine (eng_on_pool (ReadFrom b0 bytes (ie_newcap env) (ie_spill env)));
      modify (λ '(c, r), (c, set_body (exhausted wire) r));;
      with_put b (match err with
        | Some _ => mret tt
        | None => handle_request env b bytes
        end)
  end.

(** ** Responses *)

Definition response_event (env : intercept_env St) (result : gomap) (taskID taskState : string)
    (event : Event) : Event :=
  mkEvent (String.substring 0 8 (ie_uuid env)) (RunID event) (SeqIndex event) (ie_now env) (Actor event)
    "tool_response" (Method event) (Params event) result taskID taskState (ParentID event)
    (PolicyID event) (RiskLevel event) (PrevHash event) (CurrentHash event) (Signature event)
    (WasBlocked event).

Definition handle_response (env : intercept_env St) (bytes : string) : M E unit :=
  match decode_response bytes with
  | Panic e => lift (Panic e)
  | Err _ => mret tt
  | Ok mcpResp =>
      c ← get;
      if negb (IsHealthy (eng_Worker c)) then mret tt else
      let taskID := default "" (as_string (map_get (resp_Result mcpResp) "task_id")) in
      let state := as_string (map_get (resp_Result mcpResp) "state") in
      (match state with
       | Some st => if nonempty taskID then modify (set_active taskID st) else mret tt
       | None => mret tt
       end);;
      event0 ← eng_on_pool (GetEvent (ie_event env));
      eng_on_worker (Submit (ie_others env)
        (Some (response_event env (resp_Result mcpResp) taskID (default "" state) event0)))
  end.

(** The state: the engine and the response's body. *)
Definition InterceptResponse (env : intercept_env St) : M (E * body) unit :=
  '(c, wire) ← get;
  b0 ← on_engine (eng_on_pool (GetBuffer (ie_buffer env)));
  let '(bytes, err) := read_body (eng_pool c) wire in
  b ← on_engine (eng_on_pool (ReadFrom b0 bytes (ie_newcap env) (ie_spill env)));
  modify (λ '(c, _), (c, exhausted wire));;
  with_put b (match err with
    | Some e => fail e
    | None =>
        modify (λ '(c, _), (c, View (buf_cell b) (buf_len b)));;
        on_engine (handle_response env bytes)
    end).

(** ** Policy evaluation finds the first rule that applies *)

Definition pattern_matches (method pattern : string) : bool :=
  String.eqb pattern method ||
  match trim_star pattern with Some prefix => String.prefix prefix method | None => false end.

(** The reference: some pattern matches the method and all conditions hold. *)
Definition rule_applies (method : string) (params : gmap string value) (rule : Rule) : bool :=
  existsb (pattern_matches method) (MatchMethods rule) &&
  forallb (condition_holds params) (MatchConditions rule).

Record rule_ok (rule : Rule) : Prop := {
  ro_patterns : (length (MatchMethods rule) ≤ maxPatterns)%nat;
  ro_conditions : (length (MatchConditions rule) ≤ maxConditions)%nat;
  ro_nonempty : Forall (λ p, p ≠ "") (MatchMethods rule);
}.

Lemma MatchPattern_eq pattern method : pattern ≠ "" → method ≠ "" →
  MatchPattern pattern method = Ok (pattern_matches method pattern).
Proof.
  intros Hp%nonempty_true Hm%nonempty_true. unfold MatchPattern, check_or_false, pattern_matches.
  rewrite Hp, Hm, !Check_true. destruct (String.eqb pattern method); [done|].
  by destruct (trim_star pattern).
Qed.

Lemma pattern_loop_eq n j rule method params : rule_ok rule → method ≠ "" →
  (length (MatchMethods rule) ≤ j + n)%nat →
  pattern_loop n j rule method (Some params) =
  Ok (existsb (pattern_matches method) (drop j (MatchMethods rule)) &&
      forallb (condition_holds params) (MatchConditions rule)).
Proof.
  intros [_ Hc Hne] Hm. revert j. induction n as [|n IH]; intros j Hl; simpl.
  - by rewrite drop_ge by lia.
  - destruct (MatchMethods rule !! j) as [p|] eqn:Ep.
    + rewrite (drop_S _ _ _ Ep). rewrite Forall_lookup in Hne.
      rewrite MatchPattern_eq by (done || by eapply Hne). cbn [existsb].
      unfold mbind, outcome_bind. destruct (pattern_matches method p) eqn:Emp; [|apply IH; lia].
      cbn [orb andb]. rewrite IH by lia.
      destruct (MatchConditions rule) as [|c cs] eqn:Ec; [done|].
      rewrite CheckConditions_ok by (done || right; by eexists). cbn [default]. unfold id.
      destruct (forallb (condition_holds params) (c :: cs)); [done|]. by rewrite andb_false_r.
    + apply lookup_ge_None in Ep. by rewrite drop_ge.
Qed.

Lemma policy_loop_eq n i policies method params : Forall rule_ok policies → method ≠ "" →
  (length policies ≤ i + n)%nat →
  policy_loop n i policies method (Some params) =
  Ok (match List.find (rule_applies method params) (drop i policies) with
      | Some rule => (rule_action rule, Some rule)
      | None => (ActionAllow, None)
      end).
Proof.
  intros Hok Hm. revert i. induction n as [|n IH]; intros i Hl; cbn [policy_loop].
  - by rewrite drop_ge by lia.
  - destruct (policies !! i) as [r|] eqn:Er.
    + rewrite (drop_S _ _ _ Er). rewrite Forall_lookup in Hok. pose proof (Hok i r Er) as [Hp Hc Hne].
      rewrite (proj2 (Nat.leb_le _ _) Hp), (proj2 (Nat.leb_le _ _) Hc), !Check_true.
      unfold mbind, outcome_bind. rewrite pattern_loop_eq by (done || lia). rewrite drop_0.
      cbn [List.find]. fold (rule_applies method params r).
      destruct (rule_applies method params r); [done|]. apply IH; lia.
    + apply lookup_ge_None in Er. by rewrite drop_ge.
Qed.

(** C23: on a policy file within the engine's limits and a request with
    parameters, [evaluatePolicy] finds the first rule in file order one of
    whose patterns matches the method and all of whose conditions hold; the
    action is to redact exactly when that rule names keys, to tag otherwise,
    and to allow when no rule applies. *)
Theorem evaluatePolicy_first_match obs method params :
  method ≠ "" → (length (GetPolicies obs) ≤ maxPolicies)%nat → Forall rule_ok (GetPolicies obs) →
  evaluatePolicy obs method (Some params) =
  Ok (match List.find (rule_applies method params) (GetPolicies obs) with
      | Some rule => (rule_action rule, Some rule)
      | None => (ActionAllow, None)
      end).
Proof.
  intros Hm Hl Hok. unfold evaluatePolicy. rewrite (proj2 (nonempty_true method) Hm).
  rewrite (proj2 (Nat.leb_le _ _) Hl), !Check_true. unfold mbind, outcome_bind.
  rewrite policy_loop_eq by (done || lia). by rewrite drop_0.
Qed.

(** ** Redaction *)

Lemma map_get_put k k' v params :
  map_get (put_param k v params) k' = if decide (k = k') then Some v else map_get params k'.
Proof.
  unfold map_get, put_param. simpl. rewrite lookup_insert. case_decide; [done|]. by destruct params.
Qed.

Lemma redact_loop_get n i keys params k : (length keys ≤ i + n)%nat →
  map_get (redact_loop n i keys params) k =
  if decide (k ∈ drop i keys) then (λ _, VString "[REDACTED]") <$> map_get params k
  else map_get params k.
Proof.
  revert i params. induction n as [|n IH]; intros i params Hl; cbn [redact_loop].
  - by rewrite drop_ge by lia.
  - destruct (keys !! i) as [key|] eqn:Ek.
    + rewrite (drop_S _ _ _ Ek), IH by lia.
      assert (map_get (match map_get params key with
        | Some _ => put_param key (VString "[REDACTED]") params | None => params end) k =
        if decide (key = k) then (λ _, VString "[REDACTED]") <$> map_get params k else map_get params k) as E.
      { destruct (map_get params key) as [v|] eqn:Ev; [rewrite map_get_put|];
          destruct (decide (key = k)) as [->|]; by rewrite ?Ev. }
      rewrite E. destruct (decide (key = k)) as [->|Hne].
      * rewrite (decide_True (P := k ∈ k :: _)) by set_solver. case_decide; by destruct (map_get params k).
      * repeat case_decide; set_solver.
    + apply lookup_ge_None in Ek. by rewrite drop_ge.
Qed.

(** The parameters with the values of the listed keys replaced. *)
Definition scrubbed_params (keys : list string) (params : gomap) : gomap :=
  match params with
  | Some m => Some (map_imap (λ k v, Some (if decide (k ∈ keys) then VString "[REDACTED]" else v)) m)
  | None => None
  end.

(** Two maps that read alike, both nil or neither, are equal. *)
Lemma gomap_eq (m1 m2 : gomap) : (m1 = None ↔ m2 = None) → (∀ k, map_get m1 k = map_get m2 k) → m1 = m2.
Proof.
  destruct m1 as [m1|], m2 as [m2|]; intros Hn Hk; try done.
  - f_equal. apply map_eq. exact Hk.
  - by apply proj2 in Hn; discriminate Hn.
  - by apply proj1 in Hn; discriminate Hn.
Qed.

Lemma redact_loop_None n i keys params : redact_loop n i keys params = None ↔ params = None.
Proof.
  revert i params. induction n as [|n IH]; intros i params; cbn [redact_loop]; [done|].
  destruct (keys !! i) as [key|]; [|done]. rewrite IH. by destruct params as [m|]; cbn; [destruct (m !! key)|].
Qed.

Lemma redact_loop_scrubbed keys params : (length keys ≤ maxRedactKeys)%nat →
  redact_loop maxRedactKeys 0 keys params = scrubbed_params keys params.
Proof.
  intros Hl. apply gomap_eq; [rewrite redact_loop_None; by destruct params|].
  intros k. rewrite redact_loop_get, drop_0 by lia. destruct params as [m|]; [|by case_decide].
  cbn. rewrite map_lookup_imap. destruct (m !! k); cbn; by case_decide.
Qed.

(** C38: what redaction replaces.  With at least one key to redact,
    [redactSensitiveData] succeeds exactly when the body is not empty, the keys
    and the parameters are within their limits, the body decodes and the scrubbed
    request encodes; its result is then that encoding: the same version, id and
    method, the value of every listed key that is present replaced by the marker,
    every other parameter kept and none added. *)
Theorem redactSensitiveData_spec bytes keys scrubbed : keys ≠ [] →
  redactSensitiveData bytes keys = Ok scrubbed ↔
  bytes ≠ "" ∧ (length keys ≤ maxRedactKeys)%nat ∧
  ∃ req, decode_request bytes = Ok req ∧ map_len (mcp_Params req) ≤ maxParams ∧
    encode_request (mkMCPRequest (JSONRPC req) (mcp_ID req) (mcp_Method req)
      (scrubbed_params keys (mcp_Params req))) = Ok scrubbed.
Proof.
  intros Hk. unfold redactSensitiveData.
  replace (0 <? length keys)%nat with true by (destruct keys; done). rewrite Check_true. split.
  - intros E. apply bind_ok in E as (u & Hb%Check_ok%nonempty_true & E).
    apply bind_ok in E as (u1 & Hl%Check_ok%Nat.leb_le & E).
    apply bind_ok in E as (req & Hd & E). apply bind_ok in E as (u2 & Hp%Check_ok%Z.leb_le & E).
    rewrite redact_loop_scrubbed in E by done. eauto 10.
  - intros (Hb & Hl & req & Hd & Hp & He). rewrite (proj2 (nonempty_true bytes) Hb), Check_true.
    rewrite (proj2 (Nat.leb_le _ _) Hl), Check_true. cbn [mbind outcome_bind]. rewrite Hd. cbn [mbind outcome_bind].
    rewrite (proj2 (Z.leb_le _ _) Hp), Check_true. cbn [mbind outcome_bind]. by rewrite redact_loop_scrubbed.
Qed.

(** ** Bodies and the buffers behind them *)

(** The pooled buffers and the storage. *)
Definition bufs (c : E) : list GoBuffer * list string := (pooled_buffers (eng_pool c), storage (eng_pool c)).

(** [m] touches neither. *)
Definition same_bufs (c c' : E) : Prop := bufs c' = bufs c.

#[local] Instance same_bufs_preorder : PreOrder same_bufs.
Proof. split; [done|]. intros a b c Hab Hbc. unfold same_bufs in *. congruence. Qed.

Abbreviation keeps := (along same_bufs).

Lemma keeps_on_engine {X A} (m : M E A) : (∀ c, bufs (m c).2 = bufs c) → along same_bufs (X := X) (on_engine m).
Proof. intros Hm c x. apply (Hm c). Qed.

Lemma GetEvent_bufs pick p :
  pooled_buffers (GetEvent pick p).2 = pooled_buffers p ∧ storage (GetEvent pick p).2 = storage p.
Proof. unfold GetEvent. by destruct (i ← pick; e ← pooled_events p !! i; Some (i, e)) as [[]|]. Qed.

Lemma submit_bufs env taskID req rule c : bufs (submitToolCallEvent env taskID req rule c).2 = bufs c.
Proof.
  unfold submitToolCallEvent. unfold mbind at 1, M_bind at 1, eng_on_pool at 1.
  pose proof (GetEvent_bufs (ie_event env) (eng_pool c)) as [E1 E2].
  destruct (GetEvent (ie_event env) (eng_pool c)) as [[e0| |] p1]; simpl in *;
    [|unfold bufs; simpl; congruence..].
  unfold mbind, M_bind, get, modify, mret, M_ret, eng_on_worker, bufs.
  destruct (nonempty taskID); simpl; congruence.
Qed.

Lemma keeps_apply env action rule bytes taskID method req :
  keeps (applyRedactionAndSubmit env action rule bytes taskID method req).
Proof.
  unfold applyRedactionAndSubmit.
  assert (along same_bufs (X := Request) (mret tt)) as Hret by along_step along_ret.
  along_step along_bind; [along_step along_lift|intros _]. along_step along_bind; [|intros _].
  { destruct action; [exact Hret..|]. destruct rule as [r|]; [|exact Hret].
    along_step along_bind; [along_step along_lift|]. intros. by apply along_modify. }
  do 2 (along_step along_bind; [along_step along_lift|intros _]). apply keeps_on_engine. intros. apply submit_bufs.
Qed.

Lemma keeps_handle env b bytes : keeps (handle_request env b bytes).
Proof.
  unfold handle_request. along_step along_bind; [by apply along_modify|intros _].
  along_step along_try; [along_step along_lift|]. intros [[[req taskID] method]|e]; [|along_step along_ret].
  along_step along_bind; [along_step along_get|]. intros [c r].
  along_step along_try; [along_step along_lift|]. intros [[action rule]|e]; [|along_step along_ret].
  along_step along_try; [apply keeps_apply|]. intros. along_step along_ret.
Qed.

(** Every pooled buffer has a cell. *)
Definition cells_ok (p : Pool) : Prop :=
  Forall (λ b, (buf_cell b < length (storage p))%nat) (pooled_buffers p).

Lemma substring_app s t : String.substring 0 (String.length s) (s +:+ t) = s.
Proof.
  induction s as [|a s IH]; [by destruct t|]. rewrite string_app_cons. cbn [String.length String.substring].
  by rewrite IH.
Qed.

Lemma substring_all s : String.substring 0 (String.length s) s = s.
Proof. induction s as [|a s IH]; [done|]. cbn [String.length String.substring]. by rewrite IH. Qed.

(** The bytes a buffer was filled with can be read through its slice. *)
Lemma ReadFrom_view b bytes newcap spill p b' p' : (buf_cell b < length (storage p))%nat →
  ReadFrom b bytes newcap spill p = (Ok b', p') →
  read_body p' (View (buf_cell b') (buf_len b')) = (bytes, None) ∧
  (buf_cell b' < length (storage p'))%nat ∧ pooled_buffers p' = pooled_buffers p.
Proof.
  intros Hc. unfold ReadFrom. destruct (_ <=? _); intros [= <- <-]; unfold set_storage, read_body; simpl.
  - rewrite length_alter. split; [|done]. destruct (lookup_lt_is_Some_2 (storage p) (buf_cell b) Hc) as [old Ho].
    rewrite list_lookup_alter_eq, Ho. simpl. unfold overwrite. by rewrite substring_app.
  - rewrite length_app, length_alter. simpl. split; [|split; [lia|done]].
    rewrite lookup_app_r, length_alter by (by rewrite length_alter). rewrite Nat.sub_diag. simpl.
    by rewrite substring_all.
Qed.

Lemma GetBuffer_cell pick p : cells_ok p → ∃ b p', GetBuffer pick p = (Ok b, p') ∧
  (buf_cell b < length (storage p'))%nat ∧ cells_ok p'.
Proof.
  intros Hc. unfold GetBuffer, cells_ok in *. simpl.
  destruct (i ← pick; b ← pooled_buffers p !! i; Some (i, b)) as [[i b]|] eqn:Eb.
  - apply bind_Some in Eb as (j & -> & Eb). apply bind_Some in Eb as (x & Hx & Eb). simplify_eq.
    eexists _, _. split; [done|]. simpl. split.
    + rewrite Forall_forall in Hc. apply Hc. by eapply list_elem_of_lookup_2.
    + apply Forall_delete. exact Hc.
  - eexists _, _. split; [done|]. simpl. rewrite length_app. simpl. split; [lia|].
    eapply Forall_impl; [exact Hc|]. simpl. intros. lia.
Qed.

Definition set_pool (p : Pool) (c : E) : E :=
  mkEngine (eng_Worker c) (ActiveTasks c) (eng_Observer c) (LastEventByTask c) p.

(** A POST request is read into a buffer and handled there, unless reading it
    failed; the buffer then goes back to the pool. *)
Lemma intercept_reads env c r wire bytes err : cells_ok (eng_pool c) →
  req_Method r = "POST" → req_Body r = Some wire → read_body (eng_pool c) wire = (bytes, err) →
  ∃ b0 p0 b p, GetBuffer (ie_buffer env) (eng_pool c) = (Ok b0, p0) ∧
    ReadFrom b0 bytes (ie_newcap env) (ie_spill env) p0 = (Ok b, p) ∧
    (buf_cell b0 < length (storage p0))%nat ∧ cells_ok p0 ∧
    read_body p (View (buf_cell b) (buf_len b)) = (bytes, None) ∧
    InterceptRequest env (c, r) =
      with_put b (match err with Some _ => mret tt | None => handle_request env b bytes end)
        (set_pool p c, set_body (exhausted wire) r).
Proof.
  intros Hc Hm Hb Hr. destruct (GetBuffer_cell (ie_buffer env) (eng_pool c) Hc) as (b0 & p0 & E0 & Hlt & Hc0).
  destruct (ReadFrom b0 bytes (ie_newcap env) (ie_spill env) p0) as [o p] eqn:E1.
  assert (∃ b, o = Ok b) as [b ->] by (revert E1; unfold ReadFrom; case_match; intros [= <- _]; by eexists).
  destruct (ReadFrom_view _ _ _ _ _ _ _ Hlt E1) as (Hv & _ & _).
  exists b0, p0, b, p. split_and!; try done.
  unfold InterceptRequest. unfold mbind at 1, M_bind at 1, get. rewrite Hm, Hb.
  change (negb ("POST" =? "POST")%string) with false. cbv iota.
  assert (on_engine (eng_on_pool (GetBuffer (ie_buffer env))) (c, r) = (Ok b0, (set_pool p0 c, r))) as F0
    by (unfold on_engine, eng_on_pool; by rewrite E0).
  assert (on_engine (eng_on_pool (ReadFrom b0 bytes (ie_newcap env) (ie_spill env))) (set_pool p0 c, r) =
          (Ok b, (set_pool p c, r))) as F1 by (unfold on_engine, eng_on_pool; simpl; by rewrite E1).
  unfold mbind at 1, M_bind at 1. rewrite F0, Hr. unfold mbind at 1, M_bind at 1. by rewrite F1.
Qed.

Lemma intercept_steps env c r wire bytes : cells_ok (eng_pool c) →
  req_Method r = "POST" → req_Body r = Some wire → read_body (eng_pool c) wire = (bytes, None) →
  ∃ b0 p0 b p, GetBuffer (ie_buffer env) (eng_pool c) = (Ok b0, p0) ∧
    ReadFrom b0 bytes (ie_newcap env) (ie_spill env) p0 = (Ok b, p) ∧
    (buf_cell b0 < length (storage p0))%nat ∧ cells_ok p0 ∧
    read_body p (View (buf_cell b) (buf_len b)) = (bytes, None) ∧
    InterceptRequest env (c, r) =
      with_put b (handle_request env b bytes) (set_pool p c, set_body (exhausted wire) r).
Proof. intros Hc Hm Hb Hr. exact (intercept_reads env c r wire bytes None Hc Hm Hb Hr). Qed.

Lemma with_put_frame {X} b (m : M (E * X) unit) c x o c' x' : keeps m →
  with_put b m (c, x) = (o, (c', x')) →
  ∃ o1 c1, m (c, x) = (o1, (c1, x')) ∧ bufs c1 = bufs c ∧
    storage (eng_pool c') = storage (eng_pool c) ∧
    (buf_cap b ≤ maxBufferSize →
       pooled_buffers (eng_pool c') = mkGoBuffer (buf_cell b) 0 (buf_cap b) :: pooled_buffers (eng_pool c)).
Proof.
  intros Hm. pose proof (Hm c x) as Hk. unfold with_put. destruct (m (c, x)) as [o1 [c1 x1]]. simpl in Hk.
  injection Hk as E1 E2. unfold eng_on_pool, PutBuffer.
  destruct (Z.ltb_spec maxBufferSize (buf_cap b)) as [Hlt|Hle].
  - unfold mret, M_ret. intros [= <- <- <-]. exists o1, c1. split; [done|]. split; [unfold bufs; congruence|].
    split; [done|]. lia.
  - rewrite (proj2 (Z.leb_le (buf_cap b) (maxBufferSize * 2))) by (unfold maxBufferSize in *; lia).
    unfold or_return. rewrite Check_true. unfold modify. simpl. intros [= <- <- <-].
    exists o1, c1. split; [done|]. split; [unfold bufs; congruence|]. simpl. split; [done|]. intros _.
    by rewrite E1.
Qed.

Lemma with_put_worker {X} b (m : M (E * X) unit) st o c' x' :
  with_put b m st = (Ok o, (c', x')) →
  ∃ c1, m st = (Ok o, (c1, x')) ∧ eng_Worker c1 = eng_Worker c'.
Proof.
  unfold with_put. destruct (m st) as [o1 [c1 x1]]. unfold eng_on_pool.
  destruct (PutBuffer b (eng_pool c1)) as [[]]; intros [= -> <- <-]; by exists c1.
Qed.

Lemma with_put_outcome {X A} b (m : M (E * X) A) st : (with_put b m st).1 = (m st).1.
Proof.
  unfold with_put. destruct (m st) as [o [c x]]. unfold eng_on_pool, PutBuffer.
  destruct (Z.ltb_spec maxBufferSize (buf_cap b)); [done|].
  by rewrite (proj2 (Z.leb_le (buf_cap b) (maxBufferSize * 2))) by (unfold maxBufferSize in *; lia).
Qed.

(** What is forwarded: the redacted encoding when the first rule that applies
    names keys and redaction succeeds, else the bytes received. *)
Definition forwarded_bytes (obs : ObserverEngine) (bytes : string) : string :=
  match extractTaskMetadata bytes with
  | Ok (mcpReq, _, method) =>
      match evaluatePolicy obs method (mcp_Params mcpReq) with
      | Ok (ActionRedact, Some rule) =>
          match redactSensitiveData bytes (Redact rule) with Ok scrubbed => scrubbed | _ => bytes end
      | _ => bytes
      end
  | _ => bytes
  end.

(** The body a handled request carries. *)
Definition apply_body_of (action : PolicyAction) (rule : option Rule) (bytes : string) (b : option body) : option body :=
  match action, rule with
  | ActionRedact, Some ru =>
      match redactSensitiveData bytes (Redact ru) with Ok scrubbed => Some (Owned scrubbed) | _ => b end
  | _, _ => b
  end.

Lemma apply_body env action rule bytes taskID method req c r o c' r' : method ≠ "" →
  applyRedactionAndSubmit env action rule bytes taskID method req (c, r) = (o, (c', r')) →
  req_Method r' = req_Method r ∧ req_ContentLength r' = req_ContentLength r ∧
  req_Body r' = apply_body_of action rule bytes (req_Body r).
Proof.
  intros Hm%nonempty_true. unfold applyRedactionAndSubmit. intros E. unfold mbind at 1, M_bind at 1, lift at 1 in E.
  rewrite Hm, Check_true in E.
  apply M_bind_inv in E as [(u1 & [c2 r2] & E1 & E)|[(e & E1 & _)|(e & E1 & _)]].
  - assert (req_Method r2 = req_Method r ∧ req_ContentLength r2 = req_ContentLength r ∧
      req_Body r2 = apply_body_of action rule bytes (req_Body r)) as Hr2.
    { destruct action, rule as [ru|]; try (injection E1 as _ <- <-; auto). unfold apply_body_of.
      apply M_bind_ok in E1 as (scr & st & Hs & E1). apply pair_equal_spec in Hs as [Hs <-].
      injection E1 as _ <- <-. by rewrite Hs. }
    assert (r' = r2) as ->; [|done].
    apply M_bind_inv in E as [(? & [? ?] & [= _ <- <-] & E)|[(? & [= _ <- <-] & _)|(? & [= _ <- <-] & _)]]; [|done..].
    apply M_bind_inv in E as [(? & [? ?] & [= _ <- <-] & E)|[(? & [= _ <- <-] & _)|(? & [= _ <- <-] & _)]]; [|done..].
    unfold on_engine in E. by injection E.
  - destruct action, rule as [ru|]; try done. unfold mbind, M_bind, lift, modify in E1. unfold apply_body_of.
    destruct (redactSensitiveData bytes (Redact ru)); by simplify_eq.
  - destruct action, rule as [ru|]; try done. unfold mbind, M_bind, lift, modify in E1. unfold apply_body_of.
    destruct (redactSensitiveData bytes (Redact ru)); by simplify_eq.
Qed.

Lemma extract_method bytes req taskID method :
  extractTaskMetadata bytes = Ok (req, taskID, method) → method ≠ "".
Proof.
  unfold extractTaskMetadata. intros Hx. inv_ok. simplify_eq.
  match goal with Hc : Check (nonempty (mcp_Method _)) _ = _ |- _ => apply Check_ok, nonempty_true in Hc end.
  done.
Qed.

Lemma handle_body env b bytes c r o c' r' :
  handle_request env b bytes (c, r) = (o, (c', r')) →
  req_Method r' = req_Method r ∧ req_ContentLength r' = req_ContentLength r ∧
  (req_Body r' = Some (View (buf_cell b) (buf_len b)) ∧ forwarded_bytes (eng_Observer c) bytes = bytes ∨
   req_Body r' = Some (Owned (forwarded_bytes (eng_Observer c) bytes))).
Proof.
  unfold handle_request, forwarded_bytes. unfold mbind at 1, M_bind at 1, modify. unfold try at 1, lift at 1.
  destruct (extractTaskMetadata bytes) as [[[req taskID] method]|e|e] eqn:Ex; [|by intros [= <- <- <-]; auto..].
  unfold mbind at 1, M_bind at 1, get. unfold try at 1, lift at 1.
  destruct (evaluatePolicy _ _ _) as [[action rule]|e|e]; [|by intros [= <- <- <-]; auto..].
  unfold try. destruct (applyRedactionAndSubmit env action rule bytes taskID method req _) as [o1 [c1 r1]] eqn:Ea.
  apply apply_body in Ea as (Hm & Hl & Hb); [|by eapply extract_method].
  assert (req_Method r1 = req_Method r ∧ req_ContentLength r1 = req_ContentLength r) as [Hm' Hl'] by done.
  assert (r' = r1 → req_Method r' = req_Method r ∧ req_ContentLength r' = req_ContentLength r ∧
    (req_Body r' = Some (View (buf_cell b) (buf_len b)) ∧
       match action with ActionRedact => match rule with
         | Some ru => match redactSensitiveData bytes (Redact ru) with Ok scrubbed => scrubbed | _ => bytes end
         | None => bytes end | _ => bytes end = bytes ∨
     req_Body r' = Some (Owned (match action with ActionRedact => match rule with
         | Some ru => match redactSensitiveData bytes (Redact ru) with Ok scrubbed => scrubbed | _ => bytes end
         | None => bytes end | _ => bytes end)))) as Hfin.
  { intros ->. split; [done|]. split; [done|]. rewrite Hb. unfold apply_body_of.
    destruct action, rule as [ru|]; auto. destruct (redactSensitiveData bytes (Redact ru)); auto. }
  destruct o1; intros [= <- <- <-]; auto.
Qed.


(** C24: the forwarded body is not safe.  Its bytes stay in the buffer that
    went back to the pool: when a second request of the same length is
    intercepted with that buffer before the first body has been read, the first
    body reads as the second request's bytes. *)
Theorem request_body_overwritten env1 env2 c r1 r2 bytes1 bytes2 o1 c1 r1' o2 c2 r2' cell n len1 len2 :
  cells_ok (eng_pool c) →
  r1 = mkRequest "POST" (Some (Wire bytes1 None)) len1 → r2 = mkRequest "POST" (Some (Wire bytes2 None)) len2 →
  String.length bytes1 = String.length bytes2 → Z.of_nat (String.length bytes1) + MinRead ≤ 4096 →
  ie_buffer env1 = None → ie_buffer env2 = Some 0%nat →
  InterceptRequest env1 (c, r1) = (o1, (c1, r1')) → req_Body r1' = Some (View cell n) →
  InterceptRequest env2 (c1, r2) = (o2, (c2, r2')) →
  read_body (eng_pool c1) (View cell n) = (bytes1, None) ∧
  read_body (eng_pool c2) (View cell n) = (bytes2, None).
Proof.
  intros Hc -> -> Hlen Hfit He1 He2 E1 Hb E2.
  destruct (intercept_steps env1 c (mkRequest "POST" (Some (Wire bytes1 None)) len1) (Wire bytes1 None) bytes1 Hc eq_refl eq_refl eq_refl)
    as (b0 & p0 & b & p & G1 & R1 & Hlt & Hc0 & Hv & Hi).
  rewrite Hi in E1. apply with_put_frame in E1 as (? & c1' & Hh & _ & Hst1 & Hp1); [|apply keeps_handle].
  rewrite He1 in G1. injection G1 as <- <-. unfold ReadFrom in R1. simpl in R1.
  rewrite (proj2 (Z.leb_le _ 4096) Hfit) in R1. injection R1 as <- <-. simpl in *.
  specialize (Hp1 ltac:(unfold maxBufferSize; lia)).
  apply handle_body in Hh as (_ & _ & [[Hh _]|Hh]); rewrite Hh in Hb; [|done]. injection Hb as <- <-.
  simpl in Hv. split; [rewrite <- Hv; by rewrite Hst1|].
  assert (cells_ok (eng_pool c1)) as Hc1.
  { unfold cells_ok in *. rewrite Hp1, Hst1. rewrite length_alter. constructor; [exact Hlt|exact Hc0]. }
  destruct (intercept_steps env2 c1 (mkRequest "POST" (Some (Wire bytes2 None)) len2) (Wire bytes2 None) bytes2 Hc1 eq_refl eq_refl eq_refl)
    as (b0' & p0' & b' & p' & G2 & R2 & _ & _ & Hv2 & Hi2).
  rewrite Hi2 in E2. apply with_put_frame in E2 as (? & c2' & _ & _ & Hst2 & _); [|apply keeps_handle].
  rewrite He2 in G2. unfold GetBuffer in G2. simpl in G2. rewrite Hp1 in G2. injection G2 as <- <-.
  unfold ReadFrom in R2. simpl in R2. rewrite <- Hlen, (proj2 (Z.leb_le _ 4096) Hfit) in R2.
  injection R2 as <- <-. simpl in Hv2, Hst2. rewrite Hst2. exact Hv2.
Qed.

(** ** What the ledger is told *)

(** A worker that can take one more event in drop mode. *)
Record has_room (w : Worker St) : Prop := {
  hr_ring : wf (ringBuffer w);
  hr_mode : backpressureMode w = BackpressureDrop;
  hr_open : chan_closed (signalChan w) = false;
  hr_room : closing w || IsFull (ringBuffer w) = false;
}.

(** The event a call submits, as far as its task, policy and data go. *)
Lemma submit_call_spec env taskID req rule c o c' : has_room (eng_Worker c) →
  pool_clean (eng_pool c) →
  submitToolCallEvent env taskID req rule c = (o, c') →
  o = Ok tt ∧ ∃ e, queue (eng_Worker c') = queue (eng_Worker c) ++ [Some e] ∧
    EventType e = "tool_call" ∧ Method e = mcp_Method req ∧ Params e = mcp_Params req ∧ TaskID e = taskID ∧
    PolicyID e = from_option rule_ID "" rule ∧ RiskLevel e = from_option rule_RiskLevel "" rule ∧
    ParentID e = (if nonempty taskID then default "" (LastEventByTask c !! taskID) else "") ∧
    Actor e = "".
Proof.
  intros [Hr Hm Hop Hroom] Hpl. unfold submitToolCallEvent.
  destruct (GetEvent_clean (ie_event env) (eng_pool c) Hpl) as (e0 & p1 & E0 & (_ & _ & He0) & _).
  unfold mbind at 1, M_bind at 1, eng_on_pool at 1. rewrite E0. cbn [fst snd].
  unfold mbind at 1, M_bind at 1, get. cbn [LastEventByTask].
  set (parent := if nonempty taskID then LastEventByTask c !! taskID else None).
  set (ev := call_event env taskID req rule parent e0).
  assert (submit_eq : ∀ c1 : E, eng_Worker c1 = eng_Worker c →
    eng_on_worker (Submit (ie_others env) (Some ev)) c1 =
    (Ok tt, mkEngine (set_signal (mkChan true false)
       (set_ring (pushed (ringBuffer (eng_Worker c)) (Some ev)) (eng_Worker c)))
       (ActiveTasks c1) (eng_Observer c1) (LastEventByTask c1) (eng_pool c1))).
  { intros c1 E1. unfold eng_on_worker. rewrite E1.
    destruct (submit_drop (ie_others env) ev (eng_Worker c) Hr Hm Hop) as [Hs _].
    rewrite Hroom in Hs. by rewrite Hs. }
  assert (∀ c1 : E, eng_Worker c1 = set_signal (mkChan true false)
       (set_ring (pushed (ringBuffer (eng_Worker c)) (Some ev)) (eng_Worker c)) →
    queue (eng_Worker c1) = queue (eng_Worker c) ++ [Some ev]) as Hq.
  { intros c1 ->. unfold queue. simpl. apply contents_pushed; [done|].
    apply orb_false_iff in Hroom as [_ Hf]. unfold IsFull in Hf. by apply Z.eqb_neq in Hf. }
  assert (EventType ev = "tool_call" ∧ Method ev = mcp_Method req ∧ Params ev = mcp_Params req ∧
    TaskID ev = taskID ∧ PolicyID ev = from_option rule_ID "" rule ∧
    RiskLevel ev = from_option rule_RiskLevel "" rule ∧
    ParentID ev = (if nonempty taskID then default "" (LastEventByTask c !! taskID) else "") ∧
    Actor ev = "") as Hev.
  { subst ev parent. rewrite He0. by destruct (nonempty taskID). }
  unfold mbind, M_bind, mret, M_ret, modify.
  destruct (nonempty taskID); rewrite submit_eq by done; intros [= <- <-];
    (split; [done|]); exists ev; (split; [by apply Hq|exact Hev]).
Qed.

Lemma string_or_empty_not_err c1 c2 m1 m2 s e : string_or_empty c1 c2 m1 m2 s ≠ Err e.
Proof. unfold string_or_empty. by destruct (Check c1 m1), (Check c2 m2). Qed.

Lemma policyID_not_err rule e : policyIDOrEmpty rule ≠ Err e.
Proof. destruct rule; [apply string_or_empty_not_err|done]. Qed.

Lemma riskLevel_not_err rule e : riskLevelOrEmpty rule ≠ Err e.
Proof. destruct rule; [apply string_or_empty_not_err|done]. Qed.

(** A redacting rule: the body is replaced, and the call submitted as decoded. *)
Lemma handle_redacts env b bytes req taskID method rule scr c r c' r' :
  extractTaskMetadata bytes = Ok (req, taskID, method) →
  evaluatePolicy (eng_Observer c) method (mcp_Params req) = Ok (ActionRedact, Some rule) →
  redactSensitiveData bytes (Redact rule) = Ok scr →
  handle_request env b bytes (c, r) = (Ok tt, (c', r')) →
  req_Body r' = Some (Owned scr) ∧
  ∃ o, submitToolCallEvent env taskID req (Some rule) c = (o, c').
Proof.
  intros Hx Hp Hs. pose proof (extract_method _ _ _ _ Hx) as Hm. apply nonempty_true in Hm.
  unfold handle_request. unfold mbind at 1, M_bind at 1, modify. unfold try at 1, lift at 1. rewrite Hx.
  unfold mbind at 1, M_bind at 1, get. unfold try at 1, lift at 1. rewrite Hp.
  unfold try, applyRedactionAndSubmit. unfold mbind at 1, M_bind at 1, lift at 1. rewrite Hm, Check_true.
  unfold mbind at 1, M_bind at 1. unfold mbind at 1, M_bind at 1, lift at 1. rewrite Hs. unfold modify.
  unfold mbind at 1, M_bind at 1, lift at 1.
  destruct (policyIDOrEmpty (Some rule)) as [?|e|] eqn:Ep; [|by apply policyID_not_err in Ep|done].
  unfold mbind at 1, M_bind at 1, lift at 1.
  destruct (riskLevelOrEmpty (Some rule)) as [?|e|] eqn:Er; [|by apply riskLevel_not_err in Er|done].
  unfold on_engine. destruct (submitToolCallEvent env taskID req (Some rule) c) as [o1 c1].
  cbn [fst snd]. unfold mret, M_ret. destruct o1; intros [= <- <-]; (split; [done|]); by eexists.
Qed.

(** C25: redaction does not reach the ledger.  When a request matches a
    rule that redacts, the forwarded body is the redacted one, but the event
    queued for the ledger carries the parameters as they were received. *)
Theorem redaction_not_recorded env c r wire bytes mcpReq taskID method rule c' r' :
  cells_ok (eng_pool c) → pool_clean (eng_pool c) → has_room (eng_Worker c) →
  req_Method r = "POST" → req_Body r = Some wire → read_body (eng_pool c) wire = (bytes, None) →
  extractTaskMetadata bytes = Ok (mcpReq, taskID, method) →
  evaluatePolicy (eng_Observer c) method (mcp_Params mcpReq) = Ok (ActionRedact, Some rule) →
  is_ok (redactSensitiveData bytes (Redact rule)) = true →
  InterceptRequest env (c, r) = (Ok tt, (c', r')) →
  (∃ scrubbed, redactSensitiveData bytes (Redact rule) = Ok scrubbed ∧
     req_Body r' = Some (Owned scrubbed)) ∧
  ∃ e, queue (eng_Worker c') = queue (eng_Worker c) ++ [Some e] ∧ Params e = mcp_Params mcpReq ∧
    PolicyID e = rule_ID rule.
Proof.
  intros Hc Hpl Hroom Hm Hb Hr Hx Hp Hred E.
  destruct (intercept_steps env c r wire bytes Hc Hm Hb Hr) as (b0 & p0 & b & p & G & R & _ & _ & _ & Hi).
  rewrite Hi in E. clear Hi.
  assert (pool_clean p) as Hpl'.
  { destruct Hpl as [He Hbf]. assert (pool_clean p0) as [He0 Hb0].
    { revert G. unfold GetBuffer. simpl. destruct (i ← _; _) as [[i x]|] eqn:Ei; intros [= <- <-]; simpl.
      - split; [done|]. by apply Forall_delete.
      - by split. }
    revert R. unfold ReadFrom. case_match; intros [= <- <-]; by split. }
  destruct (is_ok_Ok _ Hred) as [scr Hscr].
  apply with_put_worker in E as (c1 & Eh & Hw). rewrite <- Hw.
  apply (handle_redacts env b bytes mcpReq taskID method rule scr) in Eh as (Hbody & cs & Ecs); try done.
  split; [by exists scr|].
  apply submit_call_spec in Ecs as (_ & e & Hq & _ & _ & Hpar & _ & Hpol & _); [|done|done].
  by exists e.
Qed.

(** the parent of a task's next call is the last call submitted, whether
    or not the ledger got it: when the worker drops a call, the call is counted
    and not queued, yet it is remembered as the task's last event, so that the
    next one names a parent that is not in the ledger. *)
Theorem dropped_call_is_parent env taskID req rule c o c' :
  taskID ≠ "" → pool_clean (eng_pool c) → wf (ringBuffer (eng_Worker c)) →
  backpressureMode (eng_Worker c) = BackpressureDrop → chan_closed (signalChan (eng_Worker c)) = false →
  IsFull (ringBuffer (eng_Worker c)) = true →
  submitToolCallEvent env taskID req rule c = (o, c') →
  o = Ok tt ∧ queue (eng_Worker c') = queue (eng_Worker c) ∧
  metrics (eng_Worker c') = add_dropped (metrics (eng_Worker c)) ∧
  LastEventByTask c' !! taskID = Some (String.substring 0 8 (ie_uuid env)).
Proof.
  intros Ht Hpl Hr Hm Hop Hf. unfold submitToolCallEvent. apply nonempty_true in Ht. rewrite Ht.
  destruct (GetEvent_clean (ie_event env) (eng_pool c) Hpl) as (e0 & p1 & E0 & _).
  unfold mbind at 1, M_bind at 1, eng_on_pool at 1. rewrite E0. cbn [fst snd].
  unfold mbind, M_bind, get, modify, eng_on_worker. cbn [eng_Worker set_last].
  match goal with |- context [Submit ?o (Some ?e) ?w] =>
    destruct (submit_drop o e w Hr Hm Hop) as [Hs _] end.
  rewrite Hf, orb_true_r in Hs. rewrite Hs. cbn [fst snd]. intros [= <- <-]. split; [done|]. split; [done|].
  split; [done|]. cbn [LastEventByTask set_last]. apply lookup_insert_eq.
Qed.

(** ** Passive recording *)

(** No assertion of the interceptor stops the message [bytes] under the policy
    [obs]. *)
Record unobjectionable (obs : ObserverEngine) (bytes : string) : Prop := {
  ub_message : is_panic (extractTaskMetadata bytes) = false;
  ub_policy : ∀ req taskID method, extractTaskMetadata bytes = Ok (req, taskID, method) →
    is_panic (evaluatePolicy obs method (mcp_Params req)) = false;
  ub_rule : ∀ req taskID method action rule, extractTaskMetadata bytes = Ok (req, taskID, method) →
    evaluatePolicy obs method (mcp_Params req) = Ok (action, Some rule) →
    is_panic (policyIDOrEmpty (Some rule)) = false ∧ is_panic (riskLevelOrEmpty (Some rule)) = false ∧
    (action = ActionRedact → is_panic (redactSensitiveData bytes (Redact rule)) = false);
}.

(** [m] does not panic on an engine whose worker takes submissions in drop
    mode. *)
Definition safe (w : Worker St) : Prop :=
  wf (ringBuffer w) ∧ backpressureMode w = BackpressureDrop ∧
  (chan_closed (signalChan w) = true → closing w = true).

Lemma submit_np env taskID req rule c : safe (eng_Worker c) →
  (submitToolCallEvent env taskID req rule c).1 = Ok tt.
Proof.
  intros (Hr & Hm & Hc). unfold submitToolCallEvent. unfold mbind at 1, M_bind at 1, eng_on_pool at 1.
  destruct (GetEvent (ie_event env) (eng_pool c)) as [o p1] eqn:Eg.
  assert (∃ e0, o = Ok e0) as [e0 ->].
  { revert Eg. unfold GetEvent. destruct (i ← _; _) as [[]|]; intros [= <- _]; by eexists. }
  cbn [fst snd]. unfold mbind, M_bind, get, modify, mret, M_ret, eng_on_worker.
  destruct (nonempty taskID); cbn [eng_Worker set_last];
    match goal with |- context [Submit ?o (Some ?e) ?w] =>
      destruct (submit_drop_total o e w Hr Hm Hc) as [w' ->] end; done.
Qed.

Lemma rule_text_np obs bytes req taskID method action rule : unobjectionable obs bytes →
  extractTaskMetadata bytes = Ok (req, taskID, method) →
  evaluatePolicy obs method (mcp_Params req) = Ok (action, rule) →
  is_panic (policyIDOrEmpty rule) = false ∧ is_panic (riskLevelOrEmpty rule) = false.
Proof. intros [_ _ Hu] Hx He. destruct rule as [ru|]; [|done]. by destruct (Hu _ _ _ _ _ Hx He) as (? & ? & _). Qed.

Lemma handle_np env b bytes c r : unobjectionable (eng_Observer c) bytes → safe (eng_Worker c) →
  (handle_request env b bytes (c, r)).1 = Ok tt.
Proof.
  intros Hu Hs. pose proof Hu as [Hx Hpol Hrule]. unfold handle_request. unfold mbind at 1, M_bind at 1, modify.
  unfold try at 1, lift at 1. destruct (extractTaskMetadata bytes) as [[[req taskID] method]|e|e] eqn:Ex; [|done..].
  unfold mbind at 1, M_bind at 1, get. unfold try at 1, lift at 1. specialize (Hpol _ _ _ eq_refl).
  destruct (evaluatePolicy _ _ _) as [[action rule]|e|e] eqn:Ee; [|done..]. unfold try, applyRedactionAndSubmit.
  unfold mbind at 1, M_bind at 1, lift at 1. pose proof (extract_method _ _ _ _ Ex) as Hm%nonempty_true.
  rewrite Hm, Check_true.
  assert (∀ r1 : Request, match ((lift (policyIDOrEmpty rule);; lift (riskLevelOrEmpty rule);;
      on_engine (submitToolCallEvent env taskID req rule)) (c, r1) : _ * (E * Request)) with
    | (Panic _, _) => False | _ => True end) as Hrest.
  { intros r1. destruct (rule_text_np _ _ _ _ _ _ _ Hu Ex Ee) as [H5 H6]. unfold mbind, M_bind, lift, on_engine.
    destruct (policyIDOrEmpty rule); [|done..]. destruct (riskLevelOrEmpty rule); [|done..].
    pose proof (submit_np env taskID req rule c Hs) as Hn.
    destruct (submitToolCallEvent env taskID req rule c) as [o1 c1]. simpl in *. by subst o1. }
  unfold mbind at 1, M_bind at 1.
  match goal with |- context [(?m (c, ?r0) : outcome unit * (E * Request))] =>
    assert (∃ o1 r1, m (c, r0) = (o1, (c, r1)) ∧ is_panic o1 = false) as (o1 & r1 & -> & Ho1) end.
  { destruct action, rule as [ru|]; try (by eexists _, _).
    destruct (Hrule _ _ _ _ _ eq_refl Ee) as (_ & _ & Hred). specialize (Hred eq_refl).
    unfold mbind, M_bind, lift, modify.
    destruct (redactSensitiveData bytes (Redact ru)); [by eexists _, _..|discriminate Hred]. }
  destruct o1 as [[]|e|e]; [|done..]. specialize (Hrest r1).
  match type of Hrest with match ?x with _ => _ end => destruct x as [[] ?] end; done.
Qed.

(** The message a request carries, if it carries one. *)
Definition carries (c : E) (r : Request) (P : string → Prop) : Prop :=
  ∀ wire bytes, req_Method r = "POST" → req_Body r = Some wire → read_body (eng_pool c) wire = (bytes, None) → P bytes.

(** Intercepting a request no assertion stops returns, without an error,
    whatever its method, its policy match and the state of the queue. *)
Lemma InterceptRequest_returns env c r :
  carries c r (unobjectionable (eng_Observer c)) → safe (eng_Worker c) → (InterceptRequest env (c, r)).1 = Ok tt.
Proof.
  intros Hu Hs. unfold InterceptRequest. unfold mbind at 1, M_bind at 1, get.
  destruct (String.eqb_spec (req_Method r) "POST") as [Hm|]; [|done].
  destruct (req_Body r) as [wire|] eqn:Hb; [|done].
  destruct (GetBuffer (ie_buffer env) (eng_pool c)) as [o0 p0] eqn:Eg.
  assert (∃ b0, o0 = Ok b0) as [b0 ->].
  { revert Eg. unfold GetBuffer. destruct (i ← _; _) as [[]|]; intros [= <- _]; by eexists. }
  assert (on_engine (eng_on_pool (GetBuffer (ie_buffer env))) (c, r) = (Ok b0, (set_pool p0 c, r))) as F0
    by (unfold on_engine, eng_on_pool; by rewrite Eg).
  cbn [negb]. unfold mbind at 1, M_bind at 1. rewrite F0.
  destruct (read_body (eng_pool c) wire) as [bytes err] eqn:Hr.
  destruct (ReadFrom b0 bytes (ie_newcap env) (ie_spill env) p0) as [o1 p1] eqn:Er.
  assert (∃ b, o1 = Ok b) as [b ->] by (revert Er; unfold ReadFrom; case_match; intros [= <- _]; by eexists).
  assert (on_engine (eng_on_pool (ReadFrom b0 bytes (ie_newcap env) (ie_spill env))) (set_pool p0 c, r) =
          (Ok b, (set_pool p1 c, r))) as F1 by (unfold on_engine, eng_on_pool; simpl; by rewrite Er).
  unfold mbind at 1, M_bind at 1. rewrite F1. unfold mbind, M_bind, modify. rewrite with_put_outcome.
  destruct err; [done|]. apply handle_np; [|done]. by eapply Hu.
Qed.

Lemma bind_np {A B} (o : outcome A) (f : A → outcome B) :
  is_panic o = false → (∀ a, is_panic (f a) = false) → is_panic (o ≫= f) = false.
Proof. destruct o; [|done..]. intros _ Hf. apply Hf. Qed.

(** *** Messages and policies within the limits *)

(** The policy file fits the interceptor's limits. *)
Record policy_fits (obs : ObserverEngine) : Prop := {
  pf_count : (length (GetPolicies obs) ≤ maxPolicies)%nat;
  pf_rules : Forall rule_ok (GetPolicies obs);
  pf_texts : Forall (λ rule, rule_ID rule ≠ "" ∧ (String.length (rule_ID rule) ≤ 128)%nat ∧
    rule_RiskLevel rule ≠ "" ∧ (String.length (rule_RiskLevel rule) ≤ 32)%nat) (GetPolicies obs);
  pf_keys : Forall (λ rule, (length (Redact rule) ≤ maxRedactKeys)%nat) (GetPolicies obs);
}.

(** A message the interceptor's assertions let pass: not empty, below a megabyte,
    and, when it is a JSON-RPC message at all, a call of version 2.0 with
    parameters. *)
Record message_fits (bytes : string) : Prop := {
  mf_size : 0 < Z.of_nat (String.length bytes) < 1024 * 1024;
  mf_request : ∀ req, decode_request bytes = Ok req →
    mcp_Method req ≠ "" ∧ JSONRPC req = "2.0" ∧ is_Some (mcp_Params req) ∧ map_len (mcp_Params req) ≤ maxParams;
}.

Section Passive.
Hypothesis decode_np : ∀ s, is_panic (decode_request s) = false.
Hypothesis encode_np : ∀ r, is_panic (encode_request r) = false.

Lemma fits_extract bytes : message_fits bytes →
  is_panic (extractTaskMetadata bytes) = false ∧
  ∀ req taskID method, extractTaskMetadata bytes = Ok (req, taskID, method) →
    decode_request bytes = Ok req ∧ method ≠ "" ∧ is_Some (mcp_Params req) ∧ map_len (mcp_Params req) ≤ maxParams.
Proof.
  intros [Hsize Hreq]. assert (nonempty bytes = true) as Hne by (apply nonempty_true; intros ->; simpl in Hsize; lia).
  unfold extractTaskMetadata. rewrite Hne, (proj2 (Z.ltb_lt _ _)) by lia. rewrite !Check_true.
  pose proof (decode_np bytes) as Hd. destruct (decode_request bytes) as [req|e|e] eqn:Ed; [|done..].
  destruct (Hreq req eq_refl) as (Hm & Hv & Hp & Hl). unfold mbind, outcome_bind, wrap_err.
  rewrite (proj2 (nonempty_true _) Hm), (proj2 (String.eqb_eq _ _) Hv), !Check_true.
  split; [done|]. by intros ? ? ? [= <- <- <-].
Qed.

Lemma fits_policy obs method params : policy_fits obs → method ≠ "" →
  ∃ action rule, evaluatePolicy obs method (Some params) = Ok (action, rule) ∧
    (∀ ru, rule = Some ru → ru ∈ GetPolicies obs ∧ action = rule_action ru).
Proof.
  intros [Hl Hok _ _] Hm. unfold evaluatePolicy. rewrite (proj2 (nonempty_true method) Hm).
  rewrite (proj2 (Nat.leb_le _ _) Hl), !Check_true. unfold mbind, outcome_bind.
  rewrite policy_loop_eq by (done || lia). rewrite drop_0.
  destruct (List.find _ _) as [ru|] eqn:Ef; eexists _, _; (split; [done|]); [|done].
  intros ? [= <-]. apply find_some in Ef as [Hin _]. split; [by apply list_elem_of_In|done].
Qed.

Lemma fits_redact bytes req keys : decode_request bytes = Ok req → map_len (mcp_Params req) ≤ maxParams →
  bytes ≠ "" → keys ≠ [] → (length keys ≤ maxRedactKeys)%nat → is_panic (redactSensitiveData bytes keys) = false.
Proof.
  intros Hd Hl Hb Hk Hn. unfold redactSensitiveData. rewrite (proj2 (nonempty_true _) Hb), Check_true.
  unfold mbind at 1, outcome_bind at 1. replace (0 <? length keys)%nat with true by (by destruct keys).
  rewrite Check_true, (proj2 (Nat.leb_le _ _) Hn), Check_true, Hd. unfold mbind, outcome_bind.
  rewrite (proj2 (Z.leb_le _ _) Hl), Check_true. apply encode_np.
Qed.

Lemma fits_unobjectionable obs bytes : policy_fits obs → message_fits bytes → unobjectionable obs bytes.
Proof.
  intros Hp Hf. destruct (fits_extract bytes Hf) as [Hx Hreq]. split; [done| |].
  - intros req taskID method Ex. destruct (Hreq _ _ _ Ex) as (_ & Hm & [ps ->] & _).
    by destruct (fits_policy obs method ps Hp Hm) as (a & r & -> & _).
  - intros req taskID method action rule Ex Ee. destruct (Hreq _ _ _ Ex) as (Hd & Hm & [ps Eps] & Hl).
    rewrite Eps in Ee. destruct (fits_policy obs method ps Hp Hm) as (a & r & Ee' & Hin).
    rewrite Ee in Ee'. injection Ee' as <- <-. destruct (Hin rule eq_refl) as [Hin' Hact]. clear Hin. rename Hin' into Hin.
    destruct Hp as [_ _ Htx Hks]. rewrite Forall_forall in Htx, Hks. destruct (Htx _ Hin) as (I1 & I2 & I3 & I4).
    unfold policyIDOrEmpty, riskLevelOrEmpty, string_or_empty.
    rewrite (proj2 (nonempty_true _) I1), (proj2 (Nat.leb_le _ _) I2), (proj2 (nonempty_true _) I3),
      (proj2 (Nat.leb_le _ _) I4), !Check_true. split; [done|]. split; [done|]. intros ->.
    apply (fits_redact bytes req); try done.
    + intros ->. destruct Hf as [[Hsz _] _]. simpl in Hsz. lia.
    + intros Hnil. unfold rule_action in Hact. by rewrite Hnil in Hact.
    + by apply Hks.
Qed.

(** *** Without strict assertions *)

Section Lenient.
Hypothesis lenient : StrictMode = false.

Lemma Check_np b m : is_panic (Check b m) = false.
Proof. unfold Check. rewrite lenient. by destruct b. Qed.

Lemma check_or_false_np b m k : is_panic k = false → is_panic (check_or_false b m k) = false.
Proof. unfold check_or_false. pose proof (Check_np b m). by destruct (Check b m). Qed.

Lemma MatchPattern_np p m : is_panic (MatchPattern p m) = false.
Proof. unfold MatchPattern. do 2 apply check_or_false_np. case_match; [done|]. by case_match. Qed.

Lemma CheckConditions_np cs ps : is_panic (CheckConditions cs ps) = false.
Proof. unfold CheckConditions. destruct cs; [done|]. by do 2 apply check_or_false_np. Qed.

Lemma pattern_loop_np n j rule method params : is_panic (pattern_loop n j rule method params) = false.
Proof.
  revert j. induction n as [|n IH]; intros j; [done|]. cbn [pattern_loop].
  destruct (MatchMethods rule !! j); [|done]. apply bind_np; [apply MatchPattern_np|]. intros [|]; [|apply IH].
  destruct (MatchConditions rule); [done|]. apply bind_np; [apply CheckConditions_np|].
  intros [|]; [done|apply IH].
Qed.

Lemma policy_loop_np n i policies method params : is_panic (policy_loop n i policies method params) = false.
Proof.
  revert i. induction n as [|n IH]; intros i; [done|]. cbn [policy_loop].
  destruct (policies !! i); [|done]. do 2 (apply bind_np; [apply Check_np|intros _]).
  apply bind_np; [apply pattern_loop_np|]. intros [|]; [done|apply IH].
Qed.

Lemma extract_np bytes : is_panic (extractTaskMetadata bytes) = false.
Proof.
  unfold extractTaskMetadata. do 2 (apply bind_np; [apply Check_np|intros _]).
  apply bind_np; [pose proof (decode_np bytes); unfold wrap_err; by destruct (decode_request bytes)|].
  intros req. by do 2 (apply bind_np; [apply Check_np|intros _]).
Qed.

Lemma redact_np bytes keys : is_panic (redactSensitiveData bytes keys) = false.
Proof.
  unfold redactSensitiveData. apply bind_np; [apply Check_np|intros _].
  pose proof (Check_np (0 <? length keys)%nat "redaction keys must be defined").
  destruct (Check (0 <? length keys)%nat _); [|done..].
  apply bind_np; [apply Check_np|intros _]. apply bind_np; [apply decode_np|intros].
  apply bind_np; [apply Check_np|intros _]. apply encode_np.
Qed.

Lemma string_or_empty_np c1 c2 m1 m2 s : is_panic (string_or_empty c1 c2 m1 m2 s) = false.
Proof.
  unfold string_or_empty. pose proof (Check_np c1 m1). pose proof (Check_np c2 m2).
  by destruct (Check c1 m1), (Check c2 m2).
Qed.

Lemma lenient_text_np rule :
  is_panic (policyIDOrEmpty rule) = false ∧ is_panic (riskLevelOrEmpty rule) = false.
Proof. destruct rule; [split; apply string_or_empty_np|done]. Qed.

Lemma lenient_unobjectionable obs bytes : unobjectionable obs bytes.
Proof.
  split; [apply extract_np| |].
  - intros req taskID method _. unfold evaluatePolicy. do 2 (apply bind_np; [apply Check_np|intros _]).
    apply policy_loop_np.
  - intros req taskID method action rule _ _. destruct (lenient_text_np (Some rule)) as [H5 H6].
    split; [done|]. split; [done|]. intros _. apply redact_np.
Qed.

End Lenient.

(** The two settings in which the interceptor stops no message: assertions that
    return errors, or a message and a policy within the limits. *)
Definition acceptable (obs : ObserverEngine) (bytes : string) : Prop :=
  StrictMode = false ∨ (policy_fits obs ∧ message_fits bytes).

Lemma acceptable_unobjectionable obs bytes : acceptable obs bytes → unobjectionable obs bytes.
Proof. intros [Hl|[Hp Hm]]; [by apply lenient_unobjectionable|by apply fits_unobjectionable]. Qed.

(** Fail-open.  Without strict assertions, or with them when the policy and the
    message are within the limits, intercepting a request returns without an error
    or a panic, whatever its method, its policy match and the state of the queue:
    traffic goes on to the proxy. *)
Theorem InterceptRequest_fail_open env c r :
  carries c r (acceptable (eng_Observer c)) → safe (eng_Worker c) → (InterceptRequest env (c, r)).1 = Ok tt.
Proof.
  intros Ha. apply InterceptRequest_returns. intros wire bytes Hm Hb Hr.
  apply acceptable_unobjectionable. by eapply Ha.
Qed.

End Passive.

(** with strict assertions, the default, a request the interceptor does
    not like is not passed on: a JSON-RPC message of another version makes
    [InterceptRequest] panic. *)
Theorem strict_mode_blocks env c r wire bytes req :
  StrictMode = true → cells_ok (eng_pool c) →
  req_Method r = "POST" → req_Body r = Some wire → read_body (eng_pool c) wire = (bytes, None) →
  decode_request bytes = Ok req → JSONRPC req ≠ "2.0" →
  is_panic (InterceptRequest env (c, r)).1 = true.
Proof.
  intros Hst Hc Hm Hb Hr Hd Hv.
  destruct (intercept_steps env c r wire bytes Hc Hm Hb Hr) as (b0 & p0 & b & p & _ & _ & _ & _ & _ & ->).
  rewrite with_put_outcome. unfold handle_request. unfold mbind at 1, M_bind at 1, modify.
  unfold try at 1, lift at 1.
  assert (is_panic (extractTaskMetadata bytes) = true) as Hp.
  { unfold extractTaskMetadata, Check. rewrite Hst, Hd. destruct (nonempty bytes); [|done]. simpl.
    destruct (_ <? _); [|done]. simpl. destruct (nonempty (mcp_Method req)); [|done]. simpl.
    by rewrite (proj2 (String.eqb_neq _ _) Hv). }
  destruct (extractTaskMetadata bytes); done.
Qed.

End Interceptor.
