(* ===== verification/Api.v ===== *)
(** * internal/api: the admin server's handlers

    [internal/api/handlers.go]: key rotation, pool statistics, the liveness and
    readiness probes and the Prometheus export.  The pointers of a handler may
    be nil; a response writer may fail any write.  The admin token, the
    entropy and the faults of the key file are arguments. *)
From S2P Require Import Ring Prelude Assert Models Sha256 Crypto Repository Pool Chain Anchor Processor Genesis Verify Worker Observer Interceptor.
(** ** net/http *)

(** A response being written: the status once it is sent, the content type, the
    body, and for each write to come how it fails, if it does: after how many
    bytes, and with which error. *)
Record ResponseWriter := mkWriter {
  rw_status : option Z;
  rw_type : string;
  rw_body : string;
  rw_faults : list (option (nat * error));
}.

Definition StatusOK : Z := 200.
Definition StatusUnauthorized : Z := 401.
Definition StatusMethodNotAllowed : Z := 405.
Definition StatusInternalServerError : Z := 500.
Definition StatusServiceUnavailable : Z := 503.

(** The status can be sent once. *)
Definition WriteHeader (code : Z) (w : ResponseWriter) : ResponseWriter :=
  match rw_status w with
  | Some _ => w
  | None => mkWriter (Some code) (rw_type w) (rw_body w) (rw_faults w)
  end.

Definition set_type (t : string) (w : ResponseWriter) : ResponseWriter :=
  mkWriter (rw_status w) t (rw_body w) (rw_faults w).

Definition Write (s : string) : M ResponseWriter unit := λ w0,
  let w := WriteHeader StatusOK w0 in
  match rw_faults w with
  | [] => (Ok tt, mkWriter (rw_status w) (rw_type w) (rw_body w +:+ s) [])
  | None :: f => (Ok tt, mkWriter (rw_status w) (rw_type w) (rw_body w +:+ s) f)
  | Some (n, e) :: f =>
      (Err e, mkWriter (rw_status w) (rw_type w) (rw_body w +:+ String.substring 0 n s) f)
  end.

Definition newline : string := String "010" "".

(** [http.Error]. *)
Definition http_Error (msg : string) (code : Z) : M ResponseWriter unit :=
  modify (λ w, WriteHeader code (set_type "text/plain; charset=utf-8" w));;
  try (Write (msg +:+ newline)) (λ _, mret tt).

(** A write whose error is only logged. *)
Definition write_logged (s : string) : M ResponseWriter unit := try (Write s) (λ _, mret tt).

(** ** Data *)

(** A pointer to the core engine: nil, with a nil worker, or complete. *)
Inductive core_ptr (St : Type) :=
| CoreNil
| CoreNoWorker
| CoreAt (c : Engine St).
Arguments CoreNil {St}.
Arguments CoreNoWorker {St}.
Arguments CoreAt {St} c.

Record prometheusMetrics := mkPromMetrics {
  pm_PoolEventHits : Z;
  pm_PoolEventMisses : Z;
  pm_EventsProcessed : Z;
  pm_EventsDropped : Z;
  pm_EventsBlocked : Z;
  pm_BackpressureMode : string;
  pm_ActiveTasks : Z;
  pm_QueueDepth : Z;
  pm_QueueCapacity : Z;
  pm_LatencyMetrics : LatencySnapshot;
}.

(** [json.Encode] of the pool metrics, [%.6f] of nanoseconds in seconds. *)
Class ApiFmt := {
  encode_metrics : Metrics → outcome string;
  fmt_seconds : Z → string;
}.

Definition maxActiveTasks : Z := 10000.
Definition maxBuckets : nat := 20.

Section Api.
Context `{AssertMode} `{Ed25519} `{ApiFmt} {St : Type}.

(** The accessors of the worker's pointers. *)
Definition GetSigner (w : Worker St) : option Signer := Some (w_signer w).
Definition GetDB (w : Worker St) : option St := Some (w_db w).

(** ** HandleRekey *)

Record http_request := mkHttpRequest { hr_Method : string; hr_AdminToken : string }.

Definition set_signer (s : Signer) (w : Worker St) : Worker St :=
  mkWorker (ringBuffer w) (signalChan w) (quit_closed w) (w_db w) s (w_runID w) (processor w)
    (backpressureMode w) (isUnhealthy w) (metrics w) (closing w).

Definition set_worker (w : Worker St) (c : Engine St) : Engine St :=
  mkEngine w (ActiveTasks c) (eng_Observer c) (LastEventByTask c) (eng_pool c).

(** The state: the engine, the files and the response. *)
Abbreviation A := (Engine St * files * ResponseWriter)%type.

Definition on_writer {X} (m : M ResponseWriter X) : M A X := λ '(c, fs, w),
  let r := m w in (r.1, (c, fs, r.2)).

(** [h.Core.Worker.GetSigner().RotateKey(".logryph_key")]. *)
Definition rotate (entropy : outcome string) (fault : option write_fault) : M A (string * string) :=
  λ '(c, fs, w),
  let '(o, (s', fs')) := RotateKey ".logryph_key" entropy fault (w_signer (eng_Worker c), fs) in
  (o, (set_worker (set_signer s' (eng_Worker c)) c, fs', w)).

(** [token]: the value of LOGRYPH_ADMIN_TOKEN. *)
Definition HandleRekey (token : string) (entropy : outcome string) (fault : option write_fault)
    (r : http_request) : M A unit :=
  if negb (String.eqb (hr_Method r) "POST")
  then on_writer (http_Error "Method not allowed" StatusMethodNotAllowed) else
  if nonempty token && negb (String.eqb (hr_AdminToken r) token)
  then on_writer (http_Error "Unauthorized" StatusUnauthorized) else
  try (rotate entropy fault) (λ x, match x with
    | inr e => on_writer (http_Error (Error e) StatusInternalServerError)
    | inl (oldPubKey, newPubKey) =>
        on_writer (write_logged ("Key rotated" +:+ newline +:+ "Old: " +:+ oldPubKey +:+ newline +:+
                                 "New: " +:+ newPubKey))
    end).

(** ** Statistics and probes *)

Definition HandleStats (pl : Pool) : M ResponseWriter unit :=
  modify (set_type "application/json");;
  match encode_metrics (GetMetrics pl) with
  | Ok s => write_logged s
  | Err _ => mret tt
  | Panic e => lift (Panic e)
  end.

Definition HandleHealth : M ResponseWriter unit :=
  or_return (NotNil (IPtr "api.Handlers" false) "handlers") (
  modify (WriteHeader StatusOK);;
  write_logged "ok").

Definition unavailable (msg : string) : M ResponseWriter unit :=
  http_Error msg StatusServiceUnavailable.

(** A failed assertion answers that the service is unavailable. *)
Definition or_unavailable (o : outcome unit) (k : M ResponseWriter unit) : M ResponseWriter unit :=
  match o with
  | Ok _ => k
  | Err _ => unavailable "service unavailable"
  | Panic e => lift (Panic e)
  end.

Definition ready (w : Worker St) : M ResponseWriter unit :=
  if negb (IsHealthy w) then unavailable "worker unhealthy" else
  match GetSigner w with
  | None => unavailable "signer unavailable"
  | Some _ =>
      match GetDB w with
      | None => unavailable "database unavailable"
      | Some _ => modify (WriteHeader StatusOK);; write_logged "ready"
      end
  end.

(** The three assertions look at pointers inside interfaces, so they accept nil
    ones: reading the worker of a nil core panics, and the accessor of a nil
    worker asserts. *)
Definition HandleReady (h : core_ptr St) : M ResponseWriter unit :=
  or_unavailable (NotNil (IPtr "api.Handlers" false) "handlers") (
  or_unavailable (NotNil (IPtr "core.Engine" (match h with CoreNil => true | _ => false end)) "core") (
  match h with
  | CoreNil => lift (Panic nil_deref)
  | CoreNoWorker =>
      or_unavailable (NotNil (IPtr "ledger.Worker" true) "worker") (
      match Check false "worker handle is nil" with
      | Panic e => lift (Panic e)
      | _ => unavailable "worker unhealthy"
      end)
  | CoreAt c =>
      or_unavailable (NotNil (IPtr "ledger.Worker" false) "worker") (ready (eng_Worker c))
  end)).

(** ** Prometheus *)

(** A failed assertion that is only logged. *)
Definition warn (o : outcome unit) : outcome unit := or_else o (λ _, Ok tt).

Definition collectMetrics (h : core_ptr St) : outcome prometheusMetrics :=
  match h with
  | CoreNil | CoreNoWorker => Panic nil_deref
  | CoreAt c =>
      let w := eng_Worker c in
      let poolMetrics := GetMetrics (eng_pool c) in
      let '(proc, drop) := Stats w in
      let '(queueDepth, queueCap) := QueueDepth w in
      let latency := LatencyMetrics w in
      let blocked := BlockedSubmits w in
      mode ← BackpressureMode w;
      let modeLabel := if mode =? BackpressureBlock then "block" else "drop" in
      warn (Check (0 <=? queueCap) "queue capacity must be non-negative");;
      let tasks := Z.min (Z.of_nat (size (ActiveTasks c))) maxActiveTasks in
      warn (Check (tasks <=? maxActiveTasks) ("active tasks exceeded cap: " +:+ pretty tasks));;
      Ok (mkPromMetrics (EventHits poolMetrics) (EventMisses poolMetrics) proc drop blocked modeLabel
            tasks queueDepth queueCap latency)
  end.

(** The lines before the histogram. *)
Definition prom_lines (m : prometheusMetrics) : list string :=
  [
   "# HELP logryph_pool_event_hits_total Total hits on the event pool";
   "# TYPE logryph_pool_event_hits_total counter";
   "logryph_pool_event_hits_total " +:+ pretty (pm_PoolEventHits m);
   "# HELP logryph_pool_event_misses_total Total misses (allocations) in the event pool";
   "# TYPE logryph_pool_event_misses_total counter";
   "logryph_pool_event_misses_total " +:+ pretty (pm_PoolEventMisses m);
   "# HELP logryph_ledger_events_processed_total Total events successfully written to the ledger";
   "# TYPE logryph_ledger_events_processed_total counter";
   "logryph_ledger_events_processed_total " +:+ pretty (pm_EventsProcessed m);
   "# HELP logryph_ledger_events_dropped_total Total events dropped due to backpressure";
   "# TYPE logryph_ledger_events_dropped_total counter";
   "logryph_ledger_events_dropped_total " +:+ pretty (pm_EventsDropped m);
   "# HELP logryph_ledger_events_blocked_total Total submit attempts blocked by backpressure";
   "# TYPE logryph_ledger_events_blocked_total counter";
   "logryph_ledger_events_blocked_total " +:+ pretty (pm_EventsBlocked m);
   "# HELP logryph_ledger_backpressure_mode Current backpressure mode (drop|block)";
   "# TYPE logryph_ledger_backpressure_mode gauge";
   dquoted "logryph_ledger_backpressure_mode{mode='" +:+ pm_BackpressureMode m +:+ dquoted "'} 1";
   "# HELP logryph_engine_active_tasks_total Number of currently active causal tasks";
   "# TYPE logryph_engine_active_tasks_total gauge";
   "logryph_engine_active_tasks_total " +:+ pretty (pm_ActiveTasks m);
   "# HELP logryph_ledger_queue_depth Current queue depth";
   "# TYPE logryph_ledger_queue_depth gauge";
   "logryph_ledger_queue_depth " +:+ pretty (pm_QueueDepth m);
   "# HELP logryph_ledger_queue_capacity Queue capacity";
   "# TYPE logryph_ledger_queue_capacity gauge";
   "logryph_ledger_queue_capacity " +:+ pretty (pm_QueueCapacity m)].

(** Writing lines until a write fails: whether all were written. *)
Fixpoint write_lines (lines : list string) : M ResponseWriter bool :=
  match lines with
  | [] => mret true
  | s :: rest =>
      try (Write (s +:+ newline)) (λ r, match r with
        | inr _ => mret false
        | inl _ => write_lines rest
        end)
  end.

Definition bucket_label (upper : Z) : string :=
  if upper =? max_uint64 then "+Inf" else fmt_seconds upper.

Definition bucket_line (upper count : Z) : string :=
  dquoted "logryph_ledger_event_latency_seconds_bucket{le='" +:+ bucket_label upper +:+ dquoted "'} " +:+
  pretty count.

(** The bucket loop from index [i], at most [n] rounds. *)
Fixpoint bucket_loop (n i : nat) (latency : LatencySnapshot) : M ResponseWriter bool :=
  match n with
  | O => mret true
  | S n' =>
      match BoundsNs latency !! i with
      | None => mret true
      | Some upper =>
          match Counts latency !! i with
          | None => lift (Panic (ENew "runtime error: index out of range"))
          | Some count =>
              ok ← write_lines [bucket_line upper count];
              if (ok : bool) then bucket_loop n' (S i) latency else mret false
          end
      end
  end.

Definition formatLatencyHistogram (latency : LatencySnapshot) : M ResponseWriter unit :=
  ok ← write_lines ["# HELP logryph_ledger_event_latency_seconds Event processing latency";
                    "# TYPE logryph_ledger_event_latency_seconds histogram"];
  if negb ok then mret tt else
  ok ← bucket_loop maxBuckets 0 latency;
  if negb ok then mret tt else
  write_lines ["logryph_ledger_event_latency_seconds_sum " +:+ fmt_seconds (SumNs latency);
               "logryph_ledger_event_latency_seconds_count " +:+ pretty (Count latency)];;
  mret tt.

Definition formatPrometheusText (m : prometheusMetrics) : M ResponseWriter unit :=
  ok ← write_lines (prom_lines m);
  if negb ok then mret tt else formatLatencyHistogram (pm_LatencyMetrics m).

(** The assertions on [h] and [h.Core] accept nil pointers too. *)
Definition HandlePrometheus (h : core_ptr St) : M ResponseWriter unit :=
  metrics ← lift (collectMetrics h);
  modify (set_type "text/plain; version=0.0.4; charset=utf-8");;
  formatPrometheusText metrics.

(** ** What the handlers answer *)

(** A response of which nothing is sent yet. *)
Definition unsent (w : ResponseWriter) : Prop := rw_status w = None ∧ rw_body w = "".

Lemma write_logged_spec s (w : ResponseWriter) :
  ∃ w', write_logged s w = (Ok tt, w') ∧ rw_status w' = Some (default StatusOK (rw_status w)).
Proof.
  unfold write_logged, try, Write, WriteHeader. destruct w as [[code|] ty b [|[[n e]|] f]]; eauto.
Qed.

Lemma http_Error_spec msg code (w : ResponseWriter) : unsent w →
  ∃ w', http_Error msg code w = (Ok tt, w') ∧ rw_status w' = Some code.
Proof.
  intros [Hs _]. unfold http_Error, mbind, M_bind, modify.
  set (w1 := WriteHeader _ _). destruct (write_logged_spec (msg +:+ newline) w1) as (w' & E & Hw').
  exists w'. split; [exact E|]. rewrite Hw'. unfold w1, WriteHeader, set_type. cbn [rw_status].
  by rewrite Hs.
Qed.

(** A rotation changes the signer of the worker and the key file, at most. *)
Lemma rotate_eq entropy fault c fs w :
  rotate entropy fault (c, fs, w) =
  let r := RotateKey ".logryph_key" entropy fault (w_signer (eng_Worker c), fs) in
  (r.1, (set_worker (set_signer r.2.1 (eng_Worker c)) c, r.2.2, w)).
Proof. unfold rotate. by destruct (RotateKey _ _ _ _) as [o [s' fs']]. Qed.

(** The engine of a failed rotation is the engine before it. *)
Lemma set_same_signer (c : Engine St) : set_worker (set_signer (w_signer (eng_Worker c)) (eng_Worker c)) c = c.
Proof. by destruct c as [[] ? ? ? ?]. Qed.

(** What a rotation request does, by what the request, the entropy and the key
    file are. *)
Definition rekeyed (token : string) (entropy : outcome string) (fault : option write_fault) (r : http_request) (c : Engine St) (fs : files)
    (status : Z) (c' : Engine St) (fs' : files) : Prop :=
  if negb (String.eqb (hr_Method r) "POST") then status = StatusMethodNotAllowed ∧ c' = c ∧ fs' = fs
  else if nonempty token && negb (String.eqb (hr_AdminToken r) token)
  then status = StatusUnauthorized ∧ c' = c ∧ fs' = fs
  else (∀ q, q ≠ ".logryph_key" → fs' !! q = fs !! q) ∧
    match entropy, fault with
    | Ok seed, None => status = StatusOK ∧ key_stored ".logryph_key" (keypair seed) fs' ∧
        c' = set_worker (set_signer (keypair seed) (eng_Worker c)) c
    | _, _ => status = StatusInternalServerError ∧ c' = c
    end.

(** The cases of the handler, in order. *)
Lemma rekey_spec token entropy fault r c fs w :
  unsent w → is_panic entropy = false →
  ∃ c' fs' w' status, HandleRekey token entropy fault r (c, fs, w) = (Ok tt, (c', fs', w')) ∧
    rw_status w' = Some status ∧ rekeyed token entropy fault r c fs status c' fs'.
Proof.
  intros Hw Hp. unfold HandleRekey, rekeyed. destruct (negb (String.eqb _ "POST")).
  { destruct (http_Error_spec "Method not allowed" StatusMethodNotAllowed w Hw) as (w' & E & Hs).
    unfold on_writer. rewrite E. by eexists c, fs, w', _. }
  destruct (nonempty token && _).
  { destruct (http_Error_spec "Unauthorized" StatusUnauthorized w Hw) as (w' & E & Hs).
    unfold on_writer. rewrite E. by eexists c, fs, w', _. }
  unfold try. rewrite rotate_eq. cbv zeta.
  pose proof (RotateKey_spec ".logryph_key" entropy fault (w_signer (eng_Worker c)) fs Hp) as [Hfs Hr].
  destruct (RotateKey _ _ _ _) as [o [s' fs']]. cbn [fst snd] in *. destruct o as [[old new]|e|e]; [..|done].
  - destruct Hr as (_ & _ & (seed & -> & ->) & Hst & ->). unfold on_writer.
    destruct (write_logged_spec ("Key rotated" +:+ newline +:+ "Old: " +:+ old +:+ newline +:+ "New: " +:+ new) w)
      as (w' & E & Hs). rewrite E. destruct Hw as [Hw _]. rewrite Hw in Hs.
    eexists _, fs', w', _. split; [done|]. split; [exact Hs|]. split; [exact Hfs|]. by split.
  - destruct Hr as [-> Hwhy]. destruct (http_Error_spec (Error e) StatusInternalServerError w Hw) as (w' & E & Hs).
    unfold on_writer. rewrite E. rewrite set_same_signer. eexists c, fs', w', _. split; [done|]. split; [exact Hs|].
    split; [exact Hfs|]. destruct entropy as [seed|?|?]; [|done..]. by destruct fault, Hwhy.
Qed.

(** C13: [HandleRekey] answers every request, and an unauthorised one
    changes nothing.  Not a POST: 405; a configured token that the header does
    not repeat: 401; in both cases engine and files are as before.  Else the
    key is rotated: 200, with the key pair of the entropy read installed in the
    running worker and stored in the key file, or, exactly when there is no entropy
    or the key file cannot be written, 500 with the old key still installed; no file
    but the key file is touched. *)
Theorem HandleRekey_guarded token entropy fault r c fs w :
  unsent w → is_panic entropy = false →
  ∃ c' fs' w' status, HandleRekey token entropy fault r (c, fs, w) = (Ok tt, (c', fs', w')) ∧
    rw_status w' = Some status ∧ rekeyed token entropy fault r c fs status c' fs'.
Proof. apply rekey_spec. Qed.

(** ** The Prometheus text *)

Definition text_of_lines (ls : list string) : string := foldr (λ s acc, (s +:+ newline) +:+ acc) "" ls.

Lemma text_of_lines_app l l' : text_of_lines (l ++ l') = text_of_lines l +:+ text_of_lines l'.
Proof.
  unfold text_of_lines. induction l as [|s l IH]; [done|].
  cbn [foldr app]. by rewrite IH, string_app_assoc.
Qed.

(** The lines were written up to some point, all of them when [ok]; nothing is
    lost on a connection without faults. *)
Record wrote (ls : list string) (ok : bool) (w w' : ResponseWriter) : Prop := {
  wr_body : ∃ sent rest, rw_body w' = rw_body w +:+ sent ∧ text_of_lines ls = sent +:+ rest ∧
              (ok = true → rest = "");
  wr_fault : rw_faults w = [] → ok = true ∧ rw_faults w' = [];
}.

Lemma wrote_nil w : wrote [] true w w.
Proof. split; [|done]. exists "", "". by rewrite string_app_nil. Qed.

Lemma wrote_app ls1 ls2 ok w w1 w2 :
  wrote ls1 true w w1 → wrote ls2 ok w1 w2 → wrote (ls1 ++ ls2) ok w w2.
Proof.
  intros [(s1 & r1 & E1 & T1 & R1) F1] [(s2 & r2 & E2 & T2 & R2) F2]. split.
  - exists (s1 +:+ s2), r2. rewrite text_of_lines_app, T1, T2, (R1 eq_refl), E2, E1, string_app_nil.
    by rewrite !string_app_assoc.
  - intros F. by apply F2, F1.
Qed.

Lemma wrote_cut ls1 ls2 w w1 : wrote ls1 false w w1 → wrote (ls1 ++ ls2) false w w1.
Proof.
  intros [(s1 & r1 & E1 & T1 & _) F1]. split; [|intros F; by destruct (F1 F)].
  exists s1, (r1 +:+ text_of_lines ls2). by rewrite text_of_lines_app, T1, <- string_app_assoc.
Qed.

Lemma write_lines_spec ls w : ∃ ok w', write_lines ls w = (Ok ok, w') ∧ wrote ls ok w w'.
Proof.
  revert w. induction ls as [|s ls IH]; intros w; [exists true, w; split; [done|apply wrote_nil]|].
  cbn [write_lines]. unfold try at 1, Write at 1.
  assert (rw_body (WriteHeader StatusOK w) = rw_body w ∧ rw_faults (WriteHeader StatusOK w) = rw_faults w)
    as [Eb Ef] by (unfold WriteHeader; by destruct (rw_status w)).
  rewrite Ef, Eb. set (w0 := WriteHeader StatusOK w).
  assert (∀ f, f = tail (rw_faults w) → (rw_faults w = [] → f = []) →
    wrote [s] true w (mkWriter (rw_status w0) (rw_type w0) (rw_body w +:+ (s +:+ newline)) f)) as Hone.
  { intros f Hf Hnil. split; [|by intros ->%Hnil].
    exists (s +:+ newline), "". cbn. by rewrite !string_app_nil. }
  destruct (rw_faults w) as [|[[n e]|] f] eqn:Ew.
  - destruct (IH (mkWriter (rw_status w0) (rw_type w0) (rw_body w +:+ (s +:+ newline)) [])) as (ok & w' & E & Hw).
    exists ok, w'. split; [exact E|]. exact (wrote_app [s] _ _ _ _ _ (Hone _ eq_refl ltac:(done)) Hw).
  - eexists false, _. split; [done|]. apply (wrote_cut [s]). split; [|by rewrite Ew].
    destruct (substring_prefix n (s +:+ newline)) as [rest Hr]. exists (String.substring 0 n (s +:+ newline)), rest.
    split; [done|]. split; [|done]. cbn. by rewrite string_app_nil.
  - destruct (IH (mkWriter (rw_status w0) (rw_type w0) (rw_body w +:+ (s +:+ newline)) f)) as (ok & w' & E & Hw).
    exists ok, w'. split; [exact E|]. exact (wrote_app [s] _ _ _ _ _ (Hone _ eq_refl ltac:(done)) Hw).
Qed.

(** The lines of the buckets, each with its own count. *)
Definition bucket_lines (lat : LatencySnapshot) : list string :=
  zip_with bucket_line (BoundsNs lat) (Counts lat).

Lemma bucket_loop_spec n i lat w :
  length (Counts lat) = length (BoundsNs lat) → (length (BoundsNs lat) ≤ i + n)%nat →
  ∃ ok w', bucket_loop n i lat w = (Ok ok, w') ∧ wrote (drop i (bucket_lines lat)) ok w w'.
Proof.
  intros Hl. revert i w. induction n as [|n IH]; intros i w Hn.
  { exists true, w. split; [done|]. rewrite drop_ge; [apply wrote_nil|].
    unfold bucket_lines. rewrite length_zip_with. lia. }
  cbn [bucket_loop]. destruct (BoundsNs lat !! i) as [upper|] eqn:Eu.
  - destruct (Counts lat !! i) as [count|] eqn:Ec;
      [|apply lookup_ge_None in Ec; apply lookup_lt_Some in Eu; lia].
    rewrite (drop_S _ (bucket_line upper count)) by (unfold bucket_lines; by rewrite lookup_zip_with, Eu; simpl; rewrite Ec).
    destruct (write_lines_spec [bucket_line upper count] w) as (ok & w1 & E & Hw).
    unfold mbind, M_bind. rewrite E. destruct ok.
    + destruct (IH (S i) w1 ltac:(lia)) as (ok & w2 & E2 & Hw2). exists ok, w2. split; [exact E2|].
      by eapply (wrote_app [_]).
    + exists false, w1. split; [done|]. by apply (wrote_cut [_]).
  - exists true, w. split; [done|]. rewrite drop_ge; [apply wrote_nil|].
    apply lookup_ge_None in Eu. unfold bucket_lines. rewrite length_zip_with. lia.
Qed.

(** The lines of a whole page. *)
Definition histogram_lines (lat : LatencySnapshot) : list string :=
  ["# HELP logryph_ledger_event_latency_seconds Event processing latency";
   "# TYPE logryph_ledger_event_latency_seconds histogram"] ++ bucket_lines lat ++
  ["logryph_ledger_event_latency_seconds_sum " +:+ fmt_seconds (SumNs lat);
   "logryph_ledger_event_latency_seconds_count " +:+ pretty (Count lat)].

Lemma formatLatencyHistogram_spec lat w :
  length (Counts lat) = length (BoundsNs lat) → (length (BoundsNs lat) ≤ maxBuckets)%nat →
  ∃ ok w', formatLatencyHistogram lat w = (Ok tt, w') ∧ wrote (histogram_lines lat) ok w w'.
Proof.
  intros Hl Hm. unfold formatLatencyHistogram, histogram_lines.
  destruct (write_lines_spec ["# HELP logryph_ledger_event_latency_seconds Event processing latency";
    "# TYPE logryph_ledger_event_latency_seconds histogram"] w) as (ok1 & w1 & E1 & W1).
  unfold mbind, M_bind. rewrite E1.
  destruct ok1; cbn [negb]; [|exists false, w1; split; [done|by apply wrote_cut]].
  destruct (bucket_loop_spec maxBuckets 0 lat w1 Hl ltac:(lia)) as (ok2 & w2 & E2 & W2). rewrite E2.
  rewrite drop_0 in W2.
  destruct ok2; cbn [negb]; [|exists false, w2; split; [done|by eapply wrote_app, wrote_cut]].
  destruct (write_lines_spec ["logryph_ledger_event_latency_seconds_sum " +:+ fmt_seconds (SumNs lat);
    "logryph_ledger_event_latency_seconds_count " +:+ pretty (Count lat)] w2) as (ok3 & w3 & E3 & W3). rewrite E3.
  exists ok3, w3. split; [done|]. by eapply wrote_app, wrote_app.
Qed.

(** The page of an engine: its counters, its gauges and its histogram. *)
Definition prometheus_page (c : Engine St) (m : prometheusMetrics) : list string :=
  prom_lines m ++ histogram_lines (LatencyMetrics (eng_Worker c)).

Definition mode_label (w : Worker St) : string :=
  if backpressureMode w =? BackpressureBlock then "block" else "drop".

Lemma collectMetrics_ok c : valid_mode (backpressureMode (eng_Worker c)) = true →
  0 ≤ (QueueDepth (eng_Worker c)).2 →
  collectMetrics (CoreAt c) =
  Ok (mkPromMetrics (EventHits (GetMetrics (eng_pool c))) (EventMisses (GetMetrics (eng_pool c)))
        (Stats (eng_Worker c)).1 (Stats (eng_Worker c)).2 (BlockedSubmits (eng_Worker c))
        (mode_label (eng_Worker c)) (Z.min (Z.of_nat (size (ActiveTasks c))) maxActiveTasks)
        (QueueDepth (eng_Worker c)).1 (QueueDepth (eng_Worker c)).2 (LatencyMetrics (eng_Worker c))).
Proof.
  intros Hm Hq. unfold collectMetrics, mode_label. destruct (Stats _) as [pr dr], (QueueDepth _) as [qd qc].
  unfold BackpressureMode. rewrite Hm, Check_true. cbn [fst snd mbind outcome_bind] in *.
  rewrite (proj2 (Z.leb_le 0 qc)) by done. rewrite Check_true. cbn [warn or_else].
  rewrite (proj2 (Z.leb_le _ maxActiveTasks)) by lia. by rewrite Check_true.
Qed.

(** C32: [HandlePrometheus] exports the running engine.  For an engine with
    a valid backpressure mode and a full set of latency counters it answers
    without panicking; what it sent is a prefix of the page, and the whole page
    when no write failed: the counters of pool and worker, the gauges, one line
    for each of the seven latency buckets with the count of that bucket alone, and
    the sum and count of all latencies. *)
Theorem HandlePrometheus_page c w :
  valid_mode (backpressureMode (eng_Worker c)) = true → 0 ≤ (QueueDepth (eng_Worker c)).2 →
  histogram_ok (metrics (eng_Worker c)) → unsent w →
  ∃ m w' rest, collectMetrics (CoreAt c) = Ok m ∧ HandlePrometheus (CoreAt c) w = (Ok tt, w') ∧
    pm_EventsProcessed m = (Stats (eng_Worker c)).1 ∧ pm_EventsDropped m = (Stats (eng_Worker c)).2 ∧
    text_of_lines (prometheus_page c m) = rw_body w' +:+ rest ∧ (rw_faults w = [] → rest = "") ∧
    Count (pm_LatencyMetrics m) = u64 (foldr Z.add 0 (Counts (pm_LatencyMetrics m))).
Proof.
  intros Hm Hq [Hl Hc] [_ Hb]. unfold HandlePrometheus. rewrite (collectMetrics_ok c Hm Hq). set (m := mkPromMetrics _ _ _ _ _ _ _ _ _ _).
  assert (length (Counts (LatencyMetrics (eng_Worker c))) = maxLatencyBuckets) as Hlen
    by (cbn [LatencyMetrics Counts]; rewrite length_take, Hl; lia).
  unfold mbind at 1, M_bind at 1, lift. unfold mbind at 1, M_bind at 1, modify.
  set (w0 := set_type _ w). unfold formatPrometheusText.
  assert (∃ ok w', (ok ← write_lines (prom_lines m); if negb ok then mret tt else
      formatLatencyHistogram (pm_LatencyMetrics m)) w0 = (Ok tt, w') ∧ wrote (prometheus_page c m) ok w0 w')
    as (ok & w' & E & [(sent & rest & Es & Et & Hr) Hf]).
  { destruct (write_lines_spec (prom_lines m) w0) as (ok1 & w1 & E1 & W1). unfold mbind, M_bind. rewrite E1.
    destruct ok1; cbn [negb]; [|exists false, w1; split; [done|by apply wrote_cut]].
    destruct (formatLatencyHistogram_spec (pm_LatencyMetrics m) w1) as (ok2 & w2 & E2 & W2); [done| |].
    - unfold maxBuckets. cbn. lia.
    - exists ok2, w2. split; [exact E2|]. by eapply wrote_app. }
  exists m, w', rest. split; [done|]. split; [exact E|]. split; [done|]. split; [done|].
  cbn [w0 set_type rw_body rw_faults] in Es, Hf. rewrite Hb in Es. split; [by rewrite Es|].
  split; [intros F; by apply Hr, Hf|]. cbn [m pm_LatencyMetrics LatencyMetrics Count Counts].
  by rewrite take_ge by lia.
Qed.

End Api.

(** ** Rotation and the audit *)

Section Rotation.
Context `{AssertMode} `{TL : TimeLib} `{JL : JsonLib} `{Ed25519} {St : Type} `{EventRepository St}
        {RL : RepositoryLaws St}.

(** C12: a rotation makes the ledger written so far unverifiable.  After
    [HandleRekey] answered 200, the worker and the key file hold the key pair of the
    entropy that was read in place of the old one; [VerifyChain]
    with it reports the untouched chain invalid at its first event, or else that
    event's signature is valid under the old and under the new public key (which is
    to be expected of Ed25519 only if both are the same key). *)
Theorem rotation_invalidates token seed r c fs w c' fs' w' e rest es s' :
  worker_ok (eng_Worker c) → unsent w →
  let run := w_runID (eng_Worker c) in
  run ≠ "" → run_log (w_db (eng_Worker c)) run = e :: rest →
  HandleRekey token (Ok seed) None r (c, fs, w) = (Ok tt, (c', fs', w')) →
  rw_status w' = Some StatusOK →
  GetAllEvents run (w_db (eng_Worker c')) = (Ok es, s') →
  w_signer (eng_Worker c') = keypair seed ∧ key_stored ".logryph_key" (keypair seed) fs' ∧
  run_log (w_db (eng_Worker c')) run = e :: rest ∧
  ((∃ msg, VerifyChain run (keypair seed) (w_db (eng_Worker c')) =
      (Ok (mkVerificationResult false (Z.of_nat (length es)) msg 0), s')) ∨
   (VerifySignature (w_signer (eng_Worker c)) (CurrentHash e) (Signature e) = true ∧
    VerifySignature (keypair seed) (CurrentHash e) (Signature e) = true)).
Proof.
  intros Hw Hu run Hr Hl Hh Hs E.
  destruct (rekey_spec token (Ok seed) None r c fs w Hu eq_refl) as (c1 & fs1 & w1 & status & Eh & Est & Hk).
  rewrite Hh in Eh. injection Eh as <- <- <-. rewrite Hs in Est. injection Est as <-.
  unfold rekeyed in Hk. destruct (negb _); [by destruct Hk|]. destruct (_ && _); [by destruct Hk|].
  destruct Hk as (_ & _ & Hst & ->). split; [done|]. split; [exact Hst|]. split; [exact Hl|].
  destruct Hw as [_ _ _ [_ Hrepo Hchain] _].
  destruct (VerifySignature (keypair seed) (CurrentHash e) (Signature e)) eqn:Hv; [right|left; by eapply foreign_verdict].
  split; [|done]. change (chain_ok (w_signer (eng_Worker c)) (run_log (w_db (eng_Worker c)) run)) in Hchain.
  rewrite Hl in Hchain. by destruct (Hchain 0%nat e) as [_ _ _ Hsig _].
Qed.

End Rotation.
