(* ===== verification/System.v ===== *)
(** * main.go: the running system

    [main.go]: start-up from the command line, the proxy handler and the admin
    routes; and the system the goroutines form together.  ([Process] adds the
    servers, the signals and the graceful shutdown.)  A step of the system is a
    proxied request or response, a batch of the background goroutine, a tick of
    the anchor goroutine or a reload of the policy; the theorems say what the
    ledger is after any number of them, also when the process dies in the middle
    of one. *)
From S2P Require Import Ring Prelude Assert Models Sha256 Crypto Repository Store Pool Chain Anchor Processor Genesis Verify Worker Observer Interceptor Api.
(** ** Start-up and wiring *)

Record flags_ := mkFlags {
  fl_config : string;
  fl_target : string;
  fl_port : Z;
  fl_backpressure : string;
}.

(** The routes of the admin server. *)
Inductive route := RRekey | RStats | RPrometheus | RHealth | RReady.

Definition adminAddr : string := ":9998".
Definition shutdownTimeout : Z := 10 * 1000 * Millisecond.

Section Main.
Context `{AssertMode} `{TL : TimeLib} `{JL : JsonLib} `{Ed25519} `{Http} `{FmtLib} `{YamlLib}
        `{McpCodec} {St : Type} `{EventRepository St}.

(** [core.NewEngine], with the process's pool. *)
Definition NewEngine (w : Worker St) (obs : ObserverEngine) (pl : Pool) : Engine St :=
  mkEngine w ∅ obs ∅ pl.

Definition mode_of (backpressure : string) : option Z :=
  if String.eqb backpressure "block" then Some BackpressureBlock
  else if String.eqb backpressure "drop" then Some BackpressureDrop
  else None.

(** What start-up takes from its environment; [me_disk] is what opening the
    database leaves in its files. *)
Record main_env := mkMainEnv {
  me_abs : outcome string;
  me_read : string → outcome string;
  me_db : outcome St;
  me_disk : string → option string;
  me_entropy : outcome string;
  me_key : option error;
  me_fault : option write_fault;
  me_genesis : genesis_env;
  me_url : option error;
}.

Definition on_key_files {A} (m : M files A) : M (files * Pool) A := λ '(fs, pl),
  let r := m fs in (r.1, (r.2, pl)).

(** [main] up to the start of the servers; every error is fatal. *)
Definition start_up (fl : flags_) (env : main_env) : M (files * Pool) (Engine St) :=
  wrap "Invalid target" (lift (Check (nonempty (fl_target fl)) "target must not be empty"));;
  wrap "Invalid listen port" (lift (Check (0 <? fl_port fl) "listen port must be positive"));;
  obs ← wrap "Failed to load observer rules"
          (lift (NewObserverEngine (fl_config fl) (me_abs env) (me_read env)));
  s ← wrap "Database init failed" (λ '(fs, pl), (me_db env, (SQLite.touch "logryph.db" (me_disk env) fs, pl)));
  w ← wrap "Worker init failed"
        (on_key_files (NewWorker 1000 s ".logryph_key" (me_entropy env) (me_key env) (me_fault env)));
  w ← match mode_of (fl_backpressure fl) with
      | None => fail (ENew ("Invalid backpressure mode '" +:+ fl_backpressure fl +:+
                            "': must be 'drop' or 'block'"))
      | Some mode =>
          wrap "Failed to set backpressure mode" (λ st, let r := SetBackpressureMode mode w in
            match r.1 with
            | Ok _ => (Ok r.2, st)
            | Err e => (Err e, st)
            | Panic e => (Panic e, st)
            end)
      end;
  w ← wrap "Worker start failed" (λ '(fs, pl),
        let '(o, (w', pl')) := Start (me_genesis env) (w, pl) in
        match o with
        | Ok _ => (Ok w', (fs, pl'))
        | Err e => (Err e, (fs, pl'))
        | Panic e => (Panic e, (fs, pl'))
        end);
  match me_url env with
  | Some e => fail (EWrap "Invalid target URL" e)
  | None => λ '(fs, pl), (Ok (NewEngine w obs pl), (fs, pl))
  end.

(** The pattern of a route matches exactly its path. *)
Definition newAdminServer (path : string) : option route :=
  if String.eqb path "/api/rekey" then Some RRekey
  else if String.eqb path "/api/metrics" then Some RStats
  else if String.eqb path "/metrics" then Some RPrometheus
  else if String.eqb path "/healthz" then Some RHealth
  else if String.eqb path "/readyz" then Some RReady
  else None.

Definition newProxyServer (port : Z) : outcome string :=
  check_or (0 <? port) "port must be positive" "" (Ok (":" +:+ pretty port)).

(** ** The proxy handler *)

(** What sending a request to the target gives, from its method, its declared
    length and what its body reads as: a status and a body as it arrives, or an
    error of the transport. *)
Abbreviation backend_fn := (string → Z → option (string * option error) → outcome (Z * body)).

Definition StatusBadGateway : Z := 502.

(** [interceptorSvc.InterceptRequest(r); reverseProxy.ServeHTTP(w, r)]: the body
    is read when the request is sent, and not at all when the declared length is
    zero; an error of the transport or of [InterceptResponse] is answered with
    502.  [others] is what the other goroutines do to the engine between the
    interception and the sending, until the answer arrives, and between
    [InterceptResponse] and the copying of the answer to the client. *)
Definition buildProxyHandler (env1 env2 : intercept_env St) (others : nat → Engine St → Engine St)
    (backend : backend_fn) (r : Request) : M (Engine St) (Z * string) := λ c,
  match InterceptRequest env1 (c, r) with
  | (Panic e, (c1, _)) => (Panic e, c1)
  | (_, (c1, r1)) =>
      let c2 := others 0%nat c1 in
      let sent := if req_ContentLength r1 =? 0 then None else read_body (eng_pool c2) <$> req_Body r1 in
      match backend (req_Method r1) (req_ContentLength r1) sent with
      | Panic e => (Panic e, c2)
      | Err _ => (Ok (StatusBadGateway, ""), c2)
      | Ok (status, wire) =>
          match InterceptResponse env2 (others 1%nat c2, wire) with
          | (Panic e, (c3, _)) => (Panic e, c3)
          | (Err _, (c3, _)) => (Ok (StatusBadGateway, ""), c3)
          | (Ok _, (c3, b)) =>
              let c4 := others 2%nat c3 in (Ok (status, (read_body (eng_pool c4) b).1), c4)
          end
      end
  end.

End Main.

(** ** What no call undoes *)

Section Evolution.
Context `{AssertMode} `{TL : TimeLib} `{JL : JsonLib} `{Ed25519} `{Http} `{FmtLib} `{McpCodec}
        {St : Type} `{EventRepository St} {RL : RepositoryLaws St} {JLaws : JsonLaws TL JL}
        {TLaws : TimeLaws TL} {ELaws : Ed25519Laws _}.

Abbreviation W := (Worker St).
Abbreviation E := (Engine St).

(** The later worker signs the same run with the same key, and its log extends
    the earlier one. *)
Definition ledger_le (w w' : W) : Prop :=
  w_signer w' = w_signer w ∧ w_runID w' = w_runID w ∧
  ∃ es, run_log (w_db w') (w_runID w) = run_log (w_db w) (w_runID w) ++ es.

#[export] Instance ledger_le_preorder : PreOrder ledger_le.
Proof.
  split.
  - intros w. split; [done|]. split; [done|]. exists []. by rewrite app_nil_r.
  - intros a b c (E1 & E2 & es & E3) (E4 & E5 & es' & E6). split; [congruence|]. split; [congruence|].
    exists (es ++ es'). by rewrite app_assoc, <- E3, <- E2.
Qed.

(** A worker whose processed counter is a 64-bit integer. *)
Definition sound (w : W) : Prop := worker_ok w ∧ 0 ≤ (Stats w).1 ≤ max_uint64.

Definition evolves (w w' : W) : Prop := sound w → sound w' ∧ ledger_le w w'.

#[local] Instance evolves_preorder : PreOrder evolves.
Proof.
  split; [by intros w Hw|]. intros a b c Hab Hbc Ha. destruct (Hab Ha) as [Hb Hl].
  destruct (Hbc Hb) as [Hc Hl']. split; [done|]. by etrans.
Qed.

(** What other goroutines may do while a submission waits. *)
Definition others_ok (others : nat → W → W) : Prop := ∀ i w, evolves w (others i w).

Definition evolving {A} (m : M W A) : Prop := ∀ w, evolves w (m w).2.

Lemma evolving_lift {A} (o : outcome A) : evolving (lift o).
Proof. by intros w. Qed.

Lemma evolving_get : evolving get.
Proof. by intros w. Qed.

Lemma evolving_bind {A B} (m : M W A) (f : A → M W B) :
  evolving m → (∀ a, evolving (f a)) → evolving (m ≫= f).
Proof.
  intros Hm Hf w. specialize (Hm w). unfold mbind, M_bind.
  destruct (m w) as [[a| |] w1]; [|exact Hm..]. etrans; [exact Hm|apply (Hf a)].
Qed.

Lemma evolving_try {A B} (m : M W A) (k : A + error → M W B) :
  evolving m → (∀ x, evolving (k x)) → evolving (try m k).
Proof.
  intros Hm Hk w. specialize (Hm w). unfold try.
  destruct (m w) as [[a|e|] w1]; [..|exact Hm]; (etrans; [exact Hm|apply Hk]).
Qed.

Lemma evolving_modify f : (∀ w, evolves w (f w)) → evolving (modify f).
Proof. done. Qed.

(** Counters other than the processed one, and the signal, do not matter. *)
Lemma evolves_metrics w m : processedEvents m = processedEvents (metrics w) →
  evolves w (set_metrics m w).
Proof.
  intros Em [Hw Hs]. split; [|by split; [|split; [|exists []; rewrite app_nil_r]]].
  split; [by apply worker_ok_metrics|]. unfold Stats in *. simpl in *. by rewrite Em.
Qed.

Lemma evolves_signal w c : evolves w (set_signal c w).
Proof. intros [[] Hs]. split; [by split|by split; [|split; [|exists []; rewrite app_nil_r]]]. Qed.

Hint Resolve evolving_lift evolving_get evolving_bind evolving_try : evolving.
Hint Extern 2 (evolving (mret _)) => apply (evolving_lift (Ok _)) : evolving.
Hint Extern 2 (evolving (bump _)) => apply evolving_modify; intros; by apply evolves_metrics : evolving.

Lemma evolving_drop ev : evolving (drop_event ev).
Proof. unfold drop_event. auto 6 with evolving. Qed.
Hint Resolve evolving_drop : evolving.

Lemma evolving_block n i others ev : others_ok others → evolving (block_loop n i others ev).
Proof.
  intros Ho. revert i. induction n as [|n IH]; intros i; [apply (evolving_lift (Ok _))|].
  cbn [block_loop]. apply evolving_bind; [auto with evolving|]. intros w.
  destruct (negb _); [auto with evolving|]. destruct (closing w); [auto with evolving|].
  apply evolving_bind; [auto with evolving|intros _].
  apply evolving_bind; [apply evolving_modify; intros; apply Ho|auto].
Qed.

Lemma evolving_notify : evolving notify.
Proof.
  apply evolving_bind; [auto with evolving|]. intros w. cbv zeta.
  destruct (chan_closed _); [auto with evolving|]. destruct (pending _); [auto with evolving|].
  apply evolving_modify. intros. apply evolves_signal.
Qed.

Lemma evolving_push e : event_ok e → evolving (on_ring (Push (Some e))).
Proof.
  intros He w [[Hr Hq Hp Hpr Ht] Hs]. unfold on_ring. rewrite Push_eq by done.
  destruct (Z.eqb_spec (Ring.count (ringBuffer w)) (Ring.capacity (ringBuffer w))) as [Ec|Ec].
  - by destruct w.
  - split; [|by split; [|split; [|exists []; rewrite app_nil_r]]]. split; [|done].
    split; try done; cbn [fst snd set_ring ringBuffer].
    + by apply pushed_wf.
    + unfold queue. cbn [set_ring ringBuffer]. rewrite contents_pushed by done.
      apply Forall_app. split; [exact Hq|]. constructor; [by exists e|constructor].
Qed.

(** Submitting an event that can be hashed never harms the ledger. *)
Lemma evolving_submit others e : others_ok others → event_ok e → evolving (Submit others (Some e)).
Proof.
  intros Ho He. unfold Submit. apply evolving_bind; [auto with evolving|intros _].
  apply evolving_bind; [auto with evolving|]. intros w. destruct (closing w); [auto with evolving|].
  apply evolving_bind.
  - destruct (_ =? _).
    + apply evolving_bind; [by apply evolving_block|]. intros [|]; [|auto with evolving].
      apply evolving_bind; [auto with evolving|]. intros w'. destruct (IsFull _); auto with evolving.
    + destruct (IsFull _); auto with evolving.
  - intros []; [|auto with evolving]. apply evolving_try; [by apply evolving_push|].
    intros [|]; [apply evolving_notify|auto with evolving].
Qed.

(** [Shutdown] closing the worker does not harm the ledger either. *)
Lemma evolves_closing w : evolves w (close_channels (set_closing true w)).
Proof.
  intros [[Hr Hq Hp Hpr Ht] Hs]. unfold close_channels.
  destruct (quit_closed _); (split; [by split|]);
  (split; [done|]); (split; [done|]); exists []; by rewrite app_nil_r.
Qed.

(** ** The engine *)

Definition engine_sound (c : E) : Prop := sound (eng_Worker c) ∧ pool_clean (eng_pool c).

Definition eng_evolves (c c' : E) : Prop :=
  engine_sound c → engine_sound c' ∧ ledger_le (eng_Worker c) (eng_Worker c').

#[local] Instance eng_evolves_preorder : PreOrder eng_evolves.
Proof.
  split; [by intros c Hc|]. intros a b c Hab Hbc Ha. destruct (Hab Ha) as [Hb Hl].
  destruct (Hbc Hb) as [Hc Hl']. split; [done|]. by etrans.
Qed.

(** A handler that works on the engine and a message [X]. *)
Abbreviation keeping := (along eng_evolves).
Definition keeping_engine {A} (m : M E A) : Prop := ∀ c, eng_evolves c (m c).2.

Lemma keeping_on_engine {X A} (m : M E A) : keeping_engine m → along eng_evolves (X := X) (on_engine m).
Proof. intros Hm c x. apply (Hm c). Qed.

(** Pool calls that leave the pool clean. *)
Lemma keeping_pool {A} (m : M Pool A) : (∀ p, pool_clean p → pool_clean (m p).2) →
  keeping_engine (eng_on_pool m).
Proof. intros Hm c [Hs Hp]. split; [split; [done|by apply Hm]|by apply ledger_le_preorder]. Qed.

Lemma GetBuffer_clean pick p : pool_clean p → pool_clean (GetBuffer pick p).2.
Proof.
  intros [He Hb]. unfold GetBuffer. cbn [pooled_buffers count_buffer].
  destruct (i ← pick; b ← pooled_buffers p !! i; Some (i, b)) as [[i b]|] eqn:Eq; [|by split].
  split; [done|]. by apply Forall_delete.
Qed.

Lemma ReadFrom_clean b bytes newcap spill p : pool_clean p → pool_clean (ReadFrom b bytes newcap spill p).2.
Proof. unfold ReadFrom. by destruct (_ <=? _). Qed.

Lemma PutBuffer_clean b p : pool_clean p → pool_clean (PutBuffer b p).2.
Proof.
  intros [He Hb]. unfold PutBuffer, or_return. destruct (_ <? _); [done|].
  destruct (Check _ _); try done. split; [done|]. by constructor.
Qed.

Lemma keeping_with_put {X A} b (m : M (E * X) A) : keeping m → keeping (with_put b m).
Proof.
  intros Hm c x. specialize (Hm c x). unfold with_put. destruct (m (c, x)) as [o [c1 x1]].
  etrans; [exact Hm|]. pose proof (keeping_pool (PutBuffer b) (PutBuffer_clean b) c1) as Hp.
  by destruct (eng_on_pool (PutBuffer b) c1) as [po c2].
Qed.

(** ** Handlers *)

(** What encoding/json documents of decoding into [interface{}]: the values are
    plain JSON values with valid UTF-8 keys. *)
Class McpPlain : Prop := {
  decode_request_plain bytes r :
    decode_request bytes = Ok r → json_plain (of_gomap (mcp_Params r)) = true;
  decode_response_plain bytes r :
    decode_response bytes = Ok r → json_plain (of_gomap (resp_Result r)) = true;
}.

Context {plain : McpPlain}.

Definition env_ok (env : intercept_env St) : Prop :=
  time_ok (ie_now env) = true ∧ others_ok (ie_others env).

(** Taking an event from the pool, filling it and submitting it. *)
Lemma keeping_submit pick others (fill : E → Event → Event) (upd : Event → E → E) :
  others_ok others → (∀ c e0, clean e0 → event_ok (fill c e0)) →
  (∀ e c, eng_Worker (upd e c) = eng_Worker c ∧ eng_pool (upd e c) = eng_pool c) →
  keeping_engine (
    e0 ← eng_on_pool (GetEvent pick);
    c ← get;
    modify (upd (fill c e0));;
    eng_on_worker (Submit others (Some (fill c e0)))).
Proof.
  intros Ho Hf Hu c Hc. destruct Hc as [Hs Hp].
  destruct (GetEvent_clean pick (eng_pool c) Hp) as (e0 & p' & Eg & Hc & Hp').
  set (c1 := mkEngine (eng_Worker c) (ActiveTasks c) (eng_Observer c) (LastEventByTask c) p').
  set (e := fill c1 e0). destruct (Hu e c1) as [Ew Ep].
  destruct (evolving_submit others e Ho (Hf _ _ Hc) (eng_Worker c1) Hs) as [Hs' Hl].
  match goal with |- engine_sound ?r ∧ _ => assert (r = (eng_on_worker (Submit others (Some e)) (upd e c1)).2) as -> end.
  { unfold mbind, M_bind, eng_on_pool, get, modify. by rewrite Eg. }
  unfold eng_on_worker. rewrite Ew. cbn [fst snd]. split; [split; [exact Hs'|]|exact Hl].
  cbn [eng_pool]. by rewrite Ep.
Qed.

Lemma empty_plain m : empty_map m → json_plain (of_gomap m) = true.
Proof. intros [->| ->]; [done|]. by apply json_plain_obj, map_Forall_empty. Qed.

Lemma keeping_tool_call env taskID req rule : env_ok env → json_plain (of_gomap (mcp_Params req)) = true →
  keeping_engine (submitToolCallEvent env taskID req rule).
Proof.
  intros [Ht Ho] Hp. unfold submitToolCallEvent.
  set (fill := λ (c : E) e0, call_event env taskID req rule
    (if nonempty taskID then LastEventByTask c !! taskID else None) e0 : Event).
  set (upd := λ (e : Event) (c : E), if nonempty taskID then set_last taskID (ID e) c else c).
  intros c. pose proof (keeping_submit (ie_event env) (ie_others env) fill upd Ho) as Hk.
  specialize (Hk ltac:(intros c0 e0 (_ & Hr & _); split_and!; [done|by apply empty_plain|done])
    ltac:(intros e c0; unfold upd; by destruct (nonempty taskID)) c).
  unfold upd in Hk. unfold fill in Hk. by destruct (nonempty taskID).
Qed.

Lemma keeping_apply_redaction env action rule bytes taskID method req :
  env_ok env → json_plain (of_gomap (mcp_Params req)) = true →
  keeping (applyRedactionAndSubmit env action rule bytes taskID method req).
Proof.
  intros He Hp. unfold applyRedactionAndSubmit. along_step along_bind; [along_step along_lift|intros _].
  along_step along_bind.
  - destruct action, rule as [rule|]; try along_step along_ret.
    along_step along_bind; [along_step along_lift|]. intros s. by apply along_modify.
  - intros _. along_step along_bind; [along_step along_lift|intros _].
    along_step along_bind; [along_step along_lift|intros _]. by apply keeping_on_engine, keeping_tool_call.
Qed.

Lemma extract_plain bytes req taskID method :
  extractTaskMetadata bytes = Ok (req, taskID, method) → json_plain (of_gomap (mcp_Params req)) = true.
Proof.
  unfold extractTaskMetadata. intros Ex. inv_ok.
  match goal with Hd : wrap_err _ (decode_request bytes) = Ok ?r |- _ =>
    destruct (decode_request bytes) as [r'| |] eqn:Ed; simpl in Hd; simplify_eq end.
  by apply (decode_request_plain bytes).
Qed.

Lemma keeping_handle_request env b bytes : env_ok env → keeping (handle_request env b bytes).
Proof.
  intros He. unfold handle_request. along_step along_bind; [by apply along_modify|intros _].
  along_step along_try_lift; [|intros; along_step along_ret].
  intros [[req taskID] method] Hreq%extract_plain. along_step along_bind; [along_step along_get|]. intros [c r].
  along_step along_try_lift; [|intros; along_step along_ret]. intros [action rule] _.
  along_step along_try; [by apply keeping_apply_redaction|]. intros; along_step along_ret.
Qed.

(** Reading a body into a pooled buffer around a handler. *)
Lemma keeping_buffered {X} (env : intercept_env St) bytes (f : X → X) (m : GoBuffer → M (E * X) unit) :
  (∀ b, keeping (m b)) →
  keeping (b0 ← on_engine (eng_on_pool (GetBuffer (ie_buffer env)));
           b ← on_engine (eng_on_pool (ReadFrom b0 bytes (ie_newcap env) (ie_spill env)));
           modify (λ '(c, x), (c, f x));;
           with_put b (m b)).
Proof.
  intros Hm. along_step along_bind.
  - apply keeping_on_engine, keeping_pool. intros. by apply GetBuffer_clean.
  - intros b0. along_step along_bind.
    + apply keeping_on_engine, keeping_pool. intros. by apply ReadFrom_clean.
    + intros b. along_step along_bind; [by apply along_modify|intros _]. by apply keeping_with_put.
Qed.

Lemma keeping_InterceptRequest env : env_ok env → keeping (InterceptRequest env).
Proof.
  intros He c r. unfold InterceptRequest. unfold mbind at 1, M_bind at 1, get.
  destruct (negb _); [done|]. destruct (req_Body r) as [wire|]; [|done].
  destruct (read_body (eng_pool c) wire) as [bytes err].
  apply (keeping_buffered env bytes (set_body (exhausted wire))). intros b. destruct err; [along_step along_ret|].
  by apply keeping_handle_request.
Qed.

Lemma keeping_handle_response env bytes : env_ok env → keeping_engine (handle_response env bytes).
Proof.
  intros [Ht Ho] c. unfold handle_response. destruct (decode_response bytes) as [resp| |] eqn:Ed; [|done..].
  apply decode_response_plain in Ed. unfold mbind at 1, M_bind at 1, get. destruct (negb _); [done|].
  set (taskID := default "" _). set (state := as_string _).
  set (fill := λ (c : E) e0, response_event env (resp_Result resp) taskID (default "" state) e0).
  set (upd := λ (e : Event) (c : E), c).
  assert (∀ c, eng_evolves c ((event0 ← eng_on_pool (GetEvent (ie_event env));
    eng_on_worker (Submit (ie_others env) (Some (fill c event0)))) c).2) as Hk.
  { apply (keeping_submit (ie_event env) (ie_others env) fill upd Ho); [|done].
    intros c0 e0 (Hp & _ & _). split_and!; [by apply empty_plain|done|done]. }
  destruct state as [st|] eqn:Es; [|apply Hk]. destruct (nonempty taskID); [|apply Hk].
  unfold mbind at 1, M_bind at 1, modify. etrans; [|apply (Hk (set_active taskID st c))].
  intros Hc. by split; [|apply ledger_le_preorder].
Qed.

Lemma keeping_InterceptResponse env : env_ok env → keeping (InterceptResponse env).
Proof.
  intros He c wire. unfold InterceptResponse. unfold mbind at 1, M_bind at 1, get.
  destruct (read_body (eng_pool c) wire) as [bytes err].
  apply (keeping_buffered env bytes (λ _, exhausted wire)). intros b. destruct err; [along_step along_lift|].
  along_step along_bind; [by apply along_modify|]. intros _.
  by apply keeping_on_engine, keeping_handle_response.
Qed.

(** ** The background goroutines *)

Lemma drained_le w w' o es chunks : drained w w' o es chunks → ledger_le w w'.
Proof. intros [_ _ (Es & Er & Hl & _) _ _ _ _]. split; [exact Es|]. split; [exact Er|]. by eexists. Qed.

(** What the background goroutine leaves, however it ends. *)
Definition batch_ok (w : W) (o : outcome unit) (w' : W) (pl' : Pool) : Prop :=
  worker_ok w' ∧ pool_clean pl' ∧ ledger_le w w' ∧ (o = Ok tt → sound w').

Lemma batch_idle w pl o : sound w → pool_clean pl → batch_ok w o w pl.
Proof. intros Hs Hp. split; [apply Hs|]. split; [done|]. split; [by apply ledger_le_preorder|done]. Qed.

Lemma processEvents_idle i signals w pl o w' pl' :
  (maxSignalBatches <=? i = true ∨ signals = [] ∨ ∃ s signals', signals = (false, s) :: signals') →
  processEvents i signals (w, pl) = (o, (w', pl')) → w' = w ∧ pl' = pl.
Proof.
  intros Hc Er. destruct signals as [|[[] s] signals]; cbn [processEvents] in Er; unfold or_return in Er;
    (destruct (maxSignalBatches <=? i); [destruct (Check _ _); by injection Er as <- <- <-|]).
  - by injection Er as <- <- <-.
  - destruct Hc as [[=]|[[=]|(? & ? & [=])]].
  - by injection Er as <- <- <-.
Qed.

Lemma processEvents_sound i signals w pl o w' pl' :
  Forall (λ s, ticks_ok s.2) signals → sound w → pool_clean pl →
  processEvents i signals (w, pl) = (o, (w', pl')) → batch_ok w o w' pl'.
Proof.
  intros Hsig. revert i w pl. induction Hsig as [|[b ticks] signals Ht _ IH]; intros i w pl Hws Hp Er.
  { apply processEvents_idle in Er as [-> ->]; [by apply batch_idle|auto]. }
  destruct (maxSignalBatches <=? i) eqn:Hi.
  { apply processEvents_idle in Er as [-> ->]; [by apply batch_idle|by left]. }
  destruct b; [|apply processEvents_idle in Er as [-> ->]; [by apply batch_idle|right; right; by eexists _, _]].
  destruct (processEvents_S i ticks signals w pl Hi) as (n & _ & En). rewrite En in Er. clear En.
  destruct (evolves_signal w (mkChan false (chan_closed (signalChan w))) Hws) as [[Hw1 Hs1] Hl1].
  set (w1 := set_signal _ w) in *. destruct (cap_check w1) as [u|e|e].
  - unfold mbind, M_bind in Er. destruct (drain_loop n 0 ticks (w1, pl)) as [o2 [w2 pl2]] eqn:Ed.
    apply drain_loop_spec in Ed as (Hw2 & Hp2 & es & chunks & Hd & _); try assumption.
    pose proof (drained_le _ _ _ _ _ Hd) as Hl2. assert (ledger_le w w2) as Hl by (by etrans).
    destruct o2 as [[]|e|e]; [|by injection Er as <- <- <-..].
    apply IH in Er as (Hw3 & Hp3 & Hl3 & Hs3); [|split; [done|]|done].
    + split; [done|]. split; [done|]. split; [by etrans|done].
    + eapply Stats_range. by apply (dr_stats _ _ _ _ _ Hd).
  - injection Er as <- <- <-. split; [by destruct Hw1|]. split; [done|]. split; [exact Hl1|].
    intros _. split; [by destruct Hw1|exact Hs1].
  - by injection Er as <- <- <-.
Qed.

Lemma plain_put k v m : utf8_coerce k = k → json_plain v = true → json_plain (of_gomap m) = true →
  json_plain (of_gomap (put_param k v m)) = true.
Proof.
  intros Hk Hv Hm. apply json_plain_obj, map_Forall_insert_2; [done|].
  destruct m as [m|]; [by apply json_plain_obj|apply map_Forall_empty].
Qed.

Lemma anchor_event_ok t a e0 : time_ok (at_now t) = true → clean e0 → event_ok (anchor_event t a e0).
Proof.
  intros Ht (Hp & Hr & _). split; [|split; [by apply empty_plain|done]].
  cbn [anchor_event Params]. repeat (apply plain_put; [done|done|]). by apply empty_plain.
Qed.

(** A tick of the anchor goroutine. *)
Lemma anchor_once_sound others t w pl o w' pl' :
  others_ok others → time_ok (at_now t) = true → sound w → pool_clean pl →
  anchor_once others t (w, pl) = (o, (w', pl')) → sound w' ∧ pool_clean pl' ∧ ledger_le w w'.
Proof.
  intros Ho Ht Hs Hp Er. unfold anchor_once in Er.
  assert (sound w ∧ pool_clean pl ∧ ledger_le w w) as Hrefl
    by (split; [done|]; split; [done|]; by apply ledger_le_preorder).
  destruct (FetchBitcoinAnchor _) as [a|e|e]; [|by injection Er as <- <- <-..].
  destruct (GetEvent_clean (at_pick t) pl Hp) as (e0 & p' & Eg & Hc & Hp').
  unfold mbind, M_bind, on_pool, on_worker in Er. rewrite Eg in Er. cbn [fst snd] in Er.
  destruct (evolving_submit others _ Ho (anchor_event_ok t a e0 Ht Hc) w Hs) as [Hs' Hl].
  by injection Er as <- <- <-.
Qed.

(** ** The system *)

Definition with_ledger (w : W) (pl : Pool) (c : E) : E :=
  mkEngine w (ActiveTasks c) (eng_Observer c) (LastEventByTask c) pl.

Definition with_policy (obs : ObserverEngine) (c : E) : E :=
  mkEngine (eng_Worker c) (ActiveTasks c) obs (LastEventByTask c) (eng_pool c).

(** A step of a handler of the proxy server; net/http recovers its panics. *)
Inductive proxy_step (c : E) : E → Prop :=
| step_request env r o c' r' : env_ok env →
    InterceptRequest env (c, r) = (o, (c', r')) → proxy_step c c'
| step_response env b o c' b' : env_ok env →
    InterceptResponse env (c, b) = (o, (c', b')) → proxy_step c c'.

(** A step of a background goroutine, and whether the process survives it: a
    panic there ends the process. *)
Inductive background_step (c : E) : bool → E → Prop :=
| step_batch signals o w' pl' : Forall (λ s, ticks_ok s.2) signals →
    processEvents 0 signals (eng_Worker c, eng_pool c) = (o, (w', pl')) →
    background_step c (is_ok o) (with_ledger w' pl' c)
| step_anchor others t o w' pl' : others_ok others → time_ok (at_now t) = true →
    anchor_once others t (eng_Worker c, eng_pool c) = (o, (w', pl')) →
    background_step c (is_ok o) (with_ledger w' pl' c)
| step_policy obs : background_step c true (with_policy obs c).

Inductive sys_step (c : E) : bool → E → Prop :=
| step_proxy c' : proxy_step c c' → sys_step c true c'
| step_background alive c' : background_step c alive c' → sys_step c alive c'.

Definition survives (c c' : E) : Prop := sys_step c true c'.

Lemma sys_step_sound c alive c' : engine_sound c → sys_step c alive c' →
  worker_ok (eng_Worker c') ∧ pool_clean (eng_pool c') ∧ ledger_le (eng_Worker c) (eng_Worker c') ∧
  (alive = true → engine_sound c').
Proof.
  intros Hc Hs.
  assert (eng_evolves c c' → worker_ok (eng_Worker c') ∧ pool_clean (eng_pool c') ∧
    ledger_le (eng_Worker c) (eng_Worker c') ∧ (alive = true → engine_sound c')) as Hfin.
  { intros He. destruct (He Hc) as [Hc' Hl]. pose proof Hc' as [[Hw _] Hp]. done. }
  destruct Hs as [c' [env r o c1 r' He Er|env b o c1 b' He Er]
                 |al c' [signals o w' pl' Ht Er|others t o w' pl' Ho Ht Er|obs]].
  - apply Hfin. pose proof (keeping_InterceptRequest env He c r) as Hk. by rewrite Er in Hk.
  - apply Hfin. pose proof (keeping_InterceptResponse env He c b) as Hk. by rewrite Er in Hk.
  - destruct Hc as [Hsw Hp]. apply processEvents_sound in Er as (Hw & Hp' & Hl & Hok); try assumption.
    split; [done|]. split; [done|]. split; [done|]. intros Hal. split; [|done]. apply Hok.
    by destruct o as [[]| |].
  - destruct Hc as [Hsw Hp]. apply anchor_once_sound in Er as (Hs' & Hp' & Hl); try assumption.
    split; [apply Hs'|]. by split.
  - apply Hfin. intros Hc'. split; [done|]. by apply ledger_le_preorder.
Qed.

Lemma survives_sound c c' : engine_sound c → rtc survives c c' →
  engine_sound c' ∧ ledger_le (eng_Worker c) (eng_Worker c').
Proof.
  intros Hc Hr. induction Hr as [c|c c1 c2 Hs _ IH]; [split; [done|by apply ledger_le_preorder]|].
  destruct (sys_step_sound c true c1 Hc Hs) as (_ & _ & Hl & He). destruct (IH (He eq_refl)) as [Hc2 Hl2].
  split; [done|]. by etrans.
Qed.

(** C3: the ledger survives any crash.  From a sound engine, after any
    number of proxied requests and responses, batches, anchor ticks and policy
    reloads, and in whatever state one more step leaves the process, also when
    a goroutine panics in it, the store holds a signed hash chain of the same
    run that extends the log there was at the beginning. *)
Theorem system_crash_safe c0 c alive c' :
  engine_sound c0 → rtc survives c0 c → sys_step c alive c' →
  let w0 := eng_Worker c0 in
  let log := run_log (w_db (eng_Worker c')) (w_runID w0) in
  chain_ok (w_signer w0) log ∧ ∃ es, log = run_log (w_db w0) (w_runID w0) ++ es.
Proof.
  intros Hc0 Hr Hs w0 log. destruct (survives_sound c0 c Hc0 Hr) as [Hc Hl].
  destruct (sys_step_sound c alive c' Hc Hs) as (Hw & _ & Hl' & _).
  assert (ledger_le w0 (eng_Worker c')) as (Es & Er & es & El) by (by etrans).
  split; [|by exists es]. unfold log. rewrite <- Es, <- Er. apply Hw.
Qed.

End Evolution.

(** ** A new installation *)

Section Lifetime.
Context `{AssertMode} `{TL : TimeLib} `{JL : JsonLib} `{Ed25519} `{Http} `{FmtLib} `{YamlLib} `{McpCodec}
        {St : Type} `{EventRepository St} {RL : RepositoryLaws St} {JLaws : JsonLaws TL JL}
        {TLaws : TimeLaws TL} {ELaws : Ed25519Laws _} {plain : McpPlain}.

(** What a successful start-up did. *)
Lemma start_up_inv fl (env : main_env (St := St)) fs pl c fs' pl' : start_up fl env (fs, pl) = (Ok c, (fs', pl')) →
  ∃ s w0 mode w1 obs, me_db env = Ok s ∧
    NewWorker 1000 s ".logryph_key" (me_entropy env) (me_key env) (me_fault env)
      (SQLite.touch "logryph.db" (me_disk env) fs) = (Ok w0, fs') ∧
    Start (me_genesis env) (set_mode mode w0, pl) = (Ok tt, (w1, pl')) ∧ c = NewEngine w1 obs pl'.
Proof.
  unfold start_up. intros E.
  apply M_bind_ok in E as (? & st & Hx%wrap_ok & E). injection Hx as _ <-.
  apply M_bind_ok in E as (? & st & Hx%wrap_ok & E). injection Hx as _ <-.
  apply M_bind_ok in E as (obs & st & Hx%wrap_ok & E). injection Hx as _ <-.
  apply M_bind_ok in E as (s & st & Hx%wrap_ok & E). apply pair_equal_spec in Hx as [Hdb <-].
  apply M_bind_ok in E as (w0 & [fs1 pl1] & Hw%wrap_ok & E). unfold on_key_files in Hw.
  destruct (NewWorker _ _ _ _ _ _ _) as [o1 fs1'] eqn:Ew. injection Hw as -> <- <-.
  apply M_bind_ok in E as (w & st & Hm & E).
  assert (∃ mode, w = set_mode mode w0 ∧ st = (fs1', pl)) as (mode & -> & ->).
  { destruct (mode_of _) as [mode|]; [|done]. apply wrap_ok in Hm. unfold SetBackpressureMode in Hm.
    unfold mbind, M_bind, lift, modify in Hm. destruct (Check _ _); [|done..].
    injection Hm as <- <-. by exists mode. }
  apply M_bind_ok in E as (w1 & [fs2 pl2] & Hs%wrap_ok & E).
  destruct (Start _ _) as [o2 [w2 pl3]] eqn:Es. destruct o2 as [[]| |]; [|done..]. injection Hs as <- <- <-.
  destruct (me_url env); [done|]. injection E as <- <- <-.
  exists s, w0, mode, w2, obs. done.
Qed.

(** The worker of a new installation. *)
Lemma NewWorker_fresh n (s : St) seed read (fs : files) w fs' : 0 < n ≤ max_int →
  fs !! ".logryph_key" = None →
  NewWorker n s ".logryph_key" (Ok seed) read None fs = (Ok w, fs') →
  wf (ringBuffer w) ∧ queue w = [] ∧ w_db w = s ∧ signer_ok (w_signer w) ∧
  key_stored ".logryph_key" (w_signer w) fs' ∧ metrics w = zero_metrics.
Proof.
  intros Hn Hk E. unfold NewWorker in E.
  apply M_bind_ok in E as (? & fs1 & Hx & E). injection Hx as _ <-.
  apply M_bind_ok in E as (? & fs1 & Hx & E). injection Hx as _ <-.
  apply M_bind_ok in E as (sg & fs1 & Hx%wrap_ok & E).
  apply M_bind_ok in E as (rb & fs2 & Hy & E). apply pair_equal_spec in Hy as [Hrb <-]. injection E as <- <-.
  apply New_wf in Hrb as [Hwf Hq]; [|done].
  unfold NewSigner in Hx. revert Hx. go_unfold. unfold loadPrivateKey, os_ReadFile.
  rewrite Hk. destruct read; intros [= <- <-];
  (split; [done|]; split; [done|]; split; [done|]; split; [by exists seed|]; split; [apply lookup_insert_eq|done]).
Qed.

(** A new installation, started: the engine is sound, its key is in the key
    file, and its run holds the genesis event. *)
Lemma start_up_sound fl (env : main_env (St := St)) s fs pl c fs' pl' seed :
  fs !! ".logryph_key" = None → me_entropy env = Ok seed → me_fault env = None →
  me_db env = Ok s → repo_ok s → (∀ r, run_log s r = []) → (HasRuns s).1 = Ok false →
  pool_clean pl → time_ok (g_now (me_genesis env)) = true →
  start_up fl env (fs, pl) = (Ok c, (fs', pl')) →
  let w := eng_Worker c in
  engine_sound c ∧ signer_ok (w_signer w) ∧ key_stored ".logryph_key" (w_signer w) fs' ∧
  w_runID w = g_run_uuid (me_genesis env) ∧ length (run_log (w_db w) (w_runID w)) = 1%nat.
Proof.
  intros Hk Hent Hfault Hdb Hrepo Hempty Hruns Hp Ht Hup.
  apply start_up_inv in Hup as (s0 & w0 & mode & wa & obs & Hdb' & Hnw & Hst & ->).
  rewrite Hdb in Hdb'. injection Hdb' as <-. rewrite Hent, Hfault in Hnw.
  assert (SQLite.touch "logryph.db" (me_disk env) fs !! ".logryph_key" = None) as Hk1.
  { unfold SQLite.touch, SQLite.db_suffixes. cbn [foldr]. by rewrite !lookup_partial_alter_ne. }
  destruct (NewWorker_fresh 1000 s seed (me_key env) _ w0 fs' ltac:(by unfold max_int) Hk1 Hnw) as (Hwf & Hq & Hws & Hsg & Hkey & Hm0).
  assert (startable (set_mode mode w0)) as Hsta.
  { split; cbn [set_mode ringBuffer w_signer w_db]; rewrite ?Hws; try done. intros r. rewrite Hempty. apply chain_ok_nil. }
  apply start_spec in Hst as (Hwa & Hpa & _ & Esg & Em & Hnew); try done;
    [|cbn [set_mode w_db]; by rewrite Hws, Hempty].
  cbn [set_mode w_signer metrics w_db] in Esg, Em, Hnew. rewrite Hws, Hruns in Hnew.
  destruct Hnew as [(_ & Hrid & Hlen)|[[=] _]]. cbn [NewEngine eng_Worker]. rewrite Esg.
  split; [|done]. split; [split; [exact Hwa|]|exact Hpa]. unfold Stats. cbn [NewEngine eng_Worker].
  rewrite Em, Hm0. by unfold max_uint64.
Qed.

End Lifetime.
