(* ===== verification/Process.v ===== *)
(** * main.go: the process

    [main] as one goroutine among those of the process: it starts the two
    servers, waits for a signal and shuts everything down in order, while the
    servers listen, accept connections and run handlers, the background
    goroutines work and signals arrive.  The worker's shutdown is three steps of
    [main], between which its two goroutines finish.  A state says where [main] is,
    what the two servers do, and what the engine and the files hold; a step belongs
    to one actor. *)
From S2P Require Import Ring Prelude Assert Models Sha256 Crypto Repository Pool Chain Anchor Processor Genesis Verify Worker Observer Interceptor Api System.
(** ** Data *)

(** The two servers of the process. *)
Inductive which := Admin | Proxy.

(** The goroutine [startHTTPServer] starts: not started, about to call
    [ListenAndServe], inside it, returned from it. *)
Inductive go_pc := GNone | GReady | GServing | GDone.

(** [http.Server]: its address, whether [Shutdown] was called, how many
    connections it serves, and its goroutine. *)
Record Server := mkServer {
  srv_Addr : string;
  srv_down : bool;
  srv_conns : nat;
  srv_go : go_pc;
}.

Inductive signal := SIGINT | SIGTERM.

(** Where [main] is.  The process ends when [main] returns, when [log.Fatalf] is
    called, when a goroutine panics, or by a signal nobody waits for. *)
Inductive main_pc :=
| StartServer (i : which)
| NotifySignals
| RecvSignal
| CloseServer (i : which)
| WaitServer (i : which)
| StopObserver
| StopWorker
| WaitWorker
| DrainWorker
| Returned
| Fatal (msg : string)
| Crashed
| Killed (s : signal).

(** [p_late]: a server's shutdown gave up on its connections; [p_workers]: how many
    of the worker's two goroutines still run; [p_timed_out]: the worker's shutdown
    gave up on them; [p_stopped]: what that shutdown returned. *)
Record proc (St : Type) := mkProc {
  p_main : main_pc;
  p_admin : Server;
  p_proxy : Server;
  p_notified : bool;
  p_sig : option signal;
  p_late : bool;
  p_engine : Engine St;
  p_files : files;
  p_workers : nat;
  p_timed_out : bool;
  p_stopped : option (outcome unit);
}.
Arguments mkProc {St}.
Arguments p_main {St}.
Arguments p_admin {St}.
Arguments p_proxy {St}.
Arguments p_notified {St}.
Arguments p_sig {St}.
Arguments p_late {St}.
Arguments p_engine {St}.
Arguments p_files {St}.
Arguments p_workers {St}.
Arguments p_timed_out {St}.
Arguments p_stopped {St}.

Definition StatusNotFound : Z := 404.

Section Process.
Context `{AssertMode} `{TL : TimeLib} `{JL : JsonLib} `{Ed25519} `{Http} `{FmtLib} `{YamlLib}
        `{McpCodec} `{ApiFmt} {St : Type} `{EventRepository St}.

Abbreviation P := (proc St).

Definition set_main (pc : main_pc) (p : P) : P :=
  mkProc pc (p_admin p) (p_proxy p) (p_notified p) (p_sig p) (p_late p) (p_engine p) (p_files p) (p_workers p) (p_timed_out p) (p_stopped p).
Definition server (i : which) (p : P) : Server := match i with Admin => p_admin p | Proxy => p_proxy p end.
Definition set_server (i : which) (sv : Server) (p : P) : P :=
  match i with
  | Admin => mkProc (p_main p) sv (p_proxy p) (p_notified p) (p_sig p) (p_late p) (p_engine p) (p_files p) (p_workers p) (p_timed_out p) (p_stopped p)
  | Proxy => mkProc (p_main p) (p_admin p) sv (p_notified p) (p_sig p) (p_late p) (p_engine p) (p_files p) (p_workers p) (p_timed_out p) (p_stopped p)
  end.
Definition set_engine (c : Engine St) (fs : files) (p : P) : P :=
  mkProc (p_main p) (p_admin p) (p_proxy p) (p_notified p) (p_sig p) (p_late p) c fs (p_workers p) (p_timed_out p) (p_stopped p).
Definition set_notified (p : P) : P :=
  mkProc (p_main p) (p_admin p) (p_proxy p) true (p_sig p) (p_late p) (p_engine p) (p_files p) (p_workers p) (p_timed_out p) (p_stopped p).
Definition set_sig (s : option signal) (p : P) : P :=
  mkProc (p_main p) (p_admin p) (p_proxy p) (p_notified p) s (p_late p) (p_engine p) (p_files p) (p_workers p) (p_timed_out p) (p_stopped p).
Definition set_late (p : P) : P :=
  mkProc (p_main p) (p_admin p) (p_proxy p) (p_notified p) (p_sig p) true (p_engine p) (p_files p) (p_workers p) (p_timed_out p) (p_stopped p).
Definition set_stopped (o : outcome unit) (p : P) : P :=
  mkProc (p_main p) (p_admin p) (p_proxy p) (p_notified p) (p_sig p) (p_late p) (p_engine p) (p_files p) (p_workers p) (p_timed_out p) (Some o).

Definition set_workers (n : nat) (p : P) : P :=
  mkProc (p_main p) (p_admin p) (p_proxy p) (p_notified p) (p_sig p) (p_late p) (p_engine p) (p_files p) n
    (p_timed_out p) (p_stopped p).
Definition set_timed_out (p : P) : P :=
  mkProc (p_main p) (p_admin p) (p_proxy p) (p_notified p) (p_sig p) (p_late p) (p_engine p) (p_files p)
    (p_workers p) true (p_stopped p).

Definition set_go (g : go_pc) (sv : Server) : Server := mkServer (srv_Addr sv) (srv_down sv) (srv_conns sv) g.
Definition set_down (sv : Server) : Server := mkServer (srv_Addr sv) true (srv_conns sv) (srv_go sv).
Definition set_conns (n : nat) (sv : Server) : Server := mkServer (srv_Addr sv) (srv_down sv) n (srv_go sv).

(** ** Starting *)

Definition new_proc (addr : string) (c : Engine St) : M (files * Pool) P := λ '(fs, pl),
  (Ok (mkProc (StartServer Admin) (mkServer adminAddr false 0 GNone) (mkServer addr false 0 GNone)
         false None false c fs 2 false None), (fs, pl)).

(** [main] up to the start of the servers: both are made, neither runs. *)
Definition boot (fl : flags_) (env : main_env (St := St)) : M (files * Pool) P :=
  c ← start_up fl env;
  addr ← lift (newProxyServer (fl_port fl));
  new_proc addr c.

Definition label_of (i : which) : string :=
  match i with Admin => "Admin API" | Proxy => "Proxy Server" end.

Definition startHTTPServer (i : which) (label : string) : M P unit :=
  or_return (NotNil (IPtr "http.Server" false) "server") (
  or_return (Check (nonempty label) "label must not be empty") (
  modify (λ p, set_server i (set_go GReady (server i p)) p))).

(** What the network does to a call of [ListenAndServe]. *)
Inductive net_event :=
| NListens
| NFails (e : error).

(** The goroutine of a server.  [ListenAndServe] returns [ErrServerClosed] once
    [Shutdown] was called; every other error of listening or accepting is fatal
    to the process. *)
Definition serve_step (i : which) (ev : net_event) (p : P) : option P :=
  let sv := server i p in
  match srv_go sv with
  | GNone | GDone => None
  | GReady | GServing =>
      if srv_down sv then Some (set_server i (set_go GDone sv) p) else
      match ev with
      | NListens => Some (set_server i (set_go GServing sv) p)
      | NFails e => Some (set_main (Fatal (label_of i +:+ " error: " +:+ Error e)) p)
      end
  end.

(** A connection is accepted by a server that listens, and ends. *)
Definition accept_step (i : which) (p : P) : option P :=
  let sv := server i p in
  match srv_go sv with
  | GServing => if srv_down sv then None else Some (set_server i (set_conns (S (srv_conns sv)) sv) p)
  | _ => None
  end.

Definition close_step (i : which) (p : P) : option P :=
  let sv := server i p in
  match srv_conns sv with
  | O => None
  | S n => Some (set_server i (set_conns n sv) p)
  end.

(** [waitForShutdownSignal]: from [signal.Notify] on a signal goes to the
    channel, which has room for one; before, it kills the process. *)
Definition deliver (s : signal) (p : P) : P :=
  if p_notified p then match p_sig p with None => set_sig (Some s) p | Some _ => p end
  else set_main (Killed s) p.

(** ** Admin requests *)

Definition on_engine_writer (m : Engine St → M ResponseWriter unit) : M (Engine St * files * ResponseWriter) unit :=
  λ '(c, fs, w), let r := m c w in (r.1, (c, fs, r.2)).

Definition NewHandlers (c : Engine St) : core_ptr St := CoreAt c.

(** The mux of the admin server with the handlers of [NewHandlers]. *)
Definition admin_ServeHTTP (token : string) (entropy : outcome string) (fault : option write_fault)
    (path : string) (r : http_request) : M (Engine St * files * ResponseWriter) unit :=
  match newAdminServer path with
  | Some RRekey => HandleRekey token entropy fault r
  | Some RStats => on_engine_writer (λ c, HandleStats (eng_pool c))
  | Some RPrometheus => on_engine_writer (λ c, HandlePrometheus (NewHandlers c))
  | Some RHealth => on_engine_writer (λ _, HandleHealth)
  | Some RReady => on_engine_writer (λ c, HandleReady (NewHandlers c))
  | None => on_engine_writer (λ _, http_Error "404 page not found" StatusNotFound)
  end.

(** ** The main goroutine *)

(** What [main] meets: whether the deadline of what it waits for has passed; the
    clock of the worker's last drain, or what that drain leaves beside a background
    loop that did not stop in time. *)
Record choice := mkChoice {
  ch_deadline : bool;
  ch_ticks : nat → tick;
  ch_raced : M (Worker St * Pool) unit;
}.

(** The first half of [shutdownHTTPServer]: the server stops accepting. *)
Definition close_server (i : which) : M P unit :=
  or_return (NotNil (IPtr "http.Server" false) "server") (
  or_return (Check (0 <? shutdownTimeout) "timeout must be positive") (
  modify (λ p, set_server i (set_down (server i p)) p))).

(** The second half: [Shutdown] returns when the last connection is gone, or
    with an error when the deadline passes, which is only logged. *)
Definition wait_server (i : which) (ch : choice) (p : P) : option P :=
  if (srv_conns (server i p) =? 0)%nat then Some p
  else if ch_deadline ch then Some (set_late p) else None.

(** A part of [worker.Shutdown] on the engine's worker. *)
Definition on_ledger (m : M (Worker St * Pool) unit) (p : P) : outcome unit * P :=
  let c := p_engine p in
  let '(o, (w', pl')) := m (eng_Worker c, eng_pool c) in
  (o, set_engine (with_ledger w' pl' c) (p_files p) p).

(** The beginning of [worker.Shutdown]: submissions are refused and the goroutines
    told to stop. *)
Definition stop_worker (p : P) : P :=
  match on_ledger (begin_shutdown shutdownTimeout) p with
  | (Ok _, p') => set_main WaitWorker p'
  | (Err e, p') => set_main Returned (set_stopped (Err e) p')
  | (Panic e, p') => set_main Crashed (set_stopped (Panic e) p')
  end.

(** Its wait for them, while they go on: it ends when both have returned, or at the
    deadline. *)
Definition wait_worker (ch : choice) (p : P) : option P :=
  let stopped := (p_workers p =? 0)%nat in
  if negb stopped && negb (ch_deadline ch) then None else
  match waitForStop shutdownTimeout (if stopped then Some 0%nat else None) with
  | Ok _ => Some (set_main DrainWorker p)
  | Err _ => Some (set_main DrainWorker (set_timed_out p))
  | Panic e => Some (set_main Crashed (set_stopped (Panic e) p))
  end.

(** Its drain and the closing of the store, whose error is only logged. *)
Definition drain_worker (ch : choice) (p : P) : P :=
  let '(o, p') := on_ledger (finish_shutdown (p_timed_out p) (ch_raced ch) (ch_ticks ch)) p in
  set_main (if is_panic o then Crashed else Returned) (set_stopped o p').

(** A call of [main], after which it is at [pc]; a panic ends the process. *)
Definition then_at (m : M P unit) (pc : main_pc) (p : P) : P :=
  match m p with
  | (Panic _, p') => set_main Crashed p'
  | (_, p') => set_main pc p'
  end.

(** The next point of [main] after the shutdown of a server. *)
Definition after_server (i : which) : main_pc :=
  match i with Proxy => CloseServer Admin | Admin => StopObserver end.

(** A step of [main]: lines 99 to 106, and [gracefulShutdown], which stops the
    proxy server, the admin server, the policy watcher and the worker; the worker's
    shutdown is three steps, between which its goroutines go on. *)
Definition main_step (ch : choice) (p : P) : option P :=
  match p_main p with
  | StartServer Admin => Some (then_at (startHTTPServer Admin "Admin API") (StartServer Proxy) p)
  | StartServer Proxy => Some (then_at (startHTTPServer Proxy "Proxy Server") NotifySignals p)
  | NotifySignals => Some (set_main RecvSignal (set_notified p))
  | RecvSignal => match p_sig p with
                  | Some _ => Some (set_main (CloseServer Proxy) (set_sig None p))
                  | None => None
                  end
  | CloseServer i => Some (then_at (close_server i) (WaitServer i) p)
  | WaitServer i => set_main (after_server i) <$> wait_server i ch p
  | StopObserver =>
      let c := p_engine p in
      Some (set_main StopWorker (set_engine (with_policy (Stop (eng_Observer c)).2 c) (p_files p) p))
  | StopWorker => Some (stop_worker p)
  | WaitWorker => wait_worker ch p
  | DrainWorker => Some (drain_worker ch p)
  | Returned | Fatal _ | Crashed | Killed _ => None
  end.

Definition running (p : P) : bool :=
  match p_main p with Returned | Fatal _ | Crashed | Killed _ => false | _ => true end.

(** The order in which [main] goes through its points. *)
Definition rank_of (pc : main_pc) : nat :=
  match pc with
  | StartServer Admin => 12 | StartServer Proxy => 11 | NotifySignals => 10 | RecvSignal => 9
  | CloseServer Proxy => 8 | WaitServer Proxy => 7 | CloseServer Admin => 6 | WaitServer Admin => 5
  | StopObserver => 4 | StopWorker => 3 | WaitWorker => 2 | DrainWorker => 1
  | Returned | Fatal _ | Crashed | Killed _ => 0
  end%nat.

End Process.

(** ** Executions *)

Inductive actor := AMain | AServe (i : which) | AAccept (i : which) | AClose (i : which) | AHandler
                 | AAdmin (path : string) | ABackground | AWorkerExit | APolicy | ASignal (s : signal).

Section Executions.
Context `{AssertMode} `{TL : TimeLib} `{JL : JsonLib} `{Ed25519} `{Http} `{FmtLib} `{YamlLib} `{McpCodec} `{ApiFmt}
        {St : Type} `{EventRepository St} {RL : RepositoryLaws St} {JLaws : JsonLaws TL JL}
        {TLaws : TimeLaws TL} {ELaws : Ed25519Laws _}.

Abbreviation P := (proc St).

(** The clock shows times that can be formatted. *)
Definition choice_ok (ch : choice (St := St)) : Prop := ticks_ok (ch_ticks ch).

(** A handler runs on a connection of its server; net/http recovers its
    panics.  The worker's goroutines work until they return: when their channel is
    closed, or when a loop has reached its bound. *)
Inductive pstep (p : P) : actor → P → Prop :=
| ps_main ch p' : choice_ok ch → main_step ch p = Some p' → pstep p AMain p'
| ps_serve i ev p' : running p = true → serve_step i ev p = Some p' → pstep p (AServe i) p'
| ps_accept i p' : running p = true → accept_step i p = Some p' → pstep p (AAccept i) p'
| ps_close i p' : running p = true → close_step i p = Some p' → pstep p (AClose i) p'
| ps_handler c' : running p = true → srv_conns (p_proxy p) ≠ 0%nat → proxy_step (p_engine p) c' →
    pstep p AHandler (set_engine c' (p_files p) p)
| ps_admin token entropy fault path r w o c' fs' w' : running p = true → srv_conns (p_admin p) ≠ 0%nat →
    admin_ServeHTTP token entropy fault path r (p_engine p, p_files p, w) = (o, (c', fs', w')) →
    pstep p (AAdmin path) (set_engine c' fs' p)
| ps_background alive c' : running p = true → p_workers p ≠ 0%nat → background_step (p_engine p) alive c' →
    pstep p ABackground ((if alive then id else set_main Crashed) (set_engine c' (p_files p) p))
| ps_worker_exit n : running p = true → p_workers p = S n → pstep p AWorkerExit (set_workers n p)
| ps_policy obs : running p = true →
    pstep p APolicy (set_engine (with_policy obs (p_engine p)) (p_files p) p)
| ps_signal s : running p = true → pstep p (ASignal s) (deliver s p).

(** Executions with the actors of their steps. *)
Inductive exec (p : P) : list actor → P → Prop :=
| exec_nil : exec p [] p
| exec_snoc acts p1 a p2 : exec p acts p1 → pstep p1 a p2 → exec p (acts ++ [a]) p2.

(** A step of [main] happens only while the process runs. *)
Lemma main_step_running ch p p' : main_step ch p = Some p' → running p = true.
Proof. unfold main_step, running. by destruct (p_main p). Qed.

Lemma pstep_running p a p' : pstep p a p' → running p = true.
Proof. intros []; try done. by eapply main_step_running. Qed.

(** A step of [main] without the panics its assertions rule out. *)
Lemma then_at_start i label pc (p : P) : nonempty label = true →
  then_at (startHTTPServer i label) pc p = set_main pc (set_server i (set_go GReady (server i p)) p).
Proof. intros Hl. unfold then_at, startHTTPServer, NotNil. by rewrite Hl, bool_decide_eq_true_2, !Check_true. Qed.

Lemma then_at_close i pc (p : P) :
  then_at (close_server i) pc p = set_main pc (set_server i (set_down (server i p)) p).
Proof. unfold then_at, close_server, NotNil. by rewrite bool_decide_eq_true_2, !Check_true. Qed.

(** Where the parts of the worker's shutdown take [main], the servers as they
    were. *)
Lemma stop_worker_at (p : P) : ∃ c fs,
  stop_worker p = set_main WaitWorker (set_engine c fs p) ∨
  ∃ o pc, stop_worker p = set_main pc (set_stopped o (set_engine c fs p)) ∧ (pc = Returned ∨ pc = Crashed).
Proof.
  unfold stop_worker, on_ledger. destruct (begin_shutdown _ _) as [[] [w' pl']]; eexists _, _; [by left|right..];
    eexists _, _; (split; [reflexivity|auto]).
Qed.

Lemma wait_worker_at ch (p p' : P) : wait_worker ch p = Some p' →
  p' = set_main DrainWorker p ∨ p' = set_main DrainWorker (set_timed_out p) ∨
  ∃ e, p' = set_main Crashed (set_stopped (Panic e) p).
Proof. unfold wait_worker. destruct (_ && _); [done|]. destruct (waitForStop _ _); intros [= <-]; eauto. Qed.

Lemma drain_worker_at ch (p : P) : ∃ o c fs pc,
  drain_worker ch p = set_main pc (set_stopped o (set_engine c fs p)) ∧ (pc = Returned ∨ pc = Crashed).
Proof.
  unfold drain_worker, on_ledger. destruct (finish_shutdown _ _ _ _) as [o [w' pl']].
  eexists _, _, _, _. split; [reflexivity|]. destruct (is_panic o); auto.
Qed.

(** ** The order of the shutdown *)

(** [main] is past the shutdown of server [i]. *)
Definition past (i : which) (pc : main_pc) : Prop :=
  (rank_of pc < rank_of (WaitServer i))%nat ∧ match pc with Fatal _ | Crashed | Killed _ => False | _ => True end.

(** A server whose shutdown has begun accepts nothing; once it is over, it
    serves nothing, unless its deadline passed. *)
Definition closed_ok (i : which) (p : P) : Prop :=
  (past i (p_main p) ∨ p_main p = WaitServer i → srv_down (server i p) = true) ∧
  (past i (p_main p) → p_late p = false → srv_conns (server i p) = 0%nat).

Lemma server_set i j sv (p : P) :
  server i (set_server j sv p) = if match i, j with Admin, Admin | Proxy, Proxy => true | _, _ => false end
                                 then sv else server i p.
Proof. by destruct i, j. Qed.

Lemma closed_ok_main ch i p p' : closed_ok i p → main_step ch p = Some p' → closed_ok i p'.
Proof.
  intros [Hd Hz] E. unfold main_step in E. unfold closed_ok, past in *.
  destruct (p_main p) as [[]| | |j|j| | | | | | | |] eqn:Ep; try discriminate E.
  - rewrite then_at_start in E by done. injection E as <-. destruct i; cbn; (split; [intros [[? _]|[=]]|intros [? _]]; lia).
  - rewrite then_at_start in E by done. injection E as <-. destruct i; cbn; (split; [intros [[? _]|[=]]|intros [? _]]; lia).
  - injection E as <-. destruct i; cbn; (split; [intros [[? _]|[=]]|intros [? _]]; lia).
  - destruct (p_sig p); [|done]. injection E as <-.
    destruct i; cbn; (split; [intros [[? _]|[=]]|intros [? _]]; lia).
  - rewrite then_at_close in E. injection E as <-.
    destruct i, j; cbn in *; split; try done; try (intros [[? _]|[=]]; lia); try (intros [? _]; lia); naive_solver lia.
  - unfold wait_server in E. destruct (Nat.eqb_spec (srv_conns (server j p)) 0) as [En|En].
    + injection E as <-. destruct i, j; cbn in *; naive_solver lia.
    + destruct (ch_deadline ch); [|done]. injection E as <-. destruct i, j; cbn in *; naive_solver lia.
  - injection E as <-. destruct i; cbn in *; naive_solver lia.
  - injection E as <-. destruct (stop_worker_at p) as (c & fs & [->|(o & pc & -> & Hpc)]);
      [|destruct Hpc as [->| ->]]; destruct i; cbn in *; naive_solver lia.
  - apply wait_worker_at in E as [->|[->|(e & ->)]]; destruct i; cbn in *; naive_solver lia.
  - injection E as <-. destruct (drain_worker_at ch p) as (o & c & fs & pc & -> & [->| ->]);
      destruct i; cbn in *; naive_solver lia.
Qed.

(** A step that leaves [main] where it is, and one that ends the process. *)
Lemma closed_ok_frame i p p' : closed_ok i p → p_main p' = p_main p → p_late p' = p_late p →
  srv_down (server i p') = srv_down (server i p) →
  (srv_conns (server i p') ≤ srv_conns (server i p))%nat ∨ srv_down (server i p) = false → closed_ok i p'.
Proof.
  intros [Hd Hz] Em El Edn Hc. unfold closed_ok. rewrite Em, El, Edn. split; [done|].
  intros Hp Hl. specialize (Hz Hp Hl). specialize (Hd (or_introl Hp)). destruct Hc; [lia|congruence].
Qed.

Lemma closed_ok_dead i p pc : match pc with Fatal _ | Crashed | Killed _ => True | _ => False end →
  closed_ok i (set_main pc p).
Proof.
  intros Hpc. unfold closed_ok, past. cbn [set_main p_main]. by destruct pc; naive_solver.
Qed.

Lemma closed_ok_step i p a p' : closed_ok i p → pstep p a p' → closed_ok i p'.
Proof.
  intros Hc Hs. destruct Hs as [ch p' _ E|j ev p' _ E|j p' _ E|j p' _ E|c' _ _ _|? ? ? ? ? ? ? ? ? ? _ _ _|alive c' _ _ _|n _ _|obs _|s _].
  - by eapply closed_ok_main.
  - unfold serve_step in E. destruct (srv_go (server j p)), (srv_down (server j p)); try discriminate E;
      try (destruct ev); injection E as <-; try (by apply closed_ok_dead);
      (apply (closed_ok_frame i p); [done|by destruct j|by destruct j|by destruct i, j|left; by destruct i, j]).
  - unfold accept_step in E. destruct (srv_go (server j p)); try discriminate E.
    destruct (srv_down (server j p)) eqn:Ed; [done|]. injection E as <-.
    apply (closed_ok_frame i p); [done|by destruct j|by destruct j|by destruct i, j|].
    destruct i, j; cbn in *; auto.
  - unfold close_step in E. destruct (srv_conns (server j p)) eqn:En; [done|]. injection E as <-.
    apply (closed_ok_frame i p); [done|by destruct j|by destruct j|by destruct i, j|].
    left. destruct i, j; cbn in *; lia.
  - by apply (closed_ok_frame i p); [..|left; destruct i].
  - by apply (closed_ok_frame i p); [..|left; destruct i].
  - destruct alive; [by apply (closed_ok_frame i p); [..|left; destruct i]|by apply closed_ok_dead].
  - by apply (closed_ok_frame i p); [..|left; destruct i].
  - by apply (closed_ok_frame i p); [..|left; destruct i].
  - unfold deliver. destruct (p_notified p); [|by apply closed_ok_dead].
    destruct (p_sig p); [done|]. by apply (closed_ok_frame i p); [..|left; destruct i].
Qed.

(** A process that is about to start its servers. *)
Definition booted (p : P) : Prop :=
  p_main p = StartServer Admin ∧ p_late p = false ∧ p_stopped p = None ∧ p_timed_out p = false.

Lemma closed_ok_exec i p acts p' : booted p → exec p acts p' → closed_ok i p'.
Proof.
  intros (Hm & _). induction 1 as [|acts p1 a p2 _ IH Hs].
  - unfold closed_ok, past. rewrite Hm. destruct i; cbn; (split; [intros [[? _]|[=]]|intros [? _]]; lia).
  - by eapply closed_ok_step.
Qed.

(** C10: the servers stop before the worker.  In every execution of the
    process, when [main] has come to stopping the policy watcher, both servers
    are closed, and unless the deadline of a server's shutdown has passed, no
    connection is served: no handler takes a step any more, none will, and so
    nothing is submitted by a request to a worker that is shutting down. *)
Theorem shutdown_quiesces p acts p' : booted p → exec p acts p' →
  p_main p' ∈ [StopObserver; StopWorker; WaitWorker; DrainWorker; Returned] →
  (∀ i, srv_down (server i p') = true ∧ (∀ p2, ¬ pstep p' (AAccept i) p2)) ∧
  (p_late p' = false →
    (∀ i, srv_conns (server i p') = 0%nat) ∧
    (∀ p2, ¬ pstep p' AHandler p2) ∧ (∀ path p2, ¬ pstep p' (AAdmin path) p2)).
Proof.
  intros Hb Hx Hm.
  assert (∀ i, past i (p_main p')) as Hpast
    by (intros i; unfold past; rewrite !elem_of_cons, elem_of_nil in Hm;
        destruct Hm as [->|[->|[->|[->|[->|[]]]]]], i; simpl; split; (lia || done)).
  assert (∀ i, srv_down (server i p') = true) as Hd
    by (intros i; destruct (closed_ok_exec i p acts p' Hb Hx) as [Hd _]; apply Hd; by left).
  split.
  - intros i. split; [apply Hd|]. intros p2 Hs. inversion Hs as [| |j p3 _ E| | | | | | |]; subst.
    unfold accept_step in E. rewrite Hd in E. by destruct (srv_go _).
  - intros Hl. assert (∀ i, srv_conns (server i p') = 0%nat) as Hz
      by (intros i; destruct (closed_ok_exec i p acts p' Hb Hx) as [_ Hz]; by apply Hz).
    split; [exact Hz|]. split.
    + intros p2 Hs. inversion Hs as [| | | |c' _ Hn _| | | | |]; subst. apply Hn, (Hz Proxy).
    + intros path p2 Hs. inversion Hs as [| | | | |? ? ? ? ? ? ? ? ? ? _ Hn _| | | |]; subst. apply Hn, (Hz Admin).
Qed.

(** ** The ledger *)

(** A worker whose log is still the chain of [w0], extended. *)
Definition intact (w0 w : Worker St) : Prop :=
  ledger_le w0 w ∧ chain_ok (w_signer w0) (run_log (w_db w) (w_runID w0)).

Lemma intact_ok w0 w : ledger_le w0 w → worker_ok w → intact w0 w.
Proof. intros Hl Hw. split; [done|]. destruct Hl as (Es & Er & _). rewrite <- Es, <- Er. apply Hw. Qed.

(** The end of a shutdown in time, with any outcome. *)
Lemma finish_intact w0 ch w pl o w' pl' : choice_ok ch → ledger_le w0 w → sound w → pool_clean pl →
  finish_shutdown false (ch_raced ch) (ch_ticks ch) (w, pl) = (o, (w', pl')) →
  intact w0 w' ∧ (o = Ok tt → queue w' = []).
Proof.
  intros Ht Hl [Hw Hst] Hp E.
  apply finish_spec in E as (o2 & es & chunks & w2 & Hdr & Hw2 & Hq & Hok & s3 & -> & _ & Hl3); auto.
  assert (ledger_le w0 w2) as Hl02 by (etrans; [done|by eapply drained_le]).
  destruct (intact_ok _ _ Hl02 Hw2) as [(Es & Er & es' & El) Hch].
  split; [|intros Ho; by apply Hq, Hok]. split; [split; [done|]; split; [done|]; exists es'|];
    cbn [set_wdb w_db]; by rewrite Hl3.
Qed.

Context {plain : McpPlain}.

(** Only a rotation changes the engine or the files from the admin server. *)
Lemma admin_reads token entropy fault path r c fs w o (c' : Engine St) fs' w' :
  path ≠ "/api/rekey" →
  admin_ServeHTTP token entropy fault path r (c, fs, w) = (o, (c', fs', w')) → c' = c ∧ fs' = fs.
Proof.
  intros Hn E. unfold admin_ServeHTTP, newAdminServer in E.
  rewrite (proj2 (String.eqb_neq _ _) Hn) in E. unfold on_engine_writer in E.
  repeat case_match; by simplify_eq.
Qed.

(** What holds along an execution without rotations, as long as the worker's
    shutdown did not time out. *)
Record proc_ok (w0 : Worker St) (fs0 : files) (p : P) : Prop := {
  po_sound : running p = true → p_timed_out p = false → engine_sound (p_engine p) ∧ p_stopped p = None;
  po_files : p_files p = fs0;
  po_intact : p_timed_out p = false → intact w0 (eng_Worker (p_engine p));
  po_flushed : p_timed_out p = false → p_stopped p = Some (Ok tt) → queue (eng_Worker (p_engine p)) = [];
}.

(** A step that does not touch the engine. *)
Lemma proc_ok_frame w0 fs0 p p' : proc_ok w0 fs0 p → running p = true → p_engine p' = p_engine p →
  p_stopped p' = p_stopped p → p_files p' = p_files p → p_timed_out p' = p_timed_out p → proc_ok w0 fs0 p'.
Proof.
  intros [Ho Hfs Hi Hf] Hr Ee Es Ef Et. split; rewrite ?Ee, ?Es, ?Ef, ?Et; [intros _; by apply Ho|done..].
Qed.

(** After a shutdown that timed out nothing is claimed. *)
Lemma proc_ok_timed_out w0 fs0 p p' : proc_ok w0 fs0 p → p_files p' = p_files p → p_timed_out p' = true →
  proc_ok w0 fs0 p'.
Proof. intros [_ Hfs _ _] Ef Et. split; rewrite ?Et; [done|congruence|done..]. Qed.

(** A step that takes the engine further. *)
Lemma proc_ok_evolve w0 fs0 p pc c : proc_ok w0 fs0 p → running p = true →
  (p_timed_out p = false → worker_ok (eng_Worker c) ∧ ledger_le (eng_Worker (p_engine p)) (eng_Worker c) ∧
     (running (set_main pc p) = true → engine_sound c)) →
  proc_ok w0 fs0 (set_main pc (set_engine c (p_files p) p)).
Proof.
  intros Hp Hr Hc. destruct (p_timed_out p) eqn:Et; [by apply (proc_ok_timed_out w0 fs0 p)|].
  destruct Hp as [Ho Hfs Hi Hf]. destruct (Hi Et) as [Hl _]. destruct (Hc eq_refl) as (Hw & Hle & Hs).
  destruct (Ho Hr Et) as [_ Hst].
  assert (intact w0 (eng_Worker c)) as Hi' by (apply intact_ok; [by etrans|done]).
  split; cbn [set_main set_engine p_engine p_stopped p_files p_timed_out]; [|done|done|].
  - intros Hr' _. split; [by apply Hs|done].
  - intros _. by rewrite Hst.
Qed.

Lemma set_main_same (p : P) : set_main (p_main p) p = p.
Proof. by destruct p. Qed.

(** The three parts of the worker's shutdown. *)
Lemma proc_ok_stop w0 fs0 p : proc_ok w0 fs0 p → running p = true → proc_ok w0 fs0 (stop_worker p).
Proof.
  intros Hp Hr. unfold stop_worker, on_ledger, begin_shutdown. unfold mbind, M_bind, lift. rewrite Check_true.
  cbn [on_worker modify fst snd]. apply proc_ok_evolve; try done. intros Et.
  destruct (po_sound _ _ _ Hp Hr Et) as [[Hs Hpl] _]. destruct (evolves_closing _ Hs) as [Hs1 Hl1].
  split; [apply Hs1|]. split; [exact Hl1|]. by intros _.
Qed.

Lemma proc_ok_drain w0 fs0 ch p : choice_ok ch → proc_ok w0 fs0 p → running p = true →
  proc_ok w0 fs0 (drain_worker ch p).
Proof.
  intros Hch Hp Hr. unfold drain_worker, on_ledger. destruct (p_timed_out p) eqn:Et.
  { destruct (finish_shutdown _ _ _ _) as [o [w' pl']]. by apply (proc_ok_timed_out w0 fs0 p). }
  destruct (po_sound _ _ _ Hp Hr Et) as [[Hs Hpl] _]. destruct (po_intact _ _ _ Hp Et) as [Hl _].
  destruct (finish_shutdown _ _ _ _) as [o [w' pl']] eqn:Es.
  apply (finish_intact w0) in Es as [Hi Hq]; try done.
  split; cbn [set_main set_stopped set_engine p_engine p_stopped p_timed_out with_ledger eng_Worker].
  - unfold running. cbn. by destruct (is_panic o).
  - apply (po_files _ _ _ Hp).
  - done.
  - intros _ [= ->]. by apply Hq.
Qed.

Lemma proc_ok_main w0 fs0 ch p p' : choice_ok ch → proc_ok w0 fs0 p → main_step ch p = Some p' → proc_ok w0 fs0 p'.
Proof.
  intros Hch Hp E. pose proof (main_step_running _ _ _ E) as Hr. unfold main_step in E.
  destruct (p_main p) as [[]| | |j|j| | | | | | | |] eqn:Ep; try discriminate E.
  - rewrite then_at_start in E by done. injection E as <-. by apply (proc_ok_frame w0 fs0 p).
  - rewrite then_at_start in E by done. injection E as <-. by apply (proc_ok_frame w0 fs0 p).
  - injection E as <-. by apply (proc_ok_frame w0 fs0 p).
  - destruct (p_sig p); [|done]. injection E as <-. by apply (proc_ok_frame w0 fs0 p).
  - rewrite then_at_close in E. injection E as <-. by apply (proc_ok_frame w0 fs0 p); destruct j.
  - unfold wait_server in E. destruct (_ =? _)%nat; [|destruct (ch_deadline ch); [|done]]; injection E as <-;
      by apply (proc_ok_frame w0 fs0 p).
  - injection E as <-. apply proc_ok_evolve; try done. intros Et. destruct (po_sound _ _ _ Hp Hr Et) as [Hs _].
    split; [apply Hs|]. split; [by apply ledger_le_preorder|]. by intros _.
  - injection E as <-. by apply proc_ok_stop.
  - apply wait_worker_at in E as [->|[->|(e & ->)]].
    + by apply (proc_ok_frame w0 fs0 p).
    + by apply (proc_ok_timed_out w0 fs0 p).
    + destruct Hp as [_ Hfs Hi _]. by split.
  - injection E as <-. by apply proc_ok_drain.
Qed.

Lemma proc_ok_step w0 fs0 p a p' : proc_ok w0 fs0 p → a ≠ AAdmin "/api/rekey" → pstep p a p' → proc_ok w0 fs0 p'.
Proof.
  intros Hp Ha Hs. destruct Hs as [ch p' Hch E|j ev p' Hr E|j p' Hr E|j p' Hr E|c' Hr _ Hc
    |token entropy fault path r w o c' fs' w' Hr _ E|alive c' Hr _ Hb|n Hr _|obs Hr|s Hr].
  - by eapply proc_ok_main.
  - unfold serve_step in E. destruct (srv_go (server j p)), (srv_down (server j p)); try discriminate E;
      try (destruct ev); injection E as <-; by apply (proc_ok_frame w0 fs0 p); destruct j.
  - unfold accept_step in E. destruct (srv_go (server j p)), (srv_down (server j p)); try discriminate E.
    injection E as <-. by apply (proc_ok_frame w0 fs0 p); destruct j.
  - unfold close_step in E. destruct (srv_conns (server j p)); try discriminate E.
    injection E as <-. by apply (proc_ok_frame w0 fs0 p); destruct j.
  - rewrite <- (set_main_same (set_engine _ _ _)). apply proc_ok_evolve; try done. intros Et.
    destruct (po_sound _ _ _ Hp Hr Et) as [He _].
    destruct (sys_step_sound _ true c' He (step_proxy _ _ Hc)) as (Hw & _ & Hl & Hal). auto.
  - apply admin_reads in E as [-> ->]; [|by intros ->]. by apply (proc_ok_frame w0 fs0 p).
  - assert (p_timed_out p = false → worker_ok (eng_Worker c') ∧ ledger_le (eng_Worker (p_engine p)) (eng_Worker c') ∧
      (alive = true → engine_sound c')) as Hk.
    { intros Et. destruct (po_sound _ _ _ Hp Hr Et) as [He _].
      by destruct (sys_step_sound _ alive c' He (step_background _ _ _ Hb)) as (Hw & _ & Hl & Hal). }
    destruct alive; [rewrite <- (set_main_same (set_engine _ _ _)); unfold id|]; apply proc_ok_evolve; try done;
      intros Et; destruct (Hk Et) as (? & ? & ?); auto.
  - by apply (proc_ok_frame w0 fs0 p).
  - rewrite <- (set_main_same (set_engine _ _ _)). apply proc_ok_evolve; try done. intros Et.
    destruct (po_sound _ _ _ Hp Hr Et) as [He _]. split; [apply He|]. split; [by apply ledger_le_preorder|]. by intros _.
  - unfold deliver. destruct (p_notified p); [destruct (p_sig p); [done|]|]; by apply (proc_ok_frame w0 fs0 p).
Qed.

Lemma proc_ok_exec w0 fs0 p acts p' : proc_ok w0 fs0 p → AAdmin "/api/rekey" ∉ acts → exec p acts p' →
  proc_ok w0 fs0 p'.
Proof.
  intros Hp Ha. induction 1 as [|acts p1 a p2 _ IH Hs]; [done|].
  rewrite elem_of_app, list_elem_of_singleton in Ha. eapply proc_ok_step; [apply IH| |exact Hs]; naive_solver.
Qed.

(** What [boot] did. *)
Lemma boot_inv fl env fs pl p0 fs0 pl0 : boot fl env (fs, pl) = (Ok p0, (fs0, pl0)) →
  start_up fl env (fs, pl) = (Ok (p_engine p0), (fs0, pl0)) ∧ p_files p0 = fs0 ∧ booted p0.
Proof.
  unfold boot. intros E. apply M_bind_ok in E as (c & [fs1 pl1] & Hc & E).
  apply M_bind_ok in E as (addr & st & Ha & E). apply pair_equal_spec in Ha as [_ <-].
  by injection E as <- <- <-.
Qed.


(** ** Termination *)

(** A signal is waiting, or [main] has received one. *)
Definition heard (p : P) : Prop :=
  is_Some (p_sig p) ∨ (rank_of (p_main p) < rank_of RecvSignal)%nat.

Definition is_main (a : actor) : bool := match a with AMain => true | _ => false end.

Lemma main_step_rank ch p p' : main_step ch p = Some p' →
  (rank_of (p_main p') < rank_of (p_main p))%nat ∧ (heard p → heard p').
Proof.
  intros E. unfold main_step in E. unfold heard.
  destruct (p_main p) as [[]| | |j|j| | | | | | | |] eqn:Ep; try discriminate E.
  - rewrite then_at_start in E by done. injection E as <-. cbn. split; [lia|]. intros [?|?]; [by left|lia].
  - rewrite then_at_start in E by done. injection E as <-. cbn. split; [lia|]. intros [?|?]; [by left|lia].
  - injection E as <-. cbn. split; [lia|]. intros [?|?]; [by left|lia].
  - destruct (p_sig p); [|done]. injection E as <-. cbn. split; [lia|]. intros _. right. lia.
  - rewrite then_at_close in E. injection E as <-. cbn. destruct j; cbn; (split; [lia|intros _; right; lia]).
  - unfold wait_server in E. destruct (_ =? _)%nat; [|destruct (ch_deadline ch); [|done]]; injection E as <-;
      cbn; destruct j; cbn; (split; [lia|intros _; right; lia]).
  - injection E as <-. cbn. split; [lia|intros _; right; lia].
  - injection E as <-. destruct (stop_worker_at p) as (c & fs & [->|(o & pc & -> & [->| ->])]); cbn;
      (split; [lia|intros _; right; lia]).
  - apply wait_worker_at in E as [->|[->|(e & ->)]]; cbn; (split; [lia|intros _; right; lia]).
  - injection E as <-. destruct (drain_worker_at ch p) as (o & c & fs & pc & -> & [->| ->]); cbn;
      (split; [lia|intros _; right; lia]).
Qed.

(** Where [main] stays, and a signal that waits keeps waiting, a rank stays. *)
Lemma rank_frame p p' : p_main p' = p_main p → p_sig p' = p_sig p →
  (rank_of (p_main p') ≤ rank_of (p_main p))%nat ∧ (heard p → heard p').
Proof. intros Em Es. unfold heard. rewrite Em, Es. split; [lia|done]. Qed.

Lemma rank_dead p pc : rank_of pc = 0%nat →
  (rank_of (p_main (set_main pc p)) ≤ rank_of (p_main p))%nat ∧ (heard p → heard (set_main pc p)).
Proof. intros E. unfold heard. cbn [set_main p_main]. rewrite E. split; [lia|]. intros _. right. cbn. lia. Qed.

Lemma pstep_rank p a p' : pstep p a p' →
  ((if is_main a then 1 else 0) + rank_of (p_main p') ≤ rank_of (p_main p))%nat ∧ (heard p → heard p').
Proof.
  intros Hs. destruct Hs as [ch p' _ E|j ev p' _ E|j p' _ E|j p' _ E|c' _ _ _|? ? ? ? ? ? ? ? ? ? _ _ _|alive c' _ _ _|n _ _|obs _|s _];
    cbn [is_main Nat.add].
  - destruct (main_step_rank _ _ _ E). split; [lia|done].
  - unfold serve_step in E. destruct (srv_go (server j p)), (srv_down (server j p)); try discriminate E;
      try (destruct ev); injection E as <-; try (by apply rank_dead); apply rank_frame; by destruct j.
  - unfold accept_step in E. destruct (srv_go (server j p)), (srv_down (server j p)); try discriminate E.
    injection E as <-. apply rank_frame; by destruct j.
  - unfold close_step in E. destruct (srv_conns (server j p)); try discriminate E.
    injection E as <-. apply rank_frame; by destruct j.
  - by apply rank_frame.
  - by apply rank_frame.
  - destruct alive; [by apply rank_frame|]. by apply (rank_dead (set_engine c' (p_files p) p)).
  - by apply rank_frame.
  - by apply rank_frame.
  - unfold deliver. destruct (p_notified p); [|by apply rank_dead]. destruct (p_sig p) eqn:Es; [by apply rank_frame|].
    split; [done|]. intros _. left. by eexists.
Qed.

(** C11: a signal ends the process.  Once a signal waits in the channel, in
    every execution: [main] takes at most twelve steps, one of them is possible as
    long as the process runs and a deadline that it waits for may pass, and when
    it has none left the process has ended. *)
Theorem signal_stops p acts p' : heard p → exec p acts p' →
  (length (filter is_main acts) + rank_of (p_main p') ≤ rank_of (p_main p) ≤ 12)%nat ∧
  (∀ ch, ch_deadline ch = true → running p' = true → is_Some (main_step ch p')) ∧
  (running p' = false ↔ rank_of (p_main p') = 0%nat).
Proof.
  intros Hh Hx.
  assert ((length (filter is_main acts) + rank_of (p_main p') ≤ rank_of (p_main p))%nat ∧ heard p') as [Hr Hh'].
  { induction Hx as [|acts p1 a p2 _ [IH Hh1] Hs]; [by split; [cbn; lia|]|].
    destruct (pstep_rank _ _ _ Hs) as [Ha Hh2]. split; [|by apply Hh2].
    rewrite filter_app, length_app, filter_cons, filter_nil. case_decide as Hd; destruct a; cbn in *; try done; lia. }
  split; [split; [done|destruct (p_main p) as [[]| | |[]|[]| | | | | | | |]; cbn; lia]|]. split.
  - intros ch Hd Hrun. unfold running in Hrun. unfold main_step, wait_server.
    destruct (p_main p') as [[]| | |[]|[]| | | | | | | |] eqn:Em; try done; rewrite ?Hd;
      try (repeat case_match; done).
    + destruct (p_sig p') eqn:Es; [done|].
      destruct Hh' as [[s Hs]|Hlt]; [congruence|]. rewrite Em in Hlt. cbn in Hlt. lia.
    + unfold wait_worker. rewrite Hd, andb_false_r. by destruct (waitForStop _ _).
  - unfold running. by destruct (p_main p') as [[]| | |[]|[]| | | | | | | |].
Qed.

End Executions.
