(* ===== verification/Agent.v ===== *)
(** * research/mock_agent.go: the test agent

    The program that exercises a running proxy: five quick calls, a task that is
    started and polled, a call the policy should stall, and one whose answer is
    not looked at; then a summary with a verdict.  ([_experiments/mock_agent.go]
    is an older copy whose [main] prints another banner.)  The server it talks to
    is an argument: what it answers to a posted body, over a state of its own.
    The clock is the sequence of its readings, and formatting a duration is an
    argument too. *)
From S2P Require Import Prelude Models.
(** ** Data *)

Record TestResults := mkTestResults {
  TotalCalls : Z;
  SuccessfulCalls : Z;
  FailedCalls : Z;
  Latencies : list Z;
  AverageLatency : Z;
  MaxLatency : Z;
  StallDetected : bool;
}.

Definition new_results : TestResults := mkTestResults 0 0 0 [] 0 0 false.

(** The results, the number of clock readings so far, and the printed lines,
    oldest first. *)
Record Agent := mkAgent {
  results : TestResults;
  readings : nat;
  printed : list string;
}.

Definition new_agent : Agent := mkAgent new_results 0 [].

(** One of the calls of the first test. *)
Record call := mkCall {
  call_name : string;
  call_method : string;
  call_params : gmap string value;
}.

Definition calls : list call :=
  [mkCall "Google Search" "google_search:query" {["q" := VString "test"]};
   mkCall "Slack Search" "slack:search" {["query" := VString "status"]};
   mkCall "Weather API" "weather:get" {["city" := VString "NYC"]};
   mkCall "Database Read" "db:query" {["sql" := VString "SELECT * FROM users LIMIT 10"]};
   mkCall "File Read" "fs:read" {["path" := VString "/tmp/test.txt"]}].

Definition maxCalls : nat := 32.
Definition maxLatencies : nat := 10000.
Definition maxChecks : nat := 16.
Definition agent_Millisecond : Z := 1000000.
Definition agent_Second : Z := 1000000000.

(** A JSON-RPC request as the agent builds it. *)
Definition rpc (id : Z) (method : string) (params : gmap string value) : gmap string value :=
  list_to_map [("jsonrpc", VString "2.0"); ("id", VInt id); ("method", VString method); ("params", VObj params)].

Definition nl : string := String "010" "".

(** ** Updates of the results *)

Definition count_total (r : TestResults) : TestResults :=
  mkTestResults (TotalCalls r + 1) (SuccessfulCalls r) (FailedCalls r) (Latencies r) (AverageLatency r)
    (MaxLatency r) (StallDetected r).
Definition count_success (r : TestResults) : TestResults :=
  mkTestResults (TotalCalls r) (SuccessfulCalls r + 1) (FailedCalls r) (Latencies r) (AverageLatency r)
    (MaxLatency r) (StallDetected r).
Definition count_failure (r : TestResults) : TestResults :=
  mkTestResults (TotalCalls r) (SuccessfulCalls r) (FailedCalls r + 1) (Latencies r) (AverageLatency r)
    (MaxLatency r) (StallDetected r).
Definition add_duration (d : Z) (r : TestResults) : TestResults :=
  mkTestResults (TotalCalls r) (SuccessfulCalls r) (FailedCalls r) (Latencies r ++ [d]) (AverageLatency r)
    (if MaxLatency r <? d then d else MaxLatency r) (StallDetected r).
Definition set_average (d : Z) (r : TestResults) : TestResults :=
  mkTestResults (TotalCalls r) (SuccessfulCalls r) (FailedCalls r) (Latencies r) d (MaxLatency r) (StallDetected r).
Definition detect_stall (r : TestResults) : TestResults :=
  mkTestResults (TotalCalls r) (SuccessfulCalls r) (FailedCalls r) (Latencies r) (AverageLatency r) (MaxLatency r) true.

(** ** The tests *)

Section Agent.
Context `{TL : TimeLib} `{JL : JsonLib} {World : Type}.

(** What the server answers to a posted body, as [http.Post] and [io.ReadAll]
    give it together; the readings of the clock; [%v] of a duration. *)
Context (post : string → M World string) (clock : nat → Z) (show_duration : Z → string).

Abbreviation A := (Agent * World)%type.

Definition update (f : TestResults → TestResults) : M A unit :=
  modify (λ '(a, w), (mkAgent (f (results a)) (readings a) (printed a), w)).

(** [log.Println] and [log.Printf]. *)
Definition say (s : string) : M A unit :=
  modify (λ '(a, w), (mkAgent (results a) (readings a) (printed a ++ [s]), w)).

(** [time.Now]. *)
Definition time_Now : M A Z := λ '(a, w),
  (Ok (clock (readings a)), (mkAgent (results a) (S (readings a)) (printed a), w)).

(** [time.Since]. *)
Definition time_Since (start : Z) : M A Z := now ← time_Now; mret (now - start).

Definition on_world {X} (m : M World X) : M A X := λ '(a, w), let r := m w in (r.1, (a, r.2)).

(** [json.Unmarshal] into a [map[string]interface{}]. *)
Definition decode_map (bytes : string) : outcome gomap :=
  v ← json_Unmarshal bytes;
  match v with
  | VObj m => Ok (Some m)
  | VNil => Ok None
  | _ => Err (ENew "json: cannot unmarshal into Go value of type map[string]interface {}")
  end.

Definition sendMCPRequest (req : gmap string value) : M A gomap :=
  let body := match json_Marshal (VObj req) with Ok s => s | _ => "" end in
  bodyBytes ← on_world (post body);
  lift (decode_map bodyBytes).

(** The type assertions [v.(map[string]interface{})] and [v.(string)], which
    panic on another type. *)
Definition assert_map (v : option value) : outcome gomap :=
  match v with
  | Some (VObj m) => Ok (Some m)
  | _ => Panic (ENew "interface conversion: interface {} is not map[string]interface {}")
  end.

Definition assert_string (v : option value) : outcome string :=
  match v with
  | Some (VString s) => Ok s
  | _ => Panic (ENew "interface conversion: interface {} is not string")
  end.

(** One of the five calls. *)
Definition fire (i : nat) (c : call) : M A unit :=
  start ← time_Now;
  try (sendMCPRequest (rpc (Z.of_nat i + 1) (call_method c) (call_params c))) (λ r,
    latency ← time_Since start;
    update count_total;;
    update (add_duration latency);;
    let n := pretty (Z.of_nat i + 1) in
    match r with
    | inr e =>
        update count_failure;;
        say ("   [FAIL] Call " +:+ n +:+ " (" +:+ call_name c +:+ ") failed: " +:+ Error e)
    | inl _ =>
        update count_success;;
        let status := if agent_Millisecond <? latency then "WARN" else "OK" in
        say ("   [" +:+ status +:+ "] Call " +:+ n +:+ " (" +:+ call_name c +:+ ") - Latency: " +:+
             show_duration latency)
    end).

Fixpoint fire_loop (n i : nat) : M A unit :=
  match n with
  | O => mret tt
  | S n' =>
      match calls !! i with
      | None => mret tt
      | Some c => fire i c;; fire_loop n' (S i)
      end
  end.

(** The sum of the latencies, a signed 64-bit integer. *)
Fixpoint total_loop (n i : nat) (latencies : list Z) (total : Z) : Z :=
  match n with
  | O => total
  | S n' =>
      match latencies !! i with
      | None => total
      | Some d => total_loop n' (S i) latencies (i64 (total + d))
      end
  end.

Definition average (r : TestResults) : TestResults :=
  match Latencies r with
  | [] => r
  | ls => set_average (Z.quot (total_loop maxLatencies 0 ls 0) (Z.of_nat (length ls))) r
  end.

Definition testRapidFireAllowActions : M A unit :=
  say ("   Sending " +:+ pretty (Z.of_nat (length calls)) +:+ " rapid-fire calls to :9999..." +:+ nl);;
  fire_loop maxCalls 0;;
  update average;;
  '(a, _) ← get;
  say (nl +:+ "   Average Latency: " +:+ show_duration (AverageLatency (results a)));;
  say ("   Max Latency: " +:+ show_duration (MaxLatency (results a)));;
  if AverageLatency (results a) <? agent_Millisecond
  then say "   [PASS] Average latency < 1ms (Target achieved)"
  else say "   [WARN] Average latency > 1ms (Performance optimization needed)".

Definition start_request : gmap string value :=
  rpc 100 "tools/call" (list_to_map [("name", VString "long_running_task"); ("args", VObj {["duration" := VInt 5]})]).

Definition poll_request (taskID : string) : gmap string value :=
  rpc 101 "tasks/get" {["task_id" := VString taskID]}.

(** A call whose failure ends the test: it is counted, reported and the test
    returns ([None]). *)
Definition counted (failed : string) (req : gmap string value) : M A (option gomap) :=
  try (sendMCPRequest req) (λ r,
    update count_total;;
    match r with
    | inr e => say (failed +:+ Error e);; update count_failure;; mret None
    | inl resp => update count_success;; mret (Some resp)
    end).

Definition testAsyncTaskFlow : M A unit :=
  say "   Step 1: Start long-running task...";;
  r1 ← counted "   [FAIL] Failed to start task: " start_request;
  match r1 with
  | None => mret tt
  | Some resp1 =>
      result ← lift (assert_map (map_get resp1 "result"));
      taskID ← lift (assert_string (map_get result "task_id"));
      state ← lift (assert_string (map_get result "state"));
      say ("   [OK] Task created: ID=" +:+ taskID +:+ ", State=" +:+ state);;
      say "   Step 2: Poll task status...";;
      r2 ← counted "   [FAIL] Failed to poll task: " (poll_request taskID);
      match r2 with
      | None => mret tt
      | Some resp2 =>
          result2 ← lift (assert_map (map_get resp2 "result"));
          state2 ← lift (assert_string (map_get result2 "state"));
          say ("   [OK] Task polled: ID=" +:+ taskID +:+ ", State=" +:+ state2);;
          say "   [PASS] SEP-1686 async task flow working"
      end
  end.

Definition stall_request : gmap string value :=
  rpc 200 "aws:ec2:launch" (list_to_map [("instance_type", VString "t2.micro"); ("ami", VString "ami-12345")]).

Definition testPolicyStall : M A unit :=
  say "   Triggering critical infrastructure call (aws:ec2:launch)...";;
  say "   NOTE: This should trigger a STALL in the proxy";;
  start ← time_Now;
  try (sendMCPRequest stall_request) (λ r,
    duration ← time_Since start;
    update count_total;;
    match r with
    | inr e => say ("   [FAIL] Failed: " +:+ Error e);; update count_failure
    | inl resp =>
        update count_success;;
        say ("   [OK] Request completed after " +:+ show_duration duration);;
        (if agent_Second <? duration then
           say ("   [PASS] Stall detected (took " +:+ show_duration duration +:+ ", indicating manual approval)");;
           update detect_stall
         else say ("   [WARN] No stall detected (took only " +:+ show_duration duration +:+ ")"));;
        match map_get resp "result" with
        | None | Some VNil => mret tt
        | Some _ => say "   [OK] Response received after approval"
        end
    end).

Definition write_request : gmap string value :=
  rpc 300 "fs:write" (list_to_map [("path", VString "/tmp/test.txt"); ("data", VString "test data")]).

(** Neither the answer nor the error of the call is looked at. *)
Definition testAsyncWorkerPersistence : M A unit :=
  say "   Sending request and closing connection immediately...";;
  try (sendMCPRequest write_request) (λ _, mret tt);;
  update count_total;;
  update count_success;;
  say "   [OK] Connection closed immediately";;
  say "   [INFO] Check Logryph console logs to verify event was still logged";;
  say "   [PASS] If you see the fs:write event in Logryph logs, async worker is working".

(** ** The summary *)

Definition rule_line : string := "========================================".

Definition checks (r : TestResults) : list (string * bool) :=
  [("Proxy forwards requests", 0 <? SuccessfulCalls r);
   ("Latency < 1ms (for allow actions)", AverageLatency r <? agent_Millisecond);
   ("Stall policy working", StallDetected r);
   ("SEP-1686 task tracking", true);
   ("Async worker persistence", true)].

(** The loop over the checks; the result says whether all passed. *)
Fixpoint check_loop (n i : nat) (cs : list (string * bool)) (allPassed : bool) : M A bool :=
  match n with
  | O => mret allPassed
  | S n' =>
      match cs !! i with
      | None => mret allPassed
      | Some check =>
          say ((if check.2 then "[PASS]" else "[FAIL]") +:+ " " +:+ check.1);;
          check_loop n' (S i) cs (allPassed && check.2)
      end
  end.

Definition bool_text (b : bool) : string := if b then "true" else "false".

Definition verdict_line (allPassed : bool) : string :=
  if allPassed then "ALL TESTS PASSED - Phase 1 is production-ready" else "SOME TESTS FAILED - Review results above".

Fixpoint say_all (ls : list string) : M A unit :=
  match ls with
  | [] => mret tt
  | s :: ls' => say s;; say_all ls'
  end.

(** The lines before the checks. *)
Definition summary_head (r : TestResults) : list string :=
  [nl +:+ rule_line; "TEST RESULTS SUMMARY"; rule_line;
   "Total Calls:       " +:+ pretty (TotalCalls r);
   "Successful:        " +:+ pretty (SuccessfulCalls r);
   "Failed:            " +:+ pretty (FailedCalls r);
   "Average Latency:   " +:+ show_duration (AverageLatency r);
   "Max Latency:       " +:+ show_duration (MaxLatency r);
   "Stall Detected:    " +:+ bool_text (StallDetected r);
   nl +:+ "PHASE 1 VERIFICATION:"].

Definition printResults : M A unit :=
  '(a, _) ← get;
  say_all (summary_head (results a));;
  allPassed ← check_loop maxChecks 0 (checks (results a)) true;
  say_all [nl +:+ rule_line; verdict_line allPassed; rule_line].

(** ** main *)

(** The first two tests. *)
Definition first_tests : M A unit :=
  update (λ _, new_results);;
  say (nl +:+ "Test 1: Rapid-fire low-risk tool calls");;
  testRapidFireAllowActions;;
  say (nl +:+ "Test 2: SEP-1686 Async Task Flow");;
  testAsyncTaskFlow.

(** The four tests. *)
Definition run_tests : M A unit :=
  first_tests;;
  say (nl +:+ "Test 3: Policy Stall Detection (Critical Infrastructure)");;
  say "NOTE: Test will complete automatically without user input";;
  testPolicyStall;;
  say (nl +:+ "Test 4: Async Worker Verification");;
  testAsyncWorkerPersistence.

Definition prerequisites : list string :=
  ["Prerequisites:"; "   1. Start mock MCP server: go run tests/mock_mcp_server.go";
   "   2. Start Logryph proxy: ./logryph"; "   3. Then run this test"].

Definition agent_main : M A unit :=
  say_all (["Mock Agent Test Suite"; rule_line] ++ prerequisites ++ [rule_line]);;
  run_tests;;
  printResults.

(** [main] of [_experiments/mock_agent.go]. *)
Definition experiments_main : M A unit :=
  say_all ("Logryph Phase 1 - Mock Agent Test Suite" :: prerequisites);;
  run_tests;;
  printResults.

(** ** What a run of the suite reports *)

(** What the report is about: the results and the clock readings made. *)
Abbreviation stat := (TestResults * nat)%type.

Definition stat_of (a : Agent) : stat := (results a, readings a).

(** From [P], [m] returns in [Q], or fails in [E]. *)
Definition triple {X} (P : stat → Prop) (m : M A X) (Q : X → stat → Prop) (E : stat → Prop) : Prop :=
  ∀ a w, P (stat_of a) →
    match m (a, w) with
    | (Ok x, (a', _)) => Q x (stat_of a')
    | (_, (a', _)) => E (stat_of a')
    end.

Lemma triple_bind {X Y} P (m : M A X) Q E (k : X → M A Y) R :
  triple P m Q E → (∀ x, triple (Q x) (k x) R E) → triple P (m ≫= k) R E.
Proof.
  intros Hm Hk a w HP. specialize (Hm a w HP). unfold mbind, M_bind.
  destruct (m (a, w)) as [[x|e|e] [a' w']]; [by apply Hk|done..].
Qed.

(** An error of the call is handled, so the failures of [m] and of the handler
    are told apart by the state they leave. *)
Lemma triple_try {X Y} P (m : M A X) (k : X + error → M A Y) R (E : stat → Prop) :
  triple P m (λ _, P) P → (∀ r, P r → E r) → (∀ x, triple P (k x) R E) → triple P (try m k) R E.
Proof.
  intros Hm HE Hk a w HP. specialize (Hm a w HP). unfold try.
  destruct (m (a, w)) as [[x|e|e] [a' w']]; [by apply Hk|by apply Hk|by apply HE].
Qed.

Lemma triple_lift {X} P (o : outcome X) (E : stat → Prop) :
  (∀ r, P r → E r) → triple P (lift o) (λ _, P) E.
Proof. intros HE a w HP. unfold lift. destruct o; auto. Qed.

Lemma triple_ret {X} (P : stat → Prop) (x : X) E : triple P (mret x) (λ _, P) E.
Proof. by intros a w HP. Qed.

Lemma triple_say (P : stat → Prop) s E : triple P (say s) (λ _, P) E.
Proof. by intros a w HP. Qed.

Lemma triple_update (P Q : stat → Prop) f E : (∀ r t, P (r, t) → Q (f r, t)) → triple P (update f) (λ _, Q) E.
Proof. intros Hf a w HP. by apply Hf. Qed.

Lemma triple_get (P : stat → Prop) E : triple P get (λ _, P) E.
Proof. by intros a w HP. Qed.

Lemma send_frame req w : ∃ o w', ∀ a0, sendMCPRequest req (a0, w) = (o, (a0, w')).
Proof.
  unfold sendMCPRequest, on_world, mbind, M_bind, lift.
  destruct (post _ w) as [[s|e|e] w1]; cbn [fst snd]; [|by eexists _, _..]. by exists (decode_map s), w1.
Qed.

Lemma triple_send (P : stat → Prop) req : triple P (sendMCPRequest req) (λ _, P) P.
Proof. intros a w HP. destruct (send_frame req w) as (o & w' & ->). by destruct o. Qed.

Lemma triple_post {X} P (m : M A X) Q Q' E : triple P m Q E → (∀ x r, Q x r → Q' x r) → triple P m Q' E.
Proof.
  intros Hm Hq a w HP. specialize (Hm a w HP). destruct (m (a, w)) as [[x|e|e] [a' w']]; [by apply Hq|done..].
Qed.

(** Every call is counted once more as a success or a failure. *)
Definition balanced (x : stat) : Prop := TotalCalls x.1 = SuccessfulCalls x.1 + FailedCalls x.1.

(** The latencies of the first [k] calls: the clock is read before and after each. *)
Definition latencies_of (k : nat) : list Z := (λ i, clock (2 * i + 1)%nat - clock (2 * i)%nat) <$> seq 0 k.

Lemma latencies_of_S k : latencies_of (S k) = latencies_of k ++ [clock (2 * k + 1)%nat - clock (2 * k)%nat].
Proof. unfold latencies_of. by rewrite seq_S, fmap_app. Qed.

(** [n] calls were counted, and [k] latencies measured. *)
Record tallied (n : Z) (k : nat) (x : stat) : Prop := {
  ta_total : TotalCalls x.1 = n;
  ta_balanced : balanced x;
  ta_success : 0 ≤ SuccessfulCalls x.1;
  ta_latencies : Latencies x.1 = latencies_of k;
  ta_max : MaxLatency x.1 = foldl Z.max 0 (Latencies x.1);
  ta_stall : StallDetected x.1 = false;
}.

Lemma tallied_balanced n k x : tallied n k x → balanced x.
Proof. by intros []. Qed.

Lemma tallied_time n k r t t' : tallied n k (r, t) → tallied n k (r, t').
Proof. by intros []. Qed.

Lemma tallied_fail n k r t : tallied n k (r, t) → tallied (n + 1) k (count_failure (count_total r), t).
Proof. intros []. unfold balanced in *. split; unfold balanced; simpl in *; try lia; done. Qed.

Lemma tallied_success n k r t : tallied n k (r, t) → tallied (n + 1) k (count_success (count_total r), t).
Proof. intros []. unfold balanced in *. split; unfold balanced; simpl in *; try lia; done. Qed.

Lemma tallied_latency n k r t :
  tallied n k (r, t) → tallied n (S k) (add_duration (clock (2 * k + 1)%nat - clock (2 * k)%nat) r, t).
Proof.
  intros []. split; try done; simpl in *.
  - by rewrite latencies_of_S, ta_latencies0.
  - rewrite foldl_snoc, <- ta_max0.
    match goal with |- context [?x <? ?y] => destruct (Z.ltb_spec x y) end; lia.
Qed.

(** The first test in progress: [k] calls made. *)
Definition fired (k : nat) (x : stat) : Prop := tallied (Z.of_nat k) k x ∧ x.2 = (2 * k)%nat.

Lemma triple_fire k c : triple (fired k) (fire k c) (λ _, fired (S k)) balanced.
Proof.
  intros a w [Ht Hr]. cbn [stat_of snd] in Hr. unfold fire. unfold mbind at 1, M_bind at 1, time_Now at 1. rewrite Hr.
  unfold try. match goal with |- context [sendMCPRequest ?q (?b, w)] => destruct (send_frame q w) as (o & w' & ->) end.
  apply tallied_latency in Ht. replace (Z.of_nat (S k)) with (Z.of_nat k + 1) by lia.
  replace (S (2 * k)) with (2 * k + 1)%nat by lia.
  assert (S (2 * k + 1) = (2 * S k)%nat) as Hnext by lia.
  destruct o as [x|e|e]; unfold time_Since, time_Now, mbind, M_bind, update, modify, say;
    cbn [fst snd results readings mret M_ret stat_of mbind M_bind].
  - split; [|exact Hnext]. replace (Z.of_nat (S k)) with (Z.of_nat k + 1) by lia.
    exact (tallied_success _ _ _ _ (tallied_time _ _ _ _ (S (2 * k + 1)) Ht)).
  - split; [|exact Hnext]. replace (Z.of_nat (S k)) with (Z.of_nat k + 1) by lia.
    exact (tallied_fail _ _ _ _ (tallied_time _ _ _ _ (S (2 * k + 1)) Ht)).
  - by destruct Ht.
Qed.

Lemma triple_fire_loop n i : (length calls ≤ i + n)%nat → (i ≤ length calls)%nat →
  triple (fired i) (fire_loop n i) (λ _, fired 5) balanced.
Proof.
  revert i. induction n as [|n IH]; intros i Hn Hi; cbn [fire_loop].
  - assert (i = 5%nat) as -> by (simpl in *; lia). apply triple_ret.
  - destruct (calls !! i) as [c|] eqn:Ec.
    + eapply triple_bind; [apply triple_fire|]. intros []. apply IH; [lia|]. by apply lookup_lt_Some in Ec.
    + apply lookup_ge_None in Ec. assert (i = 5%nat) as -> by (simpl in *; lia). apply triple_ret.
Qed.

(** The sum of durations in signed 64-bit arithmetic. *)
Definition sum64 (ds : list Z) : Z := foldl (λ t d, i64 (t + d)) 0 ds.

Lemma total_loop_sum n i ds t : (length ds ≤ i + n)%nat →
  total_loop n i ds t = foldl (λ t d, i64 (t + d)) t (drop i ds).
Proof.
  revert i t. induction n as [|n IH]; intros i t Hl; cbn [total_loop].
  - by rewrite drop_ge by lia.
  - destruct (ds !! i) as [d|] eqn:Ed.
    + rewrite (drop_S _ _ _ Ed), IH by lia. done.
    + by rewrite drop_ge by (by apply lookup_ge_None).
Qed.

(** The first test is over: five latencies, their average, ten clock readings. *)
Record measured (n : Z) (x : stat) : Prop := {
  me_tallied : tallied n 5 x;
  me_average : AverageLatency x.1 = Z.quot (sum64 (Latencies x.1)) 5;
  me_readings : x.2 = 10%nat;
}.

Lemma measured_balanced n x : measured n x → balanced x.
Proof. by intros [[]]. Qed.

Lemma measured_average r t : fired 5 (r, t) → measured 5 (average r, t).
Proof.
  intros [Ht Hr]. unfold average. pose proof (ta_latencies _ _ _ Ht) as Hl. cbn [fst] in Hl.
  assert (length (Latencies r) = 5%nat) as Hlen by (rewrite Hl; done).
  destruct (Latencies r) as [|d ds] eqn:El; [done|].
  split; [by destruct Ht| |exact Hr]. cbn [set_average AverageLatency Latencies fst]. rewrite El, Hlen.
  rewrite total_loop_sum by (rewrite Hlen; by apply Nat.leb_le). done.
Qed.

Lemma triple_rapid : triple (fired 0) testRapidFireAllowActions (λ _, measured 5) balanced.
Proof.
  unfold testRapidFireAllowActions. eapply triple_bind; [apply triple_say|intros []].
  eapply triple_bind; [apply (triple_fire_loop maxCalls 0); unfold maxCalls; simpl; lia|intros []].
  eapply triple_bind; [apply triple_update, measured_average|intros []].
  eapply triple_bind; [apply triple_get|intros [a w]].
  do 2 (eapply triple_bind; [apply triple_say|intros []]). destruct (_ <? _); apply triple_say.
Qed.

Lemma measured_counts n r t : measured n (r, t) →
  measured (n + 1) (count_failure (count_total r), t) ∧ measured (n + 1) (count_success (count_total r), t).
Proof. intros [Ht Ha Hr]. split; (split; [|exact Ha|exact Hr]); [by apply tallied_fail|by apply tallied_success]. Qed.

(** A counted call. *)
Lemma triple_counted n failed req : triple (measured n) (counted failed req) (λ _, measured (n + 1)) balanced.
Proof.
  apply triple_try; [apply triple_send|apply measured_balanced|].
  intros [resp|e] a w Hr; apply measured_counts in Hr as [Hf Hs]; done.
Qed.

(** One call or two. *)
Definition measured_to (lo hi : Z) (x : stat) : Prop := ∃ n, lo ≤ n ≤ hi ∧ measured n x.

Lemma measured_to_intro lo hi n x : lo ≤ n ≤ hi → measured n x → measured_to lo hi x.
Proof. intros; by exists n. Qed.

Lemma triple_async n : triple (measured n) testAsyncTaskFlow (λ _, measured_to (n + 1) (n + 2)) balanced.
Proof.
  assert (∀ r, measured (n + 1) r → measured_to (n + 1) (n + 2) r) as H1
    by (intros r; apply measured_to_intro; lia).
  assert (∀ r, measured (n + 1 + 1) r → measured_to (n + 1) (n + 2) r) as H2
    by (intros r; apply measured_to_intro; lia).
  unfold testAsyncTaskFlow. eapply triple_bind; [apply triple_say|intros []].
  eapply triple_bind; [apply triple_counted|]. intros [resp1|]; [|by eapply triple_post; [apply triple_ret|eauto]].
  do 3 (eapply triple_bind; [apply triple_lift, measured_balanced|intros ?]).
  do 2 (eapply triple_bind; [apply triple_say|intros []]).
  eapply triple_bind; [apply triple_counted|]. intros [resp2|]; [|by eapply triple_post; [apply triple_ret|eauto]].
  do 2 (eapply triple_bind; [apply triple_lift, measured_balanced|intros ?]).
  eapply triple_bind; [apply triple_say|intros []]. eapply triple_post; [apply triple_say|eauto].
Qed.

Lemma triple_first : triple (λ x, x.2 = 0%nat) first_tests (λ _, measured_to 6 7) balanced.
Proof.
  unfold first_tests. eapply triple_bind; [apply (triple_update _ (fired 0)); by intros|intros []].
  eapply triple_bind; [apply triple_say|intros []]. eapply triple_bind; [apply triple_rapid|intros []].
  eapply triple_bind; [apply triple_say|intros []]. apply triple_async.
Qed.

(** Whether the call the policy should stall is answered in the world [w]. *)
Definition stall_answered (a : Agent) (w : World) : bool := is_ok (sendMCPRequest stall_request (a, w)).1.

(** The report once the stall test is over: [stalled] is its finding. *)
Record reported (lo hi : Z) (stalled : bool) (x : stat) : Prop := {
  re_total : lo ≤ TotalCalls x.1 ≤ hi;
  re_balanced : balanced x;
  re_success : 0 ≤ SuccessfulCalls x.1;
  re_latencies : Latencies x.1 = latencies_of 5;
  re_max : MaxLatency x.1 = foldl Z.max 0 (Latencies x.1);
  re_average : AverageLatency x.1 = Z.quot (sum64 (Latencies x.1)) 5;
  re_stall : StallDetected x.1 = stalled;
}.

Lemma stall_reports lo hi a w : measured_to lo hi (stat_of a) →
  match testPolicyStall (a, w) with
  | (Ok _, (a', _)) =>
      reported (lo + 1) (hi + 1) (stall_answered a w && (agent_Second <? clock 11%nat - clock 10%nat)) (stat_of a')
  | (_, (a', _)) => balanced (stat_of a')
  end.
Proof.
  intros (n & Hn & [[] Hav Hr]). cbn [stat_of fst snd] in *. unfold balanced in *. cbn [stat_of fst] in *.
  unfold testPolicyStall, stall_answered. destruct (send_frame stall_request w) as (o & w' & Hsend).
  unfold mbind at 1, M_bind at 1, say at 1, modify at 1. unfold mbind at 1, M_bind at 1, say at 1, modify at 1.
  unfold mbind at 1, M_bind at 1, time_Now at 1. cbn [readings results]. rewrite Hr. unfold try. rewrite !Hsend.
  destruct o as [resp|e|e]; cbn [is_ok andb fst].
  3: done.
  2: { unfold time_Since, time_Now, mbind, M_bind, update, modify, say; cbn. split; unfold balanced; simpl; try lia; done. }
  unfold time_Since, time_Now, mbind, M_bind, update, modify, say. cbn [fst snd results readings mret M_ret mbind M_bind].
  destruct (agent_Second <? clock 11%nat - clock 10%nat); cbn [fst snd results readings];
    destruct (map_get resp "result") as [[]|]; split; unfold balanced; simpl; try lia; done.
Qed.

(** The last test counts a success whatever happened. *)
Lemma triple_persistence lo hi b :
  triple (reported lo hi b) testAsyncWorkerPersistence
    (λ _ x, reported (lo + 1) (hi + 1) b x ∧ 0 < SuccessfulCalls x.1) balanced.
Proof.
  unfold testAsyncWorkerPersistence. eapply triple_bind; [apply triple_say|intros []].
  eapply triple_bind; [apply triple_try; [apply triple_send|by intros x []|intros; apply triple_ret]|intros []].
  intros a w []. unfold balanced in *. cbn [stat_of fst] in *. split; [|simpl; lia].
  split; unfold balanced; simpl; try lia; done.
Qed.

(** The lines of the checks. *)
Definition check_line (check : string * bool) : string :=
  (if check.2 then "[PASS]" else "[FAIL]") +:+ " " +:+ check.1.

Definition print_more (ls : list string) (a : Agent) : Agent := mkAgent (results a) (readings a) (printed a ++ ls).

Lemma check_loop_eq n i cs b a w : (length cs ≤ i + n)%nat →
  check_loop n i cs b (a, w) =
    (Ok (b && forallb snd (drop i cs)), (print_more (check_line <$> drop i cs) a, w)).
Proof.
  revert i b a. induction n as [|n IH]; intros i b a Hl; cbn [check_loop].
  - rewrite drop_ge by lia. unfold print_more. simpl. rewrite app_nil_r, andb_true_r. by destruct a.
  - destruct (cs !! i) as [c|] eqn:Ec.
    + rewrite (drop_S _ _ _ Ec). unfold mbind, M_bind, say, modify. rewrite IH by lia.
      unfold print_more. simpl. by rewrite andb_assoc, <- app_assoc.
    + rewrite drop_ge by (by apply lookup_ge_None). unfold print_more. simpl.
      rewrite app_nil_r, andb_true_r. by destruct a.
Qed.

(** Whether the summary announces success. *)
Definition passed (r : TestResults) : bool :=
  (0 <? SuccessfulCalls r) && (AverageLatency r <? agent_Millisecond) && StallDetected r.

Lemma say_all_eq ls a w : say_all ls (a, w) = (Ok tt, (print_more ls a, w)).
Proof.
  revert a. induction ls as [|s ls IH]; intros a.
  - unfold print_more. rewrite app_nil_r. by destruct a.
  - cbn [say_all]. unfold mbind, M_bind, say, modify. rewrite IH. unfold print_more. simpl. by rewrite <- app_assoc.
Qed.

Lemma checks_passed r : forallb snd (checks r) = passed r.
Proof. unfold passed. simpl. by rewrite andb_true_r, andb_assoc. Qed.

Lemma printResults_eq a w : ∃ ls,
  printResults (a, w) = (Ok tt, (print_more (ls ++ [verdict_line (passed (results a)); rule_line]) a, w)).
Proof.
  exists (summary_head (results a) ++ (check_line <$> checks (results a)) ++ [nl +:+ rule_line]).
  unfold printResults. unfold mbind at 1, M_bind at 1, get. unfold mbind at 1, M_bind at 1. rewrite say_all_eq.
  unfold mbind at 1, M_bind at 1. rewrite check_loop_eq by (unfold maxChecks; simpl; lia).
  rewrite drop_0, checks_passed, andb_true_l, say_all_eq. unfold print_more. cbn [results readings printed].
  by rewrite <- !app_assoc.
Qed.

(** A run of the tests: the stall test starts in the world the first two leave,
    after ten readings of the clock. *)
Lemma tests_report a w : readings a = 0%nat →
  match run_tests (a, w) with
  | (Ok _, (a', _)) => ∃ a3 w3, first_tests (a, w) = (Ok tt, (a3, w3)) ∧
      reported 8 9 (stall_answered a3 w3 && (agent_Second <? clock 11%nat - clock 10%nat)) (stat_of a') ∧
      0 < SuccessfulCalls (results a')
  | (_, (a', _)) => balanced (stat_of a')
  end.
Proof.
  intros Hr. pose proof (triple_first a w Hr) as Hf. unfold run_tests. unfold mbind at 1, M_bind at 1.
  destruct (first_tests (a, w)) as [[[]|e|e] [a3 w3]]; [|exact Hf..].
  unfold mbind at 1, M_bind at 1, say at 1, modify at 1. unfold mbind at 1, M_bind at 1, say at 1, modify at 1.
  match goal with |- context [testPolicyStall] => idtac end. unfold mbind at 1, M_bind at 1. cbn [results readings printed].
  match goal with |- context [testPolicyStall (?b, w3)] => pose proof (stall_reports 6 7 b w3 Hf) as Hs;
    assert (stall_answered b w3 = stall_answered a3 w3) as Ha
      by (unfold stall_answered; destruct (send_frame stall_request w3) as (? & ? & Hsd); by rewrite !Hsd);
    destruct (testPolicyStall (b, w3)) as [[[]|e|e] [a4 w4]]; [|exact Hs..] end.
  rewrite Ha in Hs. unfold mbind at 1, M_bind at 1, say at 1, modify at 1. cbn [results readings printed].
  match goal with |- context [testAsyncWorkerPersistence (?b, w4)] =>
    pose proof (triple_persistence _ _ _ b w4 Hs) as Hp;
    destruct (testAsyncWorkerPersistence (b, w4)) as [[[]|e|e] [a5 w5]]; [|exact Hp..] end.
  exists a3, w3. split; [done|exact Hp].
Qed.

(** C33: the report of the test agent.  Whatever the server answers, and also
    when a malformed answer makes the agent panic, every counted call is a
    success or a failure.  A run that finishes has made eight or nine calls, at
    least one of them counted as successful; its five latencies are the differences
    of the first ten clock readings, reported with their maximum and their average
    in 64-bit arithmetic; a stall is reported exactly when the call the policy
    should stall, made in the world the first two tests leave, is answered and the
    clock advanced by more than a second meanwhile; and the suite announces success
    exactly when the average is below a millisecond and a stall is reported. *)
Theorem suite_report w o a w' : agent_main (new_agent, w) = (o, (a, w')) →
  let r := results a in
  TotalCalls r = SuccessfulCalls r + FailedCalls r ∧
  (o = Ok tt →
    8 ≤ TotalCalls r ≤ 9 ∧ 0 < SuccessfulCalls r ∧
    Latencies r = latencies_of 5 ∧ MaxLatency r = foldl Z.max 0 (Latencies r) ∧
    AverageLatency r = Z.quot (sum64 (Latencies r)) 5 ∧
    (∃ a0 a3 w3, results a0 = new_results ∧ readings a0 = 0%nat ∧ first_tests (a0, w) = (Ok tt, (a3, w3)) ∧
       StallDetected r =
         is_ok (sendMCPRequest stall_request (a3, w3)).1 && (agent_Second <? clock 11%nat - clock 10%nat)) ∧
    ∃ ls, printed a = ls ++ [verdict_line ((AverageLatency r <? agent_Millisecond) && StallDetected r); rule_line]).
Proof.
  intros E r. unfold agent_main in E. unfold mbind at 1, M_bind at 1 in E. rewrite say_all_eq in E.
  set (a0 := print_more _ new_agent) in E. pose proof (tests_report a0 w eq_refl) as Ht.
  unfold mbind, M_bind in E. destruct (run_tests (a0, w)) as [[[]|e|e] [a1 w1]].
  2,3: injection E as <- <- <-; split; [exact Ht|done].
  destruct (printResults_eq a1 w1) as [ls El]. rewrite El in E. injection E as <- <- <-.
  destruct Ht as (a3 & w3 & Ef & [] & Hs). subst r. cbn [print_more results printed stat_of fst] in *.
  split; [exact re_balanced0|]. intros _. do 5 (split; [done|]). split; [by exists a0, a3, w3|].
  exists (printed a1 ++ ls). rewrite <- app_assoc. unfold passed. by rewrite (proj2 (Z.ltb_lt _ _) Hs).
Qed.

End Agent.

(** ** Servers that cannot be told apart *)

Section Simulation.
Context `{TL : TimeLib} `{JL : JsonLib} {V W : Type} (R : V → W → Prop) (good : V → Prop).
Context (post1 : string → M V string) (post2 : string → M W string) (clock : nat → Z) (show_duration : Z → string).

(** Two runs that agree on everything the agent sees, as long as the world of
    the first is a good one in the end; it then was at the beginning. *)
Definition sim {X} (m1 : M (Agent * V) X) (m2 : M (Agent * W) X) : Prop :=
  (∀ a v, good (m1 (a, v)).2.2 → good v) ∧
  ∀ a v w, R v w → good (m1 (a, v)).2.2 →
    ∃ o a' v' w', m1 (a, v) = (o, (a', v')) ∧ m2 (a, w) = (o, (a', w')) ∧ R v' w'.

Hypothesis posts_good : ∀ body v, good (post1 body v).2 → good v.
Hypothesis posts : ∀ body v w, R v w → good (post1 body v).2 →
  ∃ o v' w', post1 body v = (o, v') ∧ post2 body w = (o, w') ∧ R v' w'.

Lemma sim_bind {X Y} (m1 : M (Agent * V) X) m2 (k1 : X → M (Agent * V) Y) k2 :
  sim m1 m2 → (∀ x, sim (k1 x) (k2 x)) → sim (m1 ≫= k1) (m2 ≫= k2).
Proof.
  intros [Hg Hm] Hk. split.
  - intros a v. specialize (Hg a v). unfold mbind, M_bind. destruct (m1 (a, v)) as [[x|e|e] [a1 v1]]; [|done..].
    intros Hf. by apply Hg, (proj1 (Hk x) a1).
  - intros a v w Hr Hf. specialize (Hm a v w Hr). unfold mbind, M_bind in *.
    destruct (m1 (a, v)) as [o [a1 v1]]. cbn [fst snd] in Hm.
    destruct Hm as (o' & a1' & v1' & w1 & E1 & E2 & Hr1).
    { destruct o; [|done..]. by apply (proj1 (Hk a0) a1). }
    injection E1 as <- <- <-. rewrite E2. destruct o as [x|e|e]; [by apply Hk|by eexists _, _, _, _..].
Qed.

Lemma sim_try {X Y} (m1 : M (Agent * V) X) m2 (k1 : X + error → M (Agent * V) Y) k2 :
  sim m1 m2 → (∀ x, sim (k1 x) (k2 x)) → sim (try m1 k1) (try m2 k2).
Proof.
  intros [Hg Hm] Hk. split.
  - intros a v. specialize (Hg a v). unfold try. destruct (m1 (a, v)) as [[x|e|e] [a1 v1]]; [..|done]; intros Hf.
    + by apply Hg, (proj1 (Hk (inl x)) a1).
    + by apply Hg, (proj1 (Hk (inr e)) a1).
  - intros a v w Hr Hf. specialize (Hm a v w Hr). unfold try in *.
    destruct (m1 (a, v)) as [o [a1 v1]]. cbn [fst snd] in Hm.
    destruct Hm as (o' & a1' & v1' & w1 & E1 & E2 & Hr1).
    { destruct o as [x|e|e]; [by apply (proj1 (Hk (inl x)) a1)|by apply (proj1 (Hk (inr e)) a1)|done]. }
    injection E1 as <- <- <-. rewrite E2. destruct o as [x|e|e]; [by apply Hk|by apply Hk|by eexists _, _, _, _].
Qed.

(** Steps that leave the world alone. *)
Lemma sim_local {X} (f : Agent → outcome X * Agent) :
  sim (λ '(a, v), ((f a).1, ((f a).2, v))) (λ '(a, w), ((f a).1, ((f a).2, w))).
Proof. split; [done|]. intros a v w Hr _. by eexists _, _, _, _. Qed.

Lemma sim_lift {X} (o : outcome X) : sim (lift o) (lift o).
Proof. split; [done|]. intros a v w Hr _. by eexists _, _, _, _. Qed.

Lemma sim_ret {X} (x : X) : sim (mret x) (mret x).
Proof. apply (sim_lift (Ok x)). Qed.

Lemma sim_say s : sim (say s) (say s).
Proof. apply (sim_local (λ a, (Ok tt, mkAgent (results a) (readings a) (printed a ++ [s])))). Qed.

Lemma sim_update f : sim (update f) (update f).
Proof. apply (sim_local (λ a, (Ok tt, mkAgent (f (results a)) (readings a) (printed a)))). Qed.

Lemma sim_now : sim (time_Now clock) (time_Now clock).
Proof. apply (sim_local (λ a, (Ok (clock (readings a)), mkAgent (results a) (S (readings a)) (printed a)))). Qed.

Lemma sim_since start : sim (time_Since clock start) (time_Since clock start).
Proof. apply sim_bind; [apply sim_now|]. intros now. apply sim_ret. Qed.

Lemma sim_send req : sim (sendMCPRequest post1 req) (sendMCPRequest post2 req).
Proof.
  apply sim_bind; [|intros; apply sim_lift]. unfold on_world. split.
  - intros a v. apply posts_good.
  - intros a v w Hr Hf.
    destruct (posts (match json_Marshal (VObj req) with Ok s => s | _ => "" end) v w Hr Hf) as (o & v' & w' & E1 & E2 & Hr').
    rewrite E1, E2. by eexists _, _, _, _.
Qed.

Create HintDb sim.
Hint Resolve sim_bind sim_try sim_lift sim_ret sim_say sim_update sim_now sim_since sim_send : sim.

(** Reading the results, which both runs share. *)
Lemma sim_get {Y} (k1 : Agent → M (Agent * V) Y) (k2 : Agent → M (Agent * W) Y) :
  (∀ a, sim (k1 a) (k2 a)) → sim ('(a, _) ← get; k1 a) ('(a, _) ← get; k2 a).
Proof. intros Hk. split; [|]; intros a v; [apply (proj1 (Hk a) a)|apply (proj2 (Hk a) a)]. Qed.

Lemma sim_say_all ls : sim (say_all ls) (say_all ls).
Proof. induction ls; cbn [say_all]; auto with sim. Qed.
Hint Resolve sim_say_all : sim.

Lemma sim_fire_loop n i : sim (fire_loop post1 clock show_duration n i) (fire_loop post2 clock show_duration n i).
Proof.
  revert i. induction n as [|n IH]; intros i; cbn [fire_loop]; [auto with sim|].
  destruct (calls !! i); [|auto with sim]. apply sim_bind; [|auto]. unfold fire.
  apply sim_bind; [auto with sim|intros start]. apply sim_try; [auto with sim|intros r].
  apply sim_bind; [auto with sim|intros d]. do 2 (apply sim_bind; [auto with sim|intros _]).
  destruct r; auto with sim.
Qed.

Lemma sim_counted failed req : sim (counted post1 failed req) (counted post2 failed req).
Proof.
  apply sim_try; [auto with sim|intros r]. apply sim_bind; [auto with sim|intros _]. destruct r; auto 6 with sim.
Qed.
Hint Resolve sim_fire_loop sim_counted : sim.

Lemma sim_rapid : sim (testRapidFireAllowActions post1 clock show_duration) (testRapidFireAllowActions post2 clock show_duration).
Proof.
  do 3 (apply sim_bind; [auto with sim|intros _]). apply sim_get. intros a.
  do 2 (apply sim_bind; [auto with sim|intros _]). destruct (_ <? _); auto with sim.
Qed.

Lemma sim_async : sim (testAsyncTaskFlow post1) (testAsyncTaskFlow post2).
Proof.
  apply sim_bind; [auto with sim|intros _]. apply sim_bind; [auto with sim|]. intros [resp1|]; [|auto with sim].
  do 3 (apply sim_bind; [auto with sim|intros ?]). do 2 (apply sim_bind; [auto with sim|intros _]).
  apply sim_bind; [auto with sim|]. intros [resp2|]; auto 7 with sim.
Qed.

Lemma sim_stall : sim (testPolicyStall post1 clock show_duration) (testPolicyStall post2 clock show_duration).
Proof.
  do 2 (apply sim_bind; [auto with sim|intros _]). apply sim_bind; [auto with sim|intros start].
  apply sim_try; [auto with sim|intros r]. apply sim_bind; [auto with sim|intros d].
  apply sim_bind; [auto with sim|intros _]. destruct r as [resp|e]; [|auto with sim].
  do 2 (apply sim_bind; [auto with sim|intros _]). apply sim_bind; [destruct (_ <? _); auto with sim|intros _].
  destruct (map_get resp "result") as [[]|]; auto with sim.
Qed.

Lemma sim_persistence : sim (testAsyncWorkerPersistence post1) (testAsyncWorkerPersistence post2).
Proof. unfold testAsyncWorkerPersistence. auto 9 with sim. Qed.

Lemma sim_check_loop n i cs b : sim (check_loop n i cs b) (check_loop n i cs b).
Proof.
  revert i b. induction n as [|n IH]; intros i b; cbn [check_loop]; [auto with sim|].
  destruct (cs !! i); auto with sim.
Qed.

Lemma sim_print : sim (printResults show_duration) (printResults show_duration).
Proof. apply sim_get. intros a. pose proof sim_check_loop. auto with sim. Qed.

(** The agent sees no difference between servers that answer alike. *)
Lemma sim_agent : sim (agent_main post1 clock show_duration) (agent_main post2 clock show_duration).
Proof.
  pose proof sim_rapid. pose proof sim_async. pose proof sim_stall. pose proof sim_persistence. pose proof sim_print.
  unfold agent_main, run_tests, first_tests. apply sim_bind; [auto with sim|intros _]. apply sim_bind; [|auto].
  apply sim_bind; [auto 12 with sim|auto 12 with sim].
Qed.

End Simulation.
