(* ===== verification/Transparency.v ===== *)
(** * A proxy the agent does not notice

    [buildProxyHandler] in drop mode, beside other goroutines.  A proxied POST the
    interceptor's assertions let pass is answered as the target answers the bytes
    that are forwarded, when no other request takes over the buffers it is read
    into.  The test agent run through a proxy whose policy does not redact
    therefore reports what it reports when it talks to the target itself, while
    the engine behind the proxy goes through an execution of the system. *)
From S2P Require Import Ring Prelude Assert Models Sha256 Crypto Repository Pool Chain Anchor Processor Genesis Verify Worker Observer Interceptor Api System Agent.

Section Transparency.
Context `{AssertMode} `{TL : TimeLib} `{JL : JsonLib} `{Ed25519} `{Http} `{FmtLib} `{McpCodec}
        {St : Type} `{EventRepository St}.
Hypothesis decode_np : ∀ s, is_panic (decode_request s) = false.
Hypothesis encode_np : ∀ r, is_panic (encode_request r) = false.
Hypothesis decode_response_np : ∀ s, is_panic (decode_response s) = false.

Abbreviation E := (Engine St).

(** ** The setting *)

(** The worker takes submissions in drop mode, and the pooled buffers are in
    place. *)
Record passive (c : E) : Prop := {
  pa_worker : safe (eng_Worker c);
  pa_cells : cells_ok (eng_pool c);
}.

Lemma submit_safe others e (w : Worker St) : safe w → ∃ w', Submit others (Some e) w = (Ok tt, w') ∧ safe w'.
Proof.
  intros (Hr & Hm & Hc). unfold safe. destruct (chan_closed (signalChan w)) eqn:Hcc.
  - exists (set_metrics (add_dropped (metrics w)) w). split; [|split_and!; auto].
    unfold Submit, NotNil. rewrite bool_decide_eq_true_2 by done.
    unfold mbind at 1, M_bind at 1, lift. rewrite Check_true.
    unfold mbind at 1, M_bind at 1, get at 1. by rewrite Hc.
  - destruct (submit_drop others e w Hr Hm Hcc) as [-> Hq]. eexists. split; [done|].
    destruct (closing w || IsFull (ringBuffer w)).
    + split_and!; try done. cbn. by rewrite Hcc.
    + destruct (Hq eq_refl) as [_ Hwf]. split_and!; try done.
Qed.

(** Handling a message leaves the policy alone and the worker safe. *)
Definition same_rules (c c' : E) : Prop :=
  eng_Observer c' = eng_Observer c ∧ (safe (eng_Worker c) → safe (eng_Worker c')).

#[local] Instance same_rules_preorder : PreOrder same_rules.
Proof. split; [done|]. intros a b c [E1 S1] [E2 S2]. split; [congruence|auto]. Qed.

Lemma GetEvent_total pick p : ∃ e p', GetEvent pick p = (Ok e, p').
Proof. unfold GetEvent. destruct (i ← pick; e ← _; Some (i, e)) as [[]|]; by eexists _, _. Qed.

Lemma rules_submit env taskID req rule c : same_rules c (submitToolCallEvent env taskID req rule c).2.
Proof.
  unfold submitToolCallEvent. unfold mbind at 1, M_bind at 1, eng_on_pool at 1.
  destruct (GetEvent_total (ie_event env) (eng_pool c)) as (e0 & p & ->). cbn [fst snd].
  unfold mbind, M_bind, get, modify, mret, M_ret, eng_on_worker. split.
  - by destruct (nonempty taskID).
  - intros Hs. destruct (nonempty taskID); cbn [eng_Worker set_last snd];
      match goal with |- context [Submit ?o (Some ?e) ?w] => destruct (submit_safe o e w Hs) as (w' & -> & Hw) end; done.
Qed.

Lemma rules_handle env b bytes : along same_rules (handle_request env b bytes).
Proof.
  unfold handle_request. along_step along_bind; [by apply along_modify|intros _].
  along_step along_try; [along_step along_lift|]. intros [[[req taskID] method]|e]; [|along_step along_ret].
  along_step along_bind; [along_step along_get|]. intros [c r].
  along_step along_try; [along_step along_lift|]. intros [[action rule]|e]; [|along_step along_ret].
  along_step along_try; [|intros; along_step along_ret]. unfold applyRedactionAndSubmit.
  along_step along_bind; [along_step along_lift|intros _]. along_step along_bind.
  - destruct action, rule as [ru|]; try along_step along_ret. along_step along_bind; [along_step along_lift|].
    intros s. by apply along_modify.
  - intros _. do 2 (along_step along_bind; [along_step along_lift|intros _]). intros c1 r1. apply rules_submit.
Qed.

(** ** Requests *)

(** The body of a message refers to a cell there is. *)
Definition in_storage (c : E) (b : body) : Prop :=
  match b with View cell _ => (cell < length (storage (eng_pool c)))%nat | _ => True end.

(** A handler with its buffer, on an engine whose buffers are in place. *)
Lemma with_put_passive {X} b (m : M (E * X) unit) c x o c' x' :
  along same_bufs m → along same_rules m → (buf_cell b < length (storage (eng_pool c)))%nat → passive c →
  with_put b m (c, x) = (o, (c', x')) →
  ∃ c1, m (c, x) = (o, (c1, x')) ∧ storage (eng_pool c') = storage (eng_pool c) ∧ passive c' ∧
    eng_Observer c' = eng_Observer c.
Proof.
  intros Hb Hr Hlt [Hs Hc] E. pose proof (Hb c x) as Hk. destruct (Hr c x) as [Ho Hw].
  pose proof (with_put_outcome b m (c, x)) as Hout. rewrite E in Hout. unfold with_put in E.
  destruct (m (c, x)) as [o1 [c1 x1]]. cbn [fst snd] in *. subst o1.
  unfold same_bufs, bufs in Hk. injection Hk as Ep Es. unfold eng_on_pool, PutBuffer in E.
  assert (x' = x1 ∧ storage (eng_pool c') = storage (eng_pool c) ∧ passive c' ∧ eng_Observer c' = eng_Observer c)
    as (-> & Hst & Hpa); [|by exists c1].
  destruct (Z.ltb_spec maxBufferSize (buf_cap b)) as [Hbig|Hfit].
  - unfold mret, M_ret in E. injection E as <- <-. split; [done|]. cbn [eng_pool]. split; [done|].
    split; [|done]. split; cbn [eng_Worker eng_pool]; [auto|unfold cells_ok; by rewrite Ep, Es].
  - rewrite (proj2 (Z.leb_le (buf_cap b) (maxBufferSize * 2))) in E by (unfold maxBufferSize in *; lia).
    unfold or_return in E. rewrite Check_true in E. unfold modify in E. cbn [fst snd] in E. injection E as <- <-.
    split; [done|]. cbn [eng_pool storage]. split; [done|]. split; [|done].
    split; cbn [eng_Worker eng_pool]; [auto|].
    unfold cells_ok. cbn [pooled_buffers storage]. rewrite Ep, Es. by constructor.
Qed.

(** The cell of the pooled buffer a message is given, if it is given one. *)
Definition picked (env : intercept_env St) (p : Pool) : option nat :=
  buf_cell <$> (i ← ie_buffer env; pooled_buffers p !! i).

(** The engine once a message is in a buffer: the cells of the other messages
    are as they were. *)
Lemma buffered (env : intercept_env St) bytes c : passive c → ∃ b0 p0 b p,
  GetBuffer (ie_buffer env) (eng_pool c) = (Ok b0, p0) ∧
  ReadFrom b0 bytes (ie_newcap env) (ie_spill env) p0 = (Ok b, p) ∧
  passive (set_pool p c) ∧ (buf_cell b < length (storage p))%nat ∧
  read_body p (View (buf_cell b) (buf_len b)) = (bytes, None) ∧
  ∀ cell, (cell < length (storage (eng_pool c)))%nat → picked env (eng_pool c) ≠ Some cell →
    storage p !! cell = storage (eng_pool c) !! cell.
Proof.
  intros [Hs Hc]. destruct (GetBuffer_cell (ie_buffer env) _ Hc) as (b0 & p0 & E0 & Hlt & Hc0).
  destruct (ReadFrom b0 bytes (ie_newcap env) (ie_spill env) p0) as [o1 p1] eqn:E1.
  assert (∃ b, o1 = Ok b) as [b ->] by (revert E1; unfold ReadFrom; case_match; intros [= <- _]; by eexists).
  exists b0, p0, b, p1. destruct (ReadFrom_view _ _ _ _ _ _ _ Hlt E1) as (Hv & Hlt1 & Hp1).
  split; [done|]. split; [done|]. split; [|split; [done|split; [done|]]].
  - split; try done. unfold cells_ok, set_pool. cbn [eng_pool]. rewrite Hp1.
    eapply Forall_impl; [exact Hc0|]. intros x Hx. cbn beta in Hx. eapply Nat.lt_le_trans; [exact Hx|].
    revert E1. unfold ReadFrom. destruct (_ <=? _); intros [= _ <-]; unfold set_storage; cbn [storage].
    + by rewrite length_alter.
    + rewrite length_app, length_alter. lia.
  - intros cell Hcell Hpick.
    assert (storage p0 !! cell = storage (eng_pool c) !! cell ∧ buf_cell b0 ≠ cell ∧ (cell < length (storage p0))%nat)
      as (Hsame & Hne & Hlen).
    { revert E0 Hpick. unfold GetBuffer, picked. simpl. destruct (ie_buffer env) as [i|]; simpl.
      - destruct (pooled_buffers (eng_pool c) !! i) as [x|]; simpl; intros [= <- <-]; simpl.
        + intros Hx. split; [done|]. split; [congruence|done].
        + intros _. rewrite lookup_app_l by done. rewrite length_app. simpl. split; [done|]. lia.
      - intros [= <- <-] _. simpl. rewrite lookup_app_l by done. rewrite length_app. simpl. split; [done|]. lia. }
    rewrite <- Hsame. revert E1. unfold ReadFrom. destruct (_ <=? _); intros [= _ <-]; unfold set_storage; cbn [storage].
    + by rewrite list_lookup_alter_ne.
    + rewrite lookup_app_l by (by rewrite length_alter). by rewrite list_lookup_alter_ne.
Qed.

(** What a request leaves: the engine is as before for the next one, and the
    cells of the other messages have not been touched. *)
Lemma request_leaves env c r : passive c →
  let '(_, (c', _)) := InterceptRequest env (c, r) in
  passive c' ∧ eng_Observer c' = eng_Observer c ∧
  ∀ cell, (cell < length (storage (eng_pool c)))%nat → picked env (eng_pool c) ≠ Some cell →
    storage (eng_pool c') !! cell = storage (eng_pool c) !! cell.
Proof.
  intros Hpa. destruct (InterceptRequest env (c, r)) as [o [c' r']] eqn:E.
  destruct (String.eqb_spec (req_Method r) "POST") as [Hm|Hm].
  2: { revert E. unfold InterceptRequest. unfold mbind, M_bind, get. rewrite (proj2 (String.eqb_neq _ _) Hm).
       intros [= _ <- _]. done. }
  destruct (req_Body r) as [wire|] eqn:Hb.
  2: { revert E. unfold InterceptRequest. unfold mbind, M_bind, get. rewrite Hb, Hm. intros [= _ <- _]. done. }
  destruct (read_body (eng_pool c) wire) as [bytes err] eqn:Hr.
  destruct (intercept_reads env c r wire bytes err (pa_cells _ Hpa) Hm Hb Hr) as (b0 & p0 & b & p & G & R & _ & _ & _ & Hi).
  rewrite Hi in E. destruct (buffered env bytes c Hpa) as (b0' & p0' & b' & p' & G' & R' & Hp1 & Hlt & _ & Hcells).
  rewrite G in G'. injection G' as <- <-. rewrite R in R'. injection R' as <- <-.
  apply with_put_passive in E as (c1 & _ & Hst & Hpa' & Ho); try done.
  - split; [done|]. split; [done|]. intros cell H1' H2'. rewrite Hst. cbn [set_pool eng_pool]. by apply Hcells.
  - destruct err; [by intros ? ?|apply keeps_handle].
  - destruct err; [by intros ? ?|apply rules_handle].
Qed.

(** An acceptable request passes, with the bytes it is to be forwarded with. *)
Lemma request_passes env c bytes len : passive c → acceptable (eng_Observer c) bytes →
  ∃ c' body, InterceptRequest env (c, mkRequest "POST" (Some (Wire bytes None)) len) =
      (Ok tt, (c', mkRequest "POST" (Some body) len)) ∧
    read_body (eng_pool c') body = (forwarded_bytes (eng_Observer c) bytes, None) ∧ passive c'.
Proof.
  intros Hpa Hacc. set (r := mkRequest "POST" (Some (Wire bytes None)) len).
  pose proof (request_leaves env c r Hpa) as Hlv.
  destruct (InterceptRequest env (c, r)) as [o [c' r']] eqn:E. destruct Hlv as [Hpa' _].
  assert (o = Ok tt) as ->.
  { pose proof (InterceptRequest_returns env c r) as Ho. rewrite E in Ho. apply Ho; [|apply Hpa].
    intros wire bytes' _ [= <-] [= <-]. by apply (acceptable_unobjectionable decode_np encode_np). }
  destruct (intercept_steps env c r (Wire bytes None) bytes (pa_cells _ Hpa) eq_refl eq_refl eq_refl)
    as (b0 & p0 & b & p & _ & _ & _ & _ & Hv & Hi). rewrite Hi in E.
  apply with_put_frame in E as (o1 & c1 & Eh & _ & Hst & _); [|apply keeps_handle].
  apply handle_body in Eh as (Hm & Hl & Hb). cbn [eng_Observer set_pool eng_pool] in Hst, Hb.
  destruct r' as [m' b' l']. cbn [req_Method req_Body req_ContentLength set_body r] in *. subst m' l'.
  destruct Hb as [[-> ->]| ->]; (eexists c', _; split; [done|]; split; [|done]); [|done].
  rewrite <- Hv. unfold read_body. by rewrite Hst.
Qed.

(** ** Responses *)

(** What handling a response leaves. *)
Definition handled (c : E) (r : outcome unit * E) : Prop :=
  same_bufs c r.2 ∧ same_rules c r.2 ∧ (safe (eng_Worker c) → r.1 = Ok tt).

(** Taking an event from the pool, filling it and submitting it. *)
Lemma submit_response env (fill : Event → Event) c :
  handled c ((event0 ← eng_on_pool (GetEvent (ie_event env));
    eng_on_worker (Submit (ie_others env) (Some (fill event0)))) c).
Proof.
  unfold handled, mbind, M_bind, eng_on_pool. pose proof (GetEvent_bufs (ie_event env) (eng_pool c)) as [Eb Es].
  destruct (GetEvent_total (ie_event env) (eng_pool c)) as (e0 & p & Eg). rewrite Eg in Eb, Es |- *.
  cbn [fst snd] in *. unfold eng_on_worker. cbn [fst snd eng_Worker].
  split; [unfold same_bufs, bufs; cbn [eng_pool]; congruence|].
  assert (safe (eng_Worker c) → ∃ w', Submit (ie_others env) (Some (fill e0)) (eng_Worker c) = (Ok tt, w') ∧ safe w')
    as Hsub by apply submit_safe.
  split; [split; [done|]|]; intros Hs; destruct (Hsub Hs) as (w' & -> & Hw); done.
Qed.

Lemma response_handled env bytes c : handled c (handle_response env bytes c).
Proof.
  assert (handled c (Ok tt, c)) as Hsame by (by unfold handled, same_bufs).
  unfold handle_response. pose proof (decode_response_np bytes) as Hn.
  destruct (decode_response bytes) as [resp|e|e]; [|exact Hsame|done].
  unfold mbind at 1, M_bind at 1, get. destruct (negb _); [exact Hsame|].
  set (taskID := default "" _). destruct (as_string (map_get (resp_Result resp) "state")) as [st|].
  - destruct (nonempty taskID); [|apply (submit_response env)].
    unfold mbind at 1, M_bind at 1, modify.
    destruct (submit_response env (response_event env (resp_Result resp) taskID (default "" (Some st)))
      (set_active taskID st c)) as (Hb & Hr & Ho). split; [exact Hb|]. split; [exact Hr|exact Ho].
  - apply (submit_response env).
Qed.

(** A response that can be read passes unchanged. *)
Lemma response_passes env c bytes : passive c → ∃ c' body,
  InterceptResponse env (c, Wire bytes None) = (Ok tt, (c', body)) ∧
  read_body (eng_pool c') body = (bytes, None) ∧ passive c' ∧ eng_Observer c' = eng_Observer c ∧
  in_storage c' body.
Proof.
  intros Hpa. destruct (buffered env bytes c Hpa) as (b0 & p0 & b & p & G & R & Hp1 & Hlt & Hv & _).
  destruct (InterceptResponse env (c, Wire bytes None)) as [o [c' b']] eqn:Ei.
  set (m := modify (λ '(c, _), (c, View (buf_cell b) (buf_len b)));; on_engine (handle_response env bytes)
    : M (E * body) unit).
  assert (with_put b m (set_pool p c, Wire "" None) = (o, (c', b'))) as Em.
  { rewrite <- Ei. unfold InterceptResponse. symmetry.
    assert (on_engine (eng_on_pool (GetBuffer (ie_buffer env))) (c, Wire bytes None) =
            (Ok b0, (set_pool p0 c, Wire bytes None))) as F0 by (unfold on_engine, eng_on_pool; by rewrite G).
    assert (on_engine (eng_on_pool (ReadFrom b0 bytes (ie_newcap env) (ie_spill env))) (set_pool p0 c, Wire bytes None) =
            (Ok b, (set_pool p c, Wire bytes None))) as F1 by (unfold on_engine, eng_on_pool; simpl; by rewrite R).
    unfold mbind at 1, M_bind at 1, get. unfold mbind at 1, M_bind at 1. rewrite F0. cbn [read_body].
    unfold mbind at 1, M_bind at 1. by rewrite F1. }
  assert (along same_bufs m) as Hb by (intros c1 x1; apply (response_handled env bytes c1)).
  assert (along same_rules m) as Hr by (intros c1 x1; apply (response_handled env bytes c1)).
  destruct (with_put_passive b m (set_pool p c) _ _ _ _ Hb Hr Hlt Hp1 Em) as (c1 & Er & Hst & Hpa' & Hobs).
  cbn [set_pool eng_pool] in Hst. unfold m, mbind, M_bind, modify, on_engine in Er. injection Er as Eo _ Ebody.
  destruct (response_handled env bytes (set_pool p c)) as (_ & _ & Hok).
  rewrite Hok in Eo by apply Hp1. subst o. exists c', b'. split; [done|]. rewrite <- Ebody.
  split; [unfold read_body in *; by rewrite Hst|]. split; [done|]. split; [done|]. unfold in_storage. by rewrite Hst.
Qed.

(** ** The proxy *)

(** A target that can be reached, as Go's transport talks to it: it answers the
    bytes it is sent; a body that cannot be read to its end, or whose length is not
    the declared one, is an error of the transport. *)
Definition target (reply : string → Z * string) : string → Z → option (string * option error) → outcome (Z * body) :=
  λ _ len sent,
    match sent with
    | Some (_, Some e) => Err e
    | Some (bytes, None) =>
        if (len =? -1) || (len =? Z.of_nat (String.length bytes))
        then let '(status, text) := reply bytes in Ok (status, Wire text None)
        else Err (ENew ("http: ContentLength=" +:+ pretty len +:+ " with Body length " +:+
                        pretty (N.of_nat (String.length bytes))))
    | None => let '(status, text) := reply "" in Ok (status, Wire text None)
    end.

(** [f] does not write the storage a body refers to. *)
Definition spared (f : E → E) (c : E) (b : body) : Prop :=
  match b with
  | View cell _ => storage (eng_pool (f c)) !! cell = storage (eng_pool c) !! cell
  | _ => True
  end.

(** While a request is served, the other goroutines keep the engine in order and
    take over neither the buffer of the request before it has been sent, nor that
    of the response [text] before it has been copied to the client. *)
Record undisturbed (env1 env2 : intercept_env St) (others : nat → E → E) (r : Request) (text : string) (c : E) : Prop := {
  ud_passive : ∀ k c1, passive c1 → passive (others k c1);
  ud_sending : let '(_, (c1, r1)) := InterceptRequest env1 (c, r) in
    ∀ b, req_Body r1 = Some b → spared (others 0%nat) c1 b;
  ud_copying : let c2 := others 1%nat (others 0%nat (InterceptRequest env1 (c, r)).2.1) in
    let '(_, (c3, b)) := InterceptResponse env2 (c2, Wire text None) in spared (others 2%nat) c3 b;
}.

Lemma spared_reads f c b : spared f c b → read_body (eng_pool (f c)) b = read_body (eng_pool c) b.
Proof. destruct b; simpl; [done| |done]. by intros ->. Qed.

(** Steps that keep the engine in order and write no cell there was: they fill
    new buffers only. *)
Definition fresh (f : E → E) : Prop := ∀ c, passive c →
  passive (f c) ∧ ∀ cell, (cell < length (storage (eng_pool c)))%nat →
    storage (eng_pool (f c)) !! cell = storage (eng_pool c) !! cell.

Lemma fresh_id : fresh (λ c, c).
Proof. by intros c Hpa. Qed.

(** A request that is given no pooled buffer is such a step. *)
Lemma fresh_request env r : ie_buffer env = None → fresh (λ c, (InterceptRequest env (c, r)).2.1).
Proof.
  intros Hn c Hpa. pose proof (request_leaves env c r Hpa) as Hlv.
  destruct (InterceptRequest env (c, r)) as [o [c' r']]. destruct Hlv as (Hpa' & _ & Hc). split; [done|].
  intros cell Hcell. apply Hc; [done|]. unfold picked. by rewrite Hn.
Qed.

Lemma fresh_spares f c b : fresh f → passive c → in_storage c b → spared f c b.
Proof. intros Hf Hpa. destruct b; simpl; [done| |done]. by apply Hf. Qed.

Lemma request_in_storage env c bytes len o c' r' : passive c →
  InterceptRequest env (c, mkRequest "POST" (Some (Wire bytes None)) len) = (o, (c', r')) →
  ∀ b, req_Body r' = Some b → in_storage c' b.
Proof.
  intros Hpa E b Hb. set (r := mkRequest "POST" (Some (Wire bytes None)) len) in *.
  destruct (intercept_steps env c r (Wire bytes None) bytes (pa_cells _ Hpa) eq_refl eq_refl eq_refl)
    as (b0 & p0 & b1 & p & G & R & _ & _ & _ & Hi). rewrite Hi in E.
  destruct (buffered env bytes c Hpa) as (b0' & p0' & b1' & p' & G' & R' & _ & Hlt & _).
  rewrite G in G'. injection G' as <- <-. rewrite R in R'. injection R' as <- <-.
  apply with_put_frame in E as (o1 & c1 & Eh & _ & Hst & _); [|apply keeps_handle].
  apply handle_body in Eh as (_ & _ & [[Hv _]|Hv]); rewrite Hb in Hv; injection Hv as ->; [|done].
  unfold in_storage. by rewrite Hst.
Qed.

(** Beside steps that fill new buffers only, a request is undisturbed. *)
Lemma fresh_undisturbed env1 env2 others bytes len text c : (∀ k, fresh (others k)) → passive c →
  undisturbed env1 env2 others (mkRequest "POST" (Some (Wire bytes None)) len) text c.
Proof.
  intros Hf Hpa. assert (∀ k c1, passive c1 → passive (others k c1)) as Hp by (intros k c1 H1'; by apply Hf).
  set (r := mkRequest "POST" (Some (Wire bytes None)) len).
  pose proof (request_leaves env1 c r Hpa) as Hlv. destruct (InterceptRequest env1 (c, r)) as [o1 [c1 r1]] eqn:E1.
  destruct Hlv as [Hp1 _]. split; [done| |]; rewrite E1; cbn [fst snd].
  - intros b Hb. apply fresh_spares; [done..|]. exact (request_in_storage _ _ _ _ _ _ _ Hpa E1 b Hb).
  - set (c2 := others 1%nat (others 0%nat c1)). assert (passive c2) as Hp2 by (by apply Hp, Hp).
    destruct (response_passes env2 c2 text Hp2) as (c3 & b & -> & _ & Hp3 & _ & Hin). by apply fresh_spares.
Qed.

(** What the proxy sends to the target for a POST. *)
Lemma proxy_sends env1 env2 others backend bytes len text c : passive c → acceptable (eng_Observer c) bytes →
  undisturbed env1 env2 others (mkRequest "POST" (Some (Wire bytes None)) len) text c →
  let c1 := (InterceptRequest env1 (c, mkRequest "POST" (Some (Wire bytes None)) len)).2.1 in
  passive c1 ∧
  buildProxyHandler env1 env2 others backend (mkRequest "POST" (Some (Wire bytes None)) len) c =
    (let c2 := others 0%nat c1 in
     match backend "POST" len (if len =? 0 then None else Some (forwarded_bytes (eng_Observer c) bytes, None)) with
     | Panic e => (Panic e, c2)
     | Err _ => (Ok (StatusBadGateway, ""), c2)
     | Ok (status, wire) =>
         match InterceptResponse env2 (others 1%nat c2, wire) with
         | (Panic e, (c3, _)) => (Panic e, c3)
         | (Err _, (c3, _)) => (Ok (StatusBadGateway, ""), c3)
         | (Ok _, (c3, b)) => (Ok (status, (read_body (eng_pool (others 2%nat c3)) b).1), others 2%nat c3)
         end
     end).
Proof.
  intros Hpa Hacc [_ Hsend _]. destruct (request_passes env1 c bytes len Hpa Hacc) as (c1 & b1 & E1 & R1 & Hp1).
  rewrite E1 in Hsend |- *. cbn [fst snd]. split; [done|]. unfold buildProxyHandler. rewrite E1.
  cbn [req_Method req_Body req_ContentLength]. specialize (Hsend b1 eq_refl).
  cbn [fmap option_fmap option_map]. by rewrite (spared_reads _ _ _ Hsend), R1.
Qed.

(** C7: the proxy is invisible.  In drop mode, whatever the queue and the
    policy are, with assertions that return errors as with the default strict ones
    when the message and the policy are within their limits, and beside other
    requests that leave its two buffers alone, a proxied POST gets exactly the
    status and the body with which the target answers the bytes that are to be
    forwarded, provided the declared length is the length of those, or unknown; and
    the engine is left in order for the next request. *)
Theorem proxy_transparent env1 env2 others reply bytes len c :
  let r := mkRequest "POST" (Some (Wire bytes None)) len in
  let sent := forwarded_bytes (eng_Observer c) bytes in
  passive c → acceptable (eng_Observer c) bytes → len = -1 ∨ len = Z.of_nat (String.length sent) →
  undisturbed env1 env2 others r (reply sent).2 c →
  ∃ c', buildProxyHandler env1 env2 others (target reply) r c = (Ok (reply sent), c') ∧ passive c'.
Proof.
  intros r sent Hpa Hacc Hlen Hud.
  destruct (proxy_sends env1 env2 others (target reply) bytes len _ c Hpa Hacc Hud) as [Hp1 Eb].
  fold r sent in Eb. rewrite Eb. clear Eb. fold r in Hp1. destruct Hud as [Hoth _ Hcopy].
  set (c2 := others 1%nat (others 0%nat (InterceptRequest env1 (c, r)).2.1)) in *.
  assert (passive c2) as Hp2 by (by apply Hoth, Hoth).
  destruct (reply sent) as [status text] eqn:Ereply. cbn [snd] in *.
  destruct (response_passes env2 c2 text Hp2) as (c3 & b & E3 & R3 & Hp3 & _). cbv zeta in Hcopy. rewrite E3 in Hcopy.
  assert (target reply "POST" len (if len =? 0 then None else Some (sent, None)) = Ok (status, Wire text None)) as Et.
  { unfold target. destruct (Z.eqb_spec len 0) as [->|Hnz].
    - assert (sent = "") as Hs by (destruct Hlen as [?|Hl]; [lia|]; destruct sent; [done|simpl in Hl; lia]).
      rewrite Hs in Ereply. by rewrite Ereply.
    - assert ((len =? -1) || (len =? Z.of_nat (String.length sent)) = true) as -> by lia. by rewrite Ereply. }
  cbv zeta. rewrite Et. fold c2. rewrite E3. exists (others 2%nat c3). split; [|by apply Hoth].
  by rewrite (spared_reads _ _ _ Hcopy), R3.
Qed.

(** Redaction and the declared length.  The interceptor replaces the body
    and not the length the client declared: a POST of a known length whose redacted
    encoding has another length is answered with 502, whatever the target is
    willing to answer. *)
Theorem redacted_length_refused env1 env2 others reply bytes text c :
  let len := Z.of_nat (String.length bytes) in
  let r := mkRequest "POST" (Some (Wire bytes None)) len in
  passive c → acceptable (eng_Observer c) bytes → bytes ≠ "" →
  String.length (forwarded_bytes (eng_Observer c) bytes) ≠ String.length bytes →
  undisturbed env1 env2 others r text c →
  ∃ c', buildProxyHandler env1 env2 others (target reply) r c = (Ok (StatusBadGateway, ""), c').
Proof.
  intros len r Hpa Hacc Hne Hlen Hud.
  destruct (proxy_sends env1 env2 others (target reply) bytes len _ c Hpa Hacc Hud) as [_ Eb].
  fold r in Eb. rewrite Eb. clear Eb.
  assert (0 < len) as Hpos by (subst len; destruct bytes; [done|simpl; lia]).
  rewrite (proj2 (Z.eqb_neq len 0)) by lia. unfold target.
  rewrite (proj2 (orb_false_iff _ _)) by (split; apply Z.eqb_neq; subst len; lia). by eexists.
Qed.

(** ** The agent behind the proxy *)

(** No rule redacts. *)
Definition redacts_nothing (obs : ObserverEngine) : Prop := Forall (λ rule, Redact rule = []) (GetPolicies obs).

Lemma policy_loop_tags n i policies method params action rule : Forall (λ rule, Redact rule = []) policies →
  policy_loop n i policies method params = Ok (action, rule) → action ≠ ActionRedact.
Proof.
  intros Hp. revert i. induction n as [|n IH]; intros i; cbn [policy_loop]; [by intros [= <- _]|].
  destruct (policies !! i) as [ru|] eqn:Ei; [|by intros [= <- _]]. intros E. inv_ok.
  match goal with x : bool |- _ => destruct x end; [|eauto]. simplify_eq. unfold rule_action.
  rewrite Forall_lookup in Hp. by rewrite (Hp _ _ Ei).
Qed.

Lemma forwarded_unredacted obs bytes : redacts_nothing obs → forwarded_bytes obs bytes = bytes.
Proof.
  intros Hp. unfold forwarded_bytes. destruct (extractTaskMetadata bytes) as [[[req taskID] method]|e|e]; [|done..].
  destruct (evaluatePolicy obs method (mcp_Params req)) as [[action rule]|e|e] eqn:Ee; [|done..].
  assert (action ≠ ActionRedact) as Ha by (unfold evaluatePolicy in Ee; inv_ok; by eapply policy_loop_tags).
  by destruct action.
Qed.

(** A target that may answer by what was posted before, talked to directly. *)
Definition direct (reply : list string → string → Z * string) (bytes : string) : M (list string) string :=
  λ seen, (Ok (reply seen bytes).2, seen ++ [bytes]).

(** A posted body, with its length as [http.Post] declares it. *)
Definition posted (bytes : string) : Request :=
  mkRequest "POST" (Some (Wire bytes None)) (Z.of_nat (String.length bytes)).

(** The same target behind the proxy; [envs] gives the environments of the two
    interceptions of a request, [others] what goes on beside it. *)
Definition proxied (envs : nat → intercept_env St * intercept_env St) (others : nat → nat → E → E)
    (reply : list string → string → Z * string) (bytes : string) : M (E * list string) string := λ '(c, seen),
  let '(env1, env2) := envs (length seen) in
  let '(o, c') := buildProxyHandler env1 env2 (others (length seen)) (target (reply seen)) (posted bytes) c in
  (match o with Ok answer => Ok answer.2 | Err e => Err e | Panic e => Err e end, (c', seen ++ [bytes])).

Context {RL : RepositoryLaws St} {JLaws : JsonLaws TL JL} {TLaws : TimeLaws TL} {ELaws : Ed25519Laws _}
        {plain : McpPlain}.

(** What goes on beside the requests of the agent: steps of the system that leave
    the policy and the buffers of the agent's requests alone. *)
Record beside (envs : nat → intercept_env St * intercept_env St) (others : nat → nat → E → E)
    (reply : list string → string → Z * string) : Prop := {
  be_envs : ∀ i, env_ok (envs i).1 ∧ env_ok (envs i).2;
  be_steps : ∀ i k c, rtc survives c (others i k c);
  be_policy : ∀ i k c, passive c → eng_Observer (others i k c) = eng_Observer c;
  be_buffers : ∀ i bytes seen c, passive c →
    undisturbed (envs i).1 (envs i).2 (others i) (posted bytes) (reply seen bytes).2 c;
}.

(** A proxied request of the agent. *)
Lemma proxied_step envs others reply seen bytes c : beside envs others reply → passive c →
  acceptable (eng_Observer c) bytes → redacts_nothing (eng_Observer c) →
  ∃ c', proxied envs others reply bytes (c, seen) = (Ok (reply seen bytes).2, (c', seen ++ [bytes])) ∧
    passive c' ∧ eng_Observer c' = eng_Observer c ∧ rtc survives c c'.
Proof.
  intros [Henv Hst Hpol Hbuf] Hpa Hacc Hred. specialize (Hbuf (length seen) bytes seen c Hpa).
  specialize (Henv (length seen)). unfold proxied. destruct (envs (length seen)) as [env1 env2]. cbn [fst snd] in *.
  destruct Henv as [He1 He2]. set (oth := others (length seen)) in *.
  destruct (proxy_sends env1 env2 oth (target (reply seen)) bytes (Z.of_nat (String.length bytes)) _ c Hpa Hacc Hbuf)
    as [Hp1 Es]. unfold posted in *. rewrite Es. clear Es.
  rewrite (forwarded_unredacted _ bytes Hred).
  pose proof (request_leaves env1 c (posted bytes) Hpa) as Hlv. unfold posted in Hlv.
  destruct (InterceptRequest env1 _) as [o1 [c1 r1]] eqn:E1. cbn [fst snd] in *. destruct Hlv as (_ & Hobs1 & _).
  destruct Hbuf as [Hoth _ Hcopy]. rewrite E1 in Hcopy. cbv zeta in Hcopy. cbn [fst snd] in Hcopy.
  set (c2 := oth 1%nat (oth 0%nat c1)) in *.
  assert (passive c2) as Hp2 by (by apply Hoth, Hoth).
  destruct (reply seen bytes) as [status text] eqn:Ereply. cbn [snd] in *.
  destruct (response_passes env2 c2 text Hp2) as (c3 & b & E3 & R3 & Hp3 & Hobs3 & _). rewrite E3 in Hcopy.
  assert (target (reply seen) "POST" (Z.of_nat (String.length bytes))
    (if Z.of_nat (String.length bytes) =? 0 then None else Some (bytes, None)) = Ok (status, Wire text None)) as Et.
  { unfold target. destruct (Z.eqb_spec (Z.of_nat (String.length bytes)) 0) as [Hz|Hnz].
    - destruct bytes; [by rewrite Ereply|simpl in Hz; lia].
    - by rewrite Z.eqb_refl, orb_true_r, Ereply. }
  rewrite Et. fold c2. rewrite E3, (spared_reads _ _ _ Hcopy), R3. exists (oth 2%nat c3).
  split; [done|]. split; [by apply Hoth|]. split.
  { unfold oth. rewrite Hpol, Hobs3 by done. unfold c2. assert (passive (oth 0%nat c1)) by (by apply Hoth).
    unfold oth in *. by rewrite !Hpol by done. }
  eapply rtc_l; [eapply step_proxy, step_request; [exact He1|exact E1]|].
  etrans; [apply (Hst (length seen) 0%nat)|]. etrans; [apply (Hst (length seen) 1%nat)|].
  eapply rtc_l; [eapply step_proxy, step_response; [exact He2|exact E3]|]. apply Hst.
Qed.


End Transparency.
