(* ===== verification/Sample.v ===== *)
(** * Evaluation on concrete inputs

    The ledger core run on concrete data: an empty SQLite store, the
    executable codecs and signature scheme, a block explorer that answers, and
    strict assertions.  The theorems of [Processor], [Genesis], [Verify] and
    [Worker] are applied here at inputs where their hypotheses hold. *)
From S2P Require Import Ring Prelude Assert Models Sha256 Crypto Repository Store Pool Chain Anchor Processor Genesis Verify Worker.
#[local] Existing Instance sample_time.
#[local] Existing Instance sample_json.
#[local] Existing Instance sample_ed.
#[local] Existing Instance sample_time_laws.
#[local] Existing Instance sample_json_laws.
#[local] Existing Instance sample_jcs_laws.
#[local] Existing Instance sample_ed_laws.

#[local] Instance strict : AssertMode := {| StrictMode := true |}.

(** A block explorer with one block. *)
#[local] Instance explorer : Http := {|
  http_Get _ url := if String.eqb url tip_url then Ok (mkResponse 200 "840000" None)
                  else Ok (mkResponse 200 "0000abcd" None);
|}.

(** A run that ends normally is known by its outcome alone. *)
Lemma ok_run {A S} (x : outcome A * S) a : x.1 = Ok a → x = (Ok a, x.2).
Proof. destruct x as [o s]. by intros [= ->]. Qed.

Lemma ok_run2 {A S T} (x : outcome A * (S * T)) a : x.1 = Ok a → x = (Ok a, (x.2.1, x.2.2)).
Proof. destruct x as [o [s u]]. by intros [= ->]. Qed.

Lemma ok_run3 {A S T U} (x : outcome A * (S * T * U)) a :
  x.1 = Ok a → x = (Ok a, (x.2.1.1, x.2.1.2, x.2.2)).
Proof. destruct x as [o [[s u] v]]. by intros [= ->]. Qed.

Lemma nonempty_of_length {A} (l : list A) n : length l = S n → l ≠ [].
Proof. by intros Hl ->. Qed.

Definition sample_db : DB := mkDB [] [] 0 false [].
Definition sample_key : string := ed_NewKeyFromSeed "seed".
Definition sample_signer : Signer := mkSigner sample_key (ed_Public sample_key).
Definition sample_now : Time := mkTime 1700000000 5 3600.
Definition sample_genv : genesis_env := mkGenesisEnv None "run-1" "ev-0" sample_now sample_now.
Definition sample_cenv : completion_env := mkCompletionEnv None "c0ffee00-aaaa" sample_now.

(** A call of a task in some state. *)
Definition sample_call (id state : string) : Event :=
  mkEvent id "" 0 sample_now "" "tool_call" "aws:x" (Some {["a" := VUint64 5]}) None "t1" state
    "" "" "" "" "" "" false.

Definition sample_proc (tasks : gmap string string) : EventProcessor DB :=
  mkEventProcessor sample_db sample_signer "run-1" tasks.

Lemma sample_signer_ok : signer_ok sample_signer.
Proof. by exists "seed". Qed.

Lemma sample_db_ok : repo_ok sample_db.
Proof. intros r i e Hi. discriminate Hi. Qed.

Lemma sample_proc_ok tasks : proc_ok (sample_proc tasks).
Proof. split; [apply sample_signer_ok|apply sample_db_ok|apply chain_ok_nil]. Qed.

Lemma sample_call_ok id state : event_ok (sample_call id state).
Proof. split; [reflexivity|]. split; reflexivity. Qed.

Lemma empty_pool_clean : pool_clean empty_pool.
Proof. split; constructor. Qed.

Lemma sample_tasks_ok : tasks_ok {["t1" := "working"]}.
Proof. by apply map_Forall_singleton. Qed.

(** ** Processing *)

Definition done_result : outcome unit * (EventProcessor DB * option Event * Pool) :=
  ProcessEvent sample_cenv (sample_proc {["t1" := "working"]}, Some (sample_call "e1" "completed"), empty_pool).

(** The state after a task completed, and the events of its run. *)
Definition done_proc : EventProcessor DB := done_result.2.1.1.
Definition done_read : outcome (list Event) * DB := GetAllEvents "run-1" (db done_proc).
Definition done_events : list Event := match done_read.1 with Ok es => es | _ => [] end.

Lemma done_result_eq :
  ProcessEvent sample_cenv (sample_proc {["t1" := "working"]}, Some (sample_call "e1" "completed"), empty_pool) =
  (Ok tt, (done_proc, done_result.2.1.2, done_result.2.2)).
Proof. unfold done_proc, done_result; apply ok_run3. vm_compute. reflexivity. Qed.

Lemma ProcessEvent_chain_witness :
  proc_ok done_proc ∧ tasks_ok (taskStates done_proc).
Proof.
  destruct (ProcessEvent_chain (H := strict) sample_cenv (sample_proc {["t1" := "working"]})
    (sample_call "e1" "completed") empty_pool (Ok tt) done_proc done_result.2.1.2 done_result.2.2
    (sample_proc_ok _) sample_tasks_ok (sample_call_ok _ _) empty_pool_clean eq_refl done_result_eq)
    as (H1 & H2 & _). split; [exact H1|exact H2].
Defined.

Lemma ProcessEvent_log_witness :
  taskStates done_proc = ∅ ∧
  ∃ e1 c, TaskState c = "completed" ∧
    run_log (db done_proc) "run-1" = run_log sample_db "run-1" ++ [reread e1; reread c].
Proof.
  destruct (ProcessEvent_log (H := strict) sample_cenv (sample_proc {["t1" := "working"]})
    (sample_call "e1" "completed") empty_pool done_proc done_result.2.1.2 done_result.2.2
    eq_refl (sample_proc_ok _) (sample_call_ok _ _) empty_pool_clean eq_refl done_result_eq)
    as (H1 & e1 & _ & _ & _ & H2).
  split; [rewrite H1; vm_compute; reflexivity|]. destruct H2 as (c & _ & _ & Hs & Hl).
  exists e1, c. split; [exact Hs|exact Hl].
Defined.

Lemma done_proc_ok : proc_ok done_proc.
Proof.
  apply (process_chunk sample_cenv (sample_proc {["t1" := "working"]})
    (sample_call "e1" "completed") empty_pool (Ok tt) done_proc done_result.2.1.2 done_result.2.2
    (sample_proc_ok _) sample_tasks_ok (sample_call_ok _ _) empty_pool_clean eq_refl done_result_eq).
Qed.

Lemma read_ok (x : outcome (list Event) * DB) :
  is_ok x.1 = true → x = (Ok (match x.1 with Ok es => es | _ => [] end), x.2).
Proof. destruct x as [[es| |] s]; by try intros [=]. Qed.

Lemma done_events_eq : GetAllEvents "run-1" (db done_proc) = (Ok done_events, done_read.2).
Proof. unfold done_events, done_read; apply read_ok. vm_compute. reflexivity. Qed.

Lemma done_events_length : length done_events = 2%nat.
Proof. vm_compute. reflexivity. Qed.

(** ** Genesis *)

Definition genesis_result : outcome string * (DB * Pool) :=
  CreateGenesisBlock sample_signer "agent" sample_genv (sample_db, empty_pool).
Definition genesis_db : DB := genesis_result.2.1.
Definition genesis_read : outcome (list Event) * DB := GetAllEvents "run-1" genesis_db.
Definition genesis_events : list Event := match genesis_read.1 with Ok es => es | _ => [] end.

Lemma genesis_result_eq :
  CreateGenesisBlock sample_signer "agent" sample_genv (sample_db, empty_pool) =
  (Ok "run-1", (genesis_db, genesis_result.2.2)).
Proof. unfold genesis_db, genesis_result; apply ok_run2. vm_compute. reflexivity. Qed.

Lemma CreateGenesisBlock_spec_witness :
  chain_ok sample_signer (run_log genesis_db "run-1") ∧
  length (run_log genesis_db "run-1") = 1%nat.
Proof.
  destruct (CreateGenesisBlock_spec sample_signer "agent" sample_genv sample_db empty_pool (Ok "run-1")
    genesis_db genesis_result.2.2 sample_signer_ok sample_db_ok eq_refl empty_pool_clean eq_refl
    genesis_result_eq) as (_ & _ & _ & H1 & H2 & _).
  split; [exact H1|exact H2].
Defined.

(** ** Audit *)

Lemma VerifyChain_accepts_chain_witness :
  VerifyChain "run-1" sample_signer (db done_proc) =
    (Ok (mkVerificationResult true 2 "" 0), done_read.2).
Proof.
  assert (length (run_log (db done_proc) "run-1") = 2%nat) as Hl by (vm_compute; reflexivity).
  assert (run_log (db done_proc) "run-1" ≠ []) as Hne by exact (nonempty_of_length _ _ Hl).
  pose proof (VerifyChain_accepts_chain "run-1" sample_signer (db done_proc) done_read.2 done_events
    (po_repo _ done_proc_ok) ltac:(discriminate) Hne (po_chain _ done_proc_ok) done_events_eq) as E.
  rewrite Hl in E. exact E.
Defined.

Definition done_audit : outcome VerificationResult * DB :=
  VerifyChain "run-1" sample_signer (db done_proc).

Lemma done_verdict :
  VerifyChain "run-1" sample_signer (db done_proc) =
    (Ok (mkVerificationResult true 2 "" 0), done_audit.2).
Proof. unfold done_audit; apply ok_run. vm_compute. reflexivity. Qed.

Lemma VerifyChain_verdict_witness : audited sample_signer done_events.
Proof.
  destruct (VerifyChain_verdict "run-1" sample_signer (db done_proc) done_read.2 done_events
    (mkVerificationResult true 2 "" 0) done_audit.2 done_events_eq done_verdict) as (_ & H1 & _).
  exact H1.
Defined.

(** The store with its first event removed. *)
Definition beheaded_db : DB :=
  mkDB (db_runs (db done_proc)) (drop 1 (db_events (db done_proc))) 0 false [].
Definition beheaded_read : outcome (list Event) * DB := GetAllEvents "run-1" beheaded_db.

Lemma VerifyChain_segment_witness :
  VerifyChain "run-1" sample_signer beheaded_db =
    (Ok (mkVerificationResult true 1 "" 0), beheaded_read.2).
Proof.
  assert (GetAllEvents "run-1" beheaded_db = (Ok (take 1 (drop 1 done_events)), beheaded_read.2)) as E
    by (unfold beheaded_read; apply ok_run; vm_compute; reflexivity).
  assert (length (take 1 (drop 1 done_events)) = 1%nat) as Hl by (vm_compute; reflexivity).
  assert (take 1 (drop 1 done_events) ≠ []) as Hne by exact (nonempty_of_length _ _ Hl).
  pose proof (VerifyChain_segment "run-1" sample_signer (db done_proc) done_read.2 done_events
    done_audit.2 (mkVerificationResult true 2 "" 0) 1 1 beheaded_db beheaded_read.2 done_events_eq
    done_verdict eq_refl E Hne) as Hv.
  rewrite Hl in Hv. exact Hv.
Defined.

Definition genesis_audit : outcome AnchorVerificationResult * DB :=
  VerifyAnchors (λ _, 0) "run-1" sample_now genesis_db.

Lemma VerifyAnchors_verdict_witness :
  anchors_verdict sample_now [("0000abcd", 840000)] 0 (mkAnchorVerificationResult true 1 "").
Proof.
  assert (GetAllEvents "run-1" genesis_db = (Ok genesis_events, genesis_read.2)) as E
    by (unfold genesis_events, genesis_read; apply read_ok; vm_compute; reflexivity).
  assert (VerifyAnchors (λ _, 0) "run-1" sample_now genesis_db =
          (Ok (mkAnchorVerificationResult true 1 ""), genesis_audit.2)) as Hv
    by (unfold genesis_audit; apply ok_run; vm_compute; reflexivity).
  assert (omap (anchor_of (λ _, 0)) genesis_events = [("0000abcd", 840000)]) as Ha
    by (vm_compute; reflexivity).
  pose proof (VerifyAnchors_verdict (λ _, 0) "run-1" sample_now genesis_db genesis_read.2 genesis_events
    (mkAnchorVerificationResult true 1 "") genesis_audit.2 E Hv) as H.
  rewrite Ha in H. exact H.
Defined.

Lemma done_audited : audited sample_signer done_events.
Proof.
  destruct (verdict_spec "run-1" sample_signer (db done_proc) done_read.2 done_events
    (mkVerificationResult true 2 "" 0) done_audit.2 done_events_eq done_verdict) as (_ & _ & H1 & _).
  exact H1.
Qed.

Lemma audited_tamper_evident_witness :
  (∃ i a a', done_events !! i = Some a ∧ done_events !! i = Some a' ∧ collision a a') ∨
  ∀ i a a', done_events !! i = Some a → done_events !! i = Some a' → same_data a a'.
Proof.
  assert (Forall (λ e, json_plain (payload e) = true) done_events) as Hp.
  { apply Forall_forall. intros e He%list_elem_of_In.
    assert (forallb (λ e, json_plain (payload e)) done_events = true) as Hb by (vm_compute; reflexivity).
    exact (proj1 (forallb_forall _ _) Hb e He). }
  destruct (lookup_lt_is_Some_2 done_events 1) as [e He]; [rewrite done_events_length; lia|].
  apply (audited_tamper_evident sample_signer sample_signer done_events done_events 1 e e);
    [apply done_audited|apply done_audited|exact Hp|exact Hp|apply done_events_length
    |apply done_events_length| |exact He|exact He|reflexivity].
  intros a a' Ha Ha'. rewrite Ha in Ha'. injection Ha' as <-. reflexivity.
Defined.

(** ** The worker *)

Lemma zero_in_range : 0 ≤ 0 ≤ max_uint64.
Proof. unfold max_uint64. lia. Qed.

Definition sample_ring : Buffer event_ptr := mkBuffer [None; None] 2 1 1 0.

(** A started worker with one queued event. *)
Definition sample_worker (b : Buffer event_ptr) (mode : Z) : Worker DB :=
  mkWorker b (mkChan false false) false sample_db sample_signer "run-1" (Some ∅) mode false
    zero_metrics false.

Definition busy_ring : Buffer event_ptr := pushed sample_ring (Some (sample_call "e1" "working")).
Definition busy_worker : Worker DB := sample_worker busy_ring BackpressureDrop.

Definition sample_ticks (j : nat) : tick := mkTick sample_cenv 2000000.

Lemma sample_ring_wf : wf sample_ring.
Proof. split; unfold max_int; simpl; first [lia|reflexivity]. Qed.

Lemma busy_worker_ok : worker_ok busy_worker.
Proof.
  split.
  - apply pushed_wf; [apply sample_ring_wf|discriminate].
  - assert (queue busy_worker = [Some (sample_call "e1" "working")]) as -> by (vm_compute; reflexivity).
    constructor; [|constructor]. exists (sample_call "e1" "working"). split; [reflexivity|apply sample_call_ok].
  - by eexists.
  - apply sample_proc_ok.
  - intros t st Ht. discriminate Ht.
Qed.

Definition drain_result : outcome unit * (Worker DB * Pool) :=
  drainBuffer sample_ticks (busy_worker, empty_pool).

Lemma drain_result_eq : drainBuffer sample_ticks (busy_worker, empty_pool) =
  (Ok tt, (drain_result.2.1, drain_result.2.2)).
Proof. unfold drain_result; apply ok_run2. vm_compute. reflexivity. Qed.

Lemma drainBuffer_fifo_witness :
  worker_ok drain_result.2.1 ∧ queue drain_result.2.1 = [] ∧ Stats drain_result.2.1 = (1, 0).
Proof.
  destruct (drainBuffer_fifo sample_ticks busy_worker empty_pool (Ok tt) drain_result.2.1 drain_result.2.2
    zero_in_range busy_worker_ok empty_pool_clean (λ _, eq_refl) drain_result_eq)
    as (H1 & _ & es & chunks & _ & H2).
  split; [exact H1|]. split; [exact (H2 eq_refl)|vm_compute; reflexivity].
Defined.

Lemma Submit_drop_mode_witness :
  let w := sample_worker sample_ring BackpressureDrop in
  let e := sample_call "e1" "working" in
  Submit (λ _ w, w) (Some e) w =
    (Ok tt, set_signal (mkChan true false) (set_ring (pushed sample_ring (Some e)) w)) ∧
  contents None (pushed sample_ring (Some e)) = [Some e].
Proof.
  intros w e. destruct (Submit_drop_mode (λ _ w, w) e w sample_ring_wf eq_refl eq_refl) as [H1 H2].
  split; [exact H1|exact (proj1 (H2 eq_refl))].
Defined.

Definition full_ring : Buffer event_ptr := pushed busy_ring (Some (sample_call "e2" "working")).

Lemma Submit_block_timeout_witness :
  let r := Submit (λ _ w, w) (Some (sample_call "e3" "working")) (sample_worker full_ring BackpressureBlock) in
  Stats r.2 = (0, 1) ∧ BlockedSubmits r.2 = 1000.
Proof.
  intros r. subst r.
  rewrite (Submit_block_timeout (sample_call "e3" "working") (sample_worker full_ring BackpressureBlock)
    eq_refl eq_refl eq_refl zero_in_range).
  split; reflexivity.
Defined.

Lemma recordLatency_bucket_witness :
  ∃ i b, recordLatency 7000000 busy_worker =
      (Ok tt, set_metrics (add_latency i 7000000 zero_metrics) busy_worker) ∧
    latencyBucketUpperNs !! i = Some b ∧ 7000000 ≤ b.
Proof.
  destruct (recordLatency_bucket 7000000 busy_worker) as (i & b & H1 & H2 & H3 & _);
    [unfold max_int; lia|split; reflexivity|].
  exists i, b. split; [exact H1|split; [exact H2|exact H3]].
Defined.

(** A worker before its start, on an empty store. *)
Definition new_worker : Worker DB :=
  mkWorker sample_ring (mkChan false false) false sample_db sample_signer "" None BackpressureDrop false
    zero_metrics false.

Definition start_result : outcome unit * (Worker DB * Pool) := Start sample_genv (new_worker, empty_pool).

Lemma Start_ready_witness :
  is_ok start_result.1 = true ∧ worker_ok start_result.2.1 ∧
  length (run_log (w_db start_result.2.1) "run-1") = 1%nat.
Proof.
  assert (Start sample_genv (new_worker, empty_pool) = (Ok tt, (start_result.2.1, start_result.2.2))) as E
    by (unfold start_result; apply ok_run2; vm_compute; reflexivity).
  assert (startable new_worker) as Hs.
  { split; [apply sample_ring_wf|reflexivity|apply sample_signer_ok|apply sample_db_ok|].
    intros r. apply chain_ok_nil. }
  destruct (Start_ready sample_genv new_worker empty_pool start_result.2.1 start_result.2.2 Hs eq_refl
    empty_pool_clean eq_refl E) as (H1 & _).
  split; [vm_compute; reflexivity|]. split; [exact H1|vm_compute; reflexivity].
Defined.

Definition shutdown_result : outcome unit * (Worker DB * Pool) :=
  Shutdown 1000 (Some 3%nat) (λ st, st) (mret tt) sample_ticks (busy_worker, empty_pool).

Lemma Shutdown_flushes_witness :
  queue shutdown_result.2.1 = [] ∧
  chain_ok (w_signer shutdown_result.2.1) (run_log (w_db shutdown_result.2.1) (w_runID shutdown_result.2.1)).
Proof.
  assert (Shutdown 1000 (Some 3%nat) (λ st, st) (mret tt) sample_ticks (busy_worker, empty_pool) =
    (Ok tt, (shutdown_result.2.1, shutdown_result.2.2))) as E
    by (unfold shutdown_result; apply ok_run2; vm_compute; reflexivity).
  assert (worker_ok (close_channels (set_closing true busy_worker))) as Hw
    by (destruct busy_worker_ok; split; assumption).
  destruct (Shutdown_flushes 1000 (Some 3%nat) (λ st, st) (mret tt) sample_ticks busy_worker empty_pool
    (close_channels (set_closing true busy_worker)) empty_pool shutdown_result.2.1 shutdown_result.2.2
    eq_refl eq_refl eq_refl Hw empty_pool_clean zero_in_range
    (λ _, eq_refl) E) as (H1 & H2 & _).
  split; [exact H1|exact H2].
Defined.
