(* ===== verification/SampleSubmission.v ===== *)
(** * The concurrent model and the worker on concrete inputs

    The refinement of [SubmissionRefinement] applied to a new worker, a call of
    [Submit] on it and a batch of its background goroutine. *)
From S2P Require Import Submission Ring Prelude Assert Models Sha256 Crypto Repository Store Pool Chain Anchor Processor Genesis Worker SubmissionRefinement Sample.
#[local] Existing Instance sample_time.
#[local] Existing Instance sample_json.
#[local] Existing Instance sample_ed.
#[local] Existing Instance strict.
#[local] Existing Instance explorer.

(** Every event has the number seven. *)
Definition seven (p : event_ptr) : nat := 7%nat.

Definition idle_worker : Worker DB := sample_worker sample_ring BackpressureDrop.
Definition idle_state : sys := init 2 false.
Definition first_call : Event := sample_call "e1" "working".

Lemma idle_models : models seven idle_worker idle_state.
Proof. apply (models_init seven idle_worker sample_ring_wf); vm_compute; reflexivity. Qed.

(** The worker after one event was pushed and signalled, and the state of the
    model that describes it. *)
Definition signalled_worker : Worker DB := set_signal (mkChan true false) busy_worker.
Definition signalled_state : sys :=
  mkSys 2 false [7%nat] {[7%nat := SDone]} (LRecv 0) NotCalled false true [] [] [] 0.

Lemma signalled_models : models seven signalled_worker signalled_state.
Proof.
  assert (f_queue : seven <$> queue signalled_worker = [7%nat]) by (vm_compute; reflexivity).
  split; [apply pushed_wf; [apply sample_ring_wf|discriminate]|exact (eq_sym f_queue)|..];
    vm_compute; reflexivity.
Qed.

Definition signalled_batch : outcome unit * (Worker DB * Pool) :=
  processEvents 0 [(true, sample_ticks)] (signalled_worker, empty_pool).

Lemma signalled_batch_eq : processEvents 0 [(true, sample_ticks)] (signalled_worker, empty_pool) =
  (Ok tt, (signalled_batch.2.1, signalled_batch.2.2)).
Proof. unfold signalled_batch; apply ok_run2. vm_compute. reflexivity. Qed.

Lemma worker_refines_submission_witness :
  (∃ o w' s', Submit (λ _ w, w) (Some first_call) idle_worker = (o, w') ∧ rtc any_step idle_state s' ∧
    models seven w' s' ∧ sub s' !! 7%nat = Some SDone) ∧
  (∃ s', rtc any_step signalled_state s' ∧ models seven signalled_batch.2.1 s' ∧ loop s' = LRecv 1).
Proof.
  split.
  - destruct (worker_refines_submission seven idle_worker idle_state idle_models) as [H1 _].
    destruct (H1 first_call (λ _ w, w)) as (o & w' & s' & Hs & Hr & Hm & Hp).
    + intros i w s pc Hm Hs. exists s. split; [reflexivity|]. split; [exact Hm|exact Hs].
    + reflexivity.
    + exists o, w', s'. split; [exact Hs|]. split; [exact Hr|]. split; [exact Hm|].
      assert (is_panic (Submit (λ _ w, w) (Some first_call) idle_worker).1 = false) as Ho by (vm_compute; reflexivity).
      rewrite Hs in Ho. cbn [fst] in Ho. rewrite Ho in Hp. exact Hp.
  - destruct (worker_refines_submission seven signalled_worker signalled_state signalled_models) as [_ H2].
    assert (Ring.capacity (ringBuffer signalled_worker) ≤ maxDrainEvents) as Hc by (vm_compute; discriminate).
    exact (H2 0 sample_ticks empty_pool signalled_batch.2.1 signalled_batch.2.2 eq_refl eq_refl eq_refl Hc
      signalled_batch_eq).
Defined.
