(* ===== verification/SampleProxy.v ===== *)
(** * The policy engine and the interceptor on concrete inputs

    An executable codec for JSON-RPC messages, a small policy file, and the
    theorems of [Observer] and [Interceptor] applied where their hypotheses
    hold. *)
From S2P Require Import Ring Prelude Assert Models Sha256 Crypto Repository Store Pool Chain Anchor Processor Genesis Worker Observer Interceptor Sample.
#[local] Existing Instance sample_time.
#[local] Existing Instance sample_json.
#[local] Existing Instance sample_ed.

Lemma triple_eta {A B C} (x : A * (B * C)) : x = (x.1, (x.2.1, x.2.2)).
Proof. by destruct x as [? [? ?]]. Qed.

Definition lenient_mode : AssertMode := {| StrictMode := false |}.

(** Decimal integers only. *)
#[local] Instance sample_fmt : FmtLib := {|
  sprint_v v := match v with VString s => s | _ => "?" end;
  ParseFloat s := match digits s 0 with (z, EmptyString) => Some (float64_of_Z z) | _ => None end;
|}.

Definition request_value (r : MCPRequest) : value :=
  VObj (<["jsonrpc" := VString (JSONRPC r)]> (<["id" := mcp_ID r]>
    (<["method" := VString (mcp_Method r)]> {["params" := of_gomap (mcp_Params r)]}))).

(** Messages written as values. *)
#[local] Instance sample_codec : McpCodec := {|
  decode_request s :=
    match sample_parse s with
    | VObj m => Ok (mkMCPRequest (default "" (as_string (m !! "jsonrpc"))) (default VNil (m !! "id"))
                      (default "" (as_string (m !! "method")))
                      (match m !! "params" with Some (VObj p) => Some p | _ => None end))
    | _ => Err (ENew "invalid JSON")
    end;
  encode_request r := Ok (sample_text (request_value r));
  decode_response s := Err (ENew "invalid JSON");
|}.

Definition pay_rule : Rule :=
  mkRule "financial-ops" ["stripe:*"] "critical" ""
    [{["key" := "amount"; "operator" := "gt"; "value" := "1000"]}] ["card"].
Definition aws_rule : Rule := mkRule "infra" ["aws:*"] "high" "" [] [].

Definition sample_observer : ObserverEngine :=
  mkObserverEngine (mkConfig "2026.1" 90 true "metadata_only" [aws_rule; pay_rule]) "policy.yaml" false.

Definition pay_params : gmap string value :=
  {["amount" := VFloat64 (float64_of_Z 2000); "card" := VString "4242"; "task_id" := VString "t9"]}.
Definition pay_request : MCPRequest := mkMCPRequest "2.0" (VInt 1) "stripe:charge" (Some pay_params).
Definition pay_bytes : string := sample_text (request_value pay_request).

Lemma MatchPattern_spec_witness :
  let _ := strict in
  ∃ b, MatchPattern "aws:*" "aws:s3" = Ok b ∧ (b = true ↔ "aws:*" = "aws:s3" ∨
    ∃ prefix rest, "aws:*" = prefix +:+ "*" ∧ "aws:s3" = prefix +:+ rest).
Proof. intros m. apply (MatchPattern_spec "aws:*" "aws:s3"); discriminate. Defined.

Lemma sample_rules_ok : Forall rule_ok (GetPolicies sample_observer).
Proof.
  repeat constructor; unfold maxPatterns, maxConditions; simpl; try lia; discriminate.
Qed.

Lemma evaluatePolicy_first_match_witness :
  let _ := strict in
  evaluatePolicy sample_observer "stripe:charge" (Some pay_params) = Ok (ActionRedact, Some pay_rule).
Proof.
  intros m.
  rewrite (evaluatePolicy_first_match sample_observer "stripe:charge" pay_params);
    [vm_compute; reflexivity|discriminate|unfold maxPolicies; simpl; lia|exact sample_rules_ok].
Defined.

Definition pay_scrubbed : string :=
  sample_text (request_value (mkMCPRequest "2.0" (VInt 1) "stripe:charge"
    (Some (<["card" := VString "[REDACTED]"]> pay_params)))).

Lemma redactSensitiveData_spec_witness :
  let _ := strict in redactSensitiveData pay_bytes ["card"] = Ok pay_scrubbed.
Proof.
  intros m. apply (redactSensitiveData_spec pay_bytes ["card"] pay_scrubbed); [discriminate|].
  split; [discriminate|]. split; [unfold maxRedactKeys; simpl; lia|].
  exists (mkMCPRequest "2.0" (VInt 1) "stripe:charge" (Some pay_params)).
  split; [vm_compute; reflexivity|]. split; [vm_compute; discriminate|vm_compute; reflexivity].
Defined.

(** ** Requests *)

Definition sample_engine : Engine DB :=
  mkEngine (sample_worker sample_ring BackpressureDrop) ∅ sample_observer ∅ empty_pool.

Definition sample_ienv (pick : option nat) (uuid : string) : intercept_env DB :=
  mkInterceptEnv pick 8192 0 None uuid sample_now (λ _ w, w).

Definition post (bytes : string) : Request := 
  mkRequest "POST" (Some (Wire bytes None)) (Z.of_nat (String.length bytes)).

Lemma sample_cells_ok : cells_ok (eng_pool sample_engine).
Proof. constructor. Qed.

Lemma sample_has_room : has_room (eng_Worker sample_engine).
Proof. split; [apply sample_ring_wf|reflexivity..]. Qed.

Lemma redaction_not_recorded_witness :
  let _ := strict in
  let r := InterceptRequest (sample_ienv None "0123456789") (sample_engine, post pay_bytes) in
  is_ok r.1 = true ∧
  ∃ e, queue (eng_Worker r.2.1) = [Some e] ∧ Params e = Some pay_params ∧ PolicyID e = "financial-ops".
Proof.
  intros m r. split; [vm_compute; reflexivity|].
  assert (InterceptRequest (sample_ienv None "0123456789") (sample_engine, post pay_bytes) =
          (Ok tt, (r.2.1, r.2.2))) as E by (vm_compute; reflexivity).
  assert (extractTaskMetadata pay_bytes = Ok (pay_request, "t9", "stripe:charge")) as Hx
    by (vm_compute; reflexivity).
  assert (evaluatePolicy sample_observer "stripe:charge" (Some pay_params) = Ok (ActionRedact, Some pay_rule)) as Hp
    by (vm_compute; reflexivity).
  destruct (redaction_not_recorded (sample_ienv None "0123456789") sample_engine (post pay_bytes)
    (Wire pay_bytes None) pay_bytes pay_request "t9" "stripe:charge" pay_rule r.2.1 r.2.2
    sample_cells_ok empty_pool_clean sample_has_room eq_refl eq_refl eq_refl Hx Hp) as [_ (e & H1 & H2 & H3)];
    [vm_compute; reflexivity|exact E|].
  exists e. split; [exact H1|]. split; [exact H2|exact H3].
Defined.


(** Two requests the policy does not touch, of the same length. *)
Definition ping (x : string) : string :=
  sample_text (request_value (mkMCPRequest "2.0" (VInt 1) "fs:read" (Some {["path" := VString x]}))).

Lemma request_body_overwritten_witness :
  let _ := strict in
  let r1 := InterceptRequest (sample_ienv None "aaaaaaaaaa") (sample_engine, post (ping "secret-1")) in
  let r2 := InterceptRequest (sample_ienv (Some 0%nat) "bbbbbbbbbb") (r1.2.1, post (ping "secret-2")) in
  ∃ cell n, req_Body r1.2.2 = Some (View cell n) ∧
    read_body (eng_pool r1.2.1) (View cell n) = (ping "secret-1", None) ∧
    read_body (eng_pool r2.2.1) (View cell n) = (ping "secret-2", None).
Proof.
  intros m r1 r2. exists 0%nat, (String.length (ping "secret-1")).
  assert (req_Body r1.2.2 = Some (View 0 (String.length (ping "secret-1")))) as Hb by (vm_compute; reflexivity).
  split; [exact Hb|].
  apply (request_body_overwritten (sample_ienv None "aaaaaaaaaa") (sample_ienv (Some 0%nat) "bbbbbbbbbb")
    sample_engine (post (ping "secret-1")) (post (ping "secret-2")) (ping "secret-1") (ping "secret-2")
    r1.1 r1.2.1 r1.2.2 r2.1 r2.2.1 r2.2.2 0 (String.length (ping "secret-1")) _ _ sample_cells_ok eq_refl eq_refl);
    [vm_compute; reflexivity|apply Z.leb_le; vm_compute; reflexivity|reflexivity|reflexivity| |exact Hb|].
  - apply triple_eta.
  - apply triple_eta.
Defined.

Definition full_engine : Engine DB :=
  mkEngine (sample_worker full_ring BackpressureDrop) ∅ sample_observer ∅ empty_pool.

Lemma full_ring_wf : wf full_ring.
Proof. repeat (apply pushed_wf; [|discriminate]). apply sample_ring_wf. Qed.

Lemma dropped_call_is_parent_witness :
  let _ := strict in
  let r := submitToolCallEvent (sample_ienv None "0123456789") "t9" pay_request None full_engine in
  queue (eng_Worker r.2) = queue (eng_Worker full_engine) ∧ LastEventByTask r.2 !! "t9" = Some "01234567".
Proof.
  intros m r.
  destruct (dropped_call_is_parent (sample_ienv None "0123456789") "t9" pay_request None full_engine r.1 r.2)
    as (_ & H1 & _ & H2);
    [discriminate|apply empty_pool_clean|apply full_ring_wf|reflexivity|reflexivity|reflexivity| |].
  - subst r. destruct (submitToolCallEvent _ _ _ _ _). reflexivity.
  - split; [exact H1|exact H2].
Defined.

Lemma sample_decode_np s : is_panic (decode_request s) = false.
Proof. unfold decode_request, sample_codec. by destruct (sample_parse s). Qed.

Lemma sample_policy_fits : policy_fits sample_observer.
Proof.
  split.
  - apply Nat.leb_le. reflexivity.
  - exact sample_rules_ok.
  - repeat constructor; try discriminate; apply Nat.leb_le; reflexivity.
  - repeat constructor; apply Nat.leb_le; reflexivity.
Qed.

Lemma InterceptRequest_fail_open_witness :
  (InterceptRequest (H := lenient_mode) (sample_ienv None "0123456789") (sample_engine, post "garbage")).1 = Ok tt ∧
  (InterceptRequest (H := strict) (sample_ienv None "0123456789") (sample_engine, post pay_bytes)).1 = Ok tt.
Proof.
  assert (safe (eng_Worker sample_engine)) as Hs
    by (split; [apply sample_ring_wf|]; split; [reflexivity|discriminate]).
  split.
  - apply (InterceptRequest_fail_open (H := lenient_mode) sample_decode_np (λ _, eq_refl)); [|exact Hs].
    intros wire bytes _ _ _. by left.
  - apply (InterceptRequest_fail_open (H := strict) sample_decode_np (λ _, eq_refl)); [|exact Hs].
    intros wire bytes _ [= <-] [= <-]. right. split; [exact sample_policy_fits|]. split.
    + split; [apply Z.ltb_lt|apply Z.ltb_lt]; vm_compute; reflexivity.
    + intros req Hreq. assert (decode_request pay_bytes = Ok pay_request) as Hd by (vm_compute; reflexivity).
      rewrite Hd in Hreq. injection Hreq as <-. split; [discriminate|]. split; [reflexivity|].
      split; [by eexists|apply Z.leb_le; reflexivity].
Defined.

Definition old_request : MCPRequest := mkMCPRequest "1.0" (VInt 1) "fs:read" None.

Lemma strict_mode_blocks_witness :
  let _ := strict in
  is_panic (InterceptRequest (sample_ienv None "0123456789")
    (sample_engine, post (sample_text (request_value old_request)))).1 = true.
Proof.
  intros m. apply (strict_mode_blocks (H := strict) (sample_ienv None "0123456789") sample_engine
    (post (sample_text (request_value old_request))) (Wire (sample_text (request_value old_request)) None)
    (sample_text (request_value old_request)) old_request);
    [reflexivity|exact sample_cells_ok|reflexivity|reflexivity|reflexivity|vm_compute; reflexivity|discriminate].
Defined.

(** A policy file that breaks: the configuration in force stays. *)
#[local] Instance sample_yaml : YamlLib := {|
  yaml_Unmarshal s := if String.eqb s "good" then Ok (mkConfig "2" 1 true "" []) else Err (ENew "yaml");
|}.

Lemma Watch_keeps_config_witness :
  let _ := strict in
  let r := Watch 0 [Some (mkWatchTick (Ok 5) (Ok "broken")); None] 1 sample_observer in
  config r.2 = config sample_observer.
Proof.
  intros m r.
  destruct (Watch_keeps_config [Some (mkWatchTick (Ok 5) (Ok "broken")); None] 0 1 sample_observer r.1 r.2)
    as [_ [H1|(t & Ht & Hl)]].
  - reflexivity.
  - exact H1.
  - apply elem_of_cons in Ht as [[= ->]|Ht]; [discriminate Hl|].
    apply list_elem_of_singleton in Ht. discriminate Ht.
Defined.
