(* ===== verification/SampleCli.v ===== *)
(** * The log and the command line on concrete inputs

    A ledger with one run, the files and the task tree an operator would meet,
    and the theorems of [Logging], [Cli], [Trace] and [Analytics] applied
    where their hypotheses hold. *)
From S2P Require Import Ring Prelude Assert Models Logging Sha256 Crypto Repository Store Pool Chain Anchor Processor Genesis Verify Cli Trace Analytics Sample.
#[local] Existing Instance sample_time.
#[local] Existing Instance sample_json.
#[local] Existing Instance sample_ed.
#[local] Existing Instance sample_time_laws.
#[local] Existing Instance sample_json_laws.
#[local] Existing Instance sample_jcs_laws.
#[local] Existing Instance sample_ed_laws.
#[local] Existing Instance strict.
#[local] Existing Instance explorer.

(** ** Logging *)

#[local] Instance sample_log : LogLib := {|
  marshal_entry e := Ok (en_Level e +:+ " " +:+ en_Message e);
  strings_ToLower s := s;
  quote s := s;
  format_UTC t := "";
  log_header fl t := "2026/01/01 00:00:00 ";
|}.

Definition no_fields : Fields := mkFields "" "" "" "" "" "" "" "" "".

Definition sample_log_call (level msg : string) : log_call :=
  mkLogCall level (mkLogEnv "warn" sample_now sample_now) msg no_fields.

Lemma sample_log_call_ok level msg : level ∈ level_names → msg ≠ "" → (String.length msg ≤ 2048)%nat →
  call_ok (sample_log_call level msg).
Proof. intros Hl Hm Hs. by split. Qed.

Lemma log_calls_filtered_witness :
  (init_;; run_calls [sample_log_call "info" "hidden"; sample_log_call "error" "shown"]) new_logger =
    (Ok tt, mkLogger true levelWarn 0 ["error shown"]).
Proof.
  assert (Forall call_ok [sample_log_call "info" "hidden"; sample_log_call "error" "shown"]) as Hc.
  { repeat constructor; apply sample_log_call_ok; try discriminate; try (simpl; lia).
    - by apply list_elem_of_lookup_2 with (i := 1%nat).
    - by apply list_elem_of_lookup_2 with (i := 3%nat). }
  exact (log_calls_filtered (sample_log_call "info" "hidden") [sample_log_call "error" "shown"] Hc ltac:(simpl; lia)).
Defined.

(** ** Keys *)

Definition sample_files : files := {[keyPath := hex_EncodeToString sample_key]}.

Lemma sample_key_stored : key_stored keyPath sample_signer sample_files.
Proof. apply lookup_singleton_eq. Qed.

Lemma backup_restore_roundtrip_witness :
  let c1 := BackupKeyCommand "20260101T000000Z" None None (mkCli sample_files []) in
  let r := RotateKey keyPath (Ok "new") None (sample_signer, cli_files c1.2) in
  let c2 := RestoreKeyCommand (backup_path "20260101T000000Z") None None None (mkCli r.2.2 (cli_out c1.2)) in
  c2.1 = Ok tt ∧ NewSigner keyPath (Ok "other") None None (cli_files c2.2) = (Ok sample_signer, cli_files c2.2).
Proof.
  destruct (backup_restore_roundtrip "20260101T000000Z" sample_signer "new" sample_files []
    sample_signer_ok sample_key_stored ltac:(simpl; lia)) as (_ & _ & H1 & H2 & _).
  split; [exact H1|exact (H2 (Ok "other") None)].
Defined.

(** ** A ledger with one run *)

Definition cli_genv : genesis_env := mkGenesisEnv None "run-00000001" "event-000001" sample_now sample_now.
Definition cli_genesis : outcome string * (DB * Pool) :=
  CreateGenesisBlock sample_signer "agent" cli_genv (sample_db, empty_pool).
Definition cli_db : DB := cli_genesis.2.1.
Definition cli_run : outcome string * DB := SQLite.GetRunID cli_db.
Definition cli_read : outcome (list Event) * DB := GetAllEvents "run-00000001" cli_run.2.
Definition cli_events : list Event := match cli_read.1 with Ok es => es | _ => [] end.
Definition cli_audit : outcome VerificationResult * DB :=
  VerifyChain "run-00000001" sample_signer cli_run.2.

Lemma cli_genesis_eq :
  CreateGenesisBlock sample_signer "agent" cli_genv (sample_db, empty_pool) =
  (Ok "run-00000001", (cli_db, cli_genesis.2.2)).
Proof. unfold cli_db, cli_genesis; apply ok_run2. vm_compute. reflexivity. Qed.

Lemma cli_tables_ok : SQLite.tables_ok cli_db.
Proof.
  destruct (genesis_spec sample_signer "agent" cli_genv sample_db empty_pool (Ok "run-00000001")
    cli_db cli_genesis.2.2 sample_signer_ok sample_db_ok eq_refl empty_pool_clean eq_refl
    cli_genesis_eq) as (H1 & _). exact H1.
Qed.

Lemma cli_run_eq : SQLite.GetRunID cli_db = (Ok "run-00000001", cli_run.2).
Proof. unfold cli_run; apply ok_run. vm_compute. reflexivity. Qed.

Lemma cli_read_eq : GetAllEvents "run-00000001" cli_run.2 = (Ok cli_events, cli_read.2).
Proof. unfold cli_events, cli_read; apply read_ok. vm_compute. reflexivity. Qed.

Lemma cli_audited : audited sample_signer cli_events.
Proof.
  assert (VerifyChain "run-00000001" sample_signer cli_run.2 =
    (Ok (mkVerificationResult true 1 "" 0), cli_audit.2)) as Hv
    by (unfold cli_audit; apply ok_run; vm_compute; reflexivity).
  destruct (verdict_spec "run-00000001" sample_signer cli_run.2 cli_read.2 cli_events
    (mkVerificationResult true 1 "" 0) cli_audit.2 cli_read_eq Hv) as (_ & _ & H1 & _).
  exact H1.
Qed.

(** A database that opens; SQLite writes its file and its log, and removes the log
    when it is closed. *)
Definition cli_open : SQLite.open_env :=
  SQLite.mkOpenEnv None (Ok cli_db) None None None
    (λ suffix, Some ("SQLite format 3" +:+ suffix))
    (λ suffix, if String.eqb suffix "" then Some "SQLite format 3" else None).

Lemma cli_opens : SQLite.opens cli_open cli_db.
Proof. unfold SQLite.opens. split_and!; reflexivity. Qed.

Lemma VerifyCommand_exit_witness :
  (VerifyCommand true (λ _, 0) sample_now cli_open (Ok "x") None None (mkCli sample_files [])).1 = Ok tt.
Proof.
  apply (VerifyCommand_exit (λ _, 0) sample_now cli_open cli_db (Ok "x") None sample_signer (mkCli sample_files [])
    "run-00000001" cli_run.2 cli_events cli_read.2 cli_opens sample_signer_ok sample_key_stored cli_run_eq
    ltac:(simpl; lia) cli_read_eq).
  exact cli_audited.
Defined.

(** In an empty directory, and one other file. *)
Lemma VerifyCommand_replaces_key_witness :
  let fs' := cli_files (VerifyCommand true (λ _, 0) sample_now cli_open (Ok "new") None None
    (mkCli {["notes.txt" := "x"]} [])).2 in
  fs' !! keyPath = Some (hex_EncodeToString (ed_NewKeyFromSeed "new")) ∧
  fs' !! "notes.txt" = Some "x" ∧ fs' !! dbPath = Some "SQLite format 3".
Proof.
  intros fs'. assert (∃ e, loadPrivateKey None keyPath {["notes.txt" := "x"]} = Err e) as [e He]
    by (eexists; reflexivity).
  destruct (VerifyCommand_replaces_key true (λ _, 0) sample_now cli_open cli_db "new" None e
    (mkCli {["notes.txt" := "x"]} []) cli_opens He) as [H1 H2].
  split; [exact H1|]. split.
  - subst fs'. rewrite H2; [reflexivity|discriminate|]. apply (bool_decide_unpack _). vm_compute. exact I.
  - vm_compute. reflexivity.
Defined.

(** ** Listing and export *)

#[local] Instance sample_trace_fmt : TraceFmt := {|
  pad_right _ s := s;
  fmt_duration d := pretty d;
  fmt_map _ := "";
  fmt_RFC3339 _ := "";
  fmt_RFC1123 _ := "";
  fmt_clock _ := "";
|}.

#[local] Instance sample_stats_fmt : StatsFmt := {| pad_int _ z := pretty z; fmt_rate _ _ := "" |}.

Definition cli_recent : outcome (list Event) * DB := SQLite.GetRecentEvents "run-00000001" 5 cli_run.2.

Definition cli_shown : list Event := match cli_recent.1 with Ok es => es | _ => [] end.

Lemma cli_recent_eq : SQLite.GetRecentEvents "run-00000001" 5 cli_run.2 = (Ok cli_shown, cli_recent.2).
Proof. unfold cli_shown, cli_recent; apply read_ok. vm_compute. reflexivity. Qed.

Lemma EventsCommand_recent_witness :
  EventsCommand 5 cli_open (mkCli ∅ []) =
    (Ok tt, mkCli {[dbPath := "SQLite format 3"]} [Out "Recent Events (showing 1)"; Out "===========================";
                     Out "[0] event-00 | genesis | logryph:init"]).
Proof.
  assert (Forall (λ x, (8 ≤ String.length (r_id x))%nat)
    (SQLite.of_run "run-00000001" (db_events cli_db))) as Hids.
  { apply Forall_forall. intros x Hx%list_elem_of_In. apply Nat.leb_le.
    assert (forallb (λ x, (8 <=? String.length (r_id x))%nat)
      (SQLite.of_run "run-00000001" (db_events cli_db)) = true) as Hb by (vm_compute; reflexivity).
    exact (proj1 (forallb_forall _ _) Hb x Hx). }
  assert (0 < 5 ≤ maxRecentEvents) as Hlim by (unfold maxRecentEvents; lia).
  assert ("run-00000001" ≠ "") as Hr by discriminate.
  pose proof (EventsCommand_recent (H := strict) 5 cli_open cli_db (mkCli ∅ []) "run-00000001" cli_run.2 cli_shown
    cli_recent.2 cli_opens eq_refl cli_tables_ok Hlim cli_run_eq Hr cli_recent_eq Hids) as Hev.
  cbv zeta in Hev.
  rewrite Hev. vm_compute. reflexivity.
Defined.

Definition sample_export : export_env :=
  mkExportEnv (λ m, Ok (em_LastHash m)) (λ l, String.concat "|" (snd <$> l)) sample_now
    None None None None None None None None.

Definition export_result : outcome unit * Cli :=
  ExportEvidenceBag sample_export "bag.zip" "" cli_open (mkCli ∅ []).

Lemma export_result_eq :
  ExportEvidenceBag sample_export "bag.zip" "" cli_open (mkCli ∅ []) = (Ok tt, export_result.2).
Proof. unfold export_result; apply ok_run. vm_compute. reflexivity. Qed.

Lemma cli_runs_eq : run_id <$> db_runs cli_db = ["run-00000001"].
Proof. vm_compute. reflexivity. Qed.

Lemma only_run (d : DB) r run : run_id <$> db_runs d = [r] → exported_run "" d run → run = r.
Proof.
  intros Hr (row & Hrow & <- & _). apply (list_elem_of_fmap_2 run_id) in Hrow. rewrite Hr in Hrow.
  by apply list_elem_of_singleton in Hrow.
Qed.

Lemma ExportEvidenceBag_bag_witness :
  ∃ man text, em_RunID man = "run-00000001" ∧ TotalEvents (em_RunStats man) = 1 ∧
    cli_files export_result.2 !! "bag.zip" =
      Some (ee_zip sample_export [("manifest.json", text); (dbPath, "SQLite format 3")]).
Proof.
  assert ("bag.zip" ∉ SQLite.db_paths dbPath) as Hz by (apply (bool_decide_unpack _); vm_compute; exact I).
  destruct (ExportEvidenceBag_bag sample_export "bag.zip" "" cli_open cli_db (mkCli ∅ []) export_result.2
    cli_opens cli_tables_ok Hz export_result_eq)
    as (man & text & content & _ & H1 & H2 & _ & H3 & _ & H4 & _).
  exists man, text.
  pose proof (only_run cli_db _ _ cli_runs_eq H2) as Hrun.
  split; [exact Hrun|]. split.
  - rewrite H3, Hrun. vm_compute. reflexivity.
  - rewrite H4. assert (cli_files (opened_cli cli_open (mkCli ∅ [])) !! dbPath = Some "SQLite format 3") as Hd
      by (vm_compute; reflexivity).
    rewrite Hd in H1. injection H1 as <-. reflexivity.
Defined.

(** ** A task with an orphan *)

Definition node (id parent : string) : Event :=
  mkEvent id "" 0 sample_now "" "tool_call" "m" None None "t1" "" parent "" "" "" "" "" false.

Definition tree_events : list Event :=
  [node "root-1" ""; node "call-1" "root-1"; node "call-2" "call-1"; node "call-3" "root-1";
   node "orphan" "gone-1"].

Lemma few_kids p : Z.of_nat (length (kids tree_events p)) ≤ maxChildren.
Proof.
  assert (length (kids tree_events p) ≤ length tree_events)%nat as Hl by apply length_filter.
  change (length tree_events) with 5%nat in Hl. unfold maxChildren. lia.
Qed.

Lemma printTraceTree_preorder_witness :
  ∃ m out, buildTree tree_events = Ok (kids tree_events "", m) ∧
    (printTraceTree (kids tree_events "") m sample_now (mkCli ∅ [])).1 = Ok tt ∧
    NoDup (fr_node <$> out) ∧ (∀ e, e ∈ fr_node <$> out ↔ reachable tree_events e).
Proof.
  assert (NoDup (ID <$> tree_events)) as Hn by (apply (bool_decide_unpack _); vm_compute; exact I).
  assert (Forall (λ e, (6 ≤ String.length (ID e))%nat) tree_events) as Hi
    by (repeat constructor; simpl; lia).
  assert (Z.of_nat (length tree_events) ≤ maxEvents) as Hl by (apply Z.leb_le; vm_compute; reflexivity).
  destruct (printTraceTree_preorder tree_events Hn Hl Hi few_kids
    sample_now (mkCli ∅ [])) as (m & out & H1 & H2 & _ & H3 & H4).
  exists m, out. split; [exact H1|]. split; [rewrite H2; reflexivity|]. split; [exact H3|exact H4].
Defined.
