(* ===== verification/SampleSystem.v ===== *)
(** * The running system on concrete inputs

    An engine that proxies one request, and the admin server beside it: the
    theorems of [Api] and [System] applied where their hypotheses hold. *)
From S2P Require Import Ring Prelude Assert Models Sha256 Crypto Repository Store Pool Chain Anchor Processor Genesis Verify Worker Observer Interceptor Api System Sample SampleProxy.
#[local] Existing Instance sample_time.
#[local] Existing Instance sample_json.
#[local] Existing Instance sample_ed.
#[local] Existing Instance sample_time_laws.
#[local] Existing Instance sample_json_laws.
#[local] Existing Instance sample_jcs_laws.
#[local] Existing Instance sample_ed_laws.
#[local] Existing Instance strict.
#[local] Existing Instance explorer.
#[local] Existing Instance sample_fmt.
#[local] Existing Instance sample_yaml.

(** ** The admin server *)

#[local] Instance sample_api : ApiFmt := {|
  encode_metrics _ := Ok "{}";
  fmt_seconds ns := pretty ns;
|}.

Definition new_writer : ResponseWriter := mkWriter None "" "" [].

Lemma new_writer_unsent : unsent new_writer.
Proof. split; reflexivity. Qed.

(** A signed-in operator, and one without the token. *)
Definition rekey_request (token : string) : http_request := mkHttpRequest "POST" token.

Lemma HandleRekey_guarded_witness :
  ∃ c' fs' w', HandleRekey "s3cret" (Ok "new") None (rekey_request "") (sample_engine, ∅, new_writer) =
      (Ok tt, (c', fs', w')) ∧
    rw_status w' = Some StatusUnauthorized ∧ c' = sample_engine ∧ fs' = ∅.
Proof.
  destruct (HandleRekey_guarded "s3cret" (Ok "new") None (rekey_request "") sample_engine ∅ new_writer
    new_writer_unsent eq_refl) as (c' & fs' & w' & status & H1 & H2 & H3 & H4 & H5).
  exists c', fs', w'. rewrite H2, H3. split; [exact H1|]. split; [reflexivity|]. split; [exact H4|exact H5].
Defined.

Lemma HandlePrometheus_page_witness :
  ∃ m w', HandlePrometheus (CoreAt sample_engine) new_writer = (Ok tt, w') ∧
    text_of_lines (prometheus_page sample_engine m) = rw_body w'.
Proof.
  assert (histogram_ok (metrics (eng_Worker sample_engine))) as Hh by (split; vm_compute; reflexivity).
  destruct (HandlePrometheus_page sample_engine new_writer eq_refl ltac:(vm_compute; discriminate) Hh
    new_writer_unsent) as (m & w' & rest & _ & H1 & _ & _ & H2 & H3 & _).
  exists m, w'. split; [exact H1|]. rewrite H2, (H3 eq_refl). apply string_app_nil.
Defined.

(** ** A message codec that knows one request *)

Definition ping_request : MCPRequest := mkMCPRequest "2.0" (VInt 1) "fs:read" (Some {["path" := VString "x"]}).

#[local] Instance ping_codec : McpCodec := {|
  decode_request s := if String.eqb s "ping" then Ok ping_request else Err (ENew "invalid JSON");
  encode_request r := Ok "ping";
  decode_response s := Err (ENew "invalid JSON");
|}.

#[local] Instance ping_plain : McpPlain.
Proof.
  split.
  - intros bytes r. unfold decode_request, ping_codec. destruct (String.eqb bytes "ping"); [|discriminate].
    intros [= <-]. reflexivity.
  - intros bytes r. discriminate.
Qed.

Lemma sample_ienv_ok pick uuid : env_ok (sample_ienv pick uuid).
Proof. split; [reflexivity|]. intros i w. apply evolves_preorder. Qed.

(** ** A running engine *)

Definition busy_engine : Engine DB := mkEngine busy_worker ∅ sample_observer ∅ empty_pool.

Definition pinged (c : Engine DB) : outcome unit * (Engine DB * Request) :=
  InterceptRequest (sample_ienv None "0123456789") (c, post "ping").

Lemma pinged_survives c : survives c (pinged c).2.1.
Proof. eapply step_proxy, step_request; [apply (sample_ienv_ok None "0123456789")|apply triple_eta]. Qed.

Definition batch (c : Engine DB) : outcome unit * (Worker DB * Pool) :=
  processEvents 0 [(true, sample_ticks)] (eng_Worker c, eng_pool c).
Definition busy_end : Engine DB :=
  with_ledger (batch (pinged busy_engine).2.1).2.1 (batch (pinged busy_engine).2.1).2.2 (pinged busy_engine).2.1.

Lemma busy_engine_sound : engine_sound busy_engine.
Proof. split; [split; [exact busy_worker_ok|exact zero_in_range]|exact empty_pool_clean]. Qed.

Lemma system_crash_safe_witness :
  chain_ok sample_signer (run_log (w_db (eng_Worker busy_end)) "run-1") ∧
  length (run_log (w_db (eng_Worker busy_end)) "run-1") = 2%nat.
Proof.
  assert (rtc survives busy_engine (pinged busy_engine).2.1) as Hr
    by (apply rtc_once, pinged_survives).
  assert (sys_step (pinged busy_engine).2.1 (is_ok (batch (pinged busy_engine).2.1).1) busy_end) as Hs.
  { apply step_background, (step_batch _ [(true, sample_ticks)]); [|apply triple_eta].
    constructor; [|constructor]. intros j. reflexivity. }
  destruct (system_crash_safe busy_engine (pinged busy_engine).2.1 _ busy_end busy_engine_sound Hr Hs) as [H1 _].
  split; [exact H1|vm_compute; reflexivity].
Defined.

(** ** Rotation *)

Definition chained_engine : Engine DB := busy_end.
Definition rotated : outcome unit * (Engine DB * files * ResponseWriter) :=
  HandleRekey "s3cret" (Ok "new") None (rekey_request "s3cret") (chained_engine, ∅, new_writer).
Definition rotated_engine : Engine DB := rotated.2.1.1.
Definition rotated_read : outcome (list Event) * DB := GetAllEvents "run-1" (w_db (eng_Worker rotated_engine)).
Definition rotated_events : list Event := match rotated_read.1 with Ok es => es | _ => [] end.

Lemma chained_engine_ok : worker_ok (eng_Worker chained_engine).
Proof.
  destruct (survives_sound busy_engine (pinged busy_engine).2.1 busy_engine_sound
    (rtc_once _ _ (pinged_survives busy_engine))) as [Hc _].
  assert (sys_step (pinged busy_engine).2.1 (is_ok (batch (pinged busy_engine).2.1).1) busy_end) as Hs.
  { apply step_background, (step_batch _ [(true, sample_ticks)]); [|apply triple_eta].
    constructor; [|constructor]. intros j. reflexivity. }
  destruct (sys_step_sound _ _ _ Hc Hs) as [H1 _]. exact H1.
Qed.

Lemma rotated_eq : HandleRekey "s3cret" (Ok "new") None (rekey_request "s3cret") (chained_engine, ∅, new_writer) =
  (Ok tt, (rotated_engine, rotated.2.1.2, rotated.2.2)).
Proof. unfold rotated_engine, rotated; apply ok_run3. vm_compute. reflexivity. Qed.

Lemma rotated_read_eq : GetAllEvents "run-1" (w_db (eng_Worker rotated_engine)) = (Ok rotated_events, rotated_read.2).
Proof. unfold rotated_events, rotated_read; apply read_ok. vm_compute. reflexivity. Qed.

Lemma rotation_invalidates_witness :
  w_signer (eng_Worker rotated_engine) = keypair "new" ∧
  ∃ msg, VerifyChain "run-1" (keypair "new") (w_db (eng_Worker rotated_engine)) =
    (Ok (mkVerificationResult false 2 msg 0), rotated_read.2).
Proof.
  assert (w_runID (eng_Worker chained_engine) = "run-1") as Er by (vm_compute; reflexivity).
  assert (w_runID (eng_Worker chained_engine) ≠ "") as Hr by (rewrite Er; discriminate).
  assert (length rotated_events = 2%nat) as Hl by (vm_compute; reflexivity).
  assert (rw_status rotated.2.2 = Some StatusOK) as Hs by (vm_compute; reflexivity).
  destruct (run_log (w_db (eng_Worker chained_engine)) (w_runID (eng_Worker chained_engine))) as [|e rest] eqn:El.
  { exfalso. apply (f_equal length) in El. vm_compute in El. discriminate El. }
  assert (VerifySignature (keypair "new") (CurrentHash e) (Signature e) = false) as Hv.
  { assert (from_option (λ e, VerifySignature (keypair "new") (CurrentHash e) (Signature e))
      true (head (run_log (w_db (eng_Worker chained_engine)) (w_runID (eng_Worker chained_engine)))) = false) as Hb
      by (vm_compute; reflexivity).
    rewrite El in Hb. exact Hb. }
  pose proof rotated_read_eq as Hg. rewrite <- Er in Hg.
  destruct (rotation_invalidates "s3cret" "new" (rekey_request "s3cret") chained_engine ∅ new_writer
    rotated_engine rotated.2.1.2 rotated.2.2 e rest rotated_events rotated_read.2 chained_engine_ok
    new_writer_unsent Hr El rotated_eq Hs Hg) as (H1 & _ & _ & [[msg H2]|[_ H2]]);
    [|rewrite Hv in H2; discriminate H2].
  split; [exact H1|]. exists msg. rewrite Er, Hl in H2. exact H2.
Defined.
