(* ===== verification/SampleProcess.v ===== *)
(** * The process on concrete inputs

    A new installation that serves one request and is then stopped by a signal,
    and one whose admin server cannot listen: the theorems of [Process] applied
    where their hypotheses hold. *)
From S2P Require Import Ring Prelude Assert Models Sha256 Crypto Repository Store Pool Chain Anchor Processor Genesis Verify Worker Observer Interceptor Api System Process Sample SampleProxy SampleSystem.
#[local] Existing Instance sample_time.
#[local] Existing Instance sample_json.
#[local] Existing Instance sample_ed.
#[local] Existing Instance sample_time_laws.
#[local] Existing Instance sample_json_laws.
#[local] Existing Instance sample_ed_laws.
#[local] Existing Instance strict.
#[local] Existing Instance explorer.
#[local] Existing Instance sample_fmt.
#[local] Existing Instance sample_yaml.
#[local] Existing Instance sample_api.
#[local] Existing Instance ping_codec.
#[local] Existing Instance ping_plain.

(** ** A new installation *)

Definition sample_env : main_env :=
  mkMainEnv (Ok "/policy.yaml") (λ _, Ok "good") (Ok sample_db) (λ suffix, Some ("SQLite" +:+ suffix)) (Ok "seed")
    None None sample_genv None.
Definition sample_flags : flags_ := mkFlags "policy.yaml" "http://localhost:8080" 9999 "drop".

(** The database opened again after the shutdown closed it. *)
Definition reopen (d : DB) : DB := mkDB (db_runs d) (db_events d) 0 false [].

(** A table that holds one run, numbered from zero. *)
Definition one_run (run : string) (rows : list EventRow) : bool :=
  forallb (λ r, String.eqb (r_run_id r) run && nonempty (r_current_hash r)) rows &&
  bool_decide (r_seq_index <$> rows = Z.of_nat <$> seq 0 (length rows)).

Lemma one_run_tables_ok run db : one_run run (db_events db) = true → SQLite.tables_ok db.
Proof.
  intros [Hf Hs%bool_decide_eq_true]%andb_prop r. rewrite forallb_forall in Hf.
  assert (SQLite.of_run r (db_events db) = if String.eqb run r then db_events db else []) as ->.
  { clear Hs. unfold SQLite.of_run. induction (db_events db) as [|x rows IH]; [by destruct (String.eqb run r)|].
    assert (r_run_id x = run) as Ex by (by apply String.eqb_eq, (andb_prop _ _ (Hf x (or_introl eq_refl)))).
    cbn [List.filter]. rewrite Ex, IH by (intros; apply Hf; by right). by destruct (String.eqb run r). }
  destruct (String.eqb run r); [|by intros i x; rewrite lookup_nil]. intros i x Hx. split.
  - apply (f_equal (λ l, l !! i)) in Hs. rewrite !list_lookup_fmap, Hx in Hs.
    rewrite lookup_seq_lt in Hs by (by eapply lookup_lt_Some). by injection Hs.
  - apply nonempty_true. eapply (andb_prop _ _ (Hf x _)). Unshelve. by eapply list_elem_of_In, list_elem_of_lookup_2.
Qed.

Lemma reopen_log (d : DB) : run_log (reopen d) = run_log d.
Proof. reflexivity. Qed.

(** ** Schedules *)

(** No deadline passes. *)
Definition calm : choice (St := DB) := mkChoice false sample_ticks (mret tt).

Lemma calm_ok : choice_ok calm.
Proof. intros j. reflexivity. Qed.

Inductive action := DoMain | DoServe (i : which) (ev : net_event) | DoAccept (i : which) | DoClose (i : which)
                  | DoPing | DoBatch | DoExit | DoSignal (s : signal).

Definition actor_of (x : action) : actor :=
  match x with
  | DoMain => AMain
  | DoServe i _ => AServe i
  | DoAccept i => AAccept i
  | DoClose i => AClose i
  | DoPing => AHandler
  | DoBatch => ABackground
  | DoExit => AWorkerExit
  | DoSignal s => ASignal s
  end.

Definition act (x : action) (p : proc DB) : option (proc DB) :=
  if negb (running p) then None else
  match x with
  | DoMain => main_step calm p
  | DoServe i ev => serve_step i ev p
  | DoAccept i => accept_step i p
  | DoClose i => close_step i p
  | DoPing => if (srv_conns (p_proxy p) =? 0)%nat then None
              else Some (set_engine (pinged (p_engine p)).2.1 (p_files p) p)
  | DoBatch =>
      let r := batch (p_engine p) in
      if (p_workers p =? 0)%nat || negb (is_ok r.1) then None
      else Some (set_engine (with_ledger r.2.1 r.2.2 (p_engine p)) (p_files p) p)
  | DoExit => match p_workers p with O => None | S n => Some (set_workers n p) end
  | DoSignal s => Some (deliver s p)
  end.

Fixpoint schedule (xs : list action) (p : proc DB) : option (proc DB) :=
  match xs with
  | [] => Some p
  | x :: xs' => act x p ≫= schedule xs'
  end.

Lemma act_step x p p' : act x p = Some p' → pstep p (actor_of x) p'.
Proof.
  unfold act. destruct (running p) eqn:Er; [|done]. cbn [negb]. destruct x; cbn [actor_of]; intros E.
  - by eapply ps_main; [apply calm_ok|].
  - by eapply ps_serve.
  - by eapply ps_accept.
  - by eapply ps_close.
  - destruct (Nat.eqb_spec (srv_conns (p_proxy p)) 0); [done|]. injection E as <-. apply ps_handler; [done..|].
    eapply step_request; [apply (sample_ienv_ok None "0123456789")|apply triple_eta].
  - destruct (Nat.eqb_spec (p_workers p) 0); [done|]. destruct (is_ok (batch (p_engine p)).1) eqn:Eo; [|done].
    cbn [orb negb] in E. injection E as <-.
    apply (ps_background p true (with_ledger (batch (p_engine p)).2.1 (batch (p_engine p)).2.2 (p_engine p))); [done..|].
    rewrite <- Eo. apply (step_batch _ [(true, sample_ticks)]); [|apply triple_eta].
    constructor; [|constructor]. intros j. reflexivity.
  - destruct (p_workers p) as [|n] eqn:En; [done|]. injection E as <-. by apply ps_worker_exit.
  - injection E as <-. by apply ps_signal.
Qed.

Lemma exec_app (p0 p p' : proc DB) acts acts' : exec p0 acts p → exec p acts' p' → exec p0 (acts ++ acts') p'.
Proof.
  intros Hx. induction 1 as [|acts' p1 a p2 _ IH Hs]; [by rewrite app_nil_r|].
  rewrite app_assoc. by eapply exec_snoc.
Qed.

Lemma schedule_exec xs p p' : schedule xs p = Some p' → exec p (actor_of <$> xs) p'.
Proof.
  revert p. induction xs as [|x xs IH]; intros p E; [injection E as <-; constructor|].
  cbn [schedule] in E. destruct (act x p) as [p1|] eqn:Ea; [|done]. cbn [mbind option_bind] in E.
  apply (exec_app p p1 p' [actor_of x]); [|by apply IH].
  apply (exec_snoc p [] p); [constructor|by apply act_step].
Qed.

(** ** One request, then a signal *)

Definition boot_run : outcome (proc DB) * (files * Pool) := boot sample_flags sample_env (∅, empty_pool).
Definition no_proc : proc DB :=
  mkProc Crashed (mkServer "" false 0 GNone) (mkServer "" false 0 GNone) false None false busy_engine ∅ 0 false None.
Definition first_proc : proc DB := match boot_run.1 with Ok p => p | _ => no_proc end.

Lemma boot_run_eq : boot sample_flags sample_env (∅, empty_pool) =
  (Ok first_proc, (boot_run.2.1, boot_run.2.2)).
Proof.
  assert (is_ok boot_run.1 = true) as Ho by (vm_compute; reflexivity).
  unfold first_proc, boot_run in *. destruct (boot sample_flags sample_env (∅, empty_pool)) as [[c| |] [fs pl]].
  - reflexivity.
  - discriminate Ho.
  - discriminate Ho.
Qed.

(** Both servers start, the proxy server listens and serves one request. *)
Definition one_request : list action :=
  [DoMain; DoMain; DoServe Proxy NListens; DoAccept Proxy; DoPing; DoClose Proxy].

(** The shutdown: [main] up to its wait for the worker's goroutines, their last
    batch and their end, and the rest of [main]. *)
Definition shutdown_life : list action := replicate 7 DoMain ++ [DoBatch; DoExit; DoExit; DoMain; DoMain].

(** A signal, and what follows it. *)
Definition one_life : list action := one_request ++ DoMain :: DoSignal SIGTERM :: shutdown_life.

Definition last_proc : proc DB := default no_proc (schedule one_life first_proc).

Lemma last_proc_eq : schedule one_life first_proc = Some last_proc.
Proof.
  assert (is_Some (schedule one_life first_proc)) as [p Ep].
  { apply is_Some_alt. vm_compute. exact I. }
  unfold last_proc. rewrite Ep. reflexivity.
Qed.

Definition reopened : DB := reopen (w_db (eng_Worker (p_engine last_proc))).
Definition final_read : outcome (list Event) * DB :=
  GetAllEvents (w_runID (eng_Worker (p_engine last_proc))) reopened.
Definition final_events : list Event := match final_read.1 with Ok es => es | _ => [] end.

Lemma final_read_eq :
  GetAllEvents (w_runID (eng_Worker (p_engine last_proc))) reopened = (Ok final_events, final_read.2).
Proof. unfold final_events, final_read; apply read_ok. vm_compute. reflexivity. Qed.

Lemma reopened_ok : repo_ok reopened.
Proof. apply (one_run_tables_ok "run-1"). vm_compute. reflexivity. Qed.

Lemma no_rekey : AAdmin "/api/rekey" ∉ actor_of <$> one_life.
Proof.
  intros (x & Hx & _)%list_elem_of_fmap_1. destruct x; discriminate Hx.
Qed.


Lemma first_booted : booted first_proc.
Proof. apply (boot_inv _ _ _ _ _ _ _ boot_run_eq). Qed.

Lemma shutdown_quiesces_witness :
  (∀ i, srv_conns (server i last_proc) = 0%nat) ∧ (∀ p2, ¬ pstep last_proc AHandler p2).
Proof.
  assert (p_main last_proc = Returned) as Hm by (vm_compute; reflexivity).
  assert (p_late last_proc = false) as Hl by (vm_compute; reflexivity).
  destruct (shutdown_quiesces first_proc (actor_of <$> one_life) last_proc first_booted
    (schedule_exec _ _ _ last_proc_eq)) as [_ H1]; [rewrite Hm; do 4 apply list_elem_of_further; apply list_elem_of_here|].
  destruct (H1 Hl) as (H2 & H3 & _). split; [exact H2|exact H3].
Defined.

(** A process that has just been signalled. *)
Definition signalled_proc : proc DB := default no_proc (schedule (one_request ++ [DoMain; DoSignal SIGTERM]) first_proc).
Definition ended_proc : proc DB := default no_proc (schedule shutdown_life signalled_proc).

Lemma signal_stops_witness :
  (length (filter is_main (actor_of <$> shutdown_life)) + rank_of (p_main ended_proc) ≤ 9)%nat ∧
  running ended_proc = false.
Proof.
  assert (is_Some (p_sig signalled_proc)) as Hs by (apply is_Some_alt; vm_compute; exact I).
  assert (p_main signalled_proc = RecvSignal) as Hm by (vm_compute; reflexivity).
  assert (schedule shutdown_life signalled_proc = Some ended_proc) as He.
  { assert (is_Some (schedule shutdown_life signalled_proc)) as [p Ep] by (apply is_Some_alt; vm_compute; exact I).
    unfold ended_proc. rewrite Ep. reflexivity. }
  destruct (signal_stops signalled_proc (actor_of <$> shutdown_life) ended_proc (or_introl Hs)
    (schedule_exec _ _ _ He)) as ([H1 _] & _ & H2).
  rewrite Hm in H1. split; [exact H1|]. vm_compute. reflexivity.
Defined.

(** ** A server that cannot listen *)

Definition fatal_life : list action := one_request ++ [DoServe Admin (NFails (ENew "address already in use"))].
Definition fatal_proc : proc DB := default no_proc (schedule fatal_life first_proc).

(** A fatal error of a server loses events: an execution of this process in which a request was proxied and its event accepted, and then
    the admin server fails to listen.  [log.Fatalf] ends the process with the
    event still queued, the worker never shut down, and only the genesis event in
    the ledger. *)
Example fatal_exit_abandons :
  exec first_proc (actor_of <$> fatal_life) fatal_proc ∧
  p_main fatal_proc = Fatal "Admin API error: address already in use" ∧ p_stopped fatal_proc = None ∧
  length (queue (eng_Worker (p_engine fatal_proc))) = 1%nat ∧
  length (run_log (w_db (eng_Worker (p_engine fatal_proc))) "run-1") = 1%nat ∧
  (∀ a p, ¬ pstep fatal_proc a p).
Proof.
  assert (schedule fatal_life first_proc = Some fatal_proc) as He.
  { assert (is_Some (schedule fatal_life first_proc)) as [p Ep] by (apply is_Some_alt; vm_compute; exact I).
    unfold fatal_proc. rewrite Ep. reflexivity. }
  split; [by apply schedule_exec|]. do 4 (split; [vm_compute; reflexivity|]).
  intros a p Hs%pstep_running. assert (running fatal_proc = false) as Hr by (vm_compute; reflexivity). congruence.
Qed.
