(* ===== verification/SampleAgent.v ===== *)
(** * The test agent on concrete inputs

    The agent against a target of its own, through the proxy, and against a
    server that answers one of its calls only: the theorems of [Agent] and
    [Transparency] applied where their hypotheses hold. *)
From S2P Require Import Ring Prelude Assert Models Sha256 Crypto Repository Store Pool Chain Anchor Processor Genesis Verify Worker Observer Interceptor Api System Agent Transparency Sample SampleProxy SampleSystem.
#[local] Existing Instance sample_time.
#[local] Existing Instance sample_json.
#[local] Existing Instance sample_ed.
#[local] Existing Instance sample_time_laws.
#[local] Existing Instance sample_json_laws.
#[local] Existing Instance sample_ed_laws.
#[local] Existing Instance strict.
#[local] Existing Instance explorer.
#[local] Existing Instance sample_fmt.

(** Messages written as values, of the shapes of the protocol. *)
Definition read_request (v : value) : outcome MCPRequest :=
  match v with
  | VObj m =>
      if json_plain v then
        Ok (mkMCPRequest (default "" (as_string (m !! "jsonrpc"))) (default VNil (m !! "id"))
              (default "" (as_string (m !! "method")))
              (match m !! "params" with Some (VObj p) => Some p | _ => None end))
      else Err (ENew "invalid JSON")
  | _ => Err (ENew "invalid JSON")
  end.

Definition read_response (v : value) : outcome MCPResponse :=
  match v with
  | VObj m =>
      if json_plain v then
        Ok (mkMCPResponse (default "" (as_string (m !! "jsonrpc"))) (default VNil (m !! "id"))
              (match m !! "result" with Some (VObj p) => Some p | _ => None end)
              (match m !! "error" with Some (VObj p) => Some p | _ => None end))
      else Err (ENew "invalid JSON")
  | _ => Err (ENew "invalid JSON")
  end.

#[local] Instance agent_codec : McpCodec := {|
  decode_request s := read_request (sample_parse s);
  encode_request r := Ok (sample_text (request_value r));
  decode_response s := read_response (sample_parse s);
|}.

Lemma member_plain (m : gmap string value) k : json_plain (VObj m) = true →
  json_plain (of_gomap (match m !! k with Some (VObj p) => Some p | _ => None end)) = true.
Proof.
  intros Hm. destruct (m !! k) as [v|] eqn:Ek; [|done]. apply json_plain_obj in Hm.
  destruct (Hm k v Ek) as [_ Hv]. by destruct v.
Qed.

#[local] Instance agent_plain : McpPlain.
Proof.
  split; intros bytes r; cbn [decode_request decode_response agent_codec]; unfold read_request, read_response;
    destruct (sample_parse bytes) as [| | | | | | | | | |m]; try discriminate;
    (destruct (json_plain (VObj m)) eqn:Em; [|discriminate]); intros [= <-]; by apply member_plain.
Qed.

(** ** Through the proxy *)

Definition tag_observer : ObserverEngine :=
  mkObserverEngine (mkConfig "2026.1" 90 true "metadata_only" [aws_rule]) "policy.yaml" false.
Definition quiet_engine : Engine DB := mkEngine busy_worker ∅ tag_observer ∅ empty_pool.

(** A target that accepts everything and knows one task. *)
Definition helpful (seen : list string) (bytes : string) : Z * string :=
  (200, sample_text (VObj {["result" := VObj {["task_id" := VString "t1"; "state" := VString "working"]}]})).

Definition agent_envs (i : nat) : intercept_env DB * intercept_env DB :=
  (sample_ienv None "0123456789", sample_ienv None "9876543210").

Lemma agent_envs_ok i : env_ok (agent_envs i).1 ∧ env_ok (agent_envs i).2.
Proof. split; (split; [reflexivity|]); intros j w; apply evolves_preorder. Qed.

Definition steady (i : nat) : Z := Z.of_nat i * 1000.

Lemma quiet_engine_passive : passive quiet_engine.
Proof.
  split.
  - split; [apply pushed_wf; [apply sample_ring_wf|discriminate]|]. split; [reflexivity|]. intros [=].
  - constructor.
Qed.

Lemma agent_decode_np s : is_panic (decode_request s) = false ∧ is_panic (decode_response s) = false.
Proof.
  cbn [decode_request decode_response agent_codec]. unfold read_request, read_response.
  destruct (sample_parse s) as [| | | | | | | | | |m]; try (split; reflexivity).
  destruct (json_plain (VObj m)); split; reflexivity.
Qed.

Lemma tag_policy_fits : policy_fits tag_observer.
Proof.
  split.
  - apply Nat.leb_le. reflexivity.
  - repeat constructor; unfold maxPatterns, maxConditions; simpl; try lia; discriminate.
  - repeat constructor; try discriminate; apply Nat.leb_le; reflexivity.
  - repeat constructor; apply Nat.leb_le; reflexivity.
Qed.

(** Whether a message fits, computed. *)
Definition message_fits_b (bytes : string) : bool :=
  (0 <? Z.of_nat (String.length bytes)) && (Z.of_nat (String.length bytes) <? 1024 * 1024) &&
  match decode_request bytes with
  | Ok req => nonempty (mcp_Method req) && String.eqb (JSONRPC req) "2.0" &&
              bool_decide (is_Some (mcp_Params req)) && (map_len (mcp_Params req) <=? maxParams)
  | _ => true
  end.

Lemma message_fits_b_true bytes : message_fits_b bytes = true → message_fits bytes.
Proof.
  intros [[H1%Z.ltb_lt H2%Z.ltb_lt]%andb_true_iff H3]%andb_true_iff. split; [done|]. intros req Hreq.
  rewrite Hreq in H3. apply andb_true_iff in H3 as [H3 H6%Z.leb_le]. apply andb_true_iff in H3 as [H3 H5].
  apply andb_true_iff in H3 as [H3%nonempty_true H4%String.eqb_eq]. by apply bool_decide_eq_true_1 in H5.
Qed.

(** Another client's request, given a buffer of its own, before the body of each
    request of the agent is sent. *)
Definition other_request (c : Engine DB) : Engine DB :=
  (InterceptRequest (sample_ienv None "5555555555") (c, posted (ping "elsewhere"))).2.1.

Definition agent_others (i k : nat) : Engine DB → Engine DB :=
  match k with O => other_request | _ => λ c, c end.

Lemma agent_others_fresh i k : fresh (agent_others i k).
Proof. destruct k; [by apply fresh_request|apply fresh_id]. Qed.

Lemma agent_beside : beside agent_envs agent_others helpful.
Proof.
  split.
  - exact agent_envs_ok.
  - intros i [|k] c; [|apply rtc_refl]. apply rtc_once. unfold agent_others, other_request.
    destruct (InterceptRequest _ (c, _)) as [o [c' r']] eqn:E.
    apply step_proxy. eapply step_request; [|exact E]. apply (agent_envs_ok 0).
  - intros i [|k] c Hpa; [|reflexivity]. unfold agent_others, other_request.
    pose proof (request_leaves (sample_ienv None "5555555555") c (posted (ping "elsewhere")) Hpa) as Hlv.
    destruct (InterceptRequest _ (c, _)) as [o [c' r']]. apply Hlv.
  - intros i bytes seen c Hpa. apply (fresh_undisturbed (λ s, proj2 (agent_decode_np s))); [apply agent_others_fresh|exact Hpa].
Qed.

Lemma proxy_transparent_witness : ∃ c',
  buildProxyHandler (agent_envs 0).1 (agent_envs 0).2 (agent_others 0) (target (helpful [])) (posted pay_bytes)
    quiet_engine = (Ok (helpful [] pay_bytes), c') ∧ passive c'.
Proof.
  assert (forwarded_bytes (eng_Observer quiet_engine) pay_bytes = pay_bytes) as Hf by (vm_compute; reflexivity).
  pose proof (proxy_transparent (λ s, proj1 (agent_decode_np s)) (λ r, eq_refl) (λ s, proj2 (agent_decode_np s))
    (agent_envs 0).1 (agent_envs 0).2 (agent_others 0) (helpful []) pay_bytes (Z.of_nat (String.length pay_bytes))
    quiet_engine) as Ht.
  cbv zeta in Ht. rewrite Hf in Ht. apply Ht.
  - exact quiet_engine_passive.
  - right. split; [exact tag_policy_fits|]. apply message_fits_b_true. vm_compute. reflexivity.
  - by right.
  - apply (be_buffers _ _ _ agent_beside 0 pay_bytes []), quiet_engine_passive.
Defined.

Definition alone : outcome unit * (Agent * list string) := agent_main (direct helpful) steady pretty (new_agent, []).


(** ** A server that answers one call *)

(** It answers the call the policy should stall and no other. *)
Definition one_answer (bytes : string) : M () string := λ u,
  match json_Marshal (VObj stall_request) with
  | Ok s => if String.eqb bytes s then (Ok (sample_text (VObj ∅)), u) else (Err (ENew "connection refused"), u)
  | _ => (Err (ENew "connection refused"), u)
  end.

(** Nothing takes time before the twelfth reading of the clock. *)
Definition slow_end (i : nat) : Z := if (i <=? 10)%nat then 0 else 2 * agent_Second.

Definition failing_run : outcome unit * (Agent * ()) := agent_main one_answer slow_end pretty (new_agent, tt).

Lemma failing_run_eq : agent_main one_answer slow_end pretty (new_agent, tt) = (Ok tt, (failing_run.2.1, tt)).
Proof.
  assert (failing_run.1 = Ok tt) as Ho by (vm_compute; reflexivity). unfold failing_run in *.
  destruct (agent_main one_answer slow_end pretty (new_agent, tt)) as [o [a []]]. cbn [fst snd] in *. by subst o.
Qed.

Lemma suite_report_witness :
  let r := results failing_run.2.1 in
  TotalCalls r = SuccessfulCalls r + FailedCalls r ∧ 8 ≤ TotalCalls r ≤ 9.
Proof.
  destruct (suite_report one_answer slow_end pretty tt (Ok tt) failing_run.2.1 tt failing_run_eq) as [H1 H2].
  split; [exact H1|]. apply (H2 eq_refl).
Defined.

(** The verdict of the test agent does not depend on its tests.  There
    is a server that refuses every connection but that of the call the policy
    should stall, so that all five quick calls fail, no task is ever started and
    the last event is never received; the agent counts six failures and
    announces that all tests passed, the task tracking and the persistence of the
    worker included. *)
Theorem suite_passes_failing_server :
  agent_main one_answer slow_end pretty (new_agent, tt) = (Ok tt, (failing_run.2.1, tt)) ∧
  TotalCalls (results failing_run.2.1) = 8 ∧ FailedCalls (results failing_run.2.1) = 6 ∧
  (∀ line, line ∈ ["[PASS] Proxy forwards requests"; "[PASS] SEP-1686 task tracking";
                   "[PASS] Async worker persistence"; "ALL TESTS PASSED - Phase 1 is production-ready"] →
     line ∈ printed failing_run.2.1).
Proof.
  split; [exact failing_run_eq|]. split; [vm_compute; reflexivity|]. split; [vm_compute; reflexivity|].
  intros line Hl.
  assert (forallb (λ l, existsb (String.eqb l) (printed failing_run.2.1))
    ["[PASS] Proxy forwards requests"; "[PASS] SEP-1686 task tracking"; "[PASS] Async worker persistence";
     "ALL TESTS PASSED - Phase 1 is production-ready"] = true) as Hb by (vm_compute; reflexivity).
  rewrite forallb_forall in Hb. apply list_elem_of_In in Hl. specialize (Hb line Hl).
  apply existsb_exists in Hb as (x & Hx & ->%String.eqb_eq). by apply list_elem_of_In.
Qed.
